(* ===== verification/_CoqProject ===== *)
-Q . S2P
Prelude.v
Types.v
Common.v
Values.v
Assembler.v
Protocol.v
Epoch.v
Decision.v
App.v
AppOffsets.v
AppEpochs.v
AppSteps.v
Network.v
NetworkSetup.v
Coordinator.v
CoordinatorWatch.v
Cluster.v
ClusterInv.v
Restart.v
Gateway.v
GatewayHttp.v
Waits.v
WaitsSpec.v
Fiber.v
FiberTypes.v
FiberRuns.v
Runtime.v
RuntimeInv.v
Deployed.v
DeployedSpec.v
Fsm.v
FsmSpec.v
FsmInv.v
FsmServer.v
FsmHttp.v
Ir.v
IrRules.v
SampleIr.v
Codegen.v
CodegenStep.v
CodegenSpec.v
CodegenFrames.v
CodegenSample.v
Grammar.v
Peg.v
Parser.v
ParserTests.v
ParserSpec.v
ParserTrees.v
PegTrees.v
ProgramTrees.v
PegPrograms.v
System.v
SystemInv.v
SystemSpec.v
SystemLog.v
SystemLive.v
NodeTests.v
RuntimeTests.v
FsmTests.v
IrTests.v
SystemTests.v
CppIr.v
