(* ===== verification/Prelude.v ===== *)
(** * maroon: a verification development

    maroon is a distributed state machine. Gateways receive requests over HTTP, give each
    of them an identifier of a range of their own and broadcast them to the maroon nodes;
    the nodes exchange the transactions until a quorum holds them, commit intervals of
    identifiers as numbered epochs through etcd, and apply the epochs in the order etcd
    gives them; a deterministic runtime on every node executes the resulting log of
    requests, by interpreting a program that a code generator has compiled into a step
    function; and the results travel back to the gateways as notifications.

    ** Reading guide

    The files, bottom up. A name in brackets without a prefix is the definition with the
    name of the Rust item it models.

    - [Prelude]: outcomes of Rust code ([result]: a value, a panic, or fuel that ran out),
      machine integers under either cargo profile ([Profile]), arbitrary hash map orders
      ([HashOrder]), loops over lists ([for_each]) and their rules.
    - [Types]: types/src, key ranges and the identifiers composed of a range and an offset,
      and logical time. Theorems: the identifier of an offset and back; the closed
      interval of a range holds exactly its identifiers; iterating an interval visits each
      identifier once and ends; the last range cannot be used.
    - [Values], [Assembler]: generated/src/maroon_assembler.rs, the values and the step
      function of the sample program, one definition per function of the program.
    - [Fiber]: runtime/src/fiber.rs and trace.rs, the stack machine that runs the step
      function. [FiberTypes] types its stacks and shows that a well-typed fiber never runs
      into one of the panics reserved for a corrupted stack or a value of the wrong kind.
      [FiberRuns] computes with the recursive functions of the program: factorial is the
      factorial where it fits, the binary search is exactly its leftward half.
    - [Waits]: runtime/src/wait_registry.rs, a registry of fibers in which a fiber waits in
      several intrusive lists at once. [WaitsSpec] relates the linked lists in the slab to
      the sequence of waiting fibers, and proves every operation to implement its
      one-line description on that sequence.
    - [Runtime]: runtime/src/runtime.rs, the main loop over fibers, queues, futures, timers
      and inputs. [RuntimeInv]: whatever happens, it stays consistent (nothing parked is
      running, every name in the index has a fiber, every queue named non-empty is) and
      answers each request at most once; a [Create] is all or nothing: with overflow checks
      always, without them as long as the identifiers of futures last ([ids_suffice]).
      [Deployed] and [DeployedSpec]: the program a node starts answers every well-formed
      request, in order, whatever the clock and the arrivals, but none before the runtime's
      own clock has reached its epoch's time; a malformed one stops it.
    - [Protocol]: protocol/src and the inbox and outbox types of maroon/src/network.
    - [Epoch]: epoch_coordinator/src/epoch.rs, interface.rs and maroon/src/linearizer.rs.
      The input of an epoch's hash determines its creator, intervals and predecessor; the
      linearized log is a function of the epochs' intervals in order.
    - [Decision]: maroon/src/epoch_decision_engine.rs. Who sends the next epoch, and when.
    - [App]: maroon/src/app, the state and all handlers of a node's event loop.
      [AppOffsets]: a node's offset for a range is the end of the gap-free prefix of the
      transactions it stores, under every event. [AppEpochs]: the quorum's offset is the
      greatest that enough nodes reach; the delays asked for are exactly the missing
      intervals; an epoch proposed covers exactly what is agreed and not committed; an
      epoch applied yields its transactions in order. [AppSteps] collects what every event
      leaves unchanged.
    - [Network]: maroon/src/network/p2p.rs, the handlers between the application and the
      swarm. Everything the application is told was said by a peer, and every message is
      relayed unchanged; the sets of nodes and gateways follow the connections.
      [NetworkSetup]: the swarms of nodes and gateways: who speaks which protocol, hears which
      topic and dials whom.
    - [Coordinator]: epoch_coordinator/src/etcd.rs. A commit is a compare-and-swap on the
      next number of the history. [CoordinatorWatch]: the watch, with its reconnections,
      delivers the committed history in order from where it starts, without a gap, and
      repeats an epoch only where it reconnects.
    - [Cluster]: maroon/src/stack.rs, the nodes of a cluster with etcd between them, as a
      step relation that may delay, reorder, duplicate and lose messages. [ClusterInv]:
      the logs of any two nodes agree, committed intervals follow one another without a
      gap or an overlap, everything committed was held by a quorum, and a node asked for
      committed transactions that it reported can serve them. [Restart]: a node that starts
      when epochs are committed already.
    - [Fsm]: state/src/maroon.rs and main.rs, a key-value store with its journal whose tasks
      are state machines on a timeline of their own. [FsmSpec] states what each task
      answers, [FsmInv] the invariant of the executor, [FsmServer] runs the whole server:
      every socket gets exactly the answers its task promises, in order, the executor always
      comes to rest, and panics at most with a checked overflow. [FsmHttp]: the router, the
      writers of the sockets and [main], which serves until it is told to quit.
    - [Ir]: dsl/src/ir.rs, programs and their validation, with every message it prints.
      [IrRules]: a program is accepted exactly when it satisfies declarative typing rules.
      [SampleIr]: runtime/src/ir_spec.rs, the sample program as a value.
    - [Codegen], [CodegenStep]: dsl/src/codegen.rs, the generator of Rust source text. For
      [SampleIr.sample_ir] the text they evaluate to is generated/src/maroon_assembler.rs up
      to its formatting. [CodegenSpec]: the output does not depend on the order of hash maps;
      valid programs are printed unless they are recursive in their types or assign a fiber's
      variables; those that are not show how the generator fails. [CodegenFrames]: states and
      arms correspond, and the printed slots and offsets are where [Fiber] looks, but for the
      assignments to parameters.
      [CodegenSample]: the states, frame sizes and initial stacks printed for the sample
      program are those of [Assembler].
    - [Grammar]: dsl/src/grammar.pest as a value, what pest promises of the parser it derives
      from it (a tree of the grammar over a prefix of the input) and an interpreter of parsing
      expression grammars that keeps the promise. [Parser]: dsl/src/ast.rs and parser.rs, the
      walkers from pest's pairs to syntax trees. [ParserTests]: the crate's tests, evaluated,
      and what the missing word boundaries of the grammar lead to. [ParserSpec]: on whatever
      pest returns the walkers give a program or the first integer's range error, and no
      message about a missing or unexpected pair is ever used. [ParserTrees] and
      [ProgramTrees]: a printer of expressions, then of programs, whose trees the walkers
      read back. [Peg]: the interpreter answers on every text, and the rules of what it
      answers, which a parser derived by pest answers too. [PegTrees] and [PegPrograms]: on
      the printed text of a program it finds the printed tree, so that parsing gives the
      program back.
    - [Gateway]: gateway/src/core.rs and p2p.rs. Identifiers are given out in order and
      never twice; a socket receives the updates of its request until it is finished.
      [GatewayHttp]: the handlers of main.rs and its monitoring loop.
    - [System]: everything together, from a request at a gateway over the nodes, etcd and
      the runtimes back to the socket. [SystemInv] is the invariant of its reachable states;
      [SystemSpec]: every text on a socket is the one right answer to its request, and the
      runtimes of all nodes are replicas of one machine; a run from a request to its answer.
      [SystemLog]: what the log holds of a gateway are its first requests in the order of
      acceptance, and a request lost for want of a connection blocks its gateway for ever.
      [SystemLive]: from every reachable state in which a node has executed a request, or can
      propose it, its answer can still reach its socket.
    - [Common]: common/src, retries, timers, the two-way channel and the request-response
      channel, whose futures resolve to the answers of their own requests.
    - [CppIr]: cpp_ir/rust, the schema of the C++ prototype and the program that rewrites it.
    - [NodeTests], [RuntimeTests], [FsmTests], [IrTests], [SystemTests]: the repository's own
      tests, unit and integration, as scripts over the models, evaluated.

    ** How the code is translated

    A function that can panic returns a [result]. Integers are [Z] in the range of their
    type, an operation on them panics or wraps around as the profile says. A [HashMap] is a
    [gmap], iterated in the order of [HashOrder]. A task of the program is a record and a
    function per branch of its [select!] loop; what it sends on a channel is part of what
    the branch returns. An interleaving of tasks is a sequence of events or a step
    relation. A clock reading is an argument. Code outside the repository is a class whose
    laws are its documentation: libp2p's peer identities, SHA-256, JSON encoding, the slab
    crate, pest, the standard library's binary heap, etcd's transactions and watches. Each class
    has a concrete instance where a theorem needs one to be shown to apply.

    ** Fuel

    Only loops whose end is not evident from the data carry fuel. The loops of [App] are
    given one more than the number of stored transactions or of identifiers left, and the
    theorems show that this is enough, or that the Rust loop does not end
    ([AppOffsets.request_with_gap_diverges]). [Fiber.run] may diverge; theorems about it
    hold for every fuel, or say which fuel suffices (ten iterations per turn of the
    deployed program, however many requests), and so do those about [System]. The fuel of [Codegen.collect_future_wrappers]
    is the depth of the types, and [CodegenSpec.codegen_total] shows that some fuel is enough
    for every program without recursive types. [Grammar.peg_parse] has fuel in proportion to
    its input, and [Peg.peg_total] shows that it is enough. The walkers of [Parser] have twice the height
    of the tree, and [ParserSpec.parser_total] shows that they do not run out.

    ** Not modelled

    HTTP and WebSocket transport, logging, metrics, process
    start-up and sleeping are input and output. The nodes of [Cluster] and [System] start
    before the first epoch; what becomes of one that starts later is in [Restart]. *)

From stdpp Require Export base numbers gmap strings list fin_maps sorting.
From Stdlib Require Export ZArith Lia.

Declare Scope maroon_scope.
Delimit Scope maroon_scope with maroon.

(** ** Outcomes of Rust code

    [Ok a] is a normal return; [Panic msg] is a Rust panic ([panic!], [expect],
    [unwrap], an overflow check, an index out of range); [OutOfFuel] is the
    answer of a loop whose fuel ended before the loop did. *)
Inductive result (A : Type) : Type :=
| Ok (a : A)
| Panic (msg : string)
| OutOfFuel.
Arguments Ok {A} a.
Arguments Panic {A} msg.
Arguments OutOfFuel {A}.

#[export] Instance result_ret : MRet result := fun A a => Ok a.
#[export] Instance result_bind : MBind result := fun A B f m =>
  match m with
  | Ok a => f a
  | Panic msg => Panic msg
  | OutOfFuel => OutOfFuel
  end.

(** [Option::expect] and [Option::unwrap]. *)
Definition expect {A} (msg : string) (o : option A) : result A :=
  match o with
  | Some a => Ok a
  | None => Panic msg
  end.

(** A [for] loop whose body can fail and threads a state. *)
Fixpoint for_each {A S} (l : list A) (body : S -> A -> result S) (s : S) : result S :=
  match l with
  | [] => Ok s
  | x :: l' => s' ← body s x; for_each l' body s'
  end.

(** [Vec::pop]: the end of the list is the top. *)
Definition vec_pop {A} (v : list A) : option (A * list A) :=
  match reverse v with
  | [] => None
  | x :: r => Some (x, reverse r)
  end.

Definition is_ok {A} (r : result A) : Prop := exists a, r = Ok a.

(** The value of a computation known to succeed, to name the outcome of a concrete run. *)
Definition succeeds {A} (r : result A) : bool := match r with Ok _ => true | _ => false end.
Definition value_of {A} (default : A) (r : result A) : A := match r with Ok a => a | _ => default end.

Lemma succeeds_value {A} (d : A) r : succeeds r = true -> r = Ok (value_of d r).
Proof. by destruct r. Qed.

(** ** Machine integers

    A Rust [u64] (and [usize], on the 64-bit targets the repository builds for)
    is a [Z] in the range of [u64_ok]. [Profile] is the cargo profile: with
    [overflow_checks] (the [dev] and [test] profiles) an overflow panics, without
    (the [release] profile of the Dockerfiles) it wraps around. *)
Class Profile := { overflow_checks : bool }.

Definition dev_profile : Profile := {| overflow_checks := true |}.
Definition release_profile : Profile := {| overflow_checks := false |}.

Definition u64_modulus : Z := 2 ^ 64.
Definition u64_max : Z := u64_modulus - 1.
Definition u64_ok (x : Z) : Prop := (0 <= x < u64_modulus)%Z.

Definition u64_in_range (x : Z) : bool := (0 <=? x)%Z && (x <? u64_modulus)%Z.

Definition u64_arith `{Profile} (msg : string) (exact : Z) : result Z :=
  if u64_in_range exact then Ok exact
  else if overflow_checks then Panic msg
  else Ok (exact mod u64_modulus)%Z.

Definition u64_add `{Profile} (x y : Z) : result Z :=
  u64_arith "attempt to add with overflow" (x + y).
Definition u64_sub `{Profile} (x y : Z) : result Z :=
  u64_arith "attempt to subtract with overflow" (x - y).
Definition u64_mul `{Profile} (x y : Z) : result Z :=
  u64_arith "attempt to multiply with overflow" (x * y).

(** [u64::checked_add] does not depend on the profile. *)
Definition u64_checked_add (x y : Z) : option Z :=
  if u64_in_range (x + y) then Some (x + y)%Z else None.

#[global] Arguments u64_modulus : simpl never.
#[global] Arguments u64_max : simpl never.
#[global] Arguments u64_in_range : simpl never.
#[global] Arguments u64_arith : simpl never.
#[global] Arguments u64_add : simpl never.
#[global] Arguments u64_sub : simpl never.
#[global] Arguments u64_mul : simpl never.

(** ** Iteration order of hash maps

    [std::collections::HashMap] iterates in an arbitrary order: every definition
    that iterates over one takes the order from this class, and every theorem
    holds for all of its instances. *)
Class HashOrder := {
  hash_iter : forall {K V : Type} `{Countable K}, gmap K V -> list (K * V);
  hash_iter_perm : forall {K V : Type} `{Countable K} (m : gmap K V),
    hash_iter m ≡ₚ map_to_list m
}.

Definition list_order : HashOrder := {|
  hash_iter := fun K V _ _ m => map_to_list m;
  hash_iter_perm := fun K V _ _ m => Permutation_refl (map_to_list m)
|}.

(** ** Priority queues

    [std::collections::BinaryHeap] of elements whose [Ord] compares a time in reverse, as
    both heaps of the program do: [pop] takes an element that is due first; which one of
    several with the same time is not specified. *)
Class BinaryHeap := {
  heap_pop : forall {T : Type}, (T -> Z) -> list T -> option (T * list T);
  heap_pop_nil : forall {T} (due : T -> Z), heap_pop due [] = None;
  heap_pop_some : forall {T} (due : T -> Z) l, l <> [] ->
    exists b rest, heap_pop due l = Some (b, rest) /\ l ≡ₚ b :: rest /\
      forall x, x ∈ l -> (due b <= due x)%Z
}.

(** The first of the earliest elements. *)
Fixpoint earliest {T} (due : T -> Z) (b : T) (l : list T) : T * list T :=
  match l with
  | [] => (b, [])
  | x :: l' =>
      let '(m, rest) := earliest due x l' in
      if decide (due b <= due m)%Z then (b, x :: l') else (m, b :: rest)
  end.

Lemma earliest_ok {T} (due : T -> Z) b l :
  b :: l ≡ₚ fst (earliest due b l) :: snd (earliest due b l) /\
  forall x, x ∈ b :: l -> (due (fst (earliest due b l)) <= due x)%Z.
Proof.
  revert b. induction l as [|y l IH]; intros b; cbn.
  { split; [done|]. intros x [->|Hx]%elem_of_cons; [done|by apply elem_of_nil in Hx]. }
  destruct (IH y) as [Hp Hmin]. destruct (earliest due y l) as [m rest]. cbn in *. case_decide; cbn.
  - split; [done|]. intros x [->|Hx]%elem_of_cons; [done|]. specialize (Hmin x Hx). lia.
  - split; [rewrite Hp; constructor|]. intros x [->|Hx]%elem_of_cons; [lia|by apply Hmin].
Qed.

Definition list_heap : BinaryHeap.
Proof.
  refine {| heap_pop := fun T due l => match l with [] => None | b :: l' => Some (earliest due b l') end |}; [done|].
  intros T due [|b l] Hl; [done|]. destruct (earliest_ok due b l) as [Hp Hmin].
  destruct (earliest due b l) as [m rest]. by exists m, rest.
Defined.

(** ** Lemmas *)

Lemma u64_modulus_pos : (0 < u64_modulus)%Z.
Proof. unfold u64_modulus; lia. Qed.

Lemma u64_in_range_spec x : u64_in_range x = true <-> u64_ok x.
Proof. unfold u64_in_range, u64_ok. rewrite andb_true_iff, Z.leb_le, Z.ltb_lt. tauto. Qed.

Section arith.
Context `{Profile}.

Lemma u64_arith_ok msg x : u64_ok x -> u64_arith msg x = Ok x.
Proof. intros Hx. unfold u64_arith. by apply u64_in_range_spec in Hx as ->. Qed.

(** Whatever the profile, the outcome of an arithmetic operation is in range. *)
Lemma u64_arith_range msg x y : u64_arith msg x = Ok y -> u64_ok y.
Proof.
  unfold u64_arith. destruct (u64_in_range x) eqn:E.
  - intros [= <-]. by apply u64_in_range_spec.
  - destruct overflow_checks; [done|]. intros [= <-].
    unfold u64_ok. apply Z.mod_pos_bound, u64_modulus_pos.
Qed.

Lemma u64_add_ok x y : u64_ok (x + y) -> u64_add x y = Ok (x + y)%Z.
Proof. apply u64_arith_ok. Qed.
Lemma u64_sub_ok x y : u64_ok (x - y) -> u64_sub x y = Ok (x - y)%Z.
Proof. apply u64_arith_ok. Qed.
Lemma u64_mul_ok x y : u64_ok (x * y) -> u64_mul x y = Ok (x * y)%Z.
Proof. apply u64_arith_ok. Qed.
End arith.

(** An arithmetic operation that leaves the range panics under overflow checks. *)
Lemma u64_arith_overflow `{Profile} msg x :
  overflow_checks = true -> ~ u64_ok x -> u64_arith msg x = Panic msg.
Proof.
  intros Hc Hx. unfold u64_arith.
  destruct (u64_in_range x) eqn:E; [by apply u64_in_range_spec in E|]. by rewrite Hc.
Qed.

Lemma bind_ok {A B} (m : result A) (f : A -> result B) b :
  m ≫= f = Ok b -> exists a, m = Ok a /\ f a = Ok b.
Proof. destruct m; simpl; naive_solver. Qed.

Lemma expect_ok {A} msg (o : option A) a : expect msg o = Ok a <-> o = Some a.
Proof. destruct o; simpl; naive_solver. Qed.

Lemma vec_pop_snoc {A} (v : list A) x : vec_pop (v ++ [x]) = Some (x, v).
Proof. unfold vec_pop. by rewrite reverse_snoc, reverse_involutive. Qed.

Lemma for_each_singleton {A S} (x : A) (body : S -> A -> result S) s : for_each [x] body s = body s x.
Proof. cbn. by destruct (body s x). Qed.

Lemma for_each_app {A S} (l1 l2 : list A) (body : S -> A -> result S) s :
  for_each (l1 ++ l2) body s = (s' ← for_each l1 body s; for_each l2 body s').
Proof.
  revert s. induction l1 as [|x l1 IH]; intros s; [done|]; cbn.
  destruct (body s x) as [s'| |]; cbn; [apply IH|done|done].
Qed.

Lemma for_each_then {A S} (l1 l2 : list A) (body : S -> A -> result S) s s1 :
  for_each l1 body s = Ok s1 -> for_each (l1 ++ l2) body s = for_each l2 body s1.
Proof. intros E. by rewrite for_each_app, E. Qed.

(** The loop rule: an invariant indexed by the elements already visited. *)
Lemma for_each_inv_split {A S} (I : list A -> S -> Prop) (l : list A) (body : S -> A -> result S) s :
  I [] s ->
  (forall done x rest s, l = done ++ x :: rest -> I done s ->
     exists s', body s x = Ok s' /\ I (done ++ [x]) s') ->
  exists s', for_each l body s = Ok s' /\ I l s'.
Proof.
  intros H0 Hstep.
  enough (forall l' done s, l = done ++ l' -> I done s ->
    exists s', for_each l' body s = Ok s' /\ I l s') as Hgen by (by apply (Hgen l [])).
  clear s H0. intros l'. induction l' as [|x l' IH]; intros done s -> HI; cbn.
  - exists s. by rewrite app_nil_r.
  - destruct (Hstep done x l' s) as (s' & -> & HI'); [done|done|]. cbn.
    apply (IH (done ++ [x])); [by rewrite <-app_assoc|done].
Qed.

(** The rule for a body that does not look at what was visited. *)
Lemma for_each_inv {A S} (I : list A -> S -> Prop) (l : list A) (body : S -> A -> result S) s :
  I [] s ->
  (forall done x s, x ∈ l -> I done s -> exists s', body s x = Ok s' /\ I (done ++ [x]) s') ->
  exists s', for_each l body s = Ok s' /\ I l s'.
Proof.
  intros H0 Hstep. apply for_each_inv_split; [done|]. intros done x rest s0 -> HI.
  apply Hstep; [set_solver|done].
Qed.

(** The same rule for a loop known to have finished, with a body that may fail. *)
Lemma for_each_inv_ok {A S} (I : list A -> S -> Prop) (l : list A) (body : S -> A -> result S) s s' :
  for_each l body s = Ok s' -> I [] s ->
  (forall done x s s', x ∈ l -> body s x = Ok s' -> I done s -> I (done ++ [x]) s') -> I l s'.
Proof.
  intros Hrun H0 Hstep.
  enough (forall l' done s, l = done ++ l' -> for_each l' body s = Ok s' -> I done s -> I l s')
    as Hgen by (by apply (Hgen l [] s)).
  clear s H0 Hrun. intros l'. induction l' as [|x l' IH]; intros done s -> Hrun HI; cbn in Hrun.
  - injection Hrun as <-. by rewrite app_nil_r.
  - apply bind_ok in Hrun as (s1 & Hb & Hrun).
    eapply (IH (done ++ [x])); [by rewrite <-app_assoc|exact Hrun|].
    apply (Hstep done x s s1); set_solver.
Qed.

Lemma hash_iter_elem `{HashOrder} {K V} `{Countable K} (m : gmap K V) k v :
  (k, v) ∈ hash_iter m <-> m !! k = Some v.
Proof. rewrite hash_iter_perm. apply elem_of_map_to_list. Qed.

Lemma hash_iter_nodup `{HashOrder} {K V} `{Countable K} (m : gmap K V) :
  NoDup (hash_iter m).*1.
Proof. rewrite hash_iter_perm. apply NoDup_fst_map_to_list. Qed.

Lemma NoDup_concat_map {A B} (f : A -> list B) (l : list A) :
  NoDup l -> (forall x, x ∈ l -> NoDup (f x)) ->
  (forall x y b, x ∈ l -> y ∈ l -> b ∈ f x -> b ∈ f y -> x = y) -> NoDup (concat (map f l)).
Proof.
  induction 1 as [|x l Hx Hnd IH]; intros Hf Hd; [constructor|]. cbn. apply NoDup_app. split_and!.
  - apply Hf. left.
  - intros b Hb Hin. apply list_elem_of_In, in_concat in Hin as (bs & (y & <- & Hy)%in_map_iff & Hb').
    apply list_elem_of_In in Hy, Hb'. apply Hx.
    rewrite (Hd x y b); [done|left|by right|done|done].
  - apply IH; [intros; apply Hf; by right|]. intros y z b Hy Hz. apply Hd; by right.
Qed.

Lemma elem_of_concat_map {A B} (f : A -> list B) (l : list A) b :
  b ∈ concat (map f l) <-> exists x, x ∈ l /\ b ∈ f x.
Proof.
  rewrite list_elem_of_In, in_concat. setoid_rewrite in_map_iff. split.
  - intros (bs & (x & <- & Hx) & Hb). exists x. by rewrite !list_elem_of_In.
  - intros (x & Hx & Hb). exists (f x). rewrite list_elem_of_In in Hx. rewrite list_elem_of_In in Hb. eauto.
Qed.

(** A filter-map that keeps every element acts pointwise. *)
Lemma omap_total_lookup {A B} (f : A -> option B) (l : list A) k :
  length (omap f l) = length l -> omap f l !! k = l !! k ≫= f.
Proof.
  revert k. induction l as [|x l IH]; intros k Hlen; [done|]. cbn in *.
  assert (Hle : (length (omap f l) <= length l)%nat).
  { clear. induction l as [|x l IH]; [done|]. cbn. destruct (f x); cbn; lia. }
  destruct (f x) as [y|] eqn:E; cbn in Hlen; [|lia]. destruct k as [|k]; cbn; [done|].
  apply IH. lia.
Qed.

(** ** Strings *)
Lemma string_app_assoc (a b c : string) : a +:+ b +:+ c = (a +:+ b) +:+ c.
Proof. induction a as [|x a IH]; [done|]. change (String x (a +:+ (b +:+ c)) = String x ((a +:+ b) +:+ c)). by rewrite IH. Qed.

Lemma string_app_nil (a : string) : a +:+ "" = a.
Proof. induction a as [|x a IH]; [done|]. change (String x (a +:+ "") = String x a). by rewrite IH. Qed.

Lemma string_length_app (a b : string) : String.length (a +:+ b) = (String.length a + String.length b)%nat.
Proof.
  induction a as [|c a IH]; [done|]. change (String c a +:+ b) with (String c (a +:+ b)). cbn [String.length]. by rewrite IH.
Qed.

(** ** Automation *)

Create HintDb maroon discriminated.
#[export] Hint Resolve u64_modulus_pos u64_arith_range : maroon.

(** Solves the range side conditions of concrete and bounded [u64] expressions. *)
Ltac u64_solve := unfold u64_ok, u64_max, u64_modulus in *; lia.


(** Splits a successful monadic computation in the hypotheses into its steps. *)
Ltac inv_ok :=
  repeat match goal with
  | H : Ok _ = Ok _ |- _ => injection H as H; try subst
  | H : Panic _ = Ok _ |- _ => discriminate H
  | H : OutOfFuel = Ok _ |- _ => discriminate H
  | H : mbind _ _ = Ok _ |- _ =>
      let a := fresh "a" in let Ha := fresh "Ha" in
      apply bind_ok in H as (a & Ha & H); cbn beta in H
  | H : expect _ _ = Ok _ |- _ => apply expect_ok in H
  | H : mret _ = Ok _ |- _ => unfold mret, result_ret in H
  end.
