(* ===== verification/Types.v ===== *)
(** * The [types] crate: logical time, key ranges and blob ids

    Models [types/src/logical_time.rs] and [types/src/range_key.rs]. The newtypes
    over [u64] ([KeyRange], [KeyOffset], [UniqueU64BlobId],
    [LogicalTimeAbsoluteMs]) are their [u64] payload; additions and subtractions
    derived on them are the checked or wrapping ones of the prelude. *)
From S2P Require Import Prelude.
Local Open Scope Z_scope.

Abbreviation KeyRange := Z (only parsing).
Abbreviation KeyOffset := Z (only parsing).
Abbreviation UniqueU64BlobId := Z (only parsing).
Abbreviation LogicalTimeAbsoluteMs := Z (only parsing).

(** ** Logical time *)
Module LogicalTime.
Section time.
Context `{Profile}.

Definition from_millis (ms : Z) : LogicalTimeAbsoluteMs := ms.
Definition as_millis (t : LogicalTimeAbsoluteMs) : Z := t.

Definition abs_diff (self second : LogicalTimeAbsoluteMs) : result LogicalTimeAbsoluteMs :=
  if self >? second then d ← u64_sub self second; Ok (from_millis d)
  else d ← u64_sub second self; Ok (from_millis d).

Definition add (self rhs : LogicalTimeAbsoluteMs) : result LogicalTimeAbsoluteMs :=
  u64_add self rhs.
End time.

(** The distance is symmetric, never fails, and is the absolute difference. *)
Lemma abs_diff_spec `{Profile} a b :
  u64_ok a -> u64_ok b -> abs_diff a b = Ok (Z.abs (a - b)).
Proof.
  intros Ha Hb. unfold abs_diff, from_millis.
  destruct (Z.gtb_spec a b); rewrite u64_sub_ok by u64_solve; cbn; f_equal; lia.
Qed.
End LogicalTime.

(** ** Blob ids, key ranges and closed intervals *)
Module RangeKey.

Record U64BlobIdClosedInterval := MkInterval {
  left : UniqueU64BlobId;
  right : UniqueU64BlobId
}.

#[export] Instance interval_eq_dec : EqDecision U64BlobIdClosedInterval.
Proof. solve_decision. Defined.

(** The derived [Ord]: lexicographic on [(left, right)]. *)
Definition interval_le (i j : U64BlobIdClosedInterval) : Prop :=
  left i < left j \/ (left i = left j /\ right i <= right j).

#[export] Instance interval_le_dec i j : Decision (interval_le i j).
Proof. unfold interval_le. apply _. Defined.

(** [increments.sort()]. *)
Definition sort_intervals (l : list U64BlobIdClosedInterval) : list U64BlobIdClosedInterval :=
  merge_sort interval_le l.

Definition SINGLE_BLOB_SIZE : Z := Z.shiftl 1 30.
Definition MAX_BLOCK_INDEX : Z := Z.shiftl 1 (64 - 30) - 1.

#[global] Arguments SINGLE_BLOB_SIZE : simpl never.
#[global] Arguments MAX_BLOCK_INDEX : simpl never.

Section range_key.
Context `{Profile}.

Definition new (left right : UniqueU64BlobId) : result U64BlobIdClosedInterval :=
  if right <? left then Panic "never do it" else Ok (MkInterval left right).

Definition unique_blob_id_from_range_and_offset (range : KeyRange) (offset : KeyOffset)
  : result UniqueU64BlobId :=
  base ← u64_mul range SINGLE_BLOB_SIZE; u64_add base offset.

Definition new_from_range_and_offsets (range : KeyRange) (left right : KeyOffset)
  : result U64BlobIdClosedInterval :=
  l ← unique_blob_id_from_range_and_offset range left;
  r ← unique_blob_id_from_range_and_offset range right;
  new l r.

(** The [as usize] cast is the identity on a 64-bit target. *)
Definition ids_count (self : U64BlobIdClosedInterval) : result Z :=
  diff ← u64_sub (right self) (left self);
  match u64_checked_add diff 1 with
  | Some count => Ok count
  | None => Panic "interval too large: would overflow when adding 1"
  end.

(** One call of the closure given to [std::iter::from_fn]: its captured variable
    [current] is the state. *)
Definition iter_next (self : U64BlobIdClosedInterval) (current : UniqueU64BlobId)
  : result (option UniqueU64BlobId * UniqueU64BlobId) :=
  if current <=? right self then
    let res := current in
    current' ← u64_add current 1;
    Ok (Some res, current')
  else Ok (None, current).

(** Drains the iterator: calls [iter_next] until it answers [None]. *)
Fixpoint iter_drain (fuel : nat) (self : U64BlobIdClosedInterval) (current : UniqueU64BlobId)
  : result (list UniqueU64BlobId) :=
  match fuel with
  | O => OutOfFuel
  | S fuel' =>
      '(item, current') ← iter_next self current;
      match item with
      | None => Ok []
      | Some id => ids ← iter_drain fuel' self current'; Ok (id :: ids)
      end
  end.

(** One call per id and the last one, which answers [None]. *)
Definition iter_fuel (self : U64BlobIdClosedInterval) : nat :=
  S (Z.to_nat (right self - left self + 1)).

Definition iter (self : U64BlobIdClosedInterval) : result (list UniqueU64BlobId) :=
  iter_drain (iter_fuel self) self (left self).

Definition full_interval_for_range (range : KeyRange) : result U64BlobIdClosedInterval :=
  if range >? MAX_BLOCK_INDEX then Panic "index can't be more than MAX_BLOCK_INDEX"
  else
    lo ← u64_mul range SINGLE_BLOB_SIZE;
    base ← u64_mul range SINGLE_BLOB_SIZE;
    next ← u64_add base SINGLE_BLOB_SIZE;
    hi ← u64_sub next 1;
    new lo hi.

Definition range_from_unique_blob_id (global_key : UniqueU64BlobId) : result KeyRange :=
  limit ← u64_mul MAX_BLOCK_INDEX SINGLE_BLOB_SIZE;
  if global_key >? limit then Panic "out of range"
  else Ok (global_key / SINGLE_BLOB_SIZE).

Definition range_offset_from_unique_blob_id (global_key : UniqueU64BlobId)
  : result (KeyRange * KeyOffset) :=
  range ← range_from_unique_blob_id global_key;
  let offset := global_key mod SINGLE_BLOB_SIZE in
  Ok (range, offset).
End range_key.

(** *** Specification vocabulary *)

(** The ids of a closed interval, in increasing order. *)
Definition ids (i : U64BlobIdClosedInterval) : list UniqueU64BlobId :=
  seqZ (left i) (right i - left i + 1).

(** An interval that [new] can build and whose iterator ends. *)
Definition interval_ok (i : U64BlobIdClosedInterval) : Prop :=
  0 <= left i <= right i /\ right i < u64_max.

(** The ids [range_from_unique_blob_id] accepts. *)
Definition addressable (id : UniqueU64BlobId) : Prop :=
  0 <= id <= MAX_BLOCK_INDEX * SINGLE_BLOB_SIZE.

(** A pair [(range, offset)] of one of the ranges below the last. *)
Definition slot_ok (range : KeyRange) (offset : KeyOffset) : Prop :=
  0 <= range < MAX_BLOCK_INDEX /\ 0 <= offset < SINGLE_BLOB_SIZE.

Definition slot_id (range : KeyRange) (offset : KeyOffset) : UniqueU64BlobId :=
  range * SINGLE_BLOB_SIZE + offset.
#[global] Arguments slot_id : simpl never.
(** *** Lemmas *)

Lemma blob_size_eq : SINGLE_BLOB_SIZE = 1073741824.
Proof. reflexivity. Qed.
Lemma max_block_eq : MAX_BLOCK_INDEX = 17179869183.
Proof. reflexivity. Qed.
Lemma modulus_blocks : u64_modulus = (MAX_BLOCK_INDEX + 1) * SINGLE_BLOB_SIZE.
Proof. reflexivity. Qed.

(** Replaces the constants of the blob layout by numbers and calls [lia]. *)
Ltac blob_lia :=
  unfold slot_ok, slot_id, addressable, interval_ok in *; cbn [left right] in *;
  rewrite ?blob_size_eq, ?max_block_eq in *; u64_solve.

#[export] Instance interval_le_total : Total interval_le.
Proof. intros i j. unfold interval_le. lia. Qed.
#[export] Instance interval_le_trans : Transitive interval_le.
Proof. intros i j k. unfold interval_le. lia. Qed.
#[export] Instance interval_le_anti : AntiSymm (=) interval_le.
Proof. intros [a b] [c d]. unfold interval_le; cbn. intros. f_equal; lia. Qed.

Lemma sort_intervals_perm l : sort_intervals l ≡ₚ l.
Proof. apply merge_sort_Permutation. Qed.

Lemma sort_intervals_sorted l : StronglySorted interval_le (sort_intervals l).
Proof. apply (StronglySorted_merge_sort interval_le). Qed.

(** Sorting forgets the order in which a hash map produced the intervals. *)
Lemma sort_intervals_unique l1 l2 : l1 ≡ₚ l2 -> sort_intervals l1 = sort_intervals l2.
Proof.
  intros Hp. apply (StronglySorted_unique interval_le);
    [apply sort_intervals_sorted|apply sort_intervals_sorted|].
  by rewrite !sort_intervals_perm.
Qed.

Lemma elem_of_ids i id : id ∈ ids i <-> left i <= id <= right i.
Proof. unfold ids. rewrite elem_of_seqZ. lia. Qed.

Lemma ids_nodup i : NoDup (ids i).
Proof. apply NoDup_seqZ. Qed.

Lemma length_ids i : left i <= right i -> Z.of_nat (length (ids i)) = right i - left i + 1.
Proof. intros. unfold ids. rewrite length_seqZ. lia. Qed.

Section lemmas.
Context `{Profile}.

Lemma slot_id_ok range offset :
  0 <= range <= MAX_BLOCK_INDEX -> 0 <= offset < SINGLE_BLOB_SIZE ->
  unique_blob_id_from_range_and_offset range offset = Ok (slot_id range offset).
Proof.
  intros. unfold unique_blob_id_from_range_and_offset.
  rewrite u64_mul_ok by blob_lia. cbn. apply u64_add_ok. blob_lia.
Qed.

Lemma range_from_ok id :
  addressable id -> range_from_unique_blob_id id = Ok (id / SINGLE_BLOB_SIZE).
Proof.
  intros. unfold range_from_unique_blob_id. rewrite u64_mul_ok by blob_lia. cbn.
  destruct (Z.gtb_spec id (MAX_BLOCK_INDEX * SINGLE_BLOB_SIZE)); [blob_lia|done].
Qed.

Lemma range_from_panics id :
  MAX_BLOCK_INDEX * SINGLE_BLOB_SIZE < id ->
  range_from_unique_blob_id id = Panic "out of range".
Proof.
  intros. unfold range_from_unique_blob_id. rewrite u64_mul_ok by blob_lia. cbn.
  destruct (Z.gtb_spec id (MAX_BLOCK_INDEX * SINGLE_BLOB_SIZE)); [done|blob_lia].
Qed.

Lemma range_offset_ok id :
  addressable id ->
  range_offset_from_unique_blob_id id = Ok (id / SINGLE_BLOB_SIZE, id mod SINGLE_BLOB_SIZE).
Proof. intros. unfold range_offset_from_unique_blob_id. by rewrite range_from_ok. Qed.

Lemma slot_addressable range offset : slot_ok range offset -> addressable (slot_id range offset).
Proof. intros. blob_lia. Qed.

Lemma slot_id_div range offset :
  0 <= offset < SINGLE_BLOB_SIZE -> slot_id range offset / SINGLE_BLOB_SIZE = range.
Proof. unfold slot_id. rewrite blob_size_eq. intros. Z.div_mod_to_equations. lia. Qed.

Lemma slot_id_mod range offset :
  0 <= offset < SINGLE_BLOB_SIZE -> slot_id range offset mod SINGLE_BLOB_SIZE = offset.
Proof. unfold slot_id. rewrite blob_size_eq. intros. Z.div_mod_to_equations. lia. Qed.

Lemma slot_id_of_id id :
  slot_id (id / SINGLE_BLOB_SIZE) (id mod SINGLE_BLOB_SIZE) = id.
Proof. unfold slot_id. rewrite blob_size_eq. Z.div_mod_to_equations. lia. Qed.

Lemma slot_id_inj r o r' o' :
  0 <= o < SINGLE_BLOB_SIZE -> 0 <= o' < SINGLE_BLOB_SIZE ->
  slot_id r o = slot_id r' o' -> r = r' /\ o = o'.
Proof. blob_lia. Qed.

Lemma new_ok l r : l <= r -> new l r = Ok (MkInterval l r).
Proof. intros. unfold new. destruct (Z.ltb_spec r l); [lia|done]. Qed.

Lemma new_from_slots_ok range l r :
  0 <= range <= MAX_BLOCK_INDEX -> 0 <= l <= r -> r < SINGLE_BLOB_SIZE ->
  new_from_range_and_offsets range l r = Ok (MkInterval (slot_id range l) (slot_id range r)).
Proof.
  intros. unfold new_from_range_and_offsets.
  rewrite !slot_id_ok by lia. cbn. apply new_ok. blob_lia.
Qed.

Lemma iter_drain_spec i : interval_ok i ->
  forall n cur, left i <= cur <= right i + 1 -> (Z.to_nat (right i - cur + 1) < n)%nat ->
  iter_drain n i cur = Ok (seqZ cur (right i - cur + 1)).
Proof.
  intros Hi n. induction n as [|n IH]; intros cur Hc Hn; [lia|]. cbn. unfold iter_next.
  destruct (Z.leb_spec cur (right i)).
  - rewrite u64_add_ok by blob_lia. cbn. rewrite IH by lia. cbn.
    rewrite (seqZ_cons cur) by lia. do 3 f_equal; lia.
  - cbn. by rewrite seqZ_nil by lia.
Qed.

Lemma iter_ok i : interval_ok i -> iter i = Ok (ids i).
Proof.
  intros Hi. unfold iter, iter_fuel, ids. apply iter_drain_spec; [done|blob_lia|lia].
Qed.

Lemma ids_count_ok i : interval_ok i -> ids_count i = Ok (Z.of_nat (length (ids i))).
Proof.
  intros Hi. unfold ids_count. rewrite u64_sub_ok by blob_lia. cbn.
  unfold u64_checked_add. rewrite (proj2 (u64_in_range_spec _)) by blob_lia.
  rewrite length_ids by blob_lia. done.
Qed.
End lemmas.

(** *** Properties *)

(** The two conversions between blob ids and (range, offset) pairs are inverse
    to each other, in either build profile: every pair of a range below the last and
    an offset below the blob size converts to an id that converts back to it, and
    every addressable id converts to a pair that converts back to it. *)
Theorem blob_id_roundtrip `{Profile} :
  (forall range offset, slot_ok range offset ->
     exists id, unique_blob_id_from_range_and_offset range offset = Ok id
                /\ range_offset_from_unique_blob_id id = Ok (range, offset)) /\
  (forall id, addressable id ->
     exists range offset, range_offset_from_unique_blob_id id = Ok (range, offset)
                /\ unique_blob_id_from_range_and_offset range offset = Ok id).
Proof.
  split.
  - intros r o Hs. exists (slot_id r o). split; [apply slot_id_ok; blob_lia|].
    rewrite range_offset_ok by by apply slot_addressable.
    rewrite slot_id_div, slot_id_mod by blob_lia. done.
  - intros id Hid. exists (id / SINGLE_BLOB_SIZE), (id mod SINGLE_BLOB_SIZE).
    split; [by apply range_offset_ok|].
    rewrite slot_id_ok, slot_id_of_id; [done| |]; revert Hid; unfold addressable;
      rewrite blob_size_eq, max_block_eq; intros; Z.div_mod_to_equations; lia.
Qed.

Lemma blob_id_roundtrip_witness :
  (exists id, @unique_blob_id_from_range_and_offset dev_profile 1 5 = Ok id
     /\ @range_offset_from_unique_blob_id dev_profile id = Ok (1, 5)).
Proof. apply (proj1 (@blob_id_roundtrip dev_profile)). vm_compute. repeat split; discriminate. Defined.

(** [full_interval_for_range] gives every gateway range below the last exactly its
    own ids: the interval exists, has [2^30] ids, and an addressable id lies in it
    iff [range_from_unique_blob_id] answers that range; so two different ranges never
    share an id. *)
Theorem full_interval_owns_range `{Profile} range :
  0 <= range < MAX_BLOCK_INDEX ->
  exists i, full_interval_for_range range = Ok i /\ ids_count i = Ok SINGLE_BLOB_SIZE /\
    forall id, addressable id ->
      (left i <= id <= right i <-> range_from_unique_blob_id id = Ok range).
Proof.
  intros Hr. exists (MkInterval (slot_id range 0) (slot_id range (SINGLE_BLOB_SIZE - 1))).
  split; [|split].
  - unfold full_interval_for_range. destruct (Z.gtb_spec range MAX_BLOCK_INDEX); [lia|].
    rewrite u64_mul_ok by blob_lia. cbn. rewrite u64_add_ok by blob_lia. cbn.
    rewrite u64_sub_ok by blob_lia. cbn. rewrite new_ok by blob_lia.
    do 2 f_equal; blob_lia.
  - rewrite ids_count_ok by (cbn; blob_lia). rewrite length_ids by (cbn; blob_lia).
    cbn. f_equal. blob_lia.
  - intros id Hid. rewrite range_from_ok by done. cbn.
    split; [intros Hin; f_equal|intros [= Hd]]; revert Hid; unfold addressable, slot_id in *;
      rewrite ?blob_size_eq, ?max_block_eq in *; intros; Z.div_mod_to_equations; lia.
Qed.

Lemma full_interval_owns_range_witness :
  exists i, @full_interval_for_range dev_profile 3 = Ok i /\ @ids_count dev_profile i = Ok SINGLE_BLOB_SIZE /\
    forall id, addressable id ->
      (left i <= id <= right i <-> @range_from_unique_blob_id dev_profile id = Ok 3).
Proof. apply (@full_interval_owns_range dev_profile 3). vm_compute. split; [discriminate|reflexivity]. Defined.

(** The largest index the guard of [full_interval_for_range] accepts is not usable
    under overflow checks: the expression [range * SIZE + SIZE - 1] overflows before
    the subtraction, so the call panics; without the checks it wraps twice and gives
    the intended interval. And every id of that last block but its first is refused by
    [range_from_unique_blob_id] in both profiles. *)
Theorem last_range_unusable `{Profile} :
  (overflow_checks = true ->
     full_interval_for_range MAX_BLOCK_INDEX = Panic "attempt to add with overflow") /\
  (overflow_checks = false ->
     full_interval_for_range MAX_BLOCK_INDEX
     = Ok (MkInterval (slot_id MAX_BLOCK_INDEX 0) u64_max)) /\
  (forall offset, 0 < offset < SINGLE_BLOB_SIZE ->
     exists id, unique_blob_id_from_range_and_offset MAX_BLOCK_INDEX offset = Ok id
       /\ range_from_unique_blob_id id = Panic "out of range").
Proof.
  assert (Hmul : u64_mul MAX_BLOCK_INDEX SINGLE_BLOB_SIZE
                 = Ok (MAX_BLOCK_INDEX * SINGLE_BLOB_SIZE)) by (apply u64_mul_ok; blob_lia).
  split; [|split].
  - intros Hc. unfold full_interval_for_range. rewrite Z.gtb_ltb, Z.ltb_irrefl, Hmul. cbn.
    unfold u64_add. rewrite u64_arith_overflow; [done|done|blob_lia].
  - intros Hc. unfold full_interval_for_range. rewrite Z.gtb_ltb, Z.ltb_irrefl, Hmul. cbn.
    unfold u64_add, u64_sub, u64_arith. rewrite Hc. reflexivity.
  - intros o Ho. exists (slot_id MAX_BLOCK_INDEX o). split; [apply slot_id_ok; blob_lia|].
    apply range_from_panics. blob_lia.
Qed.

Lemma last_range_unusable_witness :
  @full_interval_for_range dev_profile MAX_BLOCK_INDEX = Panic "attempt to add with overflow" /\
  @full_interval_for_range release_profile MAX_BLOCK_INDEX
     = Ok (MkInterval (slot_id MAX_BLOCK_INDEX 0) u64_max).
Proof.
  split; [by apply (@last_range_unusable dev_profile)|by apply (@last_range_unusable release_profile)].
Defined.

(** The interval iterator terminates and enumerates exactly the ids between the
    two bounds, each once and in increasing order, and [ids_count] is the number of
    ids it yields, for every interval that does not end at [u64::MAX]. *)
Theorem interval_iter_complete `{Profile} i :
  interval_ok i ->
  exists l, iter i = Ok l /\ ids_count i = Ok (Z.of_nat (length l)) /\
    StronglySorted Z.lt l /\ forall id, id ∈ l <-> left i <= id <= right i.
Proof.
  intros Hi. exists (ids i). split; [by apply iter_ok|]. split; [by apply ids_count_ok|].
  split; [|intros id; apply elem_of_ids].
  unfold ids. remember (Z.to_nat (right i - left i + 1)) as n eqn:Hn.
  replace (right i - left i + 1) with (Z.of_nat n) by blob_lia.
  generalize (left i). clear. induction n as [|n IH]; intros x; [constructor|].
  rewrite seqZ_cons by lia. replace (Z.pred (Z.of_nat (S n))) with (Z.of_nat n) by lia.
  constructor; [apply IH|]. apply Forall_forall. intros y Hy%elem_of_seqZ. lia.
Qed.

Lemma interval_iter_complete_witness :
  exists l, @iter dev_profile (MkInterval 5 8) = Ok l
    /\ @ids_count dev_profile (MkInterval 5 8) = Ok (Z.of_nat (length l))
    /\ StronglySorted Z.lt l /\ forall id, id ∈ l <-> 5 <= id <= 8.
Proof.
  apply (@interval_iter_complete dev_profile (MkInterval 5 8)).
  vm_compute. repeat split; discriminate.
Defined.
End RangeKey.
