(* ===== verification/Common.v ===== *)
(** * The common crate

    Models common/src: retries with their intervals, the timers, the two-way channel and the
    request-response channel that the tasks of a node talk through. Tokio's channels are
    queues; a [oneshot] is a cell that is written at most once. *)
From S2P Require Import Prelude Types.
Local Open Scope Z_scope.

(** ** Retries *)
Module Retrier.

(** [std::time::Duration] in nanoseconds; its seconds are a [u64], and a product that does not
    fit panics under every profile. *)
Definition Duration : Type := Z.
Definition duration_limit : Z := u64_modulus * 1000000000.
Definition duration_mul (d : Duration) (n : Z) : result Duration :=
  if d * n <? duration_limit then Ok (d * n) else Panic "overflow when multiplying duration by scalar".

(** [2_u32.pow(i as u32)]: the cast keeps the low 32 bits, the power overflows from 32 on. *)
Definition u32_modulus : Z := 2 ^ 32.
Definition pow2_u32 `{Profile} (i : Z) : result Z :=
  let exact := 2 ^ (i mod u32_modulus) in
  if exact <? u32_modulus then Ok exact
  else if overflow_checks then Panic "attempt to multiply with overflow"
  else Ok (exact mod u32_modulus).

(** [f] is called with the state it closes over; the times slept are part of the answer. *)
Fixpoint retry {St} (intervals : list Duration) (f : St -> bool * St) (s : St) : St * list Duration :=
  match intervals with
  | [] => (s, [])
  | i :: intervals' =>
      let '(done, s) := f s in
      if done then (s, [])
      else let '(s, slept) := retry intervals' f s in (s, i :: slept)
  end.

Definition const_intervals (count : nat) (interval : Duration) : list Duration := replicate count interval.

Definition exp_intervals `{Profile} (count : nat) (start_interval : Duration) : result (list Duration) :=
  for_each (seq 0 count)
    (fun acc i => factor ← pow2_u32 (Z.of_nat i); d ← duration_mul start_interval factor; Ok (acc ++ [d])) [].

(** *** Lemmas *)

(** The state after [n] calls, and whether one of the first [n] succeeds. *)
Fixpoint calls {St} (f : St -> bool * St) (n : nat) (s : St) : St :=
  match n with O => s | S n' => calls f n' (f s).2 end.
Definition succeeds_at {St} (f : St -> bool * St) (n : nat) (s : St) : bool := (f (calls f n s)).1.

(** [f] is called until it succeeds, at most once per interval, and each failure is
    followed by its interval, the last one too. *)
Lemma retry_calls {St} intervals (f : St -> bool * St) (s : St) :
  exists n, (n <= length intervals)%nat /\
    (forall k, (k < n)%nat -> succeeds_at f k s = false) /\
    ((n = length intervals /\ retry intervals f s = (calls f n s, intervals)) \/
     ((n < length intervals)%nat /\ succeeds_at f n s = true /\
      retry intervals f s = (calls f (S n) s, take n intervals))).
Proof.
  revert s. induction intervals as [|i intervals IH]; intros s; cbn [retry length].
  { exists 0%nat. split; [done|]. split; [lia|]. by left. }
  destruct (f s) as [done s1] eqn:E. destruct done.
  - exists 0%nat. split; [lia|]. split; [lia|]. right. split; [lia|]. unfold succeeds_at. cbn. by rewrite E.
  - destruct (IH s1) as (n & Hn & Hf & Hcase). exists (S n). split; [lia|]. split.
    + intros [|k] Hk; unfold succeeds_at; cbn; rewrite E; [done|]. apply (Hf k). lia.
    + destruct Hcase as [[-> Hr]|(Hlt & Hs & Hr)]; rewrite Hr; [left|right].
      * split; [done|]. cbn. by rewrite E.
      * split; [lia|]. unfold succeeds_at in *. cbn. rewrite E. by split.
Qed.

Lemma pow2_u32_ok `{Profile} i : 0 <= i < 32 -> pow2_u32 i = Ok (2 ^ i).
Proof.
  intros Hi. unfold pow2_u32, u32_modulus. rewrite (Z.mod_small i) by (change (2 ^ 32) with 4294967296; lia).
  assert (2 ^ i < 2 ^ 32) by (apply Z.pow_lt_mono_r; lia). destruct (Z.ltb_spec (2 ^ i) (2 ^ 32)); [done|lia].
Qed.

(** Up to 32 intervals of a short start are its doublings. *)
Lemma exp_intervals_double `{Profile} count start : (count <= 32)%nat -> 0 <= start < 2 ^ 62 ->
  exp_intervals count start = Ok (map (fun i => start * 2 ^ Z.of_nat i) (seq 0 count)).
Proof.
  intros Hc Hs. unfold exp_intervals. edestruct (for_each_inv
    (fun done acc => acc = map (fun i => start * 2 ^ Z.of_nat i) done) (seq 0 count)) as (acc & -> & ->); [done| |done].
  intros done i acc [_ Hi]%elem_of_seq ->. rewrite pow2_u32_ok by lia. cbn [mbind result_bind]. unfold duration_mul, duration_limit, u64_modulus in *.
  assert (2 ^ Z.of_nat i <= 2 ^ 31) by (apply Z.pow_le_mono_r; lia).
  change (2 ^ 62) with 4611686018427387904 in *. change (2 ^ 31) with 2147483648 in *. change (2 ^ 64) with 18446744073709551616 in *.
  destruct (Z.ltb_spec (start * 2 ^ Z.of_nat i) (18446744073709551616 * 1000000000)) as [_|Hge]; [|nia].
  eexists. split; [done|]. by rewrite map_app.
Qed.

(** The 33rd interval panics under overflow checks. *)
Lemma exp_intervals_overflow start : 0 <= start < 2 ^ 62 ->
  @exp_intervals dev_profile 33 start = Panic "attempt to multiply with overflow".
Proof.
  intros Hs. pose proof (@exp_intervals_double dev_profile 32 start ltac:(lia) Hs) as H32. unfold exp_intervals in *.
  rewrite (seq_app 32 1), for_each_app, H32. done.
Qed.
End Retrier.

(** ** Timers *)
Module Clock.

(** What the operating system's clocks read, in milliseconds: the monotonic one and the
    time of day. *)
Record Reading := mkReading { instant_now : Z; system_now : Z }.

(** The trait [Timer]; a reading of the clocks is an argument. *)
Class Timer (T : Type) := {
  from_start : T -> Reading -> LogicalTimeAbsoluteMs;
  monotonic_now_system : T -> Reading -> Z
}.

Record MonotonicTimer := mkMonotonicTimer { instant : Z; system : Z }.

Definition monotonic_new (now : Reading) : MonotonicTimer := mkMonotonicTimer (instant_now now) (system_now now).

(** [elapsed] is zero for an instant that is not in the past; the cast keeps 64 bits. *)
Definition elapsed (self : MonotonicTimer) (now : Reading) : Z := Z.max 0 (instant_now now - instant self).

#[export] Instance monotonic_timer : Timer MonotonicTimer := {|
  from_start self now := elapsed self now mod u64_modulus;
  monotonic_now_system self now := system self + elapsed self now
|}.

Record MockTimer := mkMockTimer { time : LogicalTimeAbsoluteMs }.

Definition mock_new (now : LogicalTimeAbsoluteMs) : MockTimer := mkMockTimer now.
Definition advance `{Profile} (d : LogicalTimeAbsoluteMs) (self : MockTimer) : result MockTimer :=
  t ← LogicalTime.add (time self) d; Ok (mkMockTimer t).
Definition set (t : LogicalTimeAbsoluteMs) (self : MockTimer) : MockTimer := mkMockTimer t.

#[export] Instance mock_timer : Timer MockTimer := {|
  from_start self _ := time self;
  monotonic_now_system self _ := LogicalTime.as_millis (time self)   (* since [UNIX_EPOCH] *)
|}.

(** Readings of one timer never decrease, whatever happens to the time of day. *)
Lemma from_start_mono (self : MonotonicTimer) r1 r2 :
  instant_now r1 <= instant_now r2 -> instant_now r2 - instant self < u64_modulus ->
  from_start self r1 <= from_start self r2 /\ monotonic_now_system self r1 <= monotonic_now_system self r2.
Proof.
  intros Hr Hb. unfold from_start, monotonic_now_system, monotonic_timer, elapsed. unfold u64_modulus in *.
  rewrite !Z.mod_small by lia. lia.
Qed.

(** Timers started at different moments differ by that much for ever. *)
Lemma timers_apart (r1 r2 r : Reading) :
  instant_now r1 <= instant_now r2 <= instant_now r -> instant_now r - instant_now r1 < u64_modulus ->
  from_start (monotonic_new r1) r = from_start (monotonic_new r2) r + (instant_now r2 - instant_now r1).
Proof.
  intros Hr Hb. unfold from_start, monotonic_timer, elapsed, monotonic_new. cbn. unfold u64_modulus in *.
  rewrite !Z.mod_small by lia. lia.
Qed.
End Clock.

(** ** The two-way channel *)
Module Duplex.
Section duplex.
Context {A B : Type}.

(** An unbounded channel: what was sent and not received, and whether the receiver still exists. *)
Record Channel (T : Type) := mkChannel { queue : list T; receiver_alive : bool }.
Arguments mkChannel {T} queue receiver_alive.
Arguments queue {T} _.
Arguments receiver_alive {T} _.

(** The two channels of a pair; an endpoint holds the sender of one and the receiver of the other. *)
Record Pair := mkPair { requests : Channel A; responses : Channel B }.

Definition create_a_b_duplex_pair : Pair := mkPair (mkChannel [] true) (mkChannel [] true).

(** [Endpoint::send]: an error is logged and the message lost. *)
Definition push {T} (message : T) (c : Channel T) : Channel T * bool :=
  if receiver_alive c then (mkChannel (queue c ++ [message]) true, true) else (c, false).

Definition send_a (message : A) (p : Pair) : Pair := mkPair (push message (requests p)).1 (responses p).
Definition send_b (message : B) (p : Pair) : Pair := mkPair (requests p) (push message (responses p)).1.

(** [receiver.recv()]: [None] when it has to wait. *)
Definition pull {T} (c : Channel T) : option (T * Channel T) :=
  match queue c with [] => None | m :: q => Some (m, mkChannel q (receiver_alive c)) end.

Definition recv_a (p : Pair) : option (B * Pair) := '(m, c) ← pull (responses p); Some (m, mkPair (requests p) c).
Definition recv_b (p : Pair) : option (A * Pair) := '(m, c) ← pull (requests p); Some (m, mkPair c (responses p)).
End duplex.
End Duplex.

(** ** Requests and their answers *)
Module Invoker.
Section invoker.
Context {Req Res : Type}.

Inductive Oneshot : Type :=
| Oneshot_Waiting
| Oneshot_Sent (res : Res)
| Oneshot_Dropped.         (* the sender, without having sent *)

(** [response] is the place of the sender's cell. *)
Record RequestWrapper := mkWrapper { request_of : Req; response : nat }.

Record Invoker := mkInvoker {
  channel : list RequestWrapper;   (* not yet received *)
  handler_alive : bool;
  oneshots : list Oneshot
}.

Definition create_invoker_handler_pair : Invoker := mkInvoker [] true [].

(** The place of its cell is the [ResultFuture]. *)
Definition request (req : Req) (self : Invoker) : result (Invoker * nat) :=
  let id := length (oneshots self) in
  if handler_alive self then
    Ok (mkInvoker (channel self ++ [mkWrapper req id]) true (oneshots self ++ [Oneshot_Waiting]), id)
  else Panic "not yet implemented: channel closed".

Definition receive (self : Invoker) : option (RequestWrapper * Invoker) :=
  match channel self with
  | [] => None
  | w :: ws => Some (w, mkInvoker ws (handler_alive self) (oneshots self))
  end.

(** [wrapper.response.send(res)], and dropping it instead: the sender is consumed. *)
Definition respond (w : RequestWrapper) (res : Res) (self : Invoker) : Invoker :=
  mkInvoker (channel self) (handler_alive self) (<[response w := Oneshot_Sent res]> (oneshots self)).
Definition drop_wrapper (w : RequestWrapper) (self : Invoker) : Invoker :=
  mkInvoker (channel self) (handler_alive self) (<[response w := Oneshot_Dropped]> (oneshots self)).

(** [ResultFuture::poll]: [None] is [Poll::Pending]. *)
Definition poll (id : nat) (self : Invoker) : result (option Res) :=
  match oneshots self !! id with
  | Some (Oneshot_Sent res) => Ok (Some res)
  | Some Oneshot_Dropped => Panic "not yet implemented: sender was dropped unexpectedly"
  | _ => Ok None
  end.
End invoker.
Arguments Oneshot : clear implicits.
Arguments RequestWrapper : clear implicits.
Arguments Invoker : clear implicits.

(** Several requests in flight, and a handler that answers those it has taken in any order. *)
Section handler.
Context {Req Res : Type} (answer : Req -> Res).

Inductive Op : Type :=
| Op_Request (req : Req)
| Op_Receive
| Op_Answer (k : nat).    (* the [k]-th of the wrappers it holds *)

(** The requests so far, and the wrappers the handler holds. *)
Record Running := mkRunning { inv : Invoker Req Res; asked : list Req; held : list (RequestWrapper Req) }.

Definition op (s : Running) (o : Op) : result Running :=
  match o with
  | Op_Request req => '(i, _) ← request req (inv s); Ok (mkRunning i (asked s ++ [req]) (held s))
  | Op_Receive =>
      match receive (inv s) with
      | Some (w, i) => Ok (mkRunning i (asked s) (held s ++ [w]))
      | None => Ok s
      end
  | Op_Answer k =>
      match held s !! k with
      | Some w => Ok (mkRunning (respond w (answer (request_of w)) (inv s)) (asked s) (take k (held s) ++ drop (S k) (held s)))
      | None => Ok s
      end
  end.

Definition running_start : Running := mkRunning create_invoker_handler_pair [] [].

Record running_ok (s : Running) : Prop := {
  ok_alive : handler_alive (inv s) = true;
  ok_length : length (oneshots (inv s)) = length (asked s);
  ok_wrappers : forall w, w ∈ channel (inv s) ++ held s -> asked s !! response w = Some (request_of w);
  ok_cells : forall id c, oneshots (inv s) !! id = Some c ->
    c = Oneshot_Waiting \/ exists req, asked s !! id = Some req /\ c = Oneshot_Sent (answer req)
}.

Lemma op_ok s o : running_ok s -> exists s', op s o = Ok s' /\ running_ok s' /\ asked s `prefix_of` asked s'.
Proof.
  intros [Ha Hl Hw Hc]. destruct o as [req| |k]; cbn [op].
  - unfold request. rewrite Ha. cbn. eexists. split; [reflexivity|]. split; [|by exists [req]]. split; cbn.
    + done.
    + rewrite !length_app. cbn. lia.
    + intros w. rewrite <-app_assoc, !elem_of_app, list_elem_of_singleton. intros [Hin|[->|Hin]].
      * apply lookup_app_l_Some, Hw, elem_of_app. by left.
      * cbn. by rewrite Hl, lookup_app_r, Nat.sub_diag.
      * apply lookup_app_l_Some, Hw, elem_of_app. by right.
    + intros id c [Hin|[Hlen Hin]]%lookup_app_Some.
      * destruct (Hc id c Hin) as [->|(r & Hr & ->)]; [by left|]. right. exists r. split; [|done]. by apply lookup_app_l_Some.
      * apply list_lookup_singleton_Some in Hin as [_ <-]. by left.
  - unfold receive. destruct (channel (inv s)) as [|w ws] eqn:Ech; (eexists; split; [reflexivity|]); (split; [|done]).
    + split; try done. by rewrite Ech.
    + split; cbn; try done. intros w'. rewrite !elem_of_app, list_elem_of_singleton. intros Hin. apply Hw. set_solver.
  - destruct (held s !! k) as [w|] eqn:Ek; (eexists; split; [reflexivity|]); (split; [|done]); [|by split].
    assert (Hreq : asked s !! response w = Some (request_of w)).
    { apply Hw, elem_of_app. right. by eapply list_elem_of_lookup_2. }
    split; cbn; [done|by rewrite length_insert| |].
    + intros w'. rewrite !elem_of_app. intros Hin. apply Hw, elem_of_app.
      destruct Hin as [Hin|[Hin|Hin]]; [by left|right..].
      * by apply (subseteq_take k).
      * by apply (subseteq_drop (S k)).
    + intros id c Hin. destruct (decide (id = response w)) as [->|Hne].
      * right. exists (request_of w). split; [done|]. rewrite list_lookup_insert_eq in Hin; [by injection Hin|].
        rewrite Hl. by eapply lookup_lt_Some.
      * rewrite list_lookup_insert_ne in Hin by done. by apply Hc.
Qed.

(** However requests, receipts and answers are interleaved, nothing fails, and a future that
    resolves has the answer to its own request. *)
Lemma answers_match_requests ops : exists s, for_each ops op running_start = Ok s /\
  forall id res, poll id (inv s) = Ok (Some res) -> exists req, asked s !! id = Some req /\ res = answer req.
Proof.
  assert (H : exists s, for_each ops op running_start = Ok s /\ running_ok s).
  { apply (for_each_inv (fun _ s => running_ok s)).
    - split; cbn; [done|done| |]; [by intros w ?%elem_of_nil|done].
    - intros _ o s _ Hs. destruct (op_ok s o Hs) as (s' & E & Hs' & _). by exists s'. }
  destruct H as (s & E & [Ha Hl Hw Hc]). exists s. split; [done|]. intros id res Hp. unfold poll in Hp.
  destruct (oneshots (inv s) !! id) as [c|] eqn:Eid; [|done].
  destruct (Hc id c Eid) as [->|(req & Hreq & ->)]; [done|]. injection Hp as <-. by exists req.
Qed.
End handler.

(** The test of the module: the second request is answered before the first. *)
Definition test_invoker_handler_run : result (list (option string)) :=
  let '(t1, t2) := ("1"%string, "2"%string) in
  s ← for_each [Op_Request t1; Op_Request t2; Op_Receive; Op_Receive; Op_Answer 1; Op_Answer 0] (op id) running_start;
  result2 ← poll 1 (inv s);
  result1 ← poll 0 (inv s);
  Ok [result2; result1].

Example test_invoker_handler : test_invoker_handler_run = Ok [Some "2"%string; Some "1"%string].
Proof. reflexivity. Qed.
End Invoker.
