(* ===== verification/Values.v ===== *)
(** * Values of the generated crate

    Models the data types of [generated/src/maroon_assembler.rs]: the message
    structs, the [Value] union every fiber variable, queue message and future
    result is made of, the public/private message conversions, the primitives a
    step can create or set, and the [Debug] output of values that the runtime's
    debug sink prints. [u64] fields are [Z]; the [FutureT(pub String)] newtypes
    are their string. *)
From S2P Require Import Prelude.
From stdpp Require Import pretty.
From Stdlib Require Import Ascii.
Local Open Scope string_scope.

Abbreviation FutureU64 := string (only parsing).
Abbreviation FutureUnit := string (only parsing).
Abbreviation FutureTestIncrementTask := string (only parsing).

Record TestIncrementTask := mkTestIncrementTask {
  TestIncrementTask_inStrValue : Z;
  TestIncrementTask_inStrRespFutureId : string;
  TestIncrementTask_inStrRespQueueName : string
}.
Definition TestIncrementTask_default : TestIncrementTask := mkTestIncrementTask 0 "" "".

Record TestCreateQueueMessagePub := mkTestCreateQueueMessagePub {
  TestCreateQueueMessagePub_value : Z
}.
Definition TestCreateQueueMessagePub_default : TestCreateQueueMessagePub := mkTestCreateQueueMessagePub 0.

Record TestCreateQueueMessage := mkTestCreateQueueMessage {
  TestCreateQueueMessage_value : Z;
  TestCreateQueueMessage_publicFutureId : FutureU64
}.
Definition TestCreateQueueMessage_default : TestCreateQueueMessage := mkTestCreateQueueMessage 0 "".

Record TestCalculatorTask := mkTestCalculatorTask {
  TestCalculatorTask_a : Z;
  TestCalculatorTask_b : Z;
  TestCalculatorTask_responseFutureId : FutureU64
}.
Definition TestCalculatorTask_default : TestCalculatorTask := mkTestCalculatorTask 0 0 "".

Record TestInfiniteSummatorQueueMessagePub := mkTestInfiniteSummatorQueueMessagePub {
  TestInfiniteSummatorQueueMessagePub_a : Z;
  TestInfiniteSummatorQueueMessagePub_b : Z
}.
Definition TestInfiniteSummatorQueueMessagePub_default : TestInfiniteSummatorQueueMessagePub := mkTestInfiniteSummatorQueueMessagePub 0 0.

Record TestInfiniteSummatorQueueMessage := mkTestInfiniteSummatorQueueMessage {
  TestInfiniteSummatorQueueMessage_a : Z;
  TestInfiniteSummatorQueueMessage_b : Z;
  TestInfiniteSummatorQueueMessage_publicFutureId : FutureU64
}.
Definition TestInfiniteSummatorQueueMessage_default : TestInfiniteSummatorQueueMessage := mkTestInfiniteSummatorQueueMessage 0 0 "".

Inductive Value : Type :=
| Value_ArrayU64 (l : list Z)
| Value_Bool (b : bool)
| Value_FutureTestIncrementTask (id : FutureTestIncrementTask)
| Value_FutureU64 (id : FutureU64)
| Value_FutureUnit (id : FutureUnit)
| Value_OptionString (o : option string)
| Value_OptionU64 (o : option Z)
| Value_String (s : string)
| Value_TestCalculatorTask (m : TestCalculatorTask)
| Value_TestCreateQueueMessage (m : TestCreateQueueMessage)
| Value_TestCreateQueueMessagePub (m : TestCreateQueueMessagePub)
| Value_TestIncrementTask (m : TestIncrementTask)
| Value_TestInfiniteSummatorQueueMessage (m : TestInfiniteSummatorQueueMessage)
| Value_TestInfiniteSummatorQueueMessagePub (m : TestInfiniteSummatorQueueMessagePub)
| Value_U64 (n : Z)
| Value_Unit.

(** ** Public and private queue messages *)

Definition pub_to_private (val : Value) (future_id : string) : result Value :=
  match val with
  | Value_TestCreateQueueMessagePub m =>
      Ok (Value_TestCreateQueueMessage
            (mkTestCreateQueueMessage (TestCreateQueueMessagePub_value m) future_id))
  | Value_TestInfiniteSummatorQueueMessagePub m =>
      Ok (Value_TestInfiniteSummatorQueueMessage
            (mkTestInfiniteSummatorQueueMessage
               (TestInfiniteSummatorQueueMessagePub_a m)
               (TestInfiniteSummatorQueueMessagePub_b m) future_id))
  | _ => Panic "pub_to_private is only for PubQueueMessage values"
  end.

Definition private_to_pub (val : Value) : result Value :=
  match val with
  | Value_TestCreateQueueMessage m =>
      Ok (Value_TestCreateQueueMessagePub
            (mkTestCreateQueueMessagePub (TestCreateQueueMessage_value m)))
  | Value_TestInfiniteSummatorQueueMessage m =>
      Ok (Value_TestInfiniteSummatorQueueMessagePub
            (mkTestInfiniteSummatorQueueMessagePub
               (TestInfiniteSummatorQueueMessage_a m)
               (TestInfiniteSummatorQueueMessage_b m)))
  | _ => Panic "private_to_pub is only for PubQueueMessage values"
  end.

(** ** Futures and runtime primitives *)

Inductive FutureKind : Type :=
| FutureKind_FutureTestIncrementTask
| FutureKind_FutureU64
| FutureKind_FutureUnit.

Definition wrap_future_id (kind : FutureKind) (id : string) : Value :=
  match kind with
  | FutureKind_FutureTestIncrementTask => Value_FutureTestIncrementTask id
  | FutureKind_FutureU64 => Value_FutureU64 id
  | FutureKind_FutureUnit => Value_FutureUnit id
  end.

Inductive SuccessBindKind : Type :=
| SuccessBindKind_String
| SuccessBindKind_Future (kind : FutureKind).

Inductive CreatePrimitiveValue : Type :=
| CreatePrimitiveValue_Future
| CreatePrimitiveValue_Queue (name : string) (public : bool)
| CreatePrimitiveValue_Schedule (ms : Z).

Inductive SetPrimitiveValue : Type :=
| SetPrimitiveValue_QueueMessage (queue_name : string) (value : Value)
| SetPrimitiveValue_Future (id : string) (value : Value).

(** ** [Debug] output *)

Definition is_control (c : ascii) : bool := (N_of_ascii c <? 32)%N || (N_of_ascii c =? 127)%N.
Definition hex_digit (n : N) : string := String (ascii_of_N (if (n <? 10)%N then 48 + n else 87 + n)%N) "".
Definition hex (n : N) : string := (if (n <? 16)%N then "" else hex_digit (n / 16)) +:+ hex_digit (n mod 16)%N.

(** The escapes [{:?}] applies to the ASCII characters a Rust string can hold. *)
Fixpoint debug_chars (s : string) : string :=
  match s with
  | EmptyString => ""
  | String c s' =>
      (if decide (c = "034"%char) then String "092" (String "034" "")
       else if decide (c = "092"%char) then String "092" (String "092" "")
       else if decide (c = "010"%char) then "\n"
       else if decide (c = "013"%char) then "\r"
       else if decide (c = "009"%char) then "\t"
       else if decide (c = "000"%char) then "\0"
       else if is_control c then "\u{" +:+ hex (N_of_ascii c) +:+ "}"
       else String c "") +:+ debug_chars s'
  end.

Definition quote : string := String "034" "".
Definition debug_string (s : string) : string := quote +:+ debug_chars s +:+ quote.
Definition debug_u64 (n : Z) : string := pretty n.

Fixpoint debug_items (l : list Z) : string :=
  match l with
  | [] => ""
  | [x] => debug_u64 x
  | x :: l' => debug_u64 x +:+ ", " +:+ debug_items l'
  end.

(** The derived [Debug] of a tuple variant or newtype with one field. *)
Definition debug_tuple (name body : string) : string := name +:+ "(" +:+ body +:+ ")".

Definition debug_option {A} (f : A -> string) (o : option A) : string :=
  match o with
  | Some a => debug_tuple "Some" (f a)
  | None => "None"
  end.

Fixpoint debug_fields (fs : list (string * string)) : string :=
  match fs with
  | [] => ""
  | [(k, v)] => k +:+ ": " +:+ v
  | (k, v) :: fs' => k +:+ ": " +:+ v +:+ ", " +:+ debug_fields fs'
  end.

Definition debug_struct (name : string) (fs : list (string * string)) : string :=
  name +:+ " { " +:+ debug_fields fs +:+ " }".

Definition debug_future (name id : string) : string := debug_tuple name (debug_string id).

Definition debug_Value (v : Value) : string :=
  match v with
  | Value_ArrayU64 l => debug_tuple "ArrayU64" ("[" +:+ debug_items l +:+ "]")
  | Value_Bool b => debug_tuple "Bool" (if b then "true" else "false")
  | Value_FutureTestIncrementTask id =>
      debug_tuple "FutureTestIncrementTask" (debug_future "FutureTestIncrementTask" id)
  | Value_FutureU64 id => debug_tuple "FutureU64" (debug_future "FutureU64" id)
  | Value_FutureUnit id => debug_tuple "FutureUnit" (debug_future "FutureUnit" id)
  | Value_OptionString o => debug_tuple "OptionString" (debug_option debug_string o)
  | Value_OptionU64 o => debug_tuple "OptionU64" (debug_option debug_u64 o)
  | Value_String s => debug_tuple "String" (debug_string s)
  | Value_TestCalculatorTask m =>
      debug_tuple "TestCalculatorTask" (debug_struct "TestCalculatorTask"
        [("a", debug_u64 (TestCalculatorTask_a m)); ("b", debug_u64 (TestCalculatorTask_b m));
         ("responseFutureId", debug_future "FutureU64" (TestCalculatorTask_responseFutureId m))])
  | Value_TestCreateQueueMessage m =>
      debug_tuple "TestCreateQueueMessage" (debug_struct "TestCreateQueueMessage"
        [("value", debug_u64 (TestCreateQueueMessage_value m));
         ("publicFutureId", debug_future "FutureU64" (TestCreateQueueMessage_publicFutureId m))])
  | Value_TestCreateQueueMessagePub m =>
      debug_tuple "TestCreateQueueMessagePub" (debug_struct "TestCreateQueueMessagePub"
        [("value", debug_u64 (TestCreateQueueMessagePub_value m))])
  | Value_TestIncrementTask m =>
      debug_tuple "TestIncrementTask" (debug_struct "TestIncrementTask"
        [("inStrValue", debug_u64 (TestIncrementTask_inStrValue m));
         ("inStrRespFutureId", debug_string (TestIncrementTask_inStrRespFutureId m));
         ("inStrRespQueueName", debug_string (TestIncrementTask_inStrRespQueueName m))])
  | Value_TestInfiniteSummatorQueueMessage m =>
      debug_tuple "TestInfiniteSummatorQueueMessage"
        (debug_struct "TestInfiniteSummatorQueueMessage"
          [("a", debug_u64 (TestInfiniteSummatorQueueMessage_a m));
           ("b", debug_u64 (TestInfiniteSummatorQueueMessage_b m));
           ("publicFutureId",
             debug_future "FutureU64" (TestInfiniteSummatorQueueMessage_publicFutureId m))])
  | Value_TestInfiniteSummatorQueueMessagePub m =>
      debug_tuple "TestInfiniteSummatorQueueMessagePub"
        (debug_struct "TestInfiniteSummatorQueueMessagePub"
          [("a", debug_u64 (TestInfiniteSummatorQueueMessagePub_a m));
           ("b", debug_u64 (TestInfiniteSummatorQueueMessagePub_b m))])
  | Value_U64 n => debug_tuple "U64" (debug_u64 n)
  | Value_Unit => debug_tuple "Unit" "()"
  end.

(** ** Lemmas *)

(** The values a gateway may send: those [pub_to_private] accepts. *)
Definition is_public (v : Value) : Prop :=
  match v with
  | Value_TestCreateQueueMessagePub _ | Value_TestInfiniteSummatorQueueMessagePub _ => True
  | _ => False
  end.

#[export] Instance is_public_dec v : Decision (is_public v).
Proof. destruct v; apply _. Defined.

Lemma pub_to_private_ok v id :
  is_public v -> exists w, pub_to_private v id = Ok w /\ private_to_pub w = Ok v.
Proof.
  destruct v as [ | | | | | | | | | |[n]| | |[x y]| |]; cbn; intros Hp; try done; eauto.
Qed.

Lemma pub_to_private_panics v id :
  ~ is_public v -> pub_to_private v id = Panic "pub_to_private is only for PubQueueMessage values".
Proof. destruct v; cbn; tauto. Qed.
