(* ===== verification/Assembler.v ===== *)
(** * The generated crate: states, steps and entry points

    Models [generated/src/maroon_assembler.rs], the program [dsl::codegen] emits
    for [runtime/src/ir_spec.rs] and the runtime executes: [State] and
    [StepResult], the frame size of every state ([func_args_count]), the step
    function [global_step] (one definition per function of the IR, dispatched as
    the single Rust [match] does), and the tables that build the first stack and
    heap of a fiber. A variable a step reads is fetched by [get_*], which panics
    as the generated [unreachable!()] and the slice index do. *)
From S2P Require Import Prelude Values.
Local Open Scope string_scope.

Inductive State : Type :=
| State_Completed
| State_Idle
| State_RootMainEntry
| State_RootMainReturn
| State_TestCalculatorMainCalculate
| State_TestCalculatorMainDebugGottenTask
| State_TestCalculatorMainDebugVars
| State_TestCalculatorMainEntry
| State_TestCalculatorMainResponse
| State_TestCalculatorMainReturn
| State_TestCalculatorMainSelectQueue
| State_TestCreateQueueMainAnswer
| State_TestCreateQueueMainAwaitOnQueue
| State_TestCreateQueueMainCleanUp
| State_TestCreateQueueMainCorrectCreation
| State_TestCreateQueueMainDebugVars
| State_TestCreateQueueMainDebugVars2
| State_TestCreateQueueMainDebugVars3
| State_TestCreateQueueMainEntry
| State_TestCreateQueueMainExtractFutAndInc
| State_TestCreateQueueMainReturn
| State_TestCreateQueueMainWrongQueueCreation
| State_TestFunctionsCallBinarySearchCalculateDiv
| State_TestFunctionsCallBinarySearchCmpLess
| State_TestFunctionsCallBinarySearchEntry
| State_TestFunctionsCallBinarySearchGoLeft
| State_TestFunctionsCallBinarySearchGoLeftCheckOverflow
| State_TestFunctionsCallBinarySearchGoRight
| State_TestFunctionsCallBinarySearchRecursiveCall
| State_TestFunctionsCallBinarySearchReturnNone
| State_TestFunctionsCallBinarySearchReturnFound
| State_TestFunctionsCallBinarySearchReturnIfEqual
| State_TestFunctionsCallBinarySearchReturnResult
| State_TestFunctionsCallFactorialEntry
| State_TestFunctionsCallFactorialFactorialCall
| State_TestFunctionsCallFactorialMultiply
| State_TestFunctionsCallFactorialReturn
| State_TestFunctionsCallFactorialReturn1
| State_TestFunctionsCallFactorialSubtract
| State_TestFunctionsCallMainAfterBinary
| State_TestFunctionsCallMainAfterFactorial
| State_TestFunctionsCallMainAfterMultiply
| State_TestFunctionsCallMainBinarySearch
| State_TestFunctionsCallMainEntry
| State_TestFunctionsCallMainFactorial
| State_TestFunctionsCallMainFinish
| State_TestFunctionsCallMainMultiply
| State_TestFunctionsCallMainSetBSearchValues
| State_TestFunctionsCallMultEntry
| State_TestFunctionsCallSubEntry
| State_TestInfiniteSummatorMainCalculate
| State_TestInfiniteSummatorMainCreateQueue
| State_TestInfiniteSummatorMainEntry
| State_TestInfiniteSummatorMainResponse
| State_TestInfiniteSummatorMainReturn
| State_TestInfiniteSummatorMainSelectQueue
| State_TestRootFiberMainAwaitResponse
| State_TestRootFiberMainAwaitResponse2
| State_TestRootFiberMainCreateFiber
| State_TestRootFiberMainCreateFuture
| State_TestRootFiberMainCreateQueueues
| State_TestRootFiberMainEntry
| State_TestRootFiberMainPrepareCalculationRequests
| State_TestRootFiberMainReturn
| State_TestRootFiberMainReturnDbg
| State_TestRootFiberMainSendCalculationRequest
| State_TestRootFiberSleepTestMainCreatePrimitives
| State_TestRootFiberSleepTestMainEntry
| State_TestRootFiberSleepTestMainReturn
| State_TestRootFiberSleepTestMainReturnDbg
| State_TestRootFiberSleepTestMainSeelect
| State_TestSelectQueueMainCompare
| State_TestSelectQueueMainEntry
| State_TestSelectQueueMainIncFromFut
| State_TestSelectQueueMainInitFutureId
| State_TestSelectQueueMainPrepareCond
| State_TestSelectQueueMainReturn
| State_TestSelectQueueMainSelectCounter
| State_TestSelectQueueMainStartWork
| State_TestTaskExecutorIncrementerMainAwait
| State_TestTaskExecutorIncrementerMainDebug2
| State_TestTaskExecutorIncrementerMainDebugVars
| State_TestTaskExecutorIncrementerMainDebugVars2
| State_TestTaskExecutorIncrementerMainEntry
| State_TestTaskExecutorIncrementerMainIncrement
| State_TestTaskExecutorIncrementerMainInitQueueName
| State_TestTaskExecutorIncrementerMainReturn
| State_TestTaskExecutorIncrementerMainReturnResult.

(** ** Stack entries and step results *)

Inductive StackEntry : Type :=
| StackEntry_State (s : State)
| StackEntry_Retrn (offset : option nat)
| StackEntry_Value (name : string) (v : Value)
| StackEntry_FrameAssign (updates : list (nat * Value)).

Inductive SelectArm : Type :=
| SelectArm_FutureVar (future_id : string) (bind : option string) (next : State)
| SelectArm_Queue (queue_name : string) (bind : string) (next : State).

Inductive StepResult : Type :=
| StepResult_Done
| StepResult_Next (entries : list StackEntry)
| StepResult_GoTo (s : State)
| StepResult_Select (arms : list SelectArm)
| StepResult_Create (primitives : list CreatePrimitiveValue)
    (success_next : State) (success_binds : list string)
    (success_kinds : list SuccessBindKind)
    (fail_next : State) (fail_binds : list string)
| StepResult_Return (v : Value)
| StepResult_ReturnVoid
| StepResult_Todo (msg : string)
| StepResult_SetValues (values : list SetPrimitiveValue) (next : State)
| StepResult_Debug (msg : string) (next : State)
| StepResult_DebugPrintVars (next : State)
| StepResult_CreateFibers (details : list (string * list Value)) (next : State).

(** ** Heaps *)

Record RootHeap := mkRootHeap {}.
Record TestCalculatorInVars := mkTestCalculatorInVars {
  TestCalculatorInVars_calculationRequestsQueueName : string
}.
Record TestCalculatorHeap := mkTestCalculatorHeap {
  TestCalculatorHeap_in_vars : TestCalculatorInVars
}.
Record TestCreateQueueHeap := mkTestCreateQueueHeap {}.
Record TestFunctionsCallInVars := mkTestFunctionsCallInVars {
  TestFunctionsCallInVars_binarySearchArray : list Z;
  TestFunctionsCallInVars_binarySearchTarget : Z;
  TestFunctionsCallInVars_factorialStart : Z;
  TestFunctionsCallInVars_multa : Z;
  TestFunctionsCallInVars_multb : Z
}.
Record TestFunctionsCallHeap := mkTestFunctionsCallHeap {
  TestFunctionsCallHeap_binarySearchValues : list Z;
  TestFunctionsCallHeap_in_vars : TestFunctionsCallInVars
}.
Record TestInfiniteSummatorHeap := mkTestInfiniteSummatorHeap {}.
Record TestRootFiberHeap := mkTestRootFiberHeap {}.
Record TestRootFiberSleepTestHeap := mkTestRootFiberSleepTestHeap {}.
Record TestSelectQueueHeap := mkTestSelectQueueHeap {}.
Record TestTaskExecutorIncrementerInVars := mkTestTaskExecutorIncrementerInVars {
  TestTaskExecutorIncrementerInVars_inTaskqueuename : string
}.
Record TestTaskExecutorIncrementerHeap := mkTestTaskExecutorIncrementerHeap {
  TestTaskExecutorIncrementerHeap_in_vars : TestTaskExecutorIncrementerInVars
}.
Record Heap := mkHeap {
  Heap_root : RootHeap;
  Heap_testCalculator : TestCalculatorHeap;
  Heap_testCreateQueue : TestCreateQueueHeap;
  Heap_testFunctionsCall : TestFunctionsCallHeap;
  Heap_testInfiniteSummator : TestInfiniteSummatorHeap;
  Heap_testRootFiber : TestRootFiberHeap;
  Heap_testRootFiberSleepTest : TestRootFiberSleepTestHeap;
  Heap_testSelectQueue : TestSelectQueueHeap;
  Heap_testTaskExecutorIncrementer : TestTaskExecutorIncrementerHeap
}.

(** The heap with the three variable parts given and the empty structs elsewhere. *)
Definition heap_of (calc : TestCalculatorHeap) (calls : TestFunctionsCallHeap)
  (inc : TestTaskExecutorIncrementerHeap) : Heap :=
  mkHeap mkRootHeap calc mkTestCreateQueueHeap calls mkTestInfiniteSummatorHeap
    mkTestRootFiberHeap mkTestRootFiberSleepTestHeap mkTestSelectQueueHeap inc.

(** The derived [Default]s. *)
Definition TestCalculatorHeap_default := mkTestCalculatorHeap (mkTestCalculatorInVars "").
Definition TestFunctionsCallHeap_default :=
  mkTestFunctionsCallHeap [] (mkTestFunctionsCallInVars [] 0 0 0 0).
Definition TestTaskExecutorIncrementerHeap_default :=
  mkTestTaskExecutorIncrementerHeap (mkTestTaskExecutorIncrementerInVars "").
Definition Heap_default : Heap :=
  heap_of TestCalculatorHeap_default TestFunctionsCallHeap_default
    TestTaskExecutorIncrementerHeap_default.

(** [heap.testFunctionsCall.binarySearchValues = l;] *)
Definition set_binarySearchValues (l : list Z) (h : Heap) : Heap :=
  mkHeap (Heap_root h) (Heap_testCalculator h) (Heap_testCreateQueue h)
    (mkTestFunctionsCallHeap l (TestFunctionsCallHeap_in_vars (Heap_testFunctionsCall h)))
    (Heap_testInfiniteSummator h) (Heap_testRootFiber h) (Heap_testRootFiberSleepTest h)
    (Heap_testSelectQueue h) (Heap_testTaskExecutorIncrementer h).

(** ** Frame sizes *)

Definition func_args_count (e : State) : nat :=
  match e with
  | State_RootMainEntry
  | State_RootMainReturn => 0
  | State_TestCalculatorMainEntry
  | State_TestCalculatorMainCalculate
  | State_TestCalculatorMainDebugGottenTask
  | State_TestCalculatorMainDebugVars
  | State_TestCalculatorMainResponse
  | State_TestCalculatorMainReturn
  | State_TestCalculatorMainSelectQueue => 3
  | State_TestCreateQueueMainEntry
  | State_TestCreateQueueMainAnswer
  | State_TestCreateQueueMainAwaitOnQueue
  | State_TestCreateQueueMainCleanUp
  | State_TestCreateQueueMainCorrectCreation
  | State_TestCreateQueueMainDebugVars
  | State_TestCreateQueueMainDebugVars2
  | State_TestCreateQueueMainDebugVars3
  | State_TestCreateQueueMainExtractFutAndInc
  | State_TestCreateQueueMainReturn
  | State_TestCreateQueueMainWrongQueueCreation
  | State_TestFunctionsCallBinarySearchEntry
  | State_TestFunctionsCallBinarySearchCalculateDiv
  | State_TestFunctionsCallBinarySearchCmpLess
  | State_TestFunctionsCallBinarySearchGoLeft
  | State_TestFunctionsCallBinarySearchGoLeftCheckOverflow
  | State_TestFunctionsCallBinarySearchGoRight
  | State_TestFunctionsCallBinarySearchRecursiveCall
  | State_TestFunctionsCallBinarySearchReturnNone
  | State_TestFunctionsCallBinarySearchReturnFound
  | State_TestFunctionsCallBinarySearchReturnIfEqual
  | State_TestFunctionsCallBinarySearchReturnResult => 6
  | State_TestFunctionsCallFactorialEntry
  | State_TestFunctionsCallFactorialFactorialCall
  | State_TestFunctionsCallFactorialMultiply
  | State_TestFunctionsCallFactorialReturn
  | State_TestFunctionsCallFactorialReturn1
  | State_TestFunctionsCallFactorialSubtract => 4
  | State_TestFunctionsCallMainEntry
  | State_TestFunctionsCallMainAfterBinary
  | State_TestFunctionsCallMainAfterFactorial
  | State_TestFunctionsCallMainAfterMultiply
  | State_TestFunctionsCallMainBinarySearch
  | State_TestFunctionsCallMainFactorial
  | State_TestFunctionsCallMainFinish
  | State_TestFunctionsCallMainMultiply
  | State_TestFunctionsCallMainSetBSearchValues => 5
  | State_TestFunctionsCallMultEntry
  | State_TestFunctionsCallSubEntry => 3
  | State_TestInfiniteSummatorMainEntry
  | State_TestInfiniteSummatorMainCalculate
  | State_TestInfiniteSummatorMainCreateQueue
  | State_TestInfiniteSummatorMainResponse
  | State_TestInfiniteSummatorMainReturn
  | State_TestInfiniteSummatorMainSelectQueue => 5
  | State_TestRootFiberMainEntry
  | State_TestRootFiberMainAwaitResponse
  | State_TestRootFiberMainAwaitResponse2
  | State_TestRootFiberMainCreateFiber
  | State_TestRootFiberMainCreateFuture
  | State_TestRootFiberMainCreateQueueues
  | State_TestRootFiberMainPrepareCalculationRequests
  | State_TestRootFiberMainReturn
  | State_TestRootFiberMainReturnDbg
  | State_TestRootFiberMainSendCalculationRequest => 10
  | State_TestRootFiberSleepTestMainEntry
  | State_TestRootFiberSleepTestMainCreatePrimitives
  | State_TestRootFiberSleepTestMainReturn
  | State_TestRootFiberSleepTestMainReturnDbg
  | State_TestRootFiberSleepTestMainSeelect => 3
  | State_TestSelectQueueMainEntry
  | State_TestSelectQueueMainCompare
  | State_TestSelectQueueMainIncFromFut
  | State_TestSelectQueueMainInitFutureId
  | State_TestSelectQueueMainPrepareCond
  | State_TestSelectQueueMainReturn
  | State_TestSelectQueueMainSelectCounter
  | State_TestSelectQueueMainStartWork => 5
  | State_TestTaskExecutorIncrementerMainEntry
  | State_TestTaskExecutorIncrementerMainAwait
  | State_TestTaskExecutorIncrementerMainDebug2
  | State_TestTaskExecutorIncrementerMainDebugVars
  | State_TestTaskExecutorIncrementerMainDebugVars2
  | State_TestTaskExecutorIncrementerMainIncrement
  | State_TestTaskExecutorIncrementerMainInitQueueName
  | State_TestTaskExecutorIncrementerMainReturn
  | State_TestTaskExecutorIncrementerMainReturnResult => 4
  | State_Idle
  | State_Completed => 0
  end.

(** ** Reading frame variables *)

Definition get_var {A} (pick : Value -> option A) (vars : list StackEntry) (i : nat) : result A :=
  match vars !! i with
  | None => Panic "index out of bounds"
  | Some (StackEntry_Value _ v) =>
      expect "internal error: entered unreachable code" (pick v)
  | Some _ => Panic "internal error: entered unreachable code"
  end.

Definition get_U64 := get_var (fun v => match v with Value_U64 x => Some x | _ => None end).
Definition get_String := get_var (fun v => match v with Value_String x => Some x | _ => None end).
Definition get_Bool := get_var (fun v => match v with Value_Bool x => Some x | _ => None end).
Definition get_OptionString := get_var (fun v => match v with Value_OptionString x => Some x | _ => None end).
Definition get_OptionU64 := get_var (fun v => match v with Value_OptionU64 x => Some x | _ => None end).
Definition get_FutureU64 := get_var (fun v => match v with Value_FutureU64 x => Some x | _ => None end).
Definition get_FutureUnit := get_var (fun v => match v with Value_FutureUnit x => Some x | _ => None end).
Definition get_FutureTestIncrementTask := get_var (fun v => match v with Value_FutureTestIncrementTask x => Some x | _ => None end).
Definition get_TestCalculatorTask := get_var (fun v => match v with Value_TestCalculatorTask x => Some x | _ => None end).
Definition get_TestCreateQueueMessage := get_var (fun v => match v with Value_TestCreateQueueMessage x => Some x | _ => None end).
Definition get_TestInfiniteSummatorQueueMessage := get_var (fun v => match v with Value_TestInfiniteSummatorQueueMessage x => Some x | _ => None end).
Definition get_TestIncrementTask := get_var (fun v => match v with Value_TestIncrementTask x => Some x | _ => None end).

(** An argument of a prepare function: [&args[i]] with its variant. *)
Definition arg_U64 (msg : string) (args : list Value) (i : nat) : result Z :=
  match args !! i with
  | None => Panic "index out of bounds"
  | Some (Value_U64 x) => Ok x
  | Some _ => Panic msg
  end.

(** ** The step function *)

Section steps.
Context `{Profile}.

Definition step_root (state : State) (vars : list StackEntry) (heap : Heap)
  : option (result (StepResult * Heap)) :=
  match state with
  | State_RootMainEntry => Some (
      Ok (StepResult_CreateFibers [("testInfiniteSummator", [])] State_RootMainReturn, heap))
  | State_RootMainReturn => Some (Ok (StepResult_ReturnVoid, heap))
  | _ => None
  end.

Definition step_testCalculator (state : State) (vars : list StackEntry) (heap : Heap)
  : option (result (StepResult * Heap)) :=
  match state with
  | State_TestCalculatorMainEntry => Some (
      Ok (StepResult_DebugPrintVars State_TestCalculatorMainSelectQueue, heap))
  | State_TestCalculatorMainCalculate => Some (
      let calculationRequestsQueueName := TestCalculatorInVars_calculationRequestsQueueName (TestCalculatorHeap_in_vars (Heap_testCalculator heap)) in
      request ← get_TestCalculatorTask vars 0;
      respFutureId ← get_FutureU64 vars 2;
      result ← get_U64 vars 1;
      o0 ← u64_mul (TestCalculatorTask_a request) (TestCalculatorTask_b request);
      let o1 := TestCalculatorTask_responseFutureId request in
      Ok (StepResult_Next [StackEntry_FrameAssign [(1, Value_U64 o0); (2, Value_FutureU64 o1)];
        StackEntry_State State_TestCalculatorMainResponse], heap))
  | State_TestCalculatorMainDebugGottenTask => Some (
      Ok (StepResult_Debug "got task from the queue" State_TestCalculatorMainDebugVars, heap))
  | State_TestCalculatorMainDebugVars => Some (
      Ok (StepResult_DebugPrintVars State_TestCalculatorMainCalculate, heap))
  | State_TestCalculatorMainResponse => Some (
      respFutureId ← get_FutureU64 vars 2;
      result ← get_U64 vars 1;
      Ok (StepResult_SetValues [SetPrimitiveValue_Future respFutureId (Value_U64 result)] State_TestCalculatorMainReturn,
        heap))
  | State_TestCalculatorMainReturn => Some (Ok (StepResult_ReturnVoid, heap))
  | State_TestCalculatorMainSelectQueue => Some (
      let calculationRequestsQueueName := TestCalculatorInVars_calculationRequestsQueueName (TestCalculatorHeap_in_vars (Heap_testCalculator heap)) in
      Ok (StepResult_Select [SelectArm_Queue calculationRequestsQueueName "request" State_TestCalculatorMainDebugGottenTask],
        heap))
  | _ => None
  end.

Definition step_testCreateQueue (state : State) (vars : list StackEntry) (heap : Heap)
  : option (result (StepResult * Heap)) :=
  match state with
  | State_TestCreateQueueMainEntry => Some (
      Ok (StepResult_Next [StackEntry_FrameAssign [(1, Value_String "randomQueueName")];
        StackEntry_State State_TestCreateQueueMainWrongQueueCreation], heap))
  | State_TestCreateQueueMainAnswer => Some (
      fFutureIdResponse ← get_FutureU64 vars 4;
      fResInc ← get_U64 vars 5;
      Ok (StepResult_SetValues [SetPrimitiveValue_Future fFutureIdResponse (Value_U64 fResInc)] State_TestCreateQueueMainReturn,
        heap))
  | State_TestCreateQueueMainAwaitOnQueue => Some (
      createdQueueName ← get_String vars 2;
      Ok (StepResult_Select [SelectArm_Queue createdQueueName "value" State_TestCreateQueueMainExtractFutAndInc],
        heap))
  | State_TestCreateQueueMainCleanUp => Some (
      createdQueueName ← get_String vars 2;
      fFutureIdResponse ← get_FutureU64 vars 4;
      fQueuecreationerror ← get_OptionString vars 3;
      fQueuename ← get_String vars 1;
      fResInc ← get_U64 vars 5;
      value ← get_TestCreateQueueMessage vars 0;
      let o0 := "" in
      let o1 := @None string in
      Ok (StepResult_Next [StackEntry_FrameAssign [(2, Value_String o0); (3,
        Value_OptionString o1)]; StackEntry_State State_TestCreateQueueMainCorrectCreation],
        heap))
  | State_TestCreateQueueMainCorrectCreation => Some (
      fQueuename ← get_String vars 1;
      x0 ← get_String vars 1;
      Ok (StepResult_Create [CreatePrimitiveValue_Queue x0 true] State_TestCreateQueueMainDebugVars2 ["created_queue_name"] [SuccessBindKind_String] State_TestCreateQueueMainReturn ["f_queueCreationError"],
        heap))
  | State_TestCreateQueueMainDebugVars => Some (
      Ok (StepResult_DebugPrintVars State_TestCreateQueueMainCleanUp, heap))
  | State_TestCreateQueueMainDebugVars2 => Some (
      Ok (StepResult_DebugPrintVars State_TestCreateQueueMainAwaitOnQueue, heap))
  | State_TestCreateQueueMainDebugVars3 => Some (
      Ok (StepResult_DebugPrintVars State_TestCreateQueueMainAnswer, heap))
  | State_TestCreateQueueMainExtractFutAndInc => Some (
      createdQueueName ← get_String vars 2;
      fFutureIdResponse ← get_FutureU64 vars 4;
      fQueuecreationerror ← get_OptionString vars 3;
      fQueuename ← get_String vars 1;
      fResInc ← get_U64 vars 5;
      value ← get_TestCreateQueueMessage vars 0;
      let o0 := TestCreateQueueMessage_publicFutureId value in
      o1 ← u64_add (TestCreateQueueMessage_value value) 2;
      Ok (StepResult_Next [StackEntry_FrameAssign [(4, Value_FutureU64 o0); (5, Value_U64 o1)];
        StackEntry_State State_TestCreateQueueMainDebugVars3], heap))
  | State_TestCreateQueueMainReturn => Some (Ok (StepResult_ReturnVoid, heap))
  | State_TestCreateQueueMainWrongQueueCreation => Some (
      fQueuename ← get_String vars 1;
      x0 ← get_String vars 1;
      x1 ← get_String vars 1;
      Ok (StepResult_Create [CreatePrimitiveValue_Queue x0 true;
        CreatePrimitiveValue_Queue x1 true] State_TestCreateQueueMainReturn ["created_queue_name";
        "created_queue_name"] [SuccessBindKind_String;
        SuccessBindKind_String] State_TestCreateQueueMainDebugVars ["f_queueCreationError";
        "f_queueCreationError"], heap))
  | _ => None
  end.

Definition step_testFunctionsCallBinarySearch (state : State) (vars : list StackEntry) (heap : Heap)
  : option (result (StepResult * Heap)) :=
  match state with
  | State_TestFunctionsCallBinarySearchEntry => Some (
      e ← get_U64 vars 0;
      left ← get_U64 vars 1;
      right ← get_U64 vars 2;
      if (left >? right)%Z then Ok (StepResult_GoTo State_TestFunctionsCallBinarySearchReturnNone,
        heap)
      else Ok (StepResult_GoTo State_TestFunctionsCallBinarySearchCalculateDiv, heap))
  | State_TestFunctionsCallBinarySearchCalculateDiv => Some (
      let binarySearchArray := TestFunctionsCallInVars_binarySearchArray (TestFunctionsCallHeap_in_vars (Heap_testFunctionsCall heap)) in
      let binarySearchTarget := TestFunctionsCallInVars_binarySearchTarget (TestFunctionsCallHeap_in_vars (Heap_testFunctionsCall heap)) in
      div ← get_U64 vars 3;
      e ← get_U64 vars 0;
      facCallRes ← get_OptionU64 vars 5;
      let factorialStart := TestFunctionsCallInVars_factorialStart (TestFunctionsCallHeap_in_vars (Heap_testFunctionsCall heap)) in
      left ← get_U64 vars 1;
      let multa := TestFunctionsCallInVars_multa (TestFunctionsCallHeap_in_vars (Heap_testFunctionsCall heap)) in
      let multb := TestFunctionsCallInVars_multb (TestFunctionsCallHeap_in_vars (Heap_testFunctionsCall heap)) in
      right ← get_U64 vars 2;
      vByIndexDiv ← get_U64 vars 4;
      sum ← u64_add left right;
      let o_div := (sum / 2)%Z in
      let s := Heap_testFunctionsCall heap in
      let o0 := o_div in
      o1 ← expect "index out of bounds" (TestFunctionsCallHeap_binarySearchValues s !! Z.to_nat o_div);
      Ok (StepResult_Next [StackEntry_FrameAssign [(3, Value_U64 o0); (4, Value_U64 o1)];
        StackEntry_State State_TestFunctionsCallBinarySearchReturnIfEqual], heap))
  | State_TestFunctionsCallBinarySearchCmpLess => Some (
      e ← get_U64 vars 0;
      vByIndexDiv ← get_U64 vars 4;
      if (vByIndexDiv <? e)%Z then Ok (StepResult_GoTo State_TestFunctionsCallBinarySearchGoRight,
        heap)
      else Ok (StepResult_GoTo State_TestFunctionsCallBinarySearchGoLeftCheckOverflow, heap))
  | State_TestFunctionsCallBinarySearchGoLeft => Some (
      div ← get_U64 vars 3;
      Ok (StepResult_Next [StackEntry_State State_TestFunctionsCallBinarySearchRecursiveCall;
        StackEntry_Retrn (Some 5); StackEntry_Value "a" (Value_U64 div);
        StackEntry_Value "b" (Value_U64 1); StackEntry_Value "sub" (Value_U64 0);
        StackEntry_State State_TestFunctionsCallSubEntry], heap))
  | State_TestFunctionsCallBinarySearchGoLeftCheckOverflow => Some (
      div ← get_U64 vars 3;
      if (div <? 0)%Z then Ok (StepResult_GoTo State_TestFunctionsCallBinarySearchReturnNone, heap)
      else Ok (StepResult_GoTo State_TestFunctionsCallBinarySearchGoLeft, heap))
  | State_TestFunctionsCallBinarySearchGoRight => Some (
      div ← get_U64 vars 3;
      Ok (StepResult_GoTo State_TestFunctionsCallBinarySearchRecursiveCall, heap))
  | State_TestFunctionsCallBinarySearchRecursiveCall => Some (
      e ← get_U64 vars 0;
      left ← get_U64 vars 1;
      right ← get_U64 vars 2;
      Ok (StepResult_Next [StackEntry_State State_TestFunctionsCallBinarySearchReturnResult;
        StackEntry_Retrn (Some 2); StackEntry_Value "e" (Value_U64 e);
        StackEntry_Value "left" (Value_U64 left); StackEntry_Value "right" (Value_U64 right);
        StackEntry_Value "div" (Value_U64 0); StackEntry_Value "v_by_index_div" (Value_U64 0);
        StackEntry_Value "fac_call_res" (Value_OptionU64 None);
        StackEntry_State State_TestFunctionsCallBinarySearchEntry], heap))
  | State_TestFunctionsCallBinarySearchReturnNone => Some (
      Ok (StepResult_Return (Value_OptionU64 None), heap))
  | State_TestFunctionsCallBinarySearchReturnFound => Some (
      div ← get_U64 vars 3;
      Ok (StepResult_Return (Value_OptionU64 (Some div)), heap))
  | State_TestFunctionsCallBinarySearchReturnIfEqual => Some (
      e ← get_U64 vars 0;
      vByIndexDiv ← get_U64 vars 4;
      if (vByIndexDiv =? e)%Z then Ok (StepResult_GoTo State_TestFunctionsCallBinarySearchReturnFound,
        heap)
      else Ok (StepResult_GoTo State_TestFunctionsCallBinarySearchCmpLess, heap))
  | State_TestFunctionsCallBinarySearchReturnResult => Some (
      facCallRes ← get_OptionU64 vars 5;
      Ok (StepResult_Return (Value_OptionU64 facCallRes), heap))
  | _ => None
  end.

Definition step_testFunctionsCallFactorial (state : State) (vars : list StackEntry) (heap : Heap)
  : option (result (StepResult * Heap)) :=
  match state with
  | State_TestFunctionsCallFactorialEntry => Some (
      n ← get_U64 vars 0;
      if (n =? 1)%Z then Ok (StepResult_GoTo State_TestFunctionsCallFactorialReturn1, heap)
      else Ok (StepResult_GoTo State_TestFunctionsCallFactorialSubtract, heap))
  | State_TestFunctionsCallFactorialFactorialCall => Some (
      subtractRes ← get_U64 vars 2;
      Ok (StepResult_Next [StackEntry_State State_TestFunctionsCallFactorialMultiply;
        StackEntry_Retrn (Some 4); StackEntry_Value "n" (Value_U64 subtractRes);
        StackEntry_Value "fac_call_res" (Value_U64 0);
        StackEntry_Value "subtract_res" (Value_U64 0); StackEntry_Value "result" (Value_U64 0);
        StackEntry_State State_TestFunctionsCallFactorialEntry], heap))
  | State_TestFunctionsCallFactorialMultiply => Some (
      facCallRes ← get_U64 vars 1;
      n ← get_U64 vars 0;
      Ok (StepResult_Next [StackEntry_State State_TestFunctionsCallFactorialReturn;
        StackEntry_Retrn (Some 2); StackEntry_Value "a" (Value_U64 n);
        StackEntry_Value "b" (Value_U64 facCallRes); StackEntry_Value "mult" (Value_U64 0);
        StackEntry_State State_TestFunctionsCallMultEntry], heap))
  | State_TestFunctionsCallFactorialReturn => Some (
      result ← get_U64 vars 3;
      Ok (StepResult_Return (Value_U64 result), heap))
  | State_TestFunctionsCallFactorialReturn1 => Some (
      Ok (StepResult_Return (Value_U64 1), heap))
  | State_TestFunctionsCallFactorialSubtract => Some (
      n ← get_U64 vars 0;
      Ok (StepResult_Next [StackEntry_State State_TestFunctionsCallFactorialFactorialCall;
        StackEntry_Retrn (Some 3); StackEntry_Value "a" (Value_U64 n);
        StackEntry_Value "b" (Value_U64 1); StackEntry_Value "sub" (Value_U64 0);
        StackEntry_State State_TestFunctionsCallSubEntry], heap))
  | _ => None
  end.

Definition step_testFunctionsCallMain (state : State) (vars : list StackEntry) (heap : Heap)
  : option (result (StepResult * Heap)) :=
  match state with
  | State_TestFunctionsCallMainEntry => Some (
      Ok (StepResult_DebugPrintVars State_TestFunctionsCallMainMultiply, heap))
  | State_TestFunctionsCallMainAfterBinary => Some (
      Ok (StepResult_DebugPrintVars State_TestFunctionsCallMainFinish, heap))
  | State_TestFunctionsCallMainAfterFactorial => Some (
      Ok (StepResult_DebugPrintVars State_TestFunctionsCallMainSetBSearchValues, heap))
  | State_TestFunctionsCallMainAfterMultiply => Some (
      Ok (StepResult_DebugPrintVars State_TestFunctionsCallMainFactorial, heap))
  | State_TestFunctionsCallMainBinarySearch => Some (
      binarySearchLeft ← get_U64 vars 3;
      binarySearchRight ← get_U64 vars 4;
      let binarySearchTarget := TestFunctionsCallInVars_binarySearchTarget (TestFunctionsCallHeap_in_vars (Heap_testFunctionsCall heap)) in
      Ok (StepResult_Next [StackEntry_State State_TestFunctionsCallMainAfterBinary;
        StackEntry_Retrn (Some 4); StackEntry_Value "e" (Value_U64 binarySearchTarget);
        StackEntry_Value "left" (Value_U64 binarySearchLeft);
        StackEntry_Value "right" (Value_U64 binarySearchRight);
        StackEntry_Value "div" (Value_U64 0); StackEntry_Value "v_by_index_div" (Value_U64 0);
        StackEntry_Value "fac_call_res" (Value_OptionU64 None);
        StackEntry_State State_TestFunctionsCallBinarySearchEntry], heap))
  | State_TestFunctionsCallMainFactorial => Some (
      let factorialStart := TestFunctionsCallInVars_factorialStart (TestFunctionsCallHeap_in_vars (Heap_testFunctionsCall heap)) in
      Ok (StepResult_Next [StackEntry_State State_TestFunctionsCallMainAfterFactorial;
        StackEntry_Retrn (Some 5); StackEntry_Value "n" (Value_U64 factorialStart);
        StackEntry_Value "fac_call_res" (Value_U64 0);
        StackEntry_Value "subtract_res" (Value_U64 0); StackEntry_Value "result" (Value_U64 0);
        StackEntry_State State_TestFunctionsCallFactorialEntry], heap))
  | State_TestFunctionsCallMainFinish => Some (Ok (StepResult_ReturnVoid, heap))
  | State_TestFunctionsCallMainMultiply => Some (
      let multa := TestFunctionsCallInVars_multa (TestFunctionsCallHeap_in_vars (Heap_testFunctionsCall heap)) in
      let multb := TestFunctionsCallInVars_multb (TestFunctionsCallHeap_in_vars (Heap_testFunctionsCall heap)) in
      Ok (StepResult_Next [StackEntry_State State_TestFunctionsCallMainAfterMultiply;
        StackEntry_Retrn (Some 6); StackEntry_Value "a" (Value_U64 multa);
        StackEntry_Value "b" (Value_U64 multb); StackEntry_Value "mult" (Value_U64 0);
        StackEntry_State State_TestFunctionsCallMultEntry], heap))
  | State_TestFunctionsCallMainSetBSearchValues => Some (
      let binarySearchArray := TestFunctionsCallInVars_binarySearchArray (TestFunctionsCallHeap_in_vars (Heap_testFunctionsCall heap)) in
      binarySearchLeft ← get_U64 vars 3;
      binarySearchResult ← get_OptionU64 vars 2;
      binarySearchRight ← get_U64 vars 4;
      let binarySearchTarget := TestFunctionsCallInVars_binarySearchTarget (TestFunctionsCallHeap_in_vars (Heap_testFunctionsCall heap)) in
      factorialResult ← get_U64 vars 1;
      let factorialStart := TestFunctionsCallInVars_factorialStart (TestFunctionsCallHeap_in_vars (Heap_testFunctionsCall heap)) in
      multResult ← get_U64 vars 0;
      let multa := TestFunctionsCallInVars_multa (TestFunctionsCallHeap_in_vars (Heap_testFunctionsCall heap)) in
      let multb := TestFunctionsCallInVars_multb (TestFunctionsCallHeap_in_vars (Heap_testFunctionsCall heap)) in
      let heap := set_binarySearchValues binarySearchArray heap in
      let o0 := 0%Z in
      o1 ← u64_sub (Z.of_nat (length binarySearchArray)) 1;
      Ok (StepResult_Next [StackEntry_FrameAssign [(3, Value_U64 o0); (4, Value_U64 o1)];
        StackEntry_State State_TestFunctionsCallMainBinarySearch], heap))
  | _ => None
  end.

Definition step_testFunctionsCall (state : State) (vars : list StackEntry) (heap : Heap)
  : option (result (StepResult * Heap)) :=
  match state with
  | State_TestFunctionsCallMultEntry => Some (
      a ← get_U64 vars 0;
      b ← get_U64 vars 1;
      let binarySearchArray := TestFunctionsCallInVars_binarySearchArray (TestFunctionsCallHeap_in_vars (Heap_testFunctionsCall heap)) in
      let binarySearchTarget := TestFunctionsCallInVars_binarySearchTarget (TestFunctionsCallHeap_in_vars (Heap_testFunctionsCall heap)) in
      let factorialStart := TestFunctionsCallInVars_factorialStart (TestFunctionsCallHeap_in_vars (Heap_testFunctionsCall heap)) in
      mult ← get_U64 vars 2;
      let multa := TestFunctionsCallInVars_multa (TestFunctionsCallHeap_in_vars (Heap_testFunctionsCall heap)) in
      let multb := TestFunctionsCallInVars_multb (TestFunctionsCallHeap_in_vars (Heap_testFunctionsCall heap)) in
      out ← u64_mul a b;
      Ok (StepResult_Return (Value_U64 out), heap))
  | State_TestFunctionsCallSubEntry => Some (
      a ← get_U64 vars 0;
      b ← get_U64 vars 1;
      let binarySearchArray := TestFunctionsCallInVars_binarySearchArray (TestFunctionsCallHeap_in_vars (Heap_testFunctionsCall heap)) in
      let binarySearchTarget := TestFunctionsCallInVars_binarySearchTarget (TestFunctionsCallHeap_in_vars (Heap_testFunctionsCall heap)) in
      let factorialStart := TestFunctionsCallInVars_factorialStart (TestFunctionsCallHeap_in_vars (Heap_testFunctionsCall heap)) in
      let multa := TestFunctionsCallInVars_multa (TestFunctionsCallHeap_in_vars (Heap_testFunctionsCall heap)) in
      let multb := TestFunctionsCallInVars_multb (TestFunctionsCallHeap_in_vars (Heap_testFunctionsCall heap)) in
      sub ← get_U64 vars 2;
      out ← u64_sub a b;
      Ok (StepResult_Return (Value_U64 out), heap))
  | _ => None
  end.

Definition step_testInfiniteSummator (state : State) (vars : list StackEntry) (heap : Heap)
  : option (result (StepResult * Heap)) :=
  match state with
  | State_TestInfiniteSummatorMainEntry => Some (
      Ok (StepResult_Next [StackEntry_FrameAssign [(0,
        Value_String "testInfiniteCalculatorQueue")];
        StackEntry_State State_TestInfiniteSummatorMainCreateQueue], heap))
  | State_TestInfiniteSummatorMainCalculate => Some (
      createQueueError ← get_OptionString vars 3;
      infiniteCalculatorQueue ← get_String vars 0;
      request ← get_TestInfiniteSummatorQueueMessage vars 1;
      respFutureId ← get_FutureU64 vars 4;
      result ← get_U64 vars 2;
      o0 ← u64_mul (TestInfiniteSummatorQueueMessage_a request) (TestInfiniteSummatorQueueMessage_b request);
      let o1 := TestInfiniteSummatorQueueMessage_publicFutureId request in
      Ok (StepResult_Next [StackEntry_FrameAssign [(2, Value_U64 o0); (4, Value_FutureU64 o1)];
        StackEntry_State State_TestInfiniteSummatorMainResponse], heap))
  | State_TestInfiniteSummatorMainCreateQueue => Some (
      infiniteCalculatorQueue ← get_String vars 0;
      x0 ← get_String vars 0;
      Ok (StepResult_Create [CreatePrimitiveValue_Queue x0 true] State_TestInfiniteSummatorMainSelectQueue ["infiniteCalculatorQueue"] [SuccessBindKind_String] State_TestInfiniteSummatorMainReturn ["createQueueError"],
        heap))
  | State_TestInfiniteSummatorMainResponse => Some (
      respFutureId ← get_FutureU64 vars 4;
      result ← get_U64 vars 2;
      Ok (StepResult_SetValues [SetPrimitiveValue_Future respFutureId (Value_U64 result)] State_TestInfiniteSummatorMainSelectQueue,
        heap))
  | State_TestInfiniteSummatorMainReturn => Some (Ok (StepResult_ReturnVoid, heap))
  | State_TestInfiniteSummatorMainSelectQueue => Some (
      infiniteCalculatorQueue ← get_String vars 0;
      Ok (StepResult_Select [SelectArm_Queue infiniteCalculatorQueue "request" State_TestInfiniteSummatorMainCalculate],
        heap))
  | _ => None
  end.

Definition step_testRootFiberMain (state : State) (vars : list StackEntry) (heap : Heap)
  : option (result (StepResult * Heap)) :=
  match state with
  | State_TestRootFiberMainEntry => Some (
      Ok (StepResult_Next [StackEntry_FrameAssign [(0, Value_String "rootQueue")];
        StackEntry_State State_TestRootFiberMainCreateQueueues], heap))
  | State_TestRootFiberMainAwaitResponse => Some (
      responseFutureId2 ← get_FutureU64 vars 4;
      Ok (StepResult_Select [SelectArm_FutureVar responseFutureId2 (Some "responseFromCalculator") State_TestRootFiberMainAwaitResponse2],
        heap))
  | State_TestRootFiberMainAwaitResponse2 => Some (
      responseFutureId ← get_FutureU64 vars 3;
      Ok (StepResult_Select [SelectArm_FutureVar responseFutureId (Some "responseFromCalculator2") State_TestRootFiberMainReturnDbg],
        heap))
  | State_TestRootFiberMainCreateFiber => Some (
      rootQueueName ← get_String vars 0;
      x0 ← get_String vars 0;
      x1 ← get_String vars 0;
      Ok (StepResult_CreateFibers [("testCalculator", [Value_String x0]); ("testCalculator",
        [Value_String x1])] State_TestRootFiberMainCreateFuture, heap))
  | State_TestRootFiberMainCreateFuture => Some (
      Ok (StepResult_Create [CreatePrimitiveValue_Future;
        CreatePrimitiveValue_Future] State_TestRootFiberMainPrepareCalculationRequests ["responseFutureId";
        "responseFutureId2"] [SuccessBindKind_Future FutureKind_FutureU64;
        SuccessBindKind_Future FutureKind_FutureU64] State_TestRootFiberMainReturnDbg ["createFutureError";
        "createFutureError2"], heap))
  | State_TestRootFiberMainCreateQueueues => Some (
      rootQueueName ← get_String vars 0;
      x0 ← get_String vars 0;
      Ok (StepResult_Create [CreatePrimitiveValue_Queue x0 true] State_TestRootFiberMainCreateFiber ["rootQueueName"] [SuccessBindKind_String] State_TestRootFiberMainReturnDbg ["createQueueError"],
        heap))
  | State_TestRootFiberMainPrepareCalculationRequests => Some (
      calculatorTask ← get_TestCalculatorTask vars 1;
      calculatorTask2 ← get_TestCalculatorTask vars 2;
      createFutureError ← get_OptionString vars 8;
      createFutureError2 ← get_OptionString vars 9;
      createQueueError ← get_OptionString vars 7;
      responseFromCalculator ← get_String vars 5;
      responseFromCalculator2 ← get_String vars 6;
      responseFutureId ← get_FutureU64 vars 3;
      responseFutureId2 ← get_FutureU64 vars 4;
      rootQueueName ← get_String vars 0;
      let o0 := mkTestCalculatorTask 10 15 responseFutureId in
      let o1 := mkTestCalculatorTask 2 4 responseFutureId2 in
      Ok (StepResult_Next [StackEntry_FrameAssign [(1, Value_TestCalculatorTask o0); (2,
        Value_TestCalculatorTask o1)];
        StackEntry_State State_TestRootFiberMainSendCalculationRequest], heap))
  | State_TestRootFiberMainReturn => Some (Ok (StepResult_ReturnVoid, heap))
  | State_TestRootFiberMainReturnDbg => Some (
      Ok (StepResult_DebugPrintVars State_TestRootFiberMainReturn, heap))
  | State_TestRootFiberMainSendCalculationRequest => Some (
      calculatorTask ← get_TestCalculatorTask vars 1;
      calculatorTask2 ← get_TestCalculatorTask vars 2;
      rootQueueName ← get_String vars 0;
      Ok (StepResult_SetValues [SetPrimitiveValue_QueueMessage rootQueueName (Value_TestCalculatorTask calculatorTask);
        SetPrimitiveValue_QueueMessage rootQueueName (Value_TestCalculatorTask calculatorTask2)] State_TestRootFiberMainAwaitResponse,
        heap))
  | _ => None
  end.

Definition step_testRootFiberSleepTest (state : State) (vars : list StackEntry) (heap : Heap)
  : option (result (StepResult * Heap)) :=
  match state with
  | State_TestRootFiberSleepTestMainEntry => Some (
      Ok (StepResult_Next [StackEntry_FrameAssign [(2, Value_U64 150)];
        StackEntry_State State_TestRootFiberSleepTestMainCreatePrimitives], heap))
  | State_TestRootFiberSleepTestMainCreatePrimitives => Some (
      x0 ← get_U64 vars 2;
      Ok (StepResult_Create [CreatePrimitiveValue_Schedule x0] State_TestRootFiberSleepTestMainSeelect ["scheduledFutId"] [SuccessBindKind_Future FutureKind_FutureUnit] State_TestRootFiberSleepTestMainReturnDbg ["createScheduleError"],
        heap))
  | State_TestRootFiberSleepTestMainReturn => Some (Ok (StepResult_ReturnVoid, heap))
  | State_TestRootFiberSleepTestMainReturnDbg => Some (
      Ok (StepResult_DebugPrintVars State_TestRootFiberSleepTestMainReturn, heap))
  | State_TestRootFiberSleepTestMainSeelect => Some (
      scheduledFutId ← get_FutureUnit vars 0;
      Ok (StepResult_Select [SelectArm_FutureVar scheduledFutId None State_TestRootFiberSleepTestMainReturnDbg],
        heap))
  | _ => None
  end.

Definition step_testSelectQueue (state : State) (vars : list StackEntry) (heap : Heap)
  : option (result (StepResult * Heap)) :=
  match state with
  | State_TestSelectQueueMainEntry => Some (
      Ok (StepResult_Next [StackEntry_FrameAssign [(2, Value_String "counterStartQueue")];
        StackEntry_State State_TestSelectQueueMainInitFutureId], heap))
  | State_TestSelectQueueMainCompare => Some (
      isThree ← get_Bool vars 4;
      if (isThree : bool) then Ok (StepResult_GoTo State_TestSelectQueueMainReturn, heap)
      else Ok (StepResult_GoTo State_TestSelectQueueMainStartWork, heap))
  | State_TestSelectQueueMainIncFromFut => Some (
      counter ← get_U64 vars 0;
      counterStartQueueName ← get_String vars 2;
      futureId ← get_String vars 3;
      isThree ← get_Bool vars 4;
      responseFromFut ← get_U64 vars 1;
      out ← u64_sub responseFromFut 1;
      Ok (StepResult_Next [StackEntry_FrameAssign [(0, Value_U64 out)];
        StackEntry_State State_TestSelectQueueMainPrepareCond], heap))
  | State_TestSelectQueueMainInitFutureId => Some (
      Ok (StepResult_Next [StackEntry_FrameAssign [(3, Value_String "testSelectQueue_future_1")];
        StackEntry_State State_TestSelectQueueMainSelectCounter], heap))
  | State_TestSelectQueueMainPrepareCond => Some (
      counter ← get_U64 vars 0;
      Ok (StepResult_Next [StackEntry_FrameAssign [(4, Value_Bool (counter =? 3)%Z)];
        StackEntry_State State_TestSelectQueueMainCompare], heap))
  | State_TestSelectQueueMainReturn => Some (Ok (StepResult_ReturnVoid, heap))
  | State_TestSelectQueueMainSelectCounter => Some (
      counterStartQueueName ← get_String vars 2;
      futureId ← get_String vars 3;
      Ok (StepResult_Select [SelectArm_Queue counterStartQueueName "counter" State_TestSelectQueueMainStartWork;
        SelectArm_FutureVar futureId (Some "responseFromFut") State_TestSelectQueueMainIncFromFut],
        heap))
  | State_TestSelectQueueMainStartWork => Some (
      counter ← get_U64 vars 0;
      counterStartQueueName ← get_String vars 2;
      futureId ← get_String vars 3;
      isThree ← get_Bool vars 4;
      responseFromFut ← get_U64 vars 1;
      out ← u64_add counter 1;
      Ok (StepResult_Next [StackEntry_FrameAssign [(0, Value_U64 out)];
        StackEntry_State State_TestSelectQueueMainPrepareCond], heap))
  | _ => None
  end.

Definition step_testTaskExecutorIncrementer (state : State) (vars : list StackEntry) (heap : Heap)
  : option (result (StepResult * Heap)) :=
  match state with
  | State_TestTaskExecutorIncrementerMainEntry => Some (
      Ok (StepResult_Debug "start function" State_TestTaskExecutorIncrementerMainInitQueueName,
        heap))
  | State_TestTaskExecutorIncrementerMainAwait => Some (
      fTasksqueuename ← get_String vars 3;
      Ok (StepResult_Select [SelectArm_Queue fTasksqueuename "f_task" State_TestTaskExecutorIncrementerMainIncrement],
        heap))
  | State_TestTaskExecutorIncrementerMainDebug2 => Some (
      Ok (StepResult_Debug "after increment" State_TestTaskExecutorIncrementerMainDebugVars2, heap))
  | State_TestTaskExecutorIncrementerMainDebugVars => Some (
      Ok (StepResult_DebugPrintVars State_TestTaskExecutorIncrementerMainAwait, heap))
  | State_TestTaskExecutorIncrementerMainDebugVars2 => Some (
      Ok (StepResult_DebugPrintVars State_TestTaskExecutorIncrementerMainReturnResult, heap))
  | State_TestTaskExecutorIncrementerMainIncrement => Some (
      fRespfutureid ← get_FutureTestIncrementTask vars 1;
      fRespqueuename ← get_String vars 2;
      fTask ← get_TestIncrementTask vars 0;
      fTasksqueuename ← get_String vars 3;
      let inTaskqueuename := TestTaskExecutorIncrementerInVars_inTaskqueuename (TestTaskExecutorIncrementerHeap_in_vars (Heap_testTaskExecutorIncrementer heap)) in
      inc ← u64_add (TestIncrementTask_inStrValue fTask) 1;
      let t_m := mkTestIncrementTask inc (TestIncrementTask_inStrRespFutureId fTask) (TestIncrementTask_inStrRespQueueName fTask) in
      let o0 := t_m in
      let o1 := TestIncrementTask_inStrRespQueueName t_m in
      let o2 := TestIncrementTask_inStrRespFutureId t_m in
      Ok (StepResult_Next [StackEntry_FrameAssign [(0, Value_TestIncrementTask o0); (2,
        Value_String o1); (1, Value_FutureTestIncrementTask o2)];
        StackEntry_State State_TestTaskExecutorIncrementerMainDebug2], heap))
  | State_TestTaskExecutorIncrementerMainInitQueueName => Some (
      fRespfutureid ← get_FutureTestIncrementTask vars 1;
      fRespqueuename ← get_String vars 2;
      fTask ← get_TestIncrementTask vars 0;
      fTasksqueuename ← get_String vars 3;
      let inTaskqueuename := TestTaskExecutorIncrementerInVars_inTaskqueuename (TestTaskExecutorIncrementerHeap_in_vars (Heap_testTaskExecutorIncrementer heap)) in
      let out := TestTaskExecutorIncrementerInVars_inTaskqueuename (TestTaskExecutorIncrementerHeap_in_vars (Heap_testTaskExecutorIncrementer heap)) in
      Ok (StepResult_Next [StackEntry_FrameAssign [(3, Value_String out)];
        StackEntry_State State_TestTaskExecutorIncrementerMainDebugVars], heap))
  | State_TestTaskExecutorIncrementerMainReturn => Some (Ok (StepResult_ReturnVoid, heap))
  | State_TestTaskExecutorIncrementerMainReturnResult => Some (
      fRespfutureid ← get_FutureTestIncrementTask vars 1;
      fRespqueuename ← get_String vars 2;
      fTask ← get_TestIncrementTask vars 0;
      Ok (StepResult_SetValues [SetPrimitiveValue_Future fRespfutureid (Value_TestIncrementTask fTask);
        SetPrimitiveValue_QueueMessage fRespqueuename (Value_TestIncrementTask fTask)] State_TestTaskExecutorIncrementerMainReturn,
        heap))
  | _ => None
  end.

(** The steps of the functions of one fiber type, tried in the order of the source. *)
Definition try_steps (l : list (option (result (StepResult * Heap)))) : option (result (StepResult * Heap)) :=
  fold_right (fun o rest => match o with Some r => Some r | None => rest end) None l.

Definition global_step (state : State) (vars : list StackEntry) (heap : Heap)
  : result (StepResult * Heap) :=
  match state with
  | State_Completed => Ok (StepResult_Done, heap)
  | State_Idle => Panic "shoudnt be here"
  | _ =>
      match try_steps [
        step_root state vars heap; step_testCalculator state vars heap;
        step_testCreateQueue state vars heap; step_testFunctionsCallBinarySearch state vars heap;
        step_testFunctionsCallFactorial state vars heap; step_testFunctionsCallMain state vars heap;
        step_testFunctionsCall state vars heap; step_testInfiniteSummator state vars heap;
        step_testRootFiberMain state vars heap; step_testRootFiberSleepTest state vars heap;
        step_testSelectQueue state vars heap; step_testTaskExecutorIncrementer state vars heap ] with
      | Some r => r
      | None => Ok (StepResult_Todo "uncovered-state", heap)
      end
  end.
End steps.

(** ** First stack and heap of a function *)

Definition root_prepare_main : list StackEntry * Heap :=
  ([ StackEntry_Retrn (Some 1);
     StackEntry_State State_RootMainEntry ],
   Heap_default).

Definition root_prepare_main_from_values (args : list Value) : result (list StackEntry) :=
  Ok (fst root_prepare_main).

Definition testCalculator_prepare_main : list StackEntry * Heap :=
  ([ StackEntry_Retrn (Some 1);
     StackEntry_Value "request" (Value_TestCalculatorTask TestCalculatorTask_default);
     StackEntry_Value "result" (Value_U64 0);
     StackEntry_Value "respFutureId" (Value_FutureU64 "");
     StackEntry_State State_TestCalculatorMainEntry ],
   Heap_default).

Definition testCalculator_prepare_main_from_values (args : list Value) : result (list StackEntry) :=
  Ok (fst testCalculator_prepare_main).

Definition testCreateQueue_prepare_main : list StackEntry * Heap :=
  ([ StackEntry_Retrn (Some 1);
     StackEntry_Value "value" (Value_TestCreateQueueMessage TestCreateQueueMessage_default);
     StackEntry_Value "f_queueName" (Value_String "");
     StackEntry_Value "created_queue_name" (Value_String "");
     StackEntry_Value "f_queueCreationError" (Value_OptionString None);
     StackEntry_Value "f_future_id_response" (Value_FutureU64 "");
     StackEntry_Value "f_res_inc" (Value_U64 0);
     StackEntry_State State_TestCreateQueueMainEntry ],
   Heap_default).

Definition testCreateQueue_prepare_main_from_values (args : list Value) : result (list StackEntry) :=
  Ok (fst testCreateQueue_prepare_main).

Definition testFunctionsCall_prepare_binarySearch (e left right : Z) : list StackEntry * Heap :=
  ([ StackEntry_Value "ret" (Value_OptionU64 None);
     StackEntry_Retrn (Some 1);
     StackEntry_Value "e" (Value_U64 e);
     StackEntry_Value "left" (Value_U64 left);
     StackEntry_Value "right" (Value_U64 right);
     StackEntry_Value "div" (Value_U64 0);
     StackEntry_Value "v_by_index_div" (Value_U64 0);
     StackEntry_Value "fac_call_res" (Value_OptionU64 None);
     StackEntry_State State_TestFunctionsCallBinarySearchEntry ],
   Heap_default).

Definition testFunctionsCall_prepare_binarySearch_from_values (args : list Value) : result (list StackEntry) :=
  e ← arg_U64 "invalid args for testFunctionsCall.binary_search" args 0;
  left ← arg_U64 "invalid args for testFunctionsCall.binary_search" args 1;
  right ← arg_U64 "invalid args for testFunctionsCall.binary_search" args 2;
  Ok (fst (testFunctionsCall_prepare_binarySearch e left right)).

Definition testFunctionsCall_prepare_factorial (n : Z) : list StackEntry * Heap :=
  ([ StackEntry_Value "ret" (Value_U64 0);
     StackEntry_Retrn (Some 1);
     StackEntry_Value "n" (Value_U64 n);
     StackEntry_Value "fac_call_res" (Value_U64 0);
     StackEntry_Value "subtract_res" (Value_U64 0);
     StackEntry_Value "result" (Value_U64 0);
     StackEntry_State State_TestFunctionsCallFactorialEntry ],
   Heap_default).

Definition testFunctionsCall_prepare_factorial_from_values (args : list Value) : result (list StackEntry) :=
  n ← arg_U64 "invalid args for testFunctionsCall.factorial" args 0;
  Ok (fst (testFunctionsCall_prepare_factorial n)).

Definition testFunctionsCall_prepare_main : list StackEntry * Heap :=
  ([ StackEntry_Retrn (Some 1);
     StackEntry_Value "multResult" (Value_U64 0);
     StackEntry_Value "factorialResult" (Value_U64 0);
     StackEntry_Value "binarySearchResult" (Value_OptionU64 None);
     StackEntry_Value "binarySearchLeft" (Value_U64 0);
     StackEntry_Value "binarySearchRight" (Value_U64 0);
     StackEntry_State State_TestFunctionsCallMainEntry ],
   Heap_default).

Definition testFunctionsCall_prepare_main_from_values (args : list Value) : result (list StackEntry) :=
  Ok (fst testFunctionsCall_prepare_main).

Definition testFunctionsCall_prepare_mult (a b : Z) : list StackEntry * Heap :=
  ([ StackEntry_Value "ret" (Value_U64 0);
     StackEntry_Retrn (Some 1);
     StackEntry_Value "a" (Value_U64 a);
     StackEntry_Value "b" (Value_U64 b);
     StackEntry_Value "mult" (Value_U64 0);
     StackEntry_State State_TestFunctionsCallMultEntry ],
   Heap_default).

Definition testFunctionsCall_prepare_mult_from_values (args : list Value) : result (list StackEntry) :=
  a ← arg_U64 "invalid args for testFunctionsCall.mult" args 0;
  b ← arg_U64 "invalid args for testFunctionsCall.mult" args 1;
  Ok (fst (testFunctionsCall_prepare_mult a b)).

Definition testFunctionsCall_prepare_sub (a b : Z) : list StackEntry * Heap :=
  ([ StackEntry_Value "ret" (Value_U64 0);
     StackEntry_Retrn (Some 1);
     StackEntry_Value "a" (Value_U64 a);
     StackEntry_Value "b" (Value_U64 b);
     StackEntry_Value "sub" (Value_U64 0);
     StackEntry_State State_TestFunctionsCallSubEntry ],
   Heap_default).

Definition testFunctionsCall_prepare_sub_from_values (args : list Value) : result (list StackEntry) :=
  a ← arg_U64 "invalid args for testFunctionsCall.sub" args 0;
  b ← arg_U64 "invalid args for testFunctionsCall.sub" args 1;
  Ok (fst (testFunctionsCall_prepare_sub a b)).

Definition testInfiniteSummator_prepare_main : list StackEntry * Heap :=
  ([ StackEntry_Retrn (Some 1);
     StackEntry_Value "infiniteCalculatorQueue" (Value_String "");
     StackEntry_Value "request" (Value_TestInfiniteSummatorQueueMessage TestInfiniteSummatorQueueMessage_default);
     StackEntry_Value "result" (Value_U64 0);
     StackEntry_Value "createQueueError" (Value_OptionString None);
     StackEntry_Value "respFutureId" (Value_FutureU64 "");
     StackEntry_State State_TestInfiniteSummatorMainEntry ],
   Heap_default).

Definition testInfiniteSummator_prepare_main_from_values (args : list Value) : result (list StackEntry) :=
  Ok (fst testInfiniteSummator_prepare_main).

Definition testRootFiber_prepare_main : list StackEntry * Heap :=
  ([ StackEntry_Retrn (Some 1);
     StackEntry_Value "rootQueueName" (Value_String "");
     StackEntry_Value "calculatorTask" (Value_TestCalculatorTask TestCalculatorTask_default);
     StackEntry_Value "calculatorTask2" (Value_TestCalculatorTask TestCalculatorTask_default);
     StackEntry_Value "responseFutureId" (Value_FutureU64 "");
     StackEntry_Value "responseFutureId2" (Value_FutureU64 "");
     StackEntry_Value "responseFromCalculator" (Value_String "");
     StackEntry_Value "responseFromCalculator2" (Value_String "");
     StackEntry_Value "createQueueError" (Value_OptionString None);
     StackEntry_Value "createFutureError" (Value_OptionString None);
     StackEntry_Value "createFutureError2" (Value_OptionString None);
     StackEntry_State State_TestRootFiberMainEntry ],
   Heap_default).

Definition testRootFiber_prepare_main_from_values (args : list Value) : result (list StackEntry) :=
  Ok (fst testRootFiber_prepare_main).

Definition testRootFiberSleepTest_prepare_main : list StackEntry * Heap :=
  ([ StackEntry_Retrn (Some 1);
     StackEntry_Value "scheduledFutId" (Value_FutureUnit "");
     StackEntry_Value "createScheduleError" (Value_OptionString None);
     StackEntry_Value "await_milliseconds" (Value_U64 0);
     StackEntry_State State_TestRootFiberSleepTestMainEntry ],
   Heap_default).

Definition testRootFiberSleepTest_prepare_main_from_values (args : list Value) : result (list StackEntry) :=
  Ok (fst testRootFiberSleepTest_prepare_main).

Definition testSelectQueue_prepare_main : list StackEntry * Heap :=
  ([ StackEntry_Retrn (Some 1);
     StackEntry_Value "counter" (Value_U64 0);
     StackEntry_Value "responseFromFut" (Value_U64 0);
     StackEntry_Value "counterStartQueueName" (Value_String "");
     StackEntry_Value "futureId" (Value_String "");
     StackEntry_Value "isThree" (Value_Bool false);
     StackEntry_State State_TestSelectQueueMainEntry ],
   Heap_default).

Definition testSelectQueue_prepare_main_from_values (args : list Value) : result (list StackEntry) :=
  Ok (fst testSelectQueue_prepare_main).

Definition testTaskExecutorIncrementer_prepare_main : list StackEntry * Heap :=
  ([ StackEntry_Retrn (Some 1);
     StackEntry_Value "f_task" (Value_TestIncrementTask TestIncrementTask_default);
     StackEntry_Value "f_respFutureId" (Value_FutureTestIncrementTask "");
     StackEntry_Value "f_respQueueName" (Value_String "");
     StackEntry_Value "f_tasksQueueName" (Value_String "");
     StackEntry_State State_TestTaskExecutorIncrementerMainEntry ],
   Heap_default).

Definition testTaskExecutorIncrementer_prepare_main_from_values (args : list Value) : result (list StackEntry) :=
  Ok (fst testTaskExecutorIncrementer_prepare_main).

Definition get_prepare_fn (key : string) : result (list Value -> result (list StackEntry)) :=
  if decide (key = "root.main") then Ok root_prepare_main_from_values else
  if decide (key = "testCalculator.main") then Ok testCalculator_prepare_main_from_values else
  if decide (key = "testCreateQueue.main") then Ok testCreateQueue_prepare_main_from_values else
  if decide (key = "testFunctionsCall.binary_search") then Ok testFunctionsCall_prepare_binarySearch_from_values else
  if decide (key = "testFunctionsCall.factorial") then Ok testFunctionsCall_prepare_factorial_from_values else
  if decide (key = "testFunctionsCall.main") then Ok testFunctionsCall_prepare_main_from_values else
  if decide (key = "testFunctionsCall.mult") then Ok testFunctionsCall_prepare_mult_from_values else
  if decide (key = "testFunctionsCall.sub") then Ok testFunctionsCall_prepare_sub_from_values else
  if decide (key = "testInfiniteSummator.main") then Ok testInfiniteSummator_prepare_main_from_values else
  if decide (key = "testRootFiber.main") then Ok testRootFiber_prepare_main_from_values else
  if decide (key = "testRootFiberSleepTest.main") then Ok testRootFiberSleepTest_prepare_main_from_values else
  if decide (key = "testSelectQueue.main") then Ok testSelectQueue_prepare_main_from_values else
  if decide (key = "testTaskExecutorIncrementer.main") then Ok testTaskExecutorIncrementer_prepare_main_from_values else
  Panic "shouldnt be here".

Definition arg_default {A} (pick : Value -> option A) (d : A) (args : list Value) (i : nat) : A :=
  default d (args !! i ≫= pick).
Definition as_String (v : Value) := match v with Value_String x => Some x | _ => None end.
Definition as_U64 (v : Value) := match v with Value_U64 x => Some x | _ => None end.
Definition as_ArrayU64 (v : Value) := match v with Value_ArrayU64 x => Some x | _ => None end.

Definition testCalculator_prepare_heap (calculationRequestsQueueName : string) : Heap :=
  heap_of (mkTestCalculatorHeap (mkTestCalculatorInVars calculationRequestsQueueName))
    TestFunctionsCallHeap_default TestTaskExecutorIncrementerHeap_default.

Definition testCalculator_prepare_heap_from_values (args : list Value) : Heap :=
  testCalculator_prepare_heap (arg_default as_String "" args 0).

Definition testFunctionsCall_prepare_heap (multa multb factorialStart : Z)
  (binarySearchArray : list Z) (binarySearchTarget : Z) : Heap :=
  heap_of TestCalculatorHeap_default
    (mkTestFunctionsCallHeap []
       (mkTestFunctionsCallInVars binarySearchArray binarySearchTarget factorialStart multa multb))
    TestTaskExecutorIncrementerHeap_default.

Definition testFunctionsCall_prepare_heap_from_values (args : list Value) : Heap :=
  testFunctionsCall_prepare_heap
    (arg_default as_U64 0%Z args 0) (arg_default as_U64 0%Z args 1) (arg_default as_U64 0%Z args 2)
    (arg_default as_ArrayU64 [] args 3) (arg_default as_U64 0%Z args 4).

Definition testTaskExecutorIncrementer_prepare_heap (inTaskqueuename : string) : Heap :=
  heap_of TestCalculatorHeap_default TestFunctionsCallHeap_default
    (mkTestTaskExecutorIncrementerHeap (mkTestTaskExecutorIncrementerInVars inTaskqueuename)).

Definition testTaskExecutorIncrementer_prepare_heap_from_values (args : list Value) : Heap :=
  testTaskExecutorIncrementer_prepare_heap (arg_default as_String "" args 0).

(** The fiber types without [init_vars] get the default heap. *)
Definition root_prepare_heap : Heap := Heap_default.
Definition root_prepare_heap_from_values (args : list Value) : Heap := root_prepare_heap.
Definition testCreateQueue_prepare_heap : Heap := Heap_default.
Definition testCreateQueue_prepare_heap_from_values (args : list Value) : Heap := testCreateQueue_prepare_heap.
Definition testInfiniteSummator_prepare_heap : Heap := Heap_default.
Definition testInfiniteSummator_prepare_heap_from_values (args : list Value) : Heap := testInfiniteSummator_prepare_heap.
Definition testRootFiber_prepare_heap : Heap := Heap_default.
Definition testRootFiber_prepare_heap_from_values (args : list Value) : Heap := testRootFiber_prepare_heap.
Definition testRootFiberSleepTest_prepare_heap : Heap := Heap_default.
Definition testRootFiberSleepTest_prepare_heap_from_values (args : list Value) : Heap := testRootFiberSleepTest_prepare_heap.
Definition testSelectQueue_prepare_heap : Heap := Heap_default.
Definition testSelectQueue_prepare_heap_from_values (args : list Value) : Heap := testSelectQueue_prepare_heap.

Definition get_heap_init_fn (fiber : string) : list Value -> Heap :=
  if decide (fiber = "root") then root_prepare_heap_from_values else
  if decide (fiber = "testCalculator") then testCalculator_prepare_heap_from_values else
  if decide (fiber = "testCreateQueue") then testCreateQueue_prepare_heap_from_values else
  if decide (fiber = "testFunctionsCall") then testFunctionsCall_prepare_heap_from_values else
  if decide (fiber = "testInfiniteSummator") then testInfiniteSummator_prepare_heap_from_values else
  if decide (fiber = "testRootFiber") then testRootFiber_prepare_heap_from_values else
  if decide (fiber = "testRootFiberSleepTest") then testRootFiberSleepTest_prepare_heap_from_values else
  if decide (fiber = "testSelectQueue") then testSelectQueue_prepare_heap_from_values else
  if decide (fiber = "testTaskExecutorIncrementer") then testTaskExecutorIncrementer_prepare_heap_from_values else
  fun _ => Heap_default.

(** ** Results

    The reader of a function's result expects it on the top of the stack. *)
Definition result_on_top {A} (pick : Value -> option A) (stack : list StackEntry) : result A :=
  match last stack with
  | Some (StackEntry_Value _ v) => expect "internal error: entered unreachable code: result not found on stack" (pick v)
  | _ => Panic "internal error: entered unreachable code: result not found on stack"
  end.
Definition as_OptionU64 (v : Value) := match v with Value_OptionU64 x => Some x | _ => None end.

Definition testFunctionsCall_result_binarySearch (stack : list StackEntry) : result (option Z) := result_on_top as_OptionU64 stack.
Definition testFunctionsCall_result_binarySearch_value (stack : list StackEntry) : result Value :=
  v ← testFunctionsCall_result_binarySearch stack; Ok (Value_OptionU64 v).
Definition testFunctionsCall_result_factorial (stack : list StackEntry) : result (Z) := result_on_top as_U64 stack.
Definition testFunctionsCall_result_factorial_value (stack : list StackEntry) : result Value :=
  v ← testFunctionsCall_result_factorial stack; Ok (Value_U64 v).
Definition testFunctionsCall_result_mult (stack : list StackEntry) : result (Z) := result_on_top as_U64 stack.
Definition testFunctionsCall_result_mult_value (stack : list StackEntry) : result Value :=
  v ← testFunctionsCall_result_mult stack; Ok (Value_U64 v).
Definition testFunctionsCall_result_sub (stack : list StackEntry) : result (Z) := result_on_top as_U64 stack.
Definition testFunctionsCall_result_sub_value (stack : list StackEntry) : result Value :=
  v ← testFunctionsCall_result_sub stack; Ok (Value_U64 v).

Definition root_result_main (stack : list StackEntry) : unit := tt.
Definition root_result_main_value (stack : list StackEntry) : Value := let '_ := root_result_main stack in Value_Unit.
Definition testCalculator_result_main (stack : list StackEntry) : unit := tt.
Definition testCalculator_result_main_value (stack : list StackEntry) : Value := let '_ := testCalculator_result_main stack in Value_Unit.
Definition testCreateQueue_result_main (stack : list StackEntry) : unit := tt.
Definition testCreateQueue_result_main_value (stack : list StackEntry) : Value := let '_ := testCreateQueue_result_main stack in Value_Unit.
Definition testFunctionsCall_result_main (stack : list StackEntry) : unit := tt.
Definition testFunctionsCall_result_main_value (stack : list StackEntry) : Value := let '_ := testFunctionsCall_result_main stack in Value_Unit.
Definition testInfiniteSummator_result_main (stack : list StackEntry) : unit := tt.
Definition testInfiniteSummator_result_main_value (stack : list StackEntry) : Value := let '_ := testInfiniteSummator_result_main stack in Value_Unit.
Definition testRootFiber_result_main (stack : list StackEntry) : unit := tt.
Definition testRootFiber_result_main_value (stack : list StackEntry) : Value := let '_ := testRootFiber_result_main stack in Value_Unit.
Definition testRootFiberSleepTest_result_main (stack : list StackEntry) : unit := tt.
Definition testRootFiberSleepTest_result_main_value (stack : list StackEntry) : Value := let '_ := testRootFiberSleepTest_result_main stack in Value_Unit.
Definition testSelectQueue_result_main (stack : list StackEntry) : unit := tt.
Definition testSelectQueue_result_main_value (stack : list StackEntry) : Value := let '_ := testSelectQueue_result_main stack in Value_Unit.
Definition testTaskExecutorIncrementer_result_main (stack : list StackEntry) : unit := tt.
Definition testTaskExecutorIncrementer_result_main_value (stack : list StackEntry) : Value := let '_ := testTaskExecutorIncrementer_result_main stack in Value_Unit.
