(* ===== verification/Protocol.v ===== *)
(** * The [protocol] crate and the messages between network and application

    Models [protocol/src/transaction.rs] and [maroon/src/network/interface.rs].
    [PeerId] is [libp2p]'s: an abstract type with a decidable total order and a
    byte encoding, given by the class [PeerIds]. *)
From S2P Require Import Prelude Types Values.

(** ** Peer identities (libp2p) *)
Class PeerIds := {
  PeerId : Type;
  peer_eq_dec : EqDecision PeerId;
  peer_countable : Countable PeerId;
  peer_le : relation PeerId;
  peer_le_dec : forall p q, Decision (peer_le p q);
  peer_le_total : Total peer_le;
  peer_le_trans : Transitive peer_le;
  peer_le_anti : AntiSymm (=) peer_le;
  peer_bytes : PeerId -> list Z
}.
#[export] Existing Instances peer_eq_dec peer_countable peer_le_dec peer_le_total
  peer_le_trans peer_le_anti.

(** Peers numbered by [nat], one byte each: an instance to evaluate the model with. *)
Definition nat_peers : PeerIds := {|
  PeerId := nat;
  peer_eq_dec := _;
  peer_countable := _;
  peer_le := le;
  peer_le_dec := _;
  peer_le_total := Nat.le_ge_cases;
  peer_le_trans := Nat.le_trans;
  peer_le_anti := Nat.le_antisymm;
  peer_bytes := fun n => [Z.of_nat n]
|}.

(** ** Transactions *)
Inductive TxStatus : Type :=
| TxStatus_Created
| TxStatus_Pending
| TxStatus_Finished
| TxStatus_Rejected (reason : string).

Record Meta := mkMeta {
  Meta_id : UniqueU64BlobId;
  Meta_status : TxStatus
}.

(** [protocol::transaction::TaskBlueprint]. *)
Record TxBlueprint := mkTxBlueprint {
  TxBlueprint_queue_name : string;
  TxBlueprint_param : Value
}.

Record Transaction := mkTransaction {
  Transaction_meta : Meta;
  Transaction_blueprint : TxBlueprint
}.

Record TxUpdate := mkTxUpdate {
  TxUpdate_meta : Meta;
  TxUpdate_result : option Value
}.

(** [runtime::runtime::TaskBlueprint]: a transaction as the runtime receives it. *)
Record TaskBlueprint := mkTaskBlueprint {
  TaskBlueprint_global_id : UniqueU64BlobId;
  TaskBlueprint_q_name : string;
  TaskBlueprint_value : Value
}.

(** [runtime::runtime::Input] and [Output]. *)
Definition Input : Type := LogicalTimeAbsoluteMs * list TaskBlueprint.
Definition Output : Type := UniqueU64BlobId * Value.

Definition tx_id (tx : Transaction) : UniqueU64BlobId := Meta_id (Transaction_meta tx).

(** [tx.meta.status = status;] *)
Definition set_status (status : TxStatus) (tx : Transaction) : Transaction :=
  mkTransaction (mkMeta (tx_id tx) status) (Transaction_blueprint tx).

(** ** Messages between the p2p layer and the application *)
Section messages.
Context `{PeerIds}.

Record NodeState := mkNodeState {
  NodeState_offsets : gmap KeyRange KeyOffset
}.

Inductive Outbox : Type :=
| Outbox_State (state : NodeState)
| Outbox_RequestMissingTxs (peer : PeerId) (intervals : list RangeKey.U64BlobIdClosedInterval)
| Outbox_RequestedTxsForPeer (peer : PeerId) (txs : list Transaction)
| Outbox_NotifyGWs (updates : list TxUpdate).

Inductive Inbox : Type :=
| Inbox_State (peer : PeerId) (state : NodeState)
| Inbox_Nodes (nodes : gset PeerId)
| Inbox_NewTransaction (tx : Transaction)
| Inbox_RequestMissingTxs (peer : PeerId) (intervals : list RangeKey.U64BlobIdClosedInterval)
| Inbox_MissingTx (txs : list Transaction).
End messages.

Lemma tx_id_set_status status tx : tx_id (set_status status tx) = tx_id tx.
Proof. done. Qed.
