(* ===== verification/Epoch.v ===== *)
(** * Epochs and the linearizer

    Models [epoch_coordinator/src/epoch.rs], the messages of
    [epoch_coordinator/src/interface.rs] and [maroon/src/linearizer.rs]. SHA-256
    ([sha2]) is a parameter: the class [Sha256] gives the digest of a byte string;
    the bytes fed to it are modelled. *)
From S2P Require Import Prelude Types Protocol.
Local Open Scope Z_scope.

(** ** The hasher ([sha2::Sha256]) *)
Class Sha256 := { sha256 : list Z -> list Z }.

Section epoch.
Context `{Profile} `{PeerIds} `{Sha256}.

(** ** Epochs *)
Record Epoch := mkEpoch {
  Epoch_sequence_number : Z;
  Epoch_increments : list RangeKey.U64BlobIdClosedInterval;
  Epoch_creator : PeerId;
  Epoch_creation_time : LogicalTimeAbsoluteMs;
  Epoch_hash : list Z
}.

(** [u64::to_le_bytes]. *)
Definition to_le_bytes (x : Z) : list Z :=
  map (fun i => Z.land (Z.shiftr x (8 * i)) 255) (seqZ 0 8).

Definition interval_bytes (i : RangeKey.U64BlobIdClosedInterval) : list Z :=
  to_le_bytes (RangeKey.left i) ++ to_le_bytes (RangeKey.right i).

(** All the bytes given to [hasher.update], in order. *)
Definition hash_input (creator : PeerId) (increments : list RangeKey.U64BlobIdClosedInterval)
  (prev_epoch : option Epoch) : list Z :=
  match prev_epoch with Some prev => Epoch_hash prev | None => [] end
  ++ concat (map interval_bytes increments) ++ peer_bytes creator.

Definition next (creator : PeerId) (increments : list RangeKey.U64BlobIdClosedInterval)
  (prev_epoch : option Epoch) (time_tick : LogicalTimeAbsoluteMs) : result Epoch :=
  sequence_number ← match prev_epoch with
                    | Some prev => u64_add (Epoch_sequence_number prev) 1
                    | None => Ok 0
                    end;
  let hash := sha256 (hash_input creator increments prev_epoch) in
  Ok (mkEpoch sequence_number increments creator time_tick hash).

(** [epoch.increments.sort();] *)
Definition sort_increments (e : Epoch) : Epoch :=
  mkEpoch (Epoch_sequence_number e) (RangeKey.sort_intervals (Epoch_increments e))
    (Epoch_creator e) (Epoch_creation_time e) (Epoch_hash e).

(** ** Messages of the coordinator interface *)
Record EpochRequest := mkEpochRequest { EpochRequest_epoch : Epoch }.

Inductive EpochUpdates : Type :=
| EpochUpdates_New (epoch : Epoch).

(** ** [LogLineriazer] *)
Record LogLineriazer := mkLogLineriazer { sequence : list UniqueU64BlobId }.

Definition linearizer_new : LogLineriazer := mkLogLineriazer [].

(** [.map(|i| i.ids_count()).sum()]. *)
Definition new_elements_count (increments : list RangeKey.U64BlobIdClosedInterval) : result Z :=
  for_each increments (fun total i => c ← RangeKey.ids_count i; u64_add total c) 0.

(** The loop that pushes the ids of every interval. *)
Definition push_intervals (l : LogLineriazer) (increments : list RangeKey.U64BlobIdClosedInterval)
  : result LogLineriazer :=
  for_each increments
    (fun l i => ids ← RangeKey.iter i; Ok (mkLogLineriazer (sequence l ++ ids))) l.

Definition new_epoch (self : LogLineriazer) (epoch : Epoch) : result LogLineriazer :=
  let epoch := sort_increments epoch in
  _ ← new_elements_count (Epoch_increments epoch);
  push_intervals self (Epoch_increments epoch).
End epoch.

(** ** Specification vocabulary *)

(** The ids an epoch appends to the log, in log order. *)
Definition epoch_ids `{PeerIds} (e : Epoch) : list UniqueU64BlobId :=
  concat (map RangeKey.ids (RangeKey.sort_intervals (Epoch_increments e))).

(** Every interval can be iterated, and the number of ids fits in a [usize]. *)
Definition epoch_ok `{PeerIds} (e : Epoch) : Prop :=
  Forall RangeKey.interval_ok (Epoch_increments e) /\
  Z.of_nat (length (epoch_ids e)) < u64_modulus.

(** ** Lemmas *)
Section lemmas.
Context `{Profile} `{PeerIds} `{Sha256}.

Lemma push_intervals_ok l ivs :
  Forall RangeKey.interval_ok ivs ->
  push_intervals l ivs = Ok (mkLogLineriazer (sequence l ++ concat (map RangeKey.ids ivs))).
Proof.
  intros Hok. unfold push_intervals.
  edestruct (for_each_inv (fun done s => s = mkLogLineriazer (sequence l ++ concat (map RangeKey.ids done))) ivs)
    as (s' & -> & ->); [| |done].
  - destruct l. cbn. by rewrite app_nil_r.
  - intros done i s Hi ->. rewrite Forall_forall in Hok.
    rewrite RangeKey.iter_ok by by apply Hok. eexists; split; [done|]. cbn.
    by rewrite map_app, concat_app, <-app_assoc; cbn; rewrite app_nil_r.
Qed.

Lemma length_ids_app is1 is2 :
  Z.of_nat (length (concat (map RangeKey.ids (is1 ++ is2))))
  = Z.of_nat (length (concat (map RangeKey.ids is1)))
    + Z.of_nat (length (concat (map RangeKey.ids is2))).
Proof. rewrite map_app, concat_app, length_app. lia. Qed.

Lemma length_ids_cons i ivs :
  Z.of_nat (length (concat (map RangeKey.ids (i :: ivs))))
  = Z.of_nat (length (RangeKey.ids i)) + Z.of_nat (length (concat (map RangeKey.ids ivs))).
Proof. cbn. rewrite length_app. lia. Qed.

Lemma new_elements_count_ok ivs :
  Forall RangeKey.interval_ok ivs ->
  Z.of_nat (length (concat (map RangeKey.ids ivs))) < u64_modulus ->
  new_elements_count ivs = Ok (Z.of_nat (length (concat (map RangeKey.ids ivs)))).
Proof.
  intros Hok Hlen. unfold new_elements_count.
  enough (forall rest done, ivs = done ++ rest ->
    for_each rest (fun total i => c ← RangeKey.ids_count i; u64_add total c)
      (Z.of_nat (length (concat (map RangeKey.ids done))))
    = Ok (Z.of_nat (length (concat (map RangeKey.ids ivs))))) as Hgen by by apply (Hgen ivs []).
  intros rest. induction rest as [|i rest IH]; intros done ->; cbn [for_each].
  - by rewrite app_nil_r.
  - apply Forall_app in Hok as Hok'. destruct Hok' as [Hd [Hi Hr]%Forall_cons_1].
    rewrite RangeKey.ids_count_ok by done. cbn -[concat map].
    rewrite length_ids_app, length_ids_cons in Hlen.
    rewrite u64_add_ok by (unfold u64_ok; lia). cbn -[concat map].
    rewrite <-(IH (done ++ [i])) by by rewrite <-app_assoc.
    f_equal. rewrite length_ids_app, length_ids_cons. cbn. lia.
Qed.

Lemma new_epoch_ok l e :
  epoch_ok e -> new_epoch l e = Ok (mkLogLineriazer (sequence l ++ epoch_ids e)).
Proof.
  intros [Hok Hlen]. unfold new_epoch, sort_increments. cbn [Epoch_increments].
  assert (Hs : Forall RangeKey.interval_ok (RangeKey.sort_intervals (Epoch_increments e))).
  { by rewrite RangeKey.sort_intervals_perm. }
  rewrite new_elements_count_ok by done. cbn. by rewrite push_intervals_ok.
Qed.

Lemma elem_of_epoch_ids e id :
  id ∈ epoch_ids e <-> exists i, i ∈ Epoch_increments e /\ RangeKey.left i <= id <= RangeKey.right i.
Proof.
  unfold epoch_ids. rewrite list_elem_of_In, in_concat. split.
  - intros (l & (i & <- & Hi)%in_map_iff & Hid). exists i.
    apply list_elem_of_In in Hi, Hid. rewrite RangeKey.sort_intervals_perm in Hi.
    by apply RangeKey.elem_of_ids in Hid.
  - intros (i & Hi & Hid). exists (RangeKey.ids i). split.
    + apply in_map_iff. exists i. split; [done|]. apply list_elem_of_In.
      by rewrite RangeKey.sort_intervals_perm.
    + by apply list_elem_of_In, RangeKey.elem_of_ids.
Qed.
End lemmas.

(** *** The byte encoding *)

Lemma to_le_bytes_length x : length (to_le_bytes x) = 8%nat.
Proof. done. Qed.

Lemma byte_of_shift x k k' :
  0 <= k -> k' = k + 8 -> Z.land (Z.shiftr x k) 255 = Z.shiftr x k - 256 * Z.shiftr x k'.
Proof.
  intros Hk ->. rewrite <-(Z.shiftr_shiftr x k 8) by lia. change 255 with (Z.ones 8).
  rewrite Z.land_ones, (Z.shiftr_div_pow2 _ 8) by lia.
  pose proof (Z.div_mod (Z.shiftr x k) (2 ^ 8)). lia.
Qed.

Lemma to_le_bytes_shifts x :
  to_le_bytes x = map (fun k => Z.land (Z.shiftr x k) 255) [0; 8; 16; 24; 32; 40; 48; 56].
Proof. reflexivity. Qed.

Lemma to_le_bytes_inj x y : u64_ok x -> u64_ok y -> to_le_bytes x = to_le_bytes y -> x = y.
Proof.
  intros Hx Hy. rewrite !to_le_bytes_shifts. cbn [map].
  rewrite !(byte_of_shift _ 0 8), !(byte_of_shift _ 8 16), !(byte_of_shift _ 16 24),
    !(byte_of_shift _ 24 32), !(byte_of_shift _ 32 40), !(byte_of_shift _ 40 48),
    !(byte_of_shift _ 48 56), !(byte_of_shift _ 56 64), !Z.shiftr_0_r by lia.
  assert (Hz : forall z, u64_ok z -> Z.shiftr z 64 = 0).
  { intros z Hz. rewrite Z.shiftr_div_pow2 by lia. apply Z.div_small. exact Hz. }
  rewrite (Hz x), (Hz y) by done. intros [=]. lia.
Qed.

Lemma interval_bytes_inj i j :
  u64_ok (RangeKey.left i) -> u64_ok (RangeKey.right i) ->
  u64_ok (RangeKey.left j) -> u64_ok (RangeKey.right j) ->
  interval_bytes i = interval_bytes j -> i = j.
Proof.
  intros ???? [Hl Hr]%app_inj_1; [|done].
  apply to_le_bytes_inj in Hl, Hr; try done. destruct i, j; cbn in *; congruence.
Qed.

Definition interval_u64 (i : RangeKey.U64BlobIdClosedInterval) : Prop :=
  u64_ok (RangeKey.left i) /\ u64_ok (RangeKey.right i).

Lemma length_interval_bytes ivs : length (concat (map interval_bytes ivs)) = (16 * length ivs)%nat.
Proof.
  induction ivs as [|i ivs IH]; [done|]. cbn [map concat length]. rewrite length_app, IH.
  change (length (interval_bytes i)) with 16%nat. lia.
Qed.

Lemma intervals_bytes_inj is1 is2 t1 t2 :
  Forall interval_u64 is1 -> Forall interval_u64 is2 -> length t1 = length t2 ->
  concat (map interval_bytes is1) ++ t1 = concat (map interval_bytes is2) ++ t2 ->
  is1 = is2 /\ t1 = t2.
Proof.
  intros H1 H2 Ht Heq.
  assert (length is1 = length is2) as Hlen.
  { apply (f_equal length) in Heq. rewrite !length_app, !length_interval_bytes in Heq. lia. }
  revert is2 H2 Heq Hlen. induction H1 as [|i is1 [Hl Hr] H1 IH]; intros [|j is2] H2 Heq Hlen; try done.
  apply Forall_cons in H2 as [[Hl' Hr'] H2]. cbn -[interval_bytes] in Heq.
  rewrite <-!app_assoc in Heq. apply app_inj_1 in Heq as [Hb Heq]; [|done].
  apply interval_bytes_inj in Hb as ->; try done.
  destruct (IH is2 H2 Heq) as [-> ->]; [|done]. by injection Hlen.
Qed.

(** ** Properties *)

(** The bytes an epoch's hash is computed from determine the epoch's content: for
    a given predecessor, two epochs whose hasher inputs agree have the same increments
    in the same order and the same creator, when peer ids are encoded injectively in a
    fixed number of bytes. *)
Theorem hash_input_injective `{PeerIds} c1 c2 is1 is2 prev :
  Inj (=) (=) peer_bytes -> length (peer_bytes c1) = length (peer_bytes c2) ->
  Forall interval_u64 is1 -> Forall interval_u64 is2 ->
  hash_input c1 is1 prev = hash_input c2 is2 prev -> is1 = is2 /\ c1 = c2.
Proof.
  intros Hinj Hlen H1 H2 Heq. unfold hash_input in Heq. apply app_inj_1 in Heq as [_ Heq]; [|done].
  apply intervals_bytes_inj in Heq as [-> Hc%Hinj]; auto.
Qed.

Lemma hash_input_injective_witness :
  [RangeKey.MkInterval 0 3] = [RangeKey.MkInterval 0 3] /\ 2%nat = 2%nat.
Proof.
  apply (@hash_input_injective nat_peers 2%nat 2%nat [RangeKey.MkInterval 0 3]
    [RangeKey.MkInterval 0 3] None); try done.
  - intros x y [= Heq]. cbn in *. lia.
  - repeat constructor; vm_compute; discriminate.
  - repeat constructor; vm_compute; discriminate.
Defined.

(** Applying an epoch appends exactly the ids of its increments to the log, and
    what is appended does not depend on the order in which the increments were listed,
    so nodes that receive the same epoch extend their logs identically. *)
Theorem linearizer_deterministic `{Profile} `{PeerIds} l e e' :
  epoch_ok e -> Epoch_increments e ≡ₚ Epoch_increments e' ->
  exists l', new_epoch l e = Ok l' /\ new_epoch l e' = Ok l' /\
    sequence l' = sequence l ++ epoch_ids e /\
    forall id, id ∈ epoch_ids e <->
      exists i, i ∈ Epoch_increments e /\ RangeKey.left i <= id <= RangeKey.right i.
Proof.
  intros Hok Hp. eexists. split; [by apply new_epoch_ok|].
  assert (Hids : epoch_ids e = epoch_ids e').
  { unfold epoch_ids. by rewrite (RangeKey.sort_intervals_unique _ _ Hp). }
  split; [|split; [done|apply elem_of_epoch_ids]].
  rewrite Hids. apply new_epoch_ok. destruct Hok as [Hf Hl].
  split; [by rewrite <-Hp|by rewrite <-Hids].
Qed.

Definition witness_epoch (ivs : list RangeKey.U64BlobIdClosedInterval) : @Epoch nat_peers :=
  @mkEpoch nat_peers 0 ivs 0%nat 0 [].

Lemma linearizer_deterministic_witness :
  exists l', @new_epoch dev_profile nat_peers linearizer_new
       (witness_epoch [RangeKey.MkInterval 7 8; RangeKey.MkInterval 0 2]) = Ok l' /\
    @new_epoch dev_profile nat_peers linearizer_new
       (witness_epoch [RangeKey.MkInterval 0 2; RangeKey.MkInterval 7 8]) = Ok l' /\
    sequence l' = [0; 1; 2; 7; 8].
Proof.
  destruct (@linearizer_deterministic dev_profile nat_peers linearizer_new
    (witness_epoch [RangeKey.MkInterval 7 8; RangeKey.MkInterval 0 2])
    (witness_epoch [RangeKey.MkInterval 0 2; RangeKey.MkInterval 7 8])) as (l' & H1 & H2 & H3 & _).
  - split; [repeat constructor; vm_compute; (discriminate || reflexivity)|vm_compute; reflexivity].
  - apply perm_swap.
  - exists l'. split; [exact H1|split; [exact H2|exact H3]].
Defined.
