(* ===== verification/Decision.v ===== *)
(** * The epoch decision engine

    Models [maroon/src/epoch_decision_engine.rs]: when a node may publish the next
    epoch. The timer is read once per decision; its reading is an argument. *)
From S2P Require Import Prelude Types Protocol.
Local Open Scope Z_scope.

Section decision.
Context `{Profile} `{PeerIds} `{HashOrder}.

Record EpochDecisionEngine := mkEngine {
  id : PeerId;
  nodes : list PeerId;
  tick_delta : LogicalTimeAbsoluteMs;
  latest_epoch : option (PeerId * LogicalTimeAbsoluteMs)
}.

Definition new (id : PeerId) (tick_delta : LogicalTimeAbsoluteMs) : EpochDecisionEngine :=
  mkEngine id [] tick_delta None.

(** [ids.iter().copied().collect()] followed by [sort()]. *)
Definition update_node_ids (self : EpochDecisionEngine) (ids : gset PeerId) : EpochDecisionEngine :=
  mkEngine (id self) (merge_sort peer_le (elements ids)) (tick_delta self) (latest_epoch self).

Definition update_latest_epoch (self : EpochDecisionEngine) (commiter_id : PeerId)
  (commit_time : LogicalTimeAbsoluteMs) : EpochDecisionEngine :=
  mkEngine (id self) (nodes self) (tick_delta self) (Some (commiter_id, commit_time)).

(** The loop over [nodes.iter().enumerate()], with the two positions as its state. *)
Fixpoint scan_positions (nodes : list PeerId) (pos : nat) (self_id latest : PeerId)
  (self_position last_commiter_position : nat) : nat * nat :=
  match nodes with
  | [] => (self_position, last_commiter_position)
  | p :: nodes' =>
      let last_commiter_position := if decide (p = latest) then pos else last_commiter_position in
      let self_position := if decide (p = self_id) then pos else self_position in
      scan_positions nodes' (S pos) self_id latest self_position last_commiter_position
  end.

Definition calculate_position (nodes : list PeerId) (self_id : PeerId)
  (latest_commiter_id : option PeerId) : nat :=
  let latest := default self_id latest_commiter_id in
  let total := length nodes in
  let '(self_position, last_commiter_position) := scan_positions nodes 0 self_id latest 0 0 in
  if decide (self_position = last_commiter_position) then self_position
  else ((total - last_commiter_position + self_position) mod total)%nat.

Definition should_send (self : EpochDecisionEngine) (now : LogicalTimeAbsoluteMs) : result bool :=
  let start_time := default 0 (snd <$> latest_epoch self) in
  let latest_commiter_id := fst <$> latest_epoch self in
  let position := calculate_position (nodes self) (id self) latest_commiter_id in
  slots ← u64_add (Z.of_nat position) 1;
  delta_time ← u64_mul slots (LogicalTime.as_millis (tick_delta self));
  next_publish_timestamp ← LogicalTime.add start_time delta_time;
  _ ← LogicalTime.abs_diff next_publish_timestamp now;
  Ok (now >? next_publish_timestamp).
End decision.

(** ** Lemmas *)
Section lemmas.
Context `{Profile} `{PeerIds}.

Lemma scan_positions_absent l k p q s c :
  p ∉ l -> q ∉ l -> scan_positions l k p q s c = (s, c).
Proof.
  revert k s c. induction l as [|x l IH]; intros k s c Hp Hq; [done|]. cbn.
  apply not_elem_of_cons in Hp as [Hp1 Hp2], Hq as [Hq1 Hq2].
  rewrite !decide_False by congruence. by apply IH.
Qed.

(** In a list without duplicates the loop finds the index of each of the two peers. *)
Lemma scan_positions_fst l k p q s c i :
  NoDup l -> l !! i = Some p -> fst (scan_positions l k p q s c) = (k + i)%nat.
Proof.
  revert k s c i. induction l as [|x l IH]; intros k s c i Hnd Hi; [done|].
  apply NoDup_cons in Hnd as [Hx Hnd]. cbn. destruct i as [|i]; cbn in Hi.
  - injection Hi as ->. rewrite (decide_True (P := p = p)) by done.
    enough (forall l k s c, p ∉ l -> fst (scan_positions l k p q s c) = s) as ->; [lia|done|].
    clear. induction l as [|y l IH]; intros k s c Hp; [done|]. cbn.
    apply not_elem_of_cons in Hp as [Hp1 Hp2]. rewrite (decide_False (P := y = p)) by congruence.
    by apply IH.
  - rewrite (IH (S k) _ _ i) by done. lia.
Qed.

Lemma scan_positions_snd l k p q s c i :
  NoDup l -> l !! i = Some q -> snd (scan_positions l k p q s c) = (k + i)%nat.
Proof.
  revert k s c i. induction l as [|x l IH]; intros k s c i Hnd Hi; [done|].
  apply NoDup_cons in Hnd as [Hx Hnd]. cbn. destruct i as [|i]; cbn in Hi.
  - injection Hi as ->. rewrite (decide_True (P := q = q)) by done.
    enough (forall l k s c, q ∉ l -> snd (scan_positions l k p q s c) = c) as ->; [lia|done|].
    clear. induction l as [|y l IH]; intros k s c Hp; [done|]. cbn.
    apply not_elem_of_cons in Hp as [Hp1 Hp2]. rewrite (decide_False (P := y = q)) by congruence.
    by apply IH.
  - rewrite (IH (S k) _ _ i) by done. lia.
Qed.

Lemma calculate_position_known l p c i j :
  NoDup l -> l !! i = Some p -> l !! j = Some c ->
  calculate_position l p (Some c)
  = if decide (i = j) then i else ((length l - j + i) mod length l)%nat.
Proof.
  intros Hnd Hi Hj. unfold calculate_position. cbn.
  destruct (scan_positions l 0 p c 0 0) as [s t] eqn:E.
  pose proof (scan_positions_fst l 0 p c 0 0 i Hnd Hi) as Hs.
  pose proof (scan_positions_snd l 0 p c 0 0 j Hnd Hj) as Ht.
  rewrite E in Hs, Ht. cbn in Hs, Ht. by subst.
Qed.

Lemma merge_sort_nodup (s : gset PeerId) : NoDup (merge_sort peer_le (elements s)).
Proof. rewrite merge_sort_Permutation. apply NoDup_elements. Qed.

(** The ring offset of index [i] from index [j] among [n]. *)
Lemma ring_offset_spec (n i j : nat) :
  (i < n)%nat -> (j < n)%nat -> i <> j ->
  (1 <= (n - j + i) mod n < n)%nat /\ ((j + (n - j + i) mod n) mod n = i)%nat.
Proof.
  intros Hi Hj Hne. destruct (decide (j < i)%nat).
  - assert (Hm : ((n - j + i) mod n = i - j)%nat).
    { replace (n - j + i)%nat with ((i - j) + 1 * n)%nat by lia.
      rewrite Nat.Div0.mod_add. apply Nat.mod_small. lia. }
    rewrite Hm. replace (j + (i - j))%nat with i by lia. rewrite Nat.mod_small; lia.
  - assert (Hm : ((n - j + i) mod n = n - j + i)%nat) by (apply Nat.mod_small; lia).
    rewrite Hm. replace (j + (n - j + i))%nat with (i + 1 * n)%nat by lia.
    rewrite Nat.Div0.mod_add, Nat.mod_small; lia.
Qed.

Lemma should_send_ok (e : EpochDecisionEngine) now pos start :
  pos = Z.of_nat (calculate_position (nodes e) (id e) (fst <$> latest_epoch e)) ->
  start = default 0 (snd <$> latest_epoch e) ->
  0 <= start -> 0 <= tick_delta e -> u64_ok now -> pos + 1 < u64_modulus ->
  start + (pos + 1) * tick_delta e < u64_modulus ->
  should_send e now = Ok (now >? start + (pos + 1) * tick_delta e).
Proof.
  intros -> -> Hs Ht Hn Hp Hb. unfold should_send. cbn zeta.
  set (pos := Z.of_nat _) in *. assert (0 <= pos) by lia.
  rewrite u64_add_ok by (unfold u64_ok; lia). cbn -[Z.gtb].
  unfold LogicalTime.as_millis. rewrite u64_mul_ok by (unfold u64_ok; nia). cbn -[Z.gtb].
  unfold LogicalTime.add. rewrite u64_add_ok by (unfold u64_ok; nia). cbn -[Z.gtb].
  rewrite LogicalTime.abs_diff_spec by (unfold u64_ok in *; nia). done.
Qed.
End lemmas.

(** ** Properties *)

(** After an epoch by a known committer the other nodes take turns in ring order:
    every other node of the sorted list gets a slot between 1 and n-1, which is its
    distance from the committer around the ring, and no two of them get the same. *)
Theorem ring_slots_distinct `{PeerIds} l c j :
  NoDup l -> l !! j = Some c ->
  (forall p i, l !! i = Some p -> p <> c ->
     (1 <= calculate_position l p (Some c) < length l)%nat /\
     ((j + calculate_position l p (Some c)) mod length l = i)%nat) /\
  (forall p q, p ∈ l -> q ∈ l -> p <> c -> q <> c ->
     calculate_position l p (Some c) = calculate_position l q (Some c) -> p = q).
Proof.
  intros Hnd Hj.
  assert (Hpos : forall p i, l !! i = Some p -> p <> c ->
    (1 <= calculate_position l p (Some c) < length l)%nat /\
    ((j + calculate_position l p (Some c)) mod length l = i)%nat).
  { intros p i Hi Hne. rewrite (calculate_position_known l p c i j) by done.
    rewrite decide_False by (intros ->; congruence).
    apply ring_offset_spec; [by eapply lookup_lt_Some|by eapply lookup_lt_Some|].
    intros ->. congruence. }
  split; [exact Hpos|]. intros p q [i Hi]%list_elem_of_lookup [k Hk]%list_elem_of_lookup Hp Hq Heq.
  destruct (Hpos p i Hi Hp) as [_ H1], (Hpos q k Hk Hq) as [_ H2]. congruence.
Qed.

Lemma ring_slots_distinct_witness :
  ((2 + @calculate_position nat_peers [1; 2; 3; 4] 1 (Some 3)) mod 4 = 0)%nat.
Proof.
  apply (proj1 (@ring_slots_distinct nat_peers [1; 2; 3; 4]%nat 3%nat 2%nat
    ltac:(repeat constructor; set_solver) eq_refl) 1%nat 0%nat); done.
Defined.

(** The committer of the last epoch does not get distance 0 but its own absolute
    index in the sorted list, so for a committer that is not first in the list some
    other node has the same slot and the two attempt the next epoch at the same time. *)
Theorem committer_slot_collides `{PeerIds} l c j :
  NoDup l -> l !! j = Some c -> (0 < j)%nat ->
  calculate_position l c (Some c) = j /\
  exists p, p ∈ l /\ p <> c /\ calculate_position l p (Some c) = j.
Proof.
  intros Hnd Hj Hpos. pose proof (lookup_lt_Some _ _ _ Hj) as Hlt.
  split; [rewrite (calculate_position_known l c c j j) by done; by rewrite decide_True|].
  set (i := ((j + j) mod length l)%nat).
  assert (Hi : (i < length l)%nat) by (apply Nat.mod_upper_bound; lia).
  destruct (lookup_lt_is_Some_2 l i Hi) as [p Hp].
  assert (Hne : i <> j).
  { unfold i. destruct (decide (j + j < length l)%nat).
    - rewrite Nat.mod_small; lia.
    - replace (j + j)%nat with ((j + j - length l) + 1 * length l)%nat by lia.
      rewrite Nat.Div0.mod_add, Nat.mod_small; lia. }
  exists p. split; [by eapply list_elem_of_lookup_2|]. split.
  { intros ->. apply Hne. eapply NoDup_lookup; eauto. }
  rewrite (calculate_position_known l p c i j), decide_False by done.
  destruct (ring_offset_spec (length l) i j) as [_ Hr]; [lia|lia|done|].
  unfold i. rewrite Nat.Div0.add_mod_idemp_r.
  replace (length l - j + (j + j))%nat with (j + 1 * length l)%nat by lia.
  rewrite Nat.Div0.mod_add. apply Nat.mod_small. lia.
Qed.

Lemma committer_slot_collides_witness :
  @calculate_position nat_peers [1; 2]%nat 2%nat (Some 2%nat) = 1%nat /\
  exists p, p ∈ [1; 2]%nat /\ p <> 2%nat /\
    @calculate_position nat_peers [1; 2]%nat p (Some 2%nat) = 1%nat.
Proof.
  apply (@committer_slot_collides nat_peers [1; 2]%nat 2%nat 1%nat); [|done|lia].
  repeat constructor; set_solver.
Defined.

(** The decision is exactly the documented deadline: as long as the deadline fits
    in a [u64], [should_send] does not fail and answers whether the timer is strictly
    past the last commit time plus (position + 1) ticks; hence it is monotone: once it
    is time to send it stays so until an epoch or a membership change is recorded. *)
Theorem should_send_deadline `{Profile} `{PeerIds} (e : EpochDecisionEngine) pos start :
  pos = Z.of_nat (calculate_position (nodes e) (id e) (fst <$> latest_epoch e)) ->
  start = default 0 (snd <$> latest_epoch e) ->
  0 <= start -> 0 <= tick_delta e -> pos + 1 < u64_modulus ->
  start + (pos + 1) * tick_delta e < u64_modulus ->
  (forall now, u64_ok now ->
     exists b, should_send e now = Ok b /\ (b = true <-> start + (pos + 1) * tick_delta e < now)) /\
  (forall now now', u64_ok now -> u64_ok now' -> now <= now' ->
     should_send e now = Ok true -> should_send e now' = Ok true).
Proof.
  intros Hp Hs ????. split.
  - intros now Hn. eexists. split; [by apply (should_send_ok e now pos start)|].
    rewrite Z.gtb_lt. tauto.
  - intros now now' Hn Hn' Hle. rewrite !(should_send_ok e _ pos start) by done.
    intros [= Hb%Z.gtb_lt]. f_equal. apply Z.gtb_lt. lia.
Qed.

Lemma should_send_deadline_witness :
  exists b, @should_send dev_profile nat_peers
    (@mkEngine nat_peers 2%nat [1; 2]%nat 60 (Some (1%nat, 60))) 130 = Ok b /\
    (b = true <-> 60 + (1 + 1) * 60 < 130).
Proof.
  apply (proj1 (@should_send_deadline dev_profile nat_peers
    (@mkEngine nat_peers 2%nat [1; 2]%nat 60 (Some (1%nat, 60))) 1 60
    eq_refl eq_refl ltac:(lia) ltac:(cbn; lia) eq_refl eq_refl) 130).
  vm_compute. split; [discriminate|reflexivity].
Defined.
