(* ===== verification/App.v ===== *)
(** * The application of a maroon node

    Models [maroon/src/app/app.rs] with [params.rs] and [interface.rs]. A handler
    takes the application state and returns the new state with the messages it
    sends, in order; the channels' contents are these lists. The two timers are
    read once per use and their readings are arguments. Every iteration over a
    [HashMap] goes through [hash_iter]. *)
From S2P Require Import Prelude Types Values Protocol Epoch Decision.
Local Open Scope Z_scope.

Section app.
Context `{Profile} `{PeerIds} `{HashOrder} `{Sha256}.

(** ** Parameters *)
Record Params := mkParams {
  advertise_period : Z;
  consensus_nodes : positive;
  epoch_period : LogicalTimeAbsoluteMs
}.

Definition params_default : Params := mkParams 50 2 (LogicalTime.from_millis 60).

Definition set_advertise_period (self : Params) (new_period : Z) : Params :=
  mkParams new_period (consensus_nodes self) (epoch_period self).
Definition set_consensus_nodes (self : Params) (n_consensus : positive) : Params :=
  mkParams (advertise_period self) n_consensus (epoch_period self).
Definition set_epoch_period (self : Params) (new_period : LogicalTimeAbsoluteMs) : Params :=
  mkParams (advertise_period self) (consensus_nodes self) new_period.

(** ** Data *)
Abbreviation Offsets := (gmap KeyRange KeyOffset) (only parsing).
Abbreviation PeerOffsets := (gmap KeyRange (gmap PeerId KeyOffset)) (only parsing).
Abbreviation Transactions := (gmap UniqueU64BlobId Transaction) (only parsing).

Inductive Request : Type := Request_GetState.

Record CurrentOffsets := mkCurrentOffsets {
  CurrentOffsets_self_offsets : Offsets;
  CurrentOffsets_consensus_offset : Offsets
}.

Inductive Response : Type := Response_State (offsets : CurrentOffsets).

Record App := mkApp {
  params : Params;
  peer_id : PeerId;
  self_offsets : Offsets;
  offsets : PeerOffsets;
  consensus_offset : Offsets;
  commited_offsets : Offsets;
  epochs : list Epoch;
  transactions : Transactions;
  linearizer : LogLineriazer;
  send_decider : EpochDecisionEngine
}.

Definition app_new (peer_id : PeerId) (params : Params) : App :=
  mkApp params peer_id ∅ ∅ ∅ ∅ [] ∅ linearizer_new (Decision.new peer_id (epoch_period params)).

(** What a handler sends: to the p2p layer, to the runtime, to the epoch
    coordinator, and as the answer of a state request. *)
Inductive Effect : Type :=
| ToP2p (msg : Outbox)
| ToRuntime (input : Input)
| ToCoordinator (request : EpochRequest)
| Reply (response : Response).

(** ** Free functions *)

(** [map.values()] sorted in descending order; the element [n - 1]. *)
Definition consensus_maximum (map : gmap PeerId KeyOffset) (n_consensus : positive)
  : result (option KeyOffset) :=
  let n := Pos.to_nat n_consensus in
  if decide (size map < n)%nat then Ok None
  else
    let refs := merge_sort Z.ge (hash_iter map).*2 in
    m ← expect "index out of bounds" (refs !! (n - 1)%nat);
    Ok (Some m).

Definition calculate_epoch_increments (consensus_offset commited_offsets : Offsets)
  : result (list RangeKey.U64BlobIdClosedInterval) :=
  for_each (hash_iter consensus_offset)
    (fun increments '(range, offset) =>
       start ← match commited_offsets !! range with
               | Some prev => u64_add prev 1
               | None => Ok 0
               end;
       if start >? offset then Ok increments
       else
         i ← RangeKey.new_from_range_and_offsets range start offset;
         Ok (increments ++ [i])) [].

Definition move_offset_pointer (offsets : PeerOffsets) (peer_id : PeerId)
  (new_range : KeyRange) (new_offset : KeyOffset) : PeerOffsets :=
  match offsets !! new_range with
  | None => <[new_range := {[peer_id := new_offset]}]> offsets
  | Some mut_range => <[new_range := <[peer_id := new_offset]> mut_range]> offsets
  end.

Definition txs_to_range_tx_map (txs : list Transaction) : result (gmap KeyRange (list Transaction)) :=
  for_each txs
    (fun range_map tx =>
       range ← RangeKey.range_from_unique_blob_id (tx_id tx);
       match range_map !! range with
       | Some bucket => Ok (<[range := bucket ++ [tx]]> range_map)
       | None => Ok (<[range := [tx]]> range_map)
       end) ∅.

(** [while transactions.contains_key(&(key + 1)) { key += 1; }] *)
Fixpoint advance_key (fuel : nat) (transactions : Transactions) (key : UniqueU64BlobId)
  : result UniqueU64BlobId :=
  match fuel with
  | O => OutOfFuel
  | S fuel' =>
      probe ← u64_add key 1;
      match transactions !! probe with
      | Some _ => key' ← u64_add key 1; advance_key fuel' transactions key'
      | None => Ok key
      end
  end.

(** The inner loop that stores the transactions of one range and looks for offset 0. *)
Definition insert_range_txs (transactions : Transactions) (txs : list Transaction)
  : result (Transactions * bool) :=
  for_each txs
    (fun (st : Transactions * bool) tx =>
       let '(transactions, has_0_tx) := st in
       '(_, offset) ← RangeKey.range_offset_from_unique_blob_id (tx_id tx);
       Ok (<[tx_id tx := tx]> transactions, if offset =? 0 then true else has_0_tx))
    (transactions, false).

(** One iteration of the loop over the ranges. *)
Definition update_range_offset
  (st : Offsets * Transactions * list (KeyRange * KeyOffset))
  (bucket : KeyRange * list Transaction)
  : result (Offsets * Transactions * list (KeyRange * KeyOffset)) :=
  let '(self_offsets, transactions, updates) := st in
  let '(range, txs) := bucket in
  '(transactions, has_0_tx) ← insert_range_txs transactions txs;
  let start := match self_offsets !! range with
               | Some existing_offset => Some (existing_offset, self_offsets)
               | None => if (has_0_tx : bool) then Some (0, <[range := 0]> self_offsets) else None
               end in
  match start with
  | None => Ok (self_offsets, transactions, updates)
  | Some (start, self_offsets) =>
      key ← RangeKey.unique_blob_id_from_range_and_offset range start;
      key ← advance_key (S (size transactions)) transactions key;
      '(_, new_offset) ← RangeKey.range_offset_from_unique_blob_id key;
      Ok (<[range := new_offset]> self_offsets, transactions, updates ++ [(range, new_offset)])
  end.

Definition update_self_offsets (self_offsets : Offsets) (transactions : Transactions)
  (range_transactions : gmap KeyRange (list Transaction))
  : result (Offsets * Transactions * list (KeyRange * KeyOffset)) :=
  for_each (hash_iter range_transactions) update_range_offset (self_offsets, transactions, []).

Definition update_self_offset (self_offsets : Offsets) (transactions : Transactions)
  (tx : Transaction) : result (Offsets * Transactions * option (KeyRange * KeyOffset)) :=
  range_transactions ← txs_to_range_tx_map [tx];
  '(self_offsets, transactions, updates) ←
    update_self_offsets self_offsets transactions range_transactions;
  Ok (self_offsets, transactions, last updates).

(** [Iterator::max_by_key]: the last of the elements with the greatest key. *)
Definition max_by_key (l : list (PeerId * KeyOffset)) : option (PeerId * KeyOffset) :=
  foldl (fun best x =>
    match best with
    | None => Some x
    | Some b => if snd b <=? snd x then Some x else Some b
    end) None l.

(** The [while pointer <= right_border] loop and the interval pushed after it. *)
Fixpoint missing_intervals (fuel : nat) (transactions : Transactions) (range : KeyRange)
  (pointer left_border right_border : KeyOffset)
  (new_intervals : list RangeKey.U64BlobIdClosedInterval)
  : result (list RangeKey.U64BlobIdClosedInterval) :=
  match fuel with
  | O => OutOfFuel
  | S fuel' =>
      if pointer <=? right_border then
        id ← RangeKey.unique_blob_id_from_range_and_offset range pointer;
        match transactions !! id with
        | Some _ =>
            new_intervals ←
              (if left_border <? pointer then
                 r ← u64_sub pointer 1;
                 i ← RangeKey.new_from_range_and_offsets range left_border r;
                 Ok (new_intervals ++ [i])
               else Ok new_intervals);
            pointer ← u64_add pointer 1;
            missing_intervals fuel' transactions range pointer pointer right_border new_intervals
        | None =>
            pointer ← u64_add pointer 1;
            missing_intervals fuel' transactions range pointer left_border right_border new_intervals
        end
      else if decide (pointer <> left_border) then
        r ← u64_sub pointer 1;
        i ← RangeKey.new_from_range_and_offsets range left_border r;
        Ok (new_intervals ++ [i])
      else Ok new_intervals
  end.

(** One iteration of the loop over the ranges known from any node. *)
Definition range_delays (transactions : Transactions) (self_offsets : Offsets)
  (res : gmap PeerId (list RangeKey.U64BlobIdClosedInterval))
  (entry : KeyRange * gmap PeerId KeyOffset)
  : result (gmap PeerId (list RangeKey.U64BlobIdClosedInterval)) :=
  let '(range, nodes) := entry in
  match max_by_key (hash_iter nodes) with
  | None => Ok res
  | Some (peer_id, offset) =>
      let right_border := offset in
      left_border ← match self_offsets !! range with
                    | Some current =>
                        if current >=? right_border then Ok None
                        else l ← u64_add current 1; Ok (Some l)
                    | None => Ok (Some 0)
                    end;
      match left_border with
      | None => Ok res
      | Some left_border =>
          new_intervals ←
            missing_intervals (S (Z.to_nat (right_border + 1 - left_border))) transactions range
              left_border left_border right_border [];
          match res !! peer_id with
          | Some ranges => Ok (<[peer_id := ranges ++ new_intervals]> res)
          | None => Ok (<[peer_id := new_intervals]> res)
          end
      end
  end.

Definition self_delays (transactions : Transactions) (self_offsets : Offsets)
  (offsets : PeerOffsets) : result (gmap PeerId (list RangeKey.U64BlobIdClosedInterval)) :=
  for_each (hash_iter offsets) (range_delays transactions self_offsets) ∅.

(** ** Handlers *)

Definition recalculate_consensus_offsets (self : App) : result App :=
  consensus_offset ←
    for_each (hash_iter (offsets self))
      (fun consensus_offset '(k, v) =>
         max ← consensus_maximum v (consensus_nodes (params self));
         match max with
         | Some max => Ok (<[k := max]> consensus_offset)
         | None => Ok consensus_offset
         end) (consensus_offset self);
  Ok (mkApp (params self) (peer_id self) (self_offsets self) (offsets self) consensus_offset
        (commited_offsets self) (epochs self) (transactions self) (linearizer self)
        (send_decider self)).

(** [self.commited_offsets.insert] for the end of every interval. *)
Definition commit_offsets (commited_offsets : Offsets)
  (increments : list RangeKey.U64BlobIdClosedInterval) : result Offsets :=
  for_each increments
    (fun commited_offsets interval =>
       '(range, new_offset) ← RangeKey.range_offset_from_unique_blob_id (RangeKey.right interval);
       Ok (<[range := new_offset]> commited_offsets)) commited_offsets.

(** The body of the two nested loops that collect the blueprints for the runtime. *)
Definition collect_blueprint (st : Transactions * list TaskBlueprint) (i : UniqueU64BlobId)
  : result (Transactions * list TaskBlueprint) :=
  let '(transactions, blueprints) := st in
  tx ← expect "TODO: make sure all txs are here" (transactions !! i);
  let tx := set_status TxStatus_Pending tx in
  Ok (<[i := tx]> transactions,
      blueprints ++ [mkTaskBlueprint (tx_id tx) (TxBlueprint_queue_name (Transaction_blueprint tx))
                       (TxBlueprint_param (Transaction_blueprint tx))]).

Definition collect_blueprints (transactions : Transactions)
  (increments : list RangeKey.U64BlobIdClosedInterval)
  : result (Transactions * list TaskBlueprint) :=
  for_each increments
    (fun st interval => ids ← RangeKey.iter interval; for_each ids collect_blueprint st)
    (transactions, []).

Definition handle_epoch_coordinator_updates (self : App) (updates : EpochUpdates)
  : result (App * list Effect) :=
  match updates with
  | EpochUpdates_New new_epoch =>
      let new_epoch := sort_increments new_epoch in
      linearizer ← Epoch.new_epoch (linearizer self) new_epoch;
      commited_offsets ← commit_offsets (commited_offsets self) (Epoch_increments new_epoch);
      let send_decider := update_latest_epoch (send_decider self) (Epoch_creator new_epoch)
                            (Epoch_creation_time new_epoch) in
      let epochs := epochs self ++ [new_epoch] in
      let time := Epoch_creation_time new_epoch in
      '(transactions, blueprints) ←
        collect_blueprints (transactions self) (Epoch_increments new_epoch);
      let effects := if decide (0 < length blueprints)%nat then [ToRuntime (time, blueprints)] else [] in
      Ok (mkApp (params self) (peer_id self) (self_offsets self) (offsets self)
            (consensus_offset self) commited_offsets epochs transactions linearizer send_decider,
          effects)
  end.

(** The [while pointer <= end] loop of [Inbox::RequestMissingTxs]; the [continue] of
    a missing transaction goes back to the test with the same [pointer]. *)
Fixpoint serve_interval (fuel : nat) (transactions : Transactions)
  (pointer end_ : UniqueU64BlobId) (response : list Transaction) : result (list Transaction) :=
  match fuel with
  | O => OutOfFuel
  | S fuel' =>
      if pointer <=? end_ then
        match transactions !! pointer with
        | None => serve_interval fuel' transactions pointer end_ response
        | Some tx =>
            pointer' ← u64_add pointer 1;
            serve_interval fuel' transactions pointer' end_ (response ++ [tx])
        end
      else Ok response
  end.

Definition request_capacity (intervals : list RangeKey.U64BlobIdClosedInterval) : result Z :=
  for_each intervals (fun capacity i => c ← RangeKey.ids_count i; u64_add capacity c) 0.

Definition serve_missing (transactions : Transactions)
  (intervals : list RangeKey.U64BlobIdClosedInterval) : result (list Transaction) :=
  _ ← request_capacity intervals;
  for_each intervals
    (fun response i =>
       serve_interval (RangeKey.iter_fuel i) transactions (RangeKey.left i) (RangeKey.right i) response) [].

(** The state of a node is replaced by what changed of it. *)
Definition with_offsets (self : App) (self_offsets : Offsets) (offsets : PeerOffsets)
  (transactions : Transactions) : App :=
  mkApp (params self) (peer_id self) self_offsets offsets (consensus_offset self)
    (commited_offsets self) (epochs self) transactions (linearizer self) (send_decider self).

Definition recalculate_order (self : App) (ids : gset PeerId) : App :=
  mkApp (params self) (peer_id self) (self_offsets self) (offsets self) (consensus_offset self)
    (commited_offsets self) (epochs self) (transactions self) (linearizer self)
    (update_node_ids (send_decider self) ids).

Definition handle_inbox_message (self : App) (msg : Inbox) : result (App * list Effect) :=
  match msg with
  | Inbox_State peer_id state =>
      let offsets :=
        foldl (fun offsets '(k, v) =>
          match offsets !! k with
          | Some in_map => <[k := <[peer_id := v]> in_map]> offsets
          | None => <[k := {[peer_id := v]}]> offsets
          end) (offsets self) (hash_iter (NodeState_offsets state)) in
      Ok (with_offsets self (self_offsets self) offsets (transactions self), [])
  | Inbox_Nodes nodes => Ok (recalculate_order self nodes, [])
  | Inbox_NewTransaction tx =>
      '(self_offsets, transactions, update) ←
        update_self_offset (self_offsets self) (transactions self) tx;
      let offsets := match update with
                     | Some (new_range, new_offset) =>
                         move_offset_pointer (offsets self) (peer_id self) new_range new_offset
                     | None => offsets self
                     end in
      Ok (with_offsets self self_offsets offsets transactions, [])
  | Inbox_MissingTx txs =>
      range_transactions ← txs_to_range_tx_map txs;
      '(self_offsets, transactions, updates) ←
        update_self_offsets (self_offsets self) (transactions self) range_transactions;
      let offsets :=
        foldl (fun offsets '(new_range, new_offset) =>
          move_offset_pointer offsets (peer_id self) new_range new_offset) (offsets self) updates in
      Ok (with_offsets self self_offsets offsets transactions, [])
  | Inbox_RequestMissingTxs peer_id intervals =>
      response ← serve_missing (transactions self) intervals;
      Ok (self, [ToP2p (Outbox_RequestedTxsForPeer peer_id response)])
  end.

Definition advertise_offsets_and_request_missing (self : App) : result (App * list Effect) :=
  self ← recalculate_consensus_offsets self;
  let state := ToP2p (Outbox_State (mkNodeState (self_offsets self))) in
  delays ← self_delays (transactions self) (self_offsets self) (offsets self);
  if decide (size delays = 0%nat) then Ok (self, [state])
  else Ok (self, state :: map (fun '(peer_id, intervals) =>
                                ToP2p (Outbox_RequestMissingTxs peer_id intervals))
                          (hash_iter delays)).

Definition handle_request (self : App) (request : Request) : list Effect :=
  match request with
  | Request_GetState =>
      [Reply (Response_State (mkCurrentOffsets (self_offsets self) (consensus_offset self)))]
  end.

Definition commit_epoch_if_needed (self : App) (decider_now now : LogicalTimeAbsoluteMs)
  : result (list Effect) :=
  send ← should_send (send_decider self) decider_now;
  if negb send then Ok []
  else
    increments ← calculate_epoch_increments (consensus_offset self) (commited_offsets self);
    let prev_epoch := last (epochs self) in
    new_epoch ← Epoch.next (peer_id self) increments prev_epoch now;
    Ok [ToCoordinator (mkEpochRequest new_epoch)].

(** The branch of the event loop that receives results of the runtime. *)
Definition finish_transaction (st : Transactions * list TxUpdate) (r : Output)
  : result (Transactions * list TxUpdate) :=
  let '(transactions, for_notification) := st in
  tx ← expect "not possible to get result without existing transaction" (transactions !! fst r);
  let tx := set_status TxStatus_Finished tx in
  _ ← RangeKey.range_from_unique_blob_id (tx_id tx);
  Ok (<[fst r := tx]> transactions,
      for_notification ++ [mkTxUpdate (Transaction_meta tx) (Some (snd r))]).

Definition handle_runtime_results (self : App) (results : list Output)
  : result (App * list Effect) :=
  if decide (length results = 0%nat) then Ok (self, [])
  else
    '(transactions, for_notification) ←
      for_each results finish_transaction (transactions self, []);
    Ok (with_offsets self (self_offsets self) (offsets self) transactions,
        [ToP2p (Outbox_NotifyGWs for_notification)]).

(** ** The event loop

    One turn of [tokio::select!]: which branch is ready is the environment's choice. *)
Inductive Event : Type :=
| AdvertiseTick
| CommitTick (decider_now now : LogicalTimeAbsoluteMs)
| StateRequest (request : Request)
| InboxMessage (msg : Inbox)
| CoordinatorUpdate (updates : EpochUpdates)
| RuntimeResults (results : list Output).

Definition app_step (self : App) (ev : Event) : result (App * list Effect) :=
  match ev with
  | AdvertiseTick => advertise_offsets_and_request_missing self
  | CommitTick decider_now now =>
      effects ← commit_epoch_if_needed self decider_now now; Ok (self, effects)
  | StateRequest request => Ok (self, handle_request self request)
  | InboxMessage msg => handle_inbox_message self msg
  | CoordinatorUpdate updates => handle_epoch_coordinator_updates self updates
  | RuntimeResults results => handle_runtime_results self results
  end.

(** [loop_until_shutdown] on the events that happen before the shutdown. *)
Definition loop_until_shutdown (self : App) (events : list Event) : result (App * list Effect) :=
  for_each events
    (fun '(self, effects) ev => '(self, new) ← app_step self ev; Ok (self, effects ++ new))
    (self, []).
End app.
