(* ===== verification/AppOffsets.v ===== *)
(** * Self offsets: the contiguous prefix a node holds of every range

    Lemmas and properties of the part of [App] that stores transactions and moves
    offset pointers ([update_self_offsets] and the handlers that call it). *)
From S2P Require Import Prelude Types Values Protocol Epoch Decision App.
Local Open Scope Z_scope.

(** ** Specification vocabulary *)

(** An id gateways hand out: in a range below the last one, and not the last id of
    its range ([gateway/src/core.rs] asks for the next range before it). *)
Definition legal_id (id : UniqueU64BlobId) : Prop :=
  0 <= id < RangeKey.MAX_BLOCK_INDEX * RangeKey.SINGLE_BLOB_SIZE /\ id mod RangeKey.SINGLE_BLOB_SIZE < RangeKey.SINGLE_BLOB_SIZE - 1.

(** The range an id belongs to. *)
Definition range_of (id : UniqueU64BlobId) : KeyRange := id / RangeKey.SINGLE_BLOB_SIZE.

Definition keys_ok (txs : gmap UniqueU64BlobId Transaction) : Prop :=
  forall id tx, txs !! id = Some tx -> legal_id id /\ tx_id tx = id.

(** The self offset of a range is the end of the longest prefix [0..o] of it that is
    stored; there is none iff the first transaction is missing. *)
Definition range_inv (so : gmap KeyRange KeyOffset) (txs : gmap UniqueU64BlobId Transaction)
  (r : KeyRange) : Prop :=
  match so !! r with
  | Some o => RangeKey.slot_ok r o /\
      (forall k, 0 <= k <= o -> is_Some (txs !! RangeKey.slot_id r k)) /\
      txs !! RangeKey.slot_id r (o + 1) = None
  | None => txs !! RangeKey.slot_id r 0 = None
  end.

Definition insert_txs (m : gmap UniqueU64BlobId Transaction) (txs : list Transaction) :=
  foldl (fun m tx => <[tx_id tx := tx]> m) m txs.

(** What is stored of an id after a batch: its last occurrence in the batch. *)
Definition last_with_id (txs : list Transaction) (id : UniqueU64BlobId) : option Transaction :=
  last (filter (fun tx => tx_id tx = id) txs).

Definition offsets_ok (offs : gmap KeyRange KeyOffset) : Prop :=
  forall r o, offs !! r = Some o -> RangeKey.slot_ok r o.

Definition offset_le (a b : option KeyOffset) : Prop :=
  forall o, a = Some o -> exists o', b = Some o' /\ o <= o'.

(** ** Lemmas *)

Lemma offset_le_refl a : offset_le a a.
Proof. intros o ->. exists o. split; [done|lia]. Qed.

Lemma offset_le_trans a b c : offset_le a b -> offset_le b c -> offset_le a c.
Proof. intros H1 H2 o Ho. destruct (H1 o Ho) as (o1 & E & ?), (H2 o1 E) as (o2 & ? & ?). exists o2. split; [done|lia]. Qed.

Lemma legal_slot id : legal_id id ->
  RangeKey.slot_ok (range_of id) (id mod RangeKey.SINGLE_BLOB_SIZE) /\
  id = RangeKey.slot_id (range_of id) (id mod RangeKey.SINGLE_BLOB_SIZE).
Proof.
  intros [Hid Hm]. split; [|symmetry; apply RangeKey.slot_id_of_id].
  unfold RangeKey.slot_ok, range_of. revert Hid Hm.
  rewrite RangeKey.blob_size_eq, RangeKey.max_block_eq. intros. Z.div_mod_to_equations. lia.
Qed.

Lemma legal_addressable id : legal_id id -> RangeKey.addressable id.
Proof. intros [Hid _]. unfold RangeKey.addressable. lia. Qed.

Lemma slot_legal r o : RangeKey.slot_ok r o -> legal_id (RangeKey.slot_id r o) ->
  o < RangeKey.SINGLE_BLOB_SIZE - 1.
Proof. intros Hs [_ Hm]. rewrite RangeKey.slot_id_mod in Hm; [done|apply Hs]. Qed.

Lemma range_of_slot r o : RangeKey.slot_ok r o -> range_of (RangeKey.slot_id r o) = r.
Proof. intros [_ Ho]. by apply RangeKey.slot_id_div. Qed.

Lemma insert_txs_lookup m txs id :
  insert_txs m txs !! id = match last_with_id txs id with Some tx => Some tx | None => m !! id end.
Proof.
  unfold insert_txs, last_with_id.
  induction txs as [|tx txs IH] using rev_ind; [done|].
  rewrite foldl_app, filter_app. cbn [foldl]. destruct (decide (tx_id tx = id)) as [<-|Hne].
  - by rewrite filter_cons_True, filter_nil, lookup_insert_eq, last_snoc by done.
  - by rewrite filter_cons_False, filter_nil, app_nil_r, lookup_insert_ne by done.
Qed.

Lemma last_with_id_Some txs id tx : last_with_id txs id = Some tx -> tx ∈ txs /\ tx_id tx = id.
Proof.
  unfold last_with_id. intros Hl%last_Some_elem_of. apply list_elem_of_filter in Hl. tauto.
Qed.

Lemma last_with_id_None txs id : last_with_id txs id = None <-> forall tx, tx ∈ txs -> tx_id tx <> id.
Proof.
  unfold last_with_id. rewrite last_None. split.
  - intros Hn tx Htx Hid. apply (not_elem_of_nil tx). rewrite <-Hn. by apply list_elem_of_filter.
  - intros Hall. destruct (filter _ txs) as [|tx l] eqn:E; [done|]. exfalso.
    assert (Hin : tx ∈ filter (fun tx => tx_id tx = id) txs) by (rewrite E; left).
    apply list_elem_of_filter in Hin as [Hid Hin]. by eapply Hall.
Qed.

Lemma insert_txs_keys_ok m txs :
  keys_ok m -> Forall (fun tx => legal_id (tx_id tx)) txs -> keys_ok (insert_txs m txs).
Proof.
  intros Hm Hl id tx. rewrite insert_txs_lookup. rewrite Forall_forall in Hl.
  destruct (last_with_id txs id) eqn:E; [|by apply Hm].
  apply last_with_id_Some in E as [Hin Hid]. intros [= ->]. split; [|done]. rewrite <-Hid. by apply Hl.
Qed.

Lemma insert_txs_mono m txs id : is_Some (m !! id) -> is_Some (insert_txs m txs !! id).
Proof. intros Hm. rewrite insert_txs_lookup. destruct (last_with_id txs id); [done|exact Hm]. Qed.

Section offsets.
Context `{Profile} `{HashOrder}.

Lemma insert_range_txs_ok m txs :
  Forall (fun tx => legal_id (tx_id tx)) txs ->
  insert_range_txs m txs
  = Ok (insert_txs m txs, existsb (fun tx => tx_id tx mod RangeKey.SINGLE_BLOB_SIZE =? 0) txs).
Proof.
  intros Hl. unfold insert_range_txs.
  edestruct (for_each_inv (fun done st => st = (insert_txs m done,
    existsb (fun tx => tx_id tx mod RangeKey.SINGLE_BLOB_SIZE =? 0) done)) txs) as (st & -> & ->);
    [| |done]; [done|].
  intros done tx st Hin ->. rewrite Forall_forall in Hl.
  rewrite RangeKey.range_offset_ok by by apply legal_addressable, Hl.
  eexists; split; [reflexivity|]. unfold insert_txs. rewrite foldl_app, existsb_app. cbn -[Z.modulo].
  f_equal. destruct (_ =? 0), (existsb _ done); done.
Qed.

(** The search for the next gap ends within one step per stored transaction. *)
Lemma advance_key_ok txs r n o :
  keys_ok txs -> RangeKey.slot_ok r o -> is_Some (txs !! RangeKey.slot_id r o) ->
  (size (filter (fun k => (RangeKey.slot_id r o < k)%Z) (dom txs)) < n)%nat ->
  exists o', advance_key n txs (RangeKey.slot_id r o) = Ok (RangeKey.slot_id r o') /\
    RangeKey.slot_ok r o' /\ o <= o' /\
    (forall k, o <= k <= o' -> is_Some (txs !! RangeKey.slot_id r k)) /\
    txs !! RangeKey.slot_id r (o' + 1) = None.
Proof.
  intros Hk. revert o. induction n as [|n IH]; intros o Hs [tx Htx] Hn; [lia|].
  destruct (Hk _ _ Htx) as [Hleg _]. pose proof (slot_legal _ _ Hs Hleg) as Ho.
  assert (Hnext : RangeKey.slot_id r o + 1 = RangeKey.slot_id r (o + 1)) by (unfold RangeKey.slot_id; lia).
  assert (Hs' : RangeKey.slot_ok r (o + 1)) by RangeKey.blob_lia.
  cbn. rewrite u64_add_ok by RangeKey.blob_lia. cbn. rewrite Hnext.
  destruct (txs !! RangeKey.slot_id r (o + 1)) as [tx'|] eqn:E.
  - destruct (IH (o + 1)) as (o' & -> & Hs'' & Hle & Hall & Hnone); [done|by eexists| |].
    + enough (filter (fun k => RangeKey.slot_id r (o + 1) < k) (dom txs)
              ⊂ filter (fun k => RangeKey.slot_id r o < k) (dom txs)) as Hsub%subset_size by lia.
      split.
      * intros k [Hk1 Hk2]%elem_of_filter. apply elem_of_filter. split; [lia|done].
      * intros Hsub. assert (Hin : RangeKey.slot_id r (o + 1)
            ∈ filter (fun k => RangeKey.slot_id r o < k) (dom txs)).
        { apply elem_of_filter. split; [lia|]. apply elem_of_dom. by eexists. }
        apply Hsub, elem_of_filter in Hin as [? _]. lia.
    + exists o'. split; [done|]. split; [done|]. split; [lia|]. split; [|done].
      intros k Hk'. destruct (decide (k = o)) as [->|]; [by rewrite Htx|apply Hall; lia].
  - exists o. split; [done|]. split; [done|]. split; [lia|]. split; [|done].
    intros k Hk'. replace k with o by lia. by rewrite Htx.
Qed.

Lemma advance_key_fuel txs r o :
  keys_ok txs -> RangeKey.slot_ok r o -> is_Some (txs !! RangeKey.slot_id r o) ->
  exists o', advance_key (S (size txs)) txs (RangeKey.slot_id r o) = Ok (RangeKey.slot_id r o') /\
    RangeKey.slot_ok r o' /\ o <= o' /\
    (forall k, o <= k <= o' -> is_Some (txs !! RangeKey.slot_id r k)) /\
    txs !! RangeKey.slot_id r (o' + 1) = None.
Proof.
  intros. apply advance_key_ok; try done. rewrite <-size_dom, Nat.lt_succ_r.
  apply subseteq_size. intros k [_ Hk]%elem_of_filter. done.
Qed.

(** What one iteration of the loop over the ranges does to its own range. *)
Lemma update_range_offset_ok so txs ups r bucket :
  keys_ok txs -> 0 <= r < RangeKey.MAX_BLOCK_INDEX -> range_inv so txs r ->
  Forall (fun tx => legal_id (tx_id tx) /\ range_of (tx_id tx) = r) bucket ->
  exists so', update_range_offset (so, txs, ups) (r, bucket)
    = Ok (so', insert_txs txs bucket, ups ++ match so' !! r with Some o => [(r, o)] | None => [] end) /\
    range_inv so' (insert_txs txs bucket) r /\ offset_le (so !! r) (so' !! r) /\
    forall r', r' <> r -> so' !! r' = so !! r'.
Proof.
  intros Hk Hr Hinv Hb. assert (Hl : Forall (fun tx => legal_id (tx_id tx)) bucket).
  { eapply Forall_impl; [exact Hb|]. tauto. }
  pose proof (insert_txs_keys_ok _ _ Hk Hl) as Hk'.
  unfold update_range_offset. rewrite insert_range_txs_ok by done. cbn -[Z.modulo advance_key].
  set (txs' := insert_txs txs bucket) in *.
  assert (Hgo : forall o so1, RangeKey.slot_ok r o ->
    (forall k, 0 <= k <= o -> is_Some (txs' !! RangeKey.slot_id r k)) ->
    offset_le (so !! r) (Some o) -> (forall r', r' <> r -> so1 !! r' = so !! r') ->
    exists so', (key ← RangeKey.unique_blob_id_from_range_and_offset r o;
      key ← advance_key (S (size txs')) txs' key;
      '(_, new_offset) ← RangeKey.range_offset_from_unique_blob_id key;
      Ok (<[r := new_offset]> so1, txs', ups ++ [(r, new_offset)]))
    = Ok (so', txs', ups ++ match so' !! r with Some o => [(r, o)] | None => [] end) /\
    range_inv so' txs' r /\ offset_le (so !! r) (so' !! r) /\
    forall r', r' <> r -> so' !! r' = so !! r').
  { intros o so1 Hs Hall Hle Hso1. rewrite RangeKey.slot_id_ok by RangeKey.blob_lia. cbn -[advance_key].
    destruct (advance_key_fuel txs' r o) as (o' & -> & Hs' & Hoo & Hall' & Hnone);
      [done|done|apply Hall; RangeKey.blob_lia|]. cbn.
    rewrite RangeKey.range_offset_ok by by apply RangeKey.slot_addressable.
    rewrite RangeKey.slot_id_div, RangeKey.slot_id_mod by apply Hs'. cbn.
    exists (<[r := o']> so1). rewrite lookup_insert_eq. split; [done|]. split; [|split].
    - unfold range_inv. rewrite lookup_insert_eq. split; [done|]. split; [|done].
      intros k Hk0. destruct (decide (k <= o)); [apply Hall; lia|apply Hall'; lia].
    - eapply offset_le_trans; [exact Hle|]. intros ? [= <-]. by exists o'.
    - intros r' Hne. rewrite lookup_insert_ne by done. by apply Hso1. }
  unfold range_inv in Hinv. destruct (so !! r) as [o|] eqn:Eso.
  - destruct Hinv as (Hs & Hall & _). apply Hgo; [done| | |done].
    + intros k Hk0. by apply insert_txs_mono, Hall.
    + apply offset_le_refl.
  - destruct (existsb _ bucket) eqn:Eex.
    + apply Hgo; [RangeKey.blob_lia| |done|by intros; rewrite lookup_insert_ne].
      intros k Hk0. replace k with 0 by lia. unfold txs'. rewrite insert_txs_lookup.
      destruct (last_with_id bucket _) eqn:El; [done|]. exfalso.
      apply existsb_exists in Eex as (tx & Hin%list_elem_of_In & Hz%Z.eqb_eq).
      rewrite Forall_forall in Hb. destruct (Hb tx Hin) as [Hleg Hrange].
      apply (proj1 (last_with_id_None _ _) El tx Hin).
      destruct (legal_slot _ Hleg) as [_ ->]. by rewrite Hz, Hrange.
    + exists so. rewrite Eso, app_nil_r. split; [done|]. split; [|split; [done|done]].
      unfold range_inv. rewrite Eso. unfold txs'. rewrite insert_txs_lookup, Hinv.
      destruct (last_with_id bucket _) as [tx|] eqn:El; [|done]. exfalso.
      apply last_with_id_Some in El as [Hin Hid].
      assert (existsb (fun tx => tx_id tx mod RangeKey.SINGLE_BLOB_SIZE =? 0) bucket = true); [|congruence].
      apply existsb_exists. exists tx. split; [by apply list_elem_of_In|].
      rewrite Hid, RangeKey.slot_id_mod; [done|RangeKey.blob_lia].
Qed.

(** Grouping keeps the transactions of a range in their order. *)
Definition bucket (txs : list Transaction) (r : KeyRange) : list Transaction :=
  filter (fun tx => range_of (tx_id tx) = r) txs.

Lemma txs_to_range_tx_map_ok txs :
  Forall (fun tx => RangeKey.addressable (tx_id tx)) txs ->
  exists m, txs_to_range_tx_map txs = Ok m /\
    forall r, m !! r = match bucket txs r with [] => None | b => Some b end.
Proof.
  intros Ha. unfold txs_to_range_tx_map.
  edestruct (for_each_inv (fun done (m : gmap KeyRange (list Transaction)) =>
    forall r, m !! r = match bucket done r with [] => None | b => Some b end) txs) as (m & -> & Hm);
    [| |by exists m]; [done|].
  intros done tx m Hin Hm. rewrite Forall_forall in Ha. rewrite RangeKey.range_from_ok by by apply Ha.
  cbn. fold (range_of (tx_id tx)). rewrite (Hm (range_of (tx_id tx))).
  assert (Hb : forall r, bucket (done ++ [tx]) r
    = if decide (range_of (tx_id tx) = r) then bucket done r ++ [tx] else bucket done r).
  { intros r. unfold bucket. rewrite filter_app. destruct (decide _).
    - by rewrite filter_cons_True, filter_nil by done.
    - by rewrite filter_cons_False, filter_nil, app_nil_r by done. }
  destruct (bucket done (range_of (tx_id tx))) as [|b bs] eqn:E;
    (eexists; split; [reflexivity|]; intros r; rewrite Hb; destruct (decide _) as [<-|Hne];
     [rewrite lookup_insert_eq, E; done|rewrite lookup_insert_ne by done; apply Hm]).
Qed.

Lemma bucket_last txs id :
  last_with_id (bucket txs (range_of id)) id = last_with_id txs id.
Proof.
  unfold last_with_id, bucket. f_equal. rewrite list_filter_filter.
  apply list_filter_iff. intros tx. split; [tauto|]. intros <-. done.
Qed.

Lemma bucket_other txs r id : range_of id <> r -> last_with_id (bucket txs r) id = None.
Proof.
  intros Hne. apply last_with_id_None. intros tx [<- _]%list_elem_of_filter <-. done.
Qed.

Lemma range_inv_agree so so' txs txs' r :
  so !! r = so' !! r -> (forall id, range_of id = r -> txs !! id = txs' !! id) ->
  0 <= r < RangeKey.MAX_BLOCK_INDEX -> keys_ok txs -> range_inv so txs r -> range_inv so' txs' r.
Proof.
  intros Hso Hag Hr Hk. unfold range_inv. rewrite <-Hso. destruct (so !! r) as [o|].
  - intros (Hs & Hall & Hn). split; [done|]. destruct (Hall o) as [tx Htx]; [RangeKey.blob_lia|].
    pose proof (slot_legal r o Hs (proj1 (Hk _ _ Htx))).
    split; [intros k Hk'; rewrite <-Hag by (apply range_of_slot; RangeKey.blob_lia); by apply Hall|].
    rewrite <-Hag by (apply range_of_slot; RangeKey.blob_lia). done.
  - intros Hn. rewrite <-Hag by (apply range_of_slot; RangeKey.blob_lia). done.
Qed.

(** ** The whole batch *)
Lemma update_self_offsets_ok so txs batch m :
  keys_ok txs -> (forall r, 0 <= r < RangeKey.MAX_BLOCK_INDEX -> range_inv so txs r) ->
  Forall (fun tx => legal_id (tx_id tx)) batch -> txs_to_range_tx_map batch = Ok m ->
  exists so' ups, update_self_offsets so txs m = Ok (so', insert_txs txs batch, ups) /\
    (forall r, 0 <= r < RangeKey.MAX_BLOCK_INDEX -> range_inv so' (insert_txs txs batch) r) /\
    (forall r, offset_le (so !! r) (so' !! r)) /\
    (forall r, bucket batch r = [] -> so' !! r = so !! r) /\
    (forall r o, (r, o) ∈ ups <-> bucket batch r <> [] /\ so' !! r = Some o).
Proof.
  intros Hk Hinv Hl Hm.
  assert (Hm' : forall r, m !! r = match bucket batch r with [] => None | b => Some b end).
  { assert (Ha : Forall (fun tx => RangeKey.addressable (tx_id tx)) batch).
    { eapply Forall_impl; [exact Hl|]. intros tx. apply legal_addressable. }
    destruct (txs_to_range_tx_map_ok batch Ha) as (m' & E & Hm'). rewrite E in Hm. by injection Hm as <-. }
  unfold update_self_offsets. pose proof (hash_iter_nodup m) as Hnd.
  edestruct (for_each_inv_split (fun done '(so', txs', ups) =>
    keys_ok txs' /\
    (forall id, txs' !! id = if decide (range_of id ∈ done.*1) then insert_txs txs batch !! id else txs !! id) /\
    (forall r, 0 <= r < RangeKey.MAX_BLOCK_INDEX -> range_inv so' txs' r) /\
    (forall r, offset_le (so !! r) (so' !! r)) /\
    (forall r, r ∉ done.*1 -> so' !! r = so !! r) /\
    (forall r o, (r, o) ∈ ups <-> r ∈ done.*1 /\ so' !! r = Some o)) (hash_iter m)
    update_range_offset (so, txs, [])) as ([[so' txs'] ups] & Hrun & HI).
  - cbn -[decide]. split_and!; try done.
    + intros r. apply offset_le_refl.
    + intros r o. rewrite !elem_of_nil. tauto.
  - intros done [r b] rest [[so1 txs1] ups1] Heq (Hk1 & Hids & Hri & Hle & Hout & Hups).
    assert (Hmb : m !! r = Some b) by (apply hash_iter_elem; rewrite Heq; set_solver).
    assert (Hrd : r ∉ done.*1).
    { rewrite Heq, fmap_app in Hnd. apply NoDup_app in Hnd as (_ & Hd & _). set_solver. }
    assert (Hb : b = bucket batch r /\ b <> []).
    { rewrite Hm' in Hmb. by destruct (bucket batch r); [|injection Hmb as <-]. }
    destruct Hb as [-> Hne].
    assert (Hbl : Forall (fun tx => legal_id (tx_id tx) /\ range_of (tx_id tx) = r) (bucket batch r)).
    { rewrite Forall_forall in Hl |- *. intros tx [? ?]%list_elem_of_filter. auto. }
    assert (Hr : 0 <= r < RangeKey.MAX_BLOCK_INDEX).
    { destruct (bucket batch r) as [|tx b]; [done|]. apply Forall_cons in Hbl as [[Hleg <-] _].
      apply (legal_slot _ Hleg). }
    destruct (update_range_offset_ok so1 txs1 ups1 r (bucket batch r) Hk1 Hr (Hri r Hr) Hbl)
      as (so2 & -> & Hinv2 & Hle2 & Hout2).
    eexists; split; [reflexivity|]. cbn -[decide]. rewrite fmap_app. cbn -[decide].
    split_and!.
    + apply insert_txs_keys_ok; [done|]. eapply Forall_impl; [exact Hbl|]. tauto.
    + intros id. rewrite insert_txs_lookup, Hids. destruct (decide (range_of id = r)) as [<-|Hid].
      * rewrite bucket_last. rewrite (decide_False (P := range_of id ∈ done.*1)) by done.
        rewrite decide_True by set_solver. by rewrite insert_txs_lookup.
      * rewrite bucket_other by done. apply decide_ext. set_solver.
    + intros r' Hr'. destruct (decide (r' = r)) as [->|Hne']; [done|].
      eapply range_inv_agree; [symmetry; by apply Hout2| |done|exact Hk1|by apply Hri].
      intros id <-. rewrite insert_txs_lookup. by rewrite bucket_other.
    + intros r'. eapply offset_le_trans; [apply Hle|]. destruct (decide (r' = r)) as [->|]; [done|].
      rewrite Hout2 by done. apply offset_le_refl.
    + intros r' Hr'. rewrite Hout2 by set_solver. apply Hout. set_solver.
    + intros r' o. rewrite elem_of_app, Hups. destruct (decide (r' = r)) as [->|Hne'].
      * destruct (so2 !! r) as [o2|]; set_solver.
      * rewrite (Hout2 r') by done. destruct (so2 !! r); set_solver.
  - exists so', ups. destruct HI as (Hk1 & Hids & Hri & Hle & Hout & Hups).
    assert (Hdom : forall r, r ∈ (hash_iter m).*1 <-> bucket batch r <> []).
    { intros r. rewrite list_elem_of_fmap. split.
      - intros ([r' b] & -> & Hb%hash_iter_elem). cbn. rewrite Hm' in Hb. by destruct (bucket batch r').
      - intros Hb. exists (r, bucket batch r). split; [done|]. apply hash_iter_elem. rewrite Hm'.
        by destruct (bucket batch r). }
    assert (txs' = insert_txs txs batch) as ->.
    { apply map_eq. intros id. rewrite Hids. destruct (decide _) as [|Hn]; [done|].
      rewrite insert_txs_lookup, <-bucket_last.
      destruct (bucket batch (range_of id)) eqn:E; [done|]. exfalso. apply Hn, Hdom. by rewrite E. }
    split_and!; try done.
    + intros r Hb. apply Hout. rewrite Hdom. tauto.
    + intros r o. by rewrite Hups, Hdom.
Qed.
End offsets.

(** ** The invariant of the application state *)
Section invariant.
Context `{Profile} `{PeerIds} `{HashOrder} `{Sha256}.

Definition peer_offset (offs : gmap KeyRange (gmap PeerId KeyOffset)) (r : KeyRange) (p : PeerId)
  : option KeyOffset :=
  offs !! r ≫= fun nodes => nodes !! p.

(** Stored transactions are keyed by their ids; every self offset is the end of the
    stored prefix of its range; the node's own pointer among the peers' is its self offset. *)
Record app_inv (a : App) : Prop := {
  inv_keys : keys_ok (transactions a);
  inv_range : forall r, 0 <= r < RangeKey.MAX_BLOCK_INDEX ->
                range_inv (self_offsets a) (transactions a) r;
  inv_own : forall r, peer_offset (offsets a) r (peer_id a) = self_offsets a !! r;
  inv_valid : offsets_ok (self_offsets a)
}.

(** What the environment guarantees: transactions come with legal ids, and no message
    claims to be the state of this node. *)
Definition event_ok (self_id : PeerId) (ev : Event) : Prop :=
  match ev with
  | InboxMessage (Inbox_NewTransaction tx) => legal_id (tx_id tx)
  | InboxMessage (Inbox_MissingTx txs) => Forall (fun tx => legal_id (tx_id tx)) txs
  | InboxMessage (Inbox_State p _) => p <> self_id
  | _ => True
  end.

(** The state after a step extends the one before. *)
Record app_extends (a a' : App) : Prop := {
  ext_id : peer_id a' = peer_id a;
  ext_offsets : forall r, offset_le (self_offsets a !! r) (self_offsets a' !! r);
  ext_txs : forall id, is_Some (transactions a !! id) -> is_Some (transactions a' !! id)
}.

#[export] Instance app_extends_preorder : PreOrder app_extends.
Proof.
  split.
  - intros a. split; [done|intros r; apply offset_le_refl|done].
  - intros a b c [H11 H12 H13] [H21 H22 H23]. split; [congruence| |auto].
    intros r. eapply offset_le_trans; eauto.
Qed.

Lemma peer_offset_move offs p r o r' p' :
  peer_offset (move_offset_pointer offs p r o) r' p'
  = if decide (r' = r /\ p' = p) then Some o else peer_offset offs r' p'.
Proof.
  unfold peer_offset, move_offset_pointer. destruct (offs !! r) as [nodes|] eqn:E;
    (destruct (decide (r' = r)) as [->|Hr];
     [rewrite lookup_insert_eq|rewrite lookup_insert_ne, decide_False by naive_solver; done]); cbn.
  - rewrite E. cbn. destruct (decide (p' = p)) as [->|Hp].
    + by rewrite lookup_insert_eq, decide_True.
    + by rewrite lookup_insert_ne, decide_False by naive_solver.
  - rewrite E. cbn. destruct (decide (p' = p)) as [->|Hp].
    + by rewrite lookup_singleton_eq, decide_True.
    + by rewrite lookup_singleton_ne, decide_False by naive_solver.
Qed.

Lemma peer_offset_moves (so : gmap KeyRange KeyOffset) ups offs p r :
  (forall r o, (r, o) ∈ ups -> so !! r = Some o) ->
  peer_offset (foldl (fun offs '(r, o) => move_offset_pointer offs p r o) offs ups) r p
  = if decide (r ∈ ups.*1) then so !! r else peer_offset offs r p.
Proof.
  induction ups as [|[r0 o0] ups IH] using rev_ind; intros Hups.
  { rewrite decide_False; [done|apply not_elem_of_nil]. }
  rewrite foldl_app, fmap_app. cbn [foldl fmap list_fmap fst]. rewrite peer_offset_move, IH by set_solver.
  destruct (decide (r = r0)) as [->|Hne].
  - rewrite decide_True by done. rewrite decide_True by set_solver. symmetry. apply Hups. set_solver.
  - rewrite (decide_False (P := r = r0 /\ p = p)) by naive_solver. apply decide_ext. set_solver.
Qed.

Lemma batch_offsets_valid (so so' : gmap KeyRange KeyOffset) batch txs :
  offsets_ok so -> Forall (fun tx => legal_id (tx_id tx)) batch ->
  (forall r, bucket batch r = [] -> so' !! r = so !! r) ->
  (forall r, 0 <= r < RangeKey.MAX_BLOCK_INDEX -> range_inv so' txs r) -> offsets_ok so'.
Proof.
  intros Hval Hl Hout Hinv r o Ho. destruct (bucket batch r) as [|tx b] eqn:E.
  - rewrite Hout in Ho by done. by apply Hval.
  - assert (Hin : tx ∈ bucket batch r) by (rewrite E; left).
    apply list_elem_of_filter in Hin as [<- Hin]. rewrite Forall_forall in Hl.
    destruct (legal_slot _ (Hl tx Hin)) as [[Hr _] _]. specialize (Hinv _ Hr).
    unfold range_inv in Hinv. rewrite Ho in Hinv. apply Hinv.
Qed.

(** Storing a batch, at the level of the node's state. *)
Lemma store_batch_ok a batch m :
  app_inv a -> Forall (fun tx => legal_id (tx_id tx)) batch -> txs_to_range_tx_map batch = Ok m ->
  exists so' ups,
    update_self_offsets (self_offsets a) (transactions a) m
      = Ok (so', insert_txs (transactions a) batch, ups) /\
    let a' := with_offsets a so'
      (foldl (fun offs '(r, o) => move_offset_pointer offs (peer_id a) r o) (offsets a) ups)
      (insert_txs (transactions a) batch) in
    app_inv a' /\ app_extends a a' /\
    (forall r o, (r, o) ∈ ups <-> bucket batch r <> [] /\ so' !! r = Some o).
Proof.
  intros [Hk Hr Hown Hval] Hl Hm.
  destruct (update_self_offsets_ok _ _ batch m Hk Hr Hl Hm) as (so' & ups & E & Hr' & Hle & Hout & Hups).
  exists so', ups. split; [done|]. cbn zeta. split; [|split; [|done]].
  - split; [by apply insert_txs_keys_ok|done| |by apply (batch_offsets_valid (self_offsets a) so' batch (insert_txs (transactions a) batch))].
    intros r. cbn.
    rewrite (peer_offset_moves so') by (intros ?? Hin; by apply Hups in Hin as [_ ?]).
    destruct (decide (r ∈ ups.*1)) as [|Hn]; [done|]. rewrite Hown.
    destruct (decide (bucket batch r = [])) as [Hb|Hb]; [by rewrite Hout|].
    destruct (so' !! r) as [o|] eqn:Eo.
    + exfalso. apply Hn. apply list_elem_of_fmap. exists (r, o). split; [done|]. by apply Hups.
    + destruct (self_offsets a !! r) as [o|] eqn:Eo'; [|done].
      destruct (Hle r o Eo') as (? & ? & _). congruence.
  - split; [done|done|]. intros id. apply insert_txs_mono.
Qed.

Lemma legal_batch_grouped batch :
  Forall (fun tx => legal_id (tx_id tx)) batch -> exists m, txs_to_range_tx_map batch = Ok m.
Proof.
  intros Hl. destruct (txs_to_range_tx_map_ok batch) as (m & E & _); [|by exists m].
  eapply Forall_impl; [exact Hl|]. intros tx. apply legal_addressable.
Qed.

Lemma handle_missing_ok a batch :
  app_inv a -> Forall (fun tx => legal_id (tx_id tx)) batch ->
  exists a', handle_inbox_message a (Inbox_MissingTx batch) = Ok (a', []) /\
    app_inv a' /\ app_extends a a' /\ transactions a' = insert_txs (transactions a) batch.
Proof.
  intros Hinv Hl. destruct (legal_batch_grouped batch Hl) as [m Em].
  destruct (store_batch_ok a batch m Hinv Hl Em) as (so' & ups & E & Hinv' & Hext & _).
  cbn. rewrite Em. cbn. rewrite E. cbn. eexists. split; [reflexivity|]. split; [exact Hinv'|].
  split; [exact Hext|done].
Qed.

(** A single transaction is a batch of one: at most one pointer moves. *)
Lemma handle_new_tx_ok a tx :
  app_inv a -> legal_id (tx_id tx) ->
  exists a', handle_inbox_message a (Inbox_NewTransaction tx) = Ok (a', []) /\
    app_inv a' /\ app_extends a a' /\ transactions a' = <[tx_id tx := tx]> (transactions a).
Proof.
  intros Hinv Hl. assert (Hl' : Forall (fun tx => legal_id (tx_id tx)) [tx]) by (constructor; done).
  destruct (legal_batch_grouped [tx] Hl') as [m Em].
  destruct (store_batch_ok a [tx] m Hinv Hl' Em) as (so' & ups & E & Hinv' & Hext & Hups).
  cbn [handle_inbox_message]. unfold update_self_offset. rewrite Em. cbn [mbind result_bind].
  rewrite E. cbn [mbind result_bind].
  assert (Hone : forall l : list (KeyRange * KeyOffset), (forall r o, (r, o) ∈ l -> r = range_of (tx_id tx)) ->
    (forall r o o', (r, o) ∈ l -> (r, o') ∈ l -> o = o') -> forall offs r,
    peer_offset (match last l with Some (r, o) => move_offset_pointer offs (peer_id a) r o | None => offs end)
      r (peer_id a)
    = peer_offset (foldl (fun offs '(r, o) => move_offset_pointer offs (peer_id a) r o) offs l) r (peer_id a)).
  { intros l Hl1 Hl2 offs r. destruct l as [|[r0 o0] l _] using rev_ind; [done|].
    rewrite last_snoc, foldl_app. cbn [foldl]. rewrite !peer_offset_move.
    destruct (decide (r = r0 /\ peer_id a = peer_id a)) as [|Hn]; [done|].
    rewrite (peer_offset_moves {[r0 := o0]}).
    - rewrite decide_False; [done|]. intros ([r1 o1] & -> & Hin)%list_elem_of_fmap. apply Hn.
      split; [|done]. cbn. rewrite (Hl1 r1 o1), (Hl1 r0 o0); set_solver.
    - intros r1 o1 Hin. rewrite (Hl1 r1 o1), <-(Hl1 r0 o0), lookup_singleton_eq by set_solver.
      f_equal. apply (Hl2 r0); [set_solver|]. rewrite (Hl1 r0 o0), <-(Hl1 r1 o1); set_solver. }
  eexists. split; [reflexivity|]. destruct Hinv' as [Hk' Hr' Hown' Hval'], Hext as [He1 He2 He3].
  split; [split; [done|done| |done]|split; [split; [done|done|done]|done]].
  intros r. rewrite <-Hown'. cbn. apply Hone.
  - intros r0 o0 Hin%Hups. destruct Hin as [Hb _]. destruct (decide (range_of (tx_id tx) = r0)) as [|Hn]; [done|].
    exfalso. apply Hb. unfold bucket. by rewrite filter_cons_False, filter_nil.
  - intros r0 o1 o2 Ho1%Hups Ho2%Hups. destruct Ho1, Ho2. congruence.
Qed.
End invariant.

(** ** Steps that only relabel transactions *)

(** The same transactions, up to their status. *)
Definition same_ids (m m' : gmap UniqueU64BlobId Transaction) : Prop :=
  forall id, tx_id <$> m !! id = tx_id <$> m' !! id.

#[export] Instance same_ids_equiv : Equivalence same_ids.
Proof. split; [by intros m id|by intros m m' Hm id|by intros a b c Ha Hb id; rewrite (Ha id), (Hb id)]. Qed.

Lemma same_ids_is_Some m m' id : same_ids m m' -> is_Some (m !! id) <-> is_Some (m' !! id).
Proof. intros Hs. by rewrite <-(fmap_is_Some tx_id), (Hs id), fmap_is_Some. Qed.

Lemma same_ids_None m m' id : same_ids m m' -> m !! id = None <-> m' !! id = None.
Proof. intros Hs. by rewrite <-(fmap_None tx_id), (Hs id), fmap_None. Qed.

#[export] Instance keys_ok_proper : Proper (same_ids ==> iff) keys_ok.
Proof.
  enough (forall m m', same_ids m m' -> keys_ok m -> keys_ok m') as Hgo.
  { intros m m' Hs. split; apply Hgo; [done|by symmetry]. }
  intros m m' Hs Hk id tx Htx. specialize (Hs id). rewrite Htx in Hs.
  destruct (m !! id) as [tx0|] eqn:E; [|done]. destruct (Hk id tx0 E) as [? <-].
  injection Hs as Hs. by split.
Qed.

#[export] Instance range_inv_proper so : Proper (same_ids ==> eq ==> iff) (range_inv so).
Proof.
  intros m m' Hs r ? <-. unfold range_inv. destruct (so !! r) as [o|].
  - rewrite (same_ids_None m m' _ Hs). split; intros (? & Hall & ?); split_and!; try done;
      intros k Hk; [rewrite <-(same_ids_is_Some m m' _ Hs)|rewrite (same_ids_is_Some m m' _ Hs)]; auto.
  - by rewrite (same_ids_None m m' _ Hs).
Qed.

Lemma same_ids_relabel m id tx status :
  m !! id = Some tx -> same_ids m (<[id := set_status status tx]> m).
Proof.
  intros Htx k. destruct (decide (k = id)) as [->|].
  - by rewrite lookup_insert_eq, Htx.
  - by rewrite lookup_insert_ne.
Qed.

Section steps.
Context `{Profile} `{PeerIds} `{HashOrder} `{Sha256}.

Lemma collect_blueprints_same_ids m ivs m' bs :
  collect_blueprints m ivs = Ok (m', bs) -> same_ids m m'.
Proof.
  unfold collect_blueprints. intros Hrun.
  apply (for_each_inv_ok (fun _ st => same_ids m (fst st)) _ _ _ _ Hrun); [done|].
  intros _ i [m1 bs1] [m2 bs2] _ Hb Hs. inv_ok. cbn in Hs |- *.
  apply (for_each_inv_ok (fun _ st => same_ids m (fst st)) _ _ _ _ Hb); [done|].
  intros _ id [m3 bs3] [m4 bs4] _ Hc Hs3. unfold collect_blueprint in Hc. inv_ok. cbn in Hs3 |- *.
  etransitivity; [exact Hs3|]. by apply same_ids_relabel.
Qed.

Lemma finish_transactions_same_ids m rs m' us us' :
  for_each rs finish_transaction (m, us) = Ok (m', us') -> same_ids m m'.
Proof.
  intros Hrun. apply (for_each_inv_ok (fun _ st => same_ids m (fst st)) _ _ _ _ Hrun); [done|].
  intros _ r [m1 us1] [m2 us2] _ Hf Hs. unfold finish_transaction in Hf. inv_ok. cbn in Hs |- *.
  etransitivity; [exact Hs|]. by apply same_ids_relabel.
Qed.

(** A step that keeps the offsets and relabels transactions keeps the invariant. *)
Lemma relabel_inv a a' :
  app_inv a -> peer_id a' = peer_id a -> self_offsets a' = self_offsets a ->
  (forall r, peer_offset (offsets a') r (peer_id a) = peer_offset (offsets a) r (peer_id a)) ->
  same_ids (transactions a) (transactions a') -> app_inv a' /\ app_extends a a'.
Proof.
  intros [Hk Hr Hown Hval] Hid Hso Hoff Hs. split; split.
  - by rewrite <-Hs.
  - intros r Hr'. rewrite Hso. apply (range_inv_proper _ _ _ Hs _ _ eq_refl). by apply Hr.
  - intros r. by rewrite Hid, Hso, Hoff.
  - by rewrite Hso.
  - done.
  - intros r. rewrite Hso. apply offset_le_refl.
  - intros id. by rewrite (same_ids_is_Some _ _ _ Hs).
Qed.

Lemma peer_state_own (l : list (KeyRange * KeyOffset)) offs p self_id r :
  p <> self_id ->
  peer_offset (foldl (fun offsets '(k, v) =>
     match offsets !! k with
     | Some in_map => <[k := <[p := v]> in_map]> offsets
     | None => <[k := {[p := v]}]> offsets
     end) offs l) r self_id = peer_offset offs r self_id.
Proof.
  intros Hne. revert offs. induction l as [|[k v] l IH]; intros offs; [done|]. cbn [foldl].
  rewrite IH. change (match offs !! k with Some in_map => _ | None => _ end)
    with (match offs !! k with Some in_map => <[k := <[p := v]> in_map]> offs
          | None => <[k := {[p := v]}]> offs end).
  pose proof (peer_offset_move offs p k v r self_id) as Hm. unfold move_offset_pointer in Hm.
  destruct (offs !! k); rewrite Hm, decide_False by naive_solver; done.
Qed.

Lemma app_step_inv a ev a' effs :
  app_inv a -> event_ok (peer_id a) ev -> app_step a ev = Ok (a', effs) ->
  app_inv a' /\ app_extends a a'.
Proof.
  intros Hinv Hev Hrun. destruct ev as [|dn now|req|msg|[e]|rs]; cbn in Hrun.
  - unfold advertise_offsets_and_request_missing, recalculate_consensus_offsets in Hrun. inv_ok.
    destruct (decide _); injection Hrun as <- <-; by apply relabel_inv.
  - inv_ok. by split.
  - inv_ok. by split.
  - destruct msg as [p st|nodes|tx|p ivs|txs].
    + cbn in Hrun. injection Hrun as <- <-. apply relabel_inv; try done.
      intros r. cbn. by apply peer_state_own.
    + injection Hrun as <- <-. by apply relabel_inv.
    + destruct (handle_new_tx_ok a tx Hinv Hev) as (a1 & E & ? & ? & _).
      rewrite E in Hrun. by injection Hrun as <- <-.
    + cbn in Hrun. inv_ok. by split.
    + destruct (handle_missing_ok a txs Hinv Hev) as (a1 & E & ? & ? & _).
      rewrite E in Hrun. by injection Hrun as <- <-.
  - inv_ok. destruct a2 as [m bs]. inv_ok. apply relabel_inv; try done. cbn.
    by eapply collect_blueprints_same_ids.
  - unfold handle_runtime_results in Hrun. destruct (decide _); [injection Hrun as <- <-; by split|].
    inv_ok. destruct a0 as [m us]. inv_ok. apply relabel_inv; try done.
    by eapply finish_transactions_same_ids.
Qed.

Lemma app_new_inv p ps : app_inv (app_new p ps).
Proof.
  split.
  - intros id tx. cbn. by rewrite lookup_empty.
  - intros r _. unfold range_inv. cbn. by rewrite !lookup_empty.
  - intros r. unfold peer_offset. cbn. by rewrite !lookup_empty.
  - intros r o. cbn. by rewrite lookup_empty.
Qed.

(** ** Serving the transactions a peer misses *)
Lemma serve_interval_ok m n p e resp :
  0 <= p -> e < u64_max -> (Z.to_nat (e - p + 1) < n)%nat ->
  (forall id, p <= id <= e -> is_Some (m !! id)) ->
  serve_interval n m p e resp = Ok (resp ++ omap (fun id => m !! id) (seqZ p (e - p + 1))).
Proof.
  intros Hp He. revert p resp Hp. induction n as [|n IH]; intros p resp Hp Hn Hall; [lia|]. cbn.
  destruct (Z.leb_spec p e).
  - destruct (Hall p) as [tx Htx]; [lia|]. rewrite Htx.
    rewrite u64_add_ok by RangeKey.blob_lia. cbn. rewrite IH; [|lia|lia|intros; apply Hall; lia].
    rewrite (seqZ_cons p) by lia. cbn. rewrite Htx, <-app_assoc. cbn.
    do 5 f_equal; lia.
  - by rewrite seqZ_nil, app_nil_r by lia.
Qed.

(** With a gap inside the interval no amount of fuel suffices. *)
Lemma serve_interval_stuck m p e gap resp n :
  p <= gap <= e -> m !! gap = None -> 0 <= p -> e < u64_max ->
  serve_interval n m p e resp = OutOfFuel.
Proof.
  intros Hg Hnone. revert p resp Hg. induction n as [|n IH]; intros p resp Hg Hp He; [done|]. cbn.
  destruct (Z.leb_spec p e); [|lia]. destruct (m !! p) eqn:E.
  - assert (p <> gap) by congruence. rewrite u64_add_ok by RangeKey.blob_lia. cbn. apply IH; lia.
  - apply IH; lia.
Qed.

Lemma request_capacity_ok ivs :
  Forall RangeKey.interval_ok ivs -> Z.of_nat (length (concat (map RangeKey.ids ivs))) < u64_modulus ->
  is_ok (request_capacity ivs).
Proof. intros Hf Hl. eexists. by apply (new_elements_count_ok ivs). Qed.

(** Stored transactions are served: one per requested id, in the order of the request. *)
Lemma serve_missing_ok m ivs :
  keys_ok m -> Forall RangeKey.interval_ok ivs ->
  Z.of_nat (length (concat (map RangeKey.ids ivs))) < u64_modulus ->
  (forall id, id ∈ concat (map RangeKey.ids ivs) -> is_Some (m !! id)) ->
  exists txs, serve_missing m ivs = Ok txs /\ map tx_id txs = concat (map RangeKey.ids ivs).
Proof.
  intros Hk Hf Hlen Hall. exists (omap (fun id => m !! id) (concat (map RangeKey.ids ivs))). split.
  - unfold serve_missing. destruct (request_capacity_ok ivs Hf Hlen) as [c ->]. cbn -[serve_interval].
    edestruct (for_each_inv (fun visited resp =>
      resp = omap (fun id => m !! id) (concat (map RangeKey.ids visited))) ivs)
      as (resp & -> & ->); [| |reflexivity]; [done|].
    intros visited i resp Hin ->. rewrite Forall_forall in Hf. specialize (Hf i Hin) as [Hi1 Hi2].
    rewrite (serve_interval_ok _ (RangeKey.iter_fuel i)).
    + eexists; split; [reflexivity|]. rewrite map_app, concat_app, omap_app. cbn. by rewrite app_nil_r.
    + lia.
    + exact Hi2.
    + unfold RangeKey.iter_fuel. lia.
    + intros id Hid. apply Hall, elem_of_concat_map. exists i. split; [done|]. by apply RangeKey.elem_of_ids.
  - clear Hlen. revert Hall. induction (concat (map RangeKey.ids ivs)) as [|id l IH]; intros Hall; [done|].
    destruct (Hall id) as [tx Htx]; [left|]. cbn. rewrite Htx. cbn.
    rewrite (proj2 (Hk _ _ Htx)), IH; [done|]. intros; apply Hall; by right.
Qed.
End steps.

(** ** Properties *)

Section runs.
Context `{Profile} `{PeerIds} `{HashOrder} `{Sha256}.

Lemma run_inv a events a' effs :
  app_inv a -> Forall (event_ok (peer_id a)) events ->
  loop_until_shutdown a events = Ok (a', effs) -> app_inv a' /\ app_extends a a'.
Proof.
  intros Hinv Hev Hrun. unfold loop_until_shutdown in Hrun.
  apply (for_each_inv_ok (fun _ st => app_inv (fst st) /\ app_extends a (fst st)) _ _ _ _ Hrun); [by split|].
  intros _ ev [a1 f1] [a2 f2] Hin Hb [Hi1 He1]. inv_ok. destruct a0 as [a3 f3]. inv_ok.
  rewrite Forall_forall in Hev. cbn in *. apply app_step_inv in Ha as [Hi3 He3]; [|done|].
  - split; [done|]. by etransitivity.
  - rewrite (ext_id _ _ He1). by apply Hev.
Qed.

(** The invariant pins the self offset down. *)
Lemma self_offset_iff a r o :
  app_inv a -> 0 <= r < RangeKey.MAX_BLOCK_INDEX -> 0 <= o ->
  self_offsets a !! r = Some o <->
  (forall k, 0 <= k <= o -> is_Some (transactions a !! RangeKey.slot_id r k)) /\
  transactions a !! RangeKey.slot_id r (o + 1) = None.
Proof.
  intros [_ Hr _ _] Hrange Ho. specialize (Hr r Hrange). unfold range_inv in Hr. split.
  - intros Hso. rewrite Hso in Hr. tauto.
  - intros [Hall Hnone]. destruct (self_offsets a !! r) as [o'|].
    + destruct Hr as (Hs & Hall' & Hnone'). f_equal. destruct (Z.lt_trichotomy o' o) as [Hlt|[->|Hlt]]; [|done|].
      * destruct (Hall (o' + 1)) as [? E]; [RangeKey.blob_lia|]. congruence.
      * destruct (Hall' (o + 1)) as [? E]; [lia|]. congruence.
    + destruct (Hall 0) as [? E]; [lia|]. congruence.
Qed.
End runs.

(** C15: in every run of the event loop from a fresh node, whatever the order of the
    events, in which every transaction received has a legal id and no [State] message
    claims to come from the node itself ([event_ok]), the self offset of a range is [o]
    exactly when transactions 0..o of the range are all stored and the next one is not, so
    what the node advertises is always the longest gap-free prefix it can serve; and along
    the run offsets never go back and stored transactions are never dropped. A legal id is
    one of an existing range, but not the last one of the range: with that one the code
    would go on counting into the next range (a TODO in update_self_offsets says so). *)
Theorem self_offset_is_stored_prefix `{Profile} `{PeerIds} `{HashOrder} `{Sha256}
  p ps events1 events2 a1 effs1 a2 effs2 :
  Forall (event_ok p) events1 -> Forall (event_ok p) events2 ->
  loop_until_shutdown (app_new p ps) events1 = Ok (a1, effs1) ->
  loop_until_shutdown a1 events2 = Ok (a2, effs2) ->
  (forall r o, 0 <= r < RangeKey.MAX_BLOCK_INDEX -> 0 <= o ->
     self_offsets a2 !! r = Some o <->
     (forall k, 0 <= k <= o -> is_Some (transactions a2 !! RangeKey.slot_id r k)) /\
     transactions a2 !! RangeKey.slot_id r (o + 1) = None) /\
  (forall r o, self_offsets a1 !! r = Some o ->
     exists o', self_offsets a2 !! r = Some o' /\ o <= o') /\
  (forall id, is_Some (transactions a1 !! id) -> is_Some (transactions a2 !! id)).
Proof.
  intros He1 He2 Hr1 Hr2. apply run_inv in Hr1 as [Hi1 Hx1]; [|apply app_new_inv|done].
  apply run_inv in Hr2 as [Hi2 [_ Ho Ht]]; [|done|by rewrite (ext_id _ _ Hx1)].
  split; [|by split]. intros. by apply self_offset_iff.
Qed.

Definition tx_with_id (id : UniqueU64BlobId) : Transaction :=
  mkTransaction (mkMeta id TxStatus_Created) (mkTxBlueprint "" (Value_U64 0)).

Definition test_hash : Sha256 := {| sha256 := fun _ => [] |}.

Definition test_app : @App nat_peers :=
  @app_new nat_peers 0%nat params_default.

Definition witness_run (evs : list (@Event nat_peers)) :=
  @loop_until_shutdown dev_profile nat_peers list_order test_hash test_app evs.

Lemma self_offset_is_stored_prefix_witness :
  exists a effs, witness_run [InboxMessage (Inbox_NewTransaction (tx_with_id 1));
      InboxMessage (Inbox_MissingTx [tx_with_id 3; tx_with_id 0])] = Ok (a, effs) /\
    (is_Some (transactions a !! 1) -> self_offsets a !! 0 = Some 1).
Proof.
  destruct (witness_run [InboxMessage (Inbox_NewTransaction (tx_with_id 1))]) as [[a1 f1]| |] eqn:E1;
    [|by vm_compute in E1|by vm_compute in E1].
  destruct (witness_run [InboxMessage (Inbox_NewTransaction (tx_with_id 1));
      InboxMessage (Inbox_MissingTx [tx_with_id 3; tx_with_id 0])]) as [[a2 f2]| |] eqn:E2;
    [|by vm_compute in E2|by vm_compute in E2].
  exists a2, f2. split; [done|]. intros _.
  destruct (@self_offset_is_stored_prefix dev_profile nat_peers list_order test_hash 0%nat params_default
    [InboxMessage (Inbox_NewTransaction (tx_with_id 1));
     InboxMessage (Inbox_MissingTx [tx_with_id 3; tx_with_id 0])] [] a2 f2 a2 []) as [Hiff _].
  - repeat constructor; vm_compute; (discriminate || reflexivity || (intros; discriminate)).
  - constructor.
  - exact E2.
  - reflexivity.
  - apply (Hiff 0 1); [vm_compute; repeat split; discriminate|lia|].
    vm_compute in E2. injection E2 as <- <-. split; [|reflexivity].
    intros k Hk. assert (k = 0 \/ k = 1) as [->| ->] by lia; eexists; reflexivity.
Defined.

(** A batch of transactions with legal ids never makes a node panic or loop: the
    handler of [MissingTx] terminates without sending anything, stores for every id
    its last occurrence in the batch and keeps what it had for the others, and
    restores the offset invariant, whatever the order and the gaps of the batch. *)
Theorem store_batch_total `{Profile} `{PeerIds} `{HashOrder} a batch :
  app_inv a -> Forall (fun tx => legal_id (tx_id tx)) batch ->
  exists a', handle_inbox_message a (Inbox_MissingTx batch) = Ok (a', []) /\ app_inv a' /\
    app_extends a a' /\
    (forall id, transactions a' !! id
       = match last_with_id batch id with Some tx => Some tx | None => transactions a !! id end) /\
    consensus_offset a' = consensus_offset a /\ commited_offsets a' = commited_offsets a /\
    epochs a' = epochs a /\ linearizer a' = linearizer a.
Proof.
  intros Hinv Hl. destruct (handle_missing_ok a batch Hinv Hl) as (a' & E & Hi & Hx & Ht).
  exists a'. split; [done|]. split; [done|]. split; [done|].
  split; [intros id; by rewrite Ht, insert_txs_lookup|].
  cbn in E. inv_ok. destruct a1 as [[? ?] ?]. inv_ok. done.
Qed.

Lemma store_batch_total_witness :
  exists a', @handle_inbox_message dev_profile nat_peers list_order test_app
      (Inbox_MissingTx [tx_with_id 7; tx_with_id 0]) = Ok (a', []) /\
    transactions a' !! 7 = Some (tx_with_id 7).
Proof.
  destruct (@store_batch_total dev_profile nat_peers list_order test_app
    [tx_with_id 7; tx_with_id 0]) as (a' & E & _ & _ & Ht & _).
  - apply (@app_new_inv nat_peers).
  - repeat constructor; vm_compute; (discriminate || reflexivity || (intros; discriminate)).
  - exists a'. split; [exact E|]. rewrite Ht. reflexivity.
Defined.

Definition witness_app (ids : list UniqueU64BlobId) : @App nat_peers :=
  with_offsets test_app ∅ ∅ (insert_txs ∅ (map tx_with_id ids)).

(** C29: a request that covers a transaction the node does not have is never answered:
    the loop comes back to the missing id without advancing, so no number of
    iterations is enough and the event loop never handles another event. *)
Theorem request_with_gap_diverges `{Profile} `{PeerIds} `{HashOrder} a p ivs i ivs' gap :
  Forall RangeKey.interval_ok (ivs ++ i :: ivs') ->
  Z.of_nat (length (concat (map RangeKey.ids (ivs ++ i :: ivs')))) < u64_modulus ->
  (forall id, id ∈ concat (map RangeKey.ids ivs) -> is_Some (transactions a !! id)) ->
  RangeKey.left i <= gap <= RangeKey.right i -> transactions a !! gap = None ->
  (forall n resp, serve_interval n (transactions a) (RangeKey.left i) (RangeKey.right i) resp = OutOfFuel) /\
  handle_inbox_message a (Inbox_RequestMissingTxs p (ivs ++ i :: ivs')) = OutOfFuel.
Proof.
  intros Hf Hlen Hall Hgap Hnone.
  assert (Hi : RangeKey.interval_ok i) by (rewrite Forall_forall in Hf; apply Hf; set_solver).
  assert (Hstuck : forall n resp,
    serve_interval n (transactions a) (RangeKey.left i) (RangeKey.right i) resp = OutOfFuel).
  { intros n resp. destruct Hi. apply (serve_interval_stuck _ _ _ gap); lia || done. }
  split; [exact Hstuck|]. cbn. unfold serve_missing.
  destruct (request_capacity_ok _ Hf Hlen) as [c ->]. cbn -[serve_interval]. rewrite for_each_app.
  apply Forall_app in Hf as [Hf _].
  edestruct (for_each_inv (fun _ (_ : list Transaction) => True) ivs) as (resp & -> & _);
    [done| |cbn -[serve_interval]; by rewrite Hstuck].
  intros done j resp Hin _. rewrite Forall_forall in Hf. destruct (Hf j Hin) as [Hj1 Hj2].
  rewrite (serve_interval_ok _ (RangeKey.iter_fuel j)); [by eexists|lia|exact Hj2|unfold RangeKey.iter_fuel; lia|].
  intros id Hid. apply Hall. apply list_elem_of_In, in_concat. exists (RangeKey.ids j).
  split; [by apply in_map, list_elem_of_In|by apply list_elem_of_In, RangeKey.elem_of_ids].
Qed.

Lemma request_with_gap_diverges_witness :
  @handle_inbox_message dev_profile nat_peers list_order (witness_app [4; 6])
    (@Inbox_RequestMissingTxs nat_peers 3%nat [RangeKey.MkInterval 4 6]) = OutOfFuel.
Proof.
  apply (@request_with_gap_diverges dev_profile nat_peers list_order (witness_app [4; 6])
    3%nat [] (RangeKey.MkInterval 4 6) [] 5).
  - repeat constructor; vm_compute; (discriminate || reflexivity || (intros; discriminate)).
  - reflexivity.
  - cbn. intros id Hid. by apply not_elem_of_nil in Hid.
  - cbn. lia.
  - reflexivity.
Defined.
