(* ===== verification/AppEpochs.v ===== *)
(** * Consensus offsets, delays and epochs of the application

    Lemmas and properties of the part of [App] that compares the offsets of the
    nodes ([consensus_maximum], [self_delays]) and makes and applies epochs
    ([calculate_epoch_increments], [commit_epoch_if_needed],
    [handle_epoch_coordinator_updates]). *)
From S2P Require Import Prelude Types Values Protocol Epoch Decision App AppOffsets.
Local Open Scope Z_scope.

(** ** The consensus maximum *)

(** How many peers are at least at offset [m]. *)
Definition peers_at_least `{PeerIds} (map : gmap PeerId KeyOffset) (m : KeyOffset) : nat :=
  size (filter (fun kv : PeerId * KeyOffset => m <= kv.2) map).

#[export] Instance ge_total : Total Z.ge.
Proof. intros x y. lia. Qed.
#[export] Instance ge_trans : Transitive Z.ge.
Proof. intros x y z. lia. Qed.

(** In a descending list the element at [i] is the greatest bound that more than [i]
    elements reach. *)
Lemma descending_lookup l i m :
  StronglySorted Z.ge l -> l !! i = Some m ->
  (i < length (filter (Z.le m) l))%nat /\
  forall m', (i < length (filter (Z.le m') l))%nat -> m' <= m.
Proof.
  intros Hs. revert i. induction Hs as [|x l Hs IH Hx]; intros i Hi; [done|].
  rewrite Forall_forall in Hx. destruct i as [|i]; cbn in Hi.
  - injection Hi as ->. split.
    + rewrite filter_cons_True by lia. cbn. lia.
    + intros m' Hlen. destruct (filter (Z.le m') (m :: l)) as [|y ys] eqn:E; [cbn in Hlen; lia|].
      assert (Hy : y ∈ filter (Z.le m') (m :: l)) by (rewrite E; left).
      apply list_elem_of_filter in Hy as [Hm' [->|Hy]%elem_of_cons]; [done|]. specialize (Hx y Hy). lia.
  - destruct (IH i Hi) as [H1 H2]. assert (x >= m) by (apply Hx; by eapply list_elem_of_lookup_2).
    split; [rewrite filter_cons_True by lia; cbn; lia|].
    intros m' Hlen. rewrite filter_cons in Hlen. destruct (decide (m' <= x)); cbn in Hlen; apply H2; lia.
Qed.

Section consensus.
Context `{Profile} `{PeerIds} `{HashOrder}.

Lemma peers_at_least_hash map m :
  peers_at_least map m = length (filter (Z.le m) (hash_iter map).*2).
Proof.
  unfold peers_at_least. rewrite <-length_map_to_list.
  assert (Hp : map_to_list (filter (fun kv : PeerId * KeyOffset => m <= kv.2) map)
               ≡ₚ filter (fun kv : PeerId * KeyOffset => m <= kv.2) (map_to_list map)).
  { rewrite map_filter_alt. apply map_to_list_to_map.
    assert (Hnd : NoDup (map_to_list map).*1) by apply NoDup_fst_map_to_list.
    revert Hnd. generalize (map_to_list map). intros l. induction l as [|[k v] l IH]; intros Hnd; [constructor|].
    cbn in Hnd. apply NoDup_cons in Hnd as [Hk Hnd]. rewrite filter_cons. destruct (decide _); [|by apply IH].
    cbn. apply NoDup_cons. split; [|by apply IH]. intros Hin. apply Hk.
    apply list_elem_of_fmap in Hin as (kv & -> & [_ Hin]%list_elem_of_filter).
    apply list_elem_of_fmap. by exists kv. }
  rewrite Hp, hash_iter_perm. generalize (map_to_list map). intros l.
  induction l as [|[k v] l IH]; [done|]. rewrite fmap_cons, !filter_cons.
  cbn [snd]. destruct (decide (m <= v)), (decide (m <= (k, v).2)); cbn in *; congruence || lia.
Qed.

Lemma consensus_maximum_spec map n :
  (consensus_maximum map n = Ok None /\ (size map < Pos.to_nat n)%nat) \/
  exists m, consensus_maximum map n = Ok (Some m) /\ (Pos.to_nat n <= peers_at_least map m)%nat /\
    (forall m', (Pos.to_nat n <= peers_at_least map m')%nat -> m' <= m) /\
    exists p, map !! p = Some m.
Proof.
  unfold consensus_maximum. destruct (decide _) as [|Hn]; [by left|]. right.
  set (refs := merge_sort Z.ge (hash_iter map).*2).
  assert (Hperm : refs ≡ₚ (hash_iter map).*2) by apply merge_sort_Permutation.
  assert (Hlen : length refs = size map).
  { by rewrite Hperm, length_fmap, hash_iter_perm, length_map_to_list. }
  destruct (lookup_lt_is_Some_2 refs (Pos.to_nat n - 1)) as [m Hm]; [lia|].
  exists m. rewrite Hm. cbn. split; [done|].
  assert (Hcount : forall x, peers_at_least map x = length (filter (Z.le x) refs)).
  { intros x. by rewrite peers_at_least_hash, Hperm. }
  destruct (descending_lookup refs _ m (StronglySorted_merge_sort _ _) Hm) as [H1' H2']. split; [|split].
  - rewrite Hcount. lia.
  - intros m' Hm'. apply H2'. rewrite <-Hcount. lia.
  - apply list_elem_of_lookup_2 in Hm. rewrite Hperm in Hm.
    apply list_elem_of_fmap in Hm as ([p v] & -> & Hp%hash_iter_elem). by exists p.
Qed.
End consensus.

(** ** Increments of the next epoch *)

(** The first offset of a range that no epoch contains yet. *)
Definition next_offset (commited : gmap KeyRange KeyOffset) (r : KeyRange) : KeyOffset :=
  match commited !! r with Some prev => prev + 1 | None => 0 end.

(** The interval an entry of the consensus offsets contributes. *)
Definition increment_of (commited : gmap KeyRange KeyOffset) (entry : KeyRange * KeyOffset)
  : list RangeKey.U64BlobIdClosedInterval :=
  let '(r, o) := entry in
  if next_offset commited r >? o then []
  else [RangeKey.MkInterval (RangeKey.slot_id r (next_offset commited r)) (RangeKey.slot_id r o)].

Section increments.
Context `{Profile} `{HashOrder}.

Lemma calculate_epoch_increments_ok consensus commited :
  offsets_ok consensus -> offsets_ok commited ->
  calculate_epoch_increments consensus commited
  = Ok (concat (map (increment_of commited) (hash_iter consensus))).
Proof.
  intros Hc Hd. unfold calculate_epoch_increments.
  edestruct (for_each_inv (fun visited incs => incs = concat (map (increment_of commited) visited))
    (hash_iter consensus)) as (incs & -> & ->); [| |done]; [done|].
  intros visited [r o] incs Hin%hash_iter_elem ->. apply Hc in Hin as Hs.
  rewrite map_app, concat_app. cbn [map concat]. rewrite app_nil_r. unfold increment_of at 2.
  assert (Hstart : (match commited !! r with Some prev => u64_add prev 1 | None => Ok 0 end)
                   = Ok (next_offset commited r)).
  { unfold next_offset. destruct (commited !! r) as [prev|] eqn:E; [|done].
    apply Hd in E. apply u64_add_ok. RangeKey.blob_lia. }
  rewrite Hstart. cbn -[Z.gtb]. destruct (Z.gtb_spec (next_offset commited r) o).
  - by rewrite app_nil_r; eexists.
  - assert (0 <= next_offset commited r).
    { unfold next_offset. destruct (commited !! r) as [prev|] eqn:E; [apply Hd in E; RangeKey.blob_lia|lia]. }
    rewrite RangeKey.new_from_slots_ok by RangeKey.blob_lia. by eexists.
Qed.

Lemma elem_of_increments consensus commited i :
  i ∈ concat (map (increment_of commited) (hash_iter consensus)) <->
  exists r o, consensus !! r = Some o /\ next_offset commited r <= o /\
    i = RangeKey.MkInterval (RangeKey.slot_id r (next_offset commited r)) (RangeKey.slot_id r o).
Proof.
  rewrite list_elem_of_In, in_concat. split.
  - intros (l & ([r o] & <- & Hin%list_elem_of_In%hash_iter_elem)%in_map_iff & Hi). exists r, o.
    unfold increment_of in Hi. destruct (Z.gtb_spec (next_offset commited r) o); [done|].
    destruct Hi as [<-|[]]. split_and!; [done|lia|done].
  - intros (r & o & Hro & Hle & ->). exists (increment_of commited (r, o)). split.
    + by apply in_map, list_elem_of_In, hash_iter_elem.
    + unfold increment_of. destruct (Z.gtb_spec (next_offset commited r) o); [lia|by left].
Qed.
End increments.

(** ** Applying an epoch *)

Definition commit_map (commited : gmap KeyRange KeyOffset)
  (increments : list RangeKey.U64BlobIdClosedInterval) : gmap KeyRange KeyOffset :=
  foldl (fun c i => <[range_of (RangeKey.right i) := RangeKey.right i mod RangeKey.SINGLE_BLOB_SIZE]> c)
    commited increments.

Definition blueprint_of (tx : Transaction) : TaskBlueprint :=
  mkTaskBlueprint (tx_id tx) (TxBlueprint_queue_name (Transaction_blueprint tx))
    (TxBlueprint_param (Transaction_blueprint tx)).

Definition blueprints_of (m : gmap UniqueU64BlobId Transaction) (ids : list UniqueU64BlobId) :=
  omap (fun id => blueprint_of <$> m !! id) ids.

(** [m'] is [m] with the status of the transactions in [ids] set. *)
Definition relabelled (status : TxStatus) (ids : list UniqueU64BlobId)
  (m m' : gmap UniqueU64BlobId Transaction) : Prop :=
  forall id, m' !! id = if decide (id ∈ ids) then set_status status <$> m !! id else m !! id.

Lemma length_blueprints_of m ids :
  (forall id, id ∈ ids -> is_Some (m !! id)) -> length (blueprints_of m ids) = length ids.
Proof.
  unfold blueprints_of. induction ids as [|id l IH]; intros Hall; [done|].
  destruct (Hall id) as [tx Htx]; [left|]. cbn. rewrite Htx. cbn. f_equal. apply IH.
  intros; apply Hall; by right.
Qed.

Section apply.
Context `{Profile} `{PeerIds}.

Lemma commit_offsets_ok c incs :
  Forall (fun i => RangeKey.addressable (RangeKey.right i)) incs ->
  commit_offsets c incs = Ok (commit_map c incs).
Proof.
  intros Hf. unfold commit_offsets.
  edestruct (for_each_inv (fun visited c' => c' = commit_map c visited) incs) as (c' & -> & ->);
    [| |done]; [done|].
  intros visited i c' Hin ->. rewrite Forall_forall in Hf. rewrite RangeKey.range_offset_ok by by apply Hf.
  eexists; split; [reflexivity|]. unfold commit_map. by rewrite foldl_app.
Qed.

Lemma collect_ids_ok m0 m bs ids prev :
  relabelled TxStatus_Pending prev m0 m -> (forall id, id ∈ ids -> is_Some (m0 !! id)) ->
  exists m', for_each ids collect_blueprint (m, bs) = Ok (m', bs ++ blueprints_of m0 ids) /\
    relabelled TxStatus_Pending (prev ++ ids) m0 m'.
Proof.
  intros Hm Hall.
  edestruct (for_each_inv (fun visited st => relabelled TxStatus_Pending (prev ++ visited) m0 (fst st) /\
    snd st = bs ++ blueprints_of m0 visited) ids collect_blueprint (m, bs)) as ([m' bs'] & Hrun & Hr & Hb).
  - cbn. by rewrite !app_nil_r.
  - intros visited id [m1 bs1] Hin [Hr Hb]. cbn in Hr, Hb. destruct (Hall id Hin) as [tx Htx].
    assert (Htx1 : exists tx1, m1 !! id = Some tx1 /\ set_status TxStatus_Pending tx1 = set_status TxStatus_Pending tx
        /\ Transaction_blueprint tx1 = Transaction_blueprint tx).
    { pose proof (Hr id) as Hl. rewrite Htx in Hl. destruct (decide (id ∈ prev ++ visited)); eexists; by split. }
    destruct Htx1 as (tx1 & E1 & E2 & E3). unfold collect_blueprint. rewrite E1. cbn.
    eexists; split; [reflexivity|]. cbn. rewrite E2. split.
    + intros k. destruct (decide (k = id)) as [->|Hne].
      * rewrite lookup_insert_eq, decide_True by set_solver. by rewrite Htx.
      * rewrite lookup_insert_ne, Hr by done. apply decide_ext. set_solver.
    + rewrite Hb, <-app_assoc. unfold blueprints_of. rewrite omap_app. cbn. rewrite Htx. cbn.
      unfold blueprint_of. injection E2 as E2 _. by rewrite E2, E3.
  - exists m'. cbn in *. by subst bs'.
Qed.

Lemma collect_blueprints_ok m ivs :
  Forall RangeKey.interval_ok ivs ->
  (forall id, id ∈ concat (map RangeKey.ids ivs) -> is_Some (m !! id)) ->
  exists m', collect_blueprints m ivs = Ok (m', blueprints_of m (concat (map RangeKey.ids ivs))) /\
    relabelled TxStatus_Pending (concat (map RangeKey.ids ivs)) m m'.
Proof.
  intros Hf Hall. unfold collect_blueprints.
  edestruct (for_each_inv (fun visited st =>
    relabelled TxStatus_Pending (concat (map RangeKey.ids visited)) m (fst st) /\
    snd st = blueprints_of m (concat (map RangeKey.ids visited))) ivs
    (fun st interval => ids ← RangeKey.iter interval; for_each ids collect_blueprint st) (m, []))
    as ([m' bs] & Hrun & Hr & Hb).
  - split; [|done]. intros id. by rewrite decide_False by apply not_elem_of_nil.
  - intros visited i [m1 bs1] Hin [Hr Hb]. rewrite Forall_forall in Hf.
    rewrite RangeKey.iter_ok by by apply Hf. cbn [mbind result_bind].
    destruct (collect_ids_ok m m1 bs1 (RangeKey.ids i) _ Hr) as (m2 & E & Hr2).
    { intros id Hid. apply Hall. apply list_elem_of_In, in_concat. exists (RangeKey.ids i).
      split; [by apply in_map, list_elem_of_In|by apply list_elem_of_In]. }
    rewrite E. eexists; split; [reflexivity|]. cbn in *. rewrite map_app, concat_app. cbn.
    rewrite app_nil_r. split; [done|]. rewrite Hb. unfold blueprints_of. by rewrite omap_app.
  - exists m'. cbn in *. by subst bs.
Qed.

(** A transaction that is not stored stops the collection. *)
Lemma collect_blueprints_missing m ivs gap :
  Forall RangeKey.interval_ok ivs -> gap ∈ concat (map RangeKey.ids ivs) -> m !! gap = None ->
  forall m' bs, collect_blueprints m ivs <> Ok (m', bs).
Proof.
  intros Hf Hgap Hnone m' bs Hrun. unfold collect_blueprints in Hrun.
  assert (Hids : forall ids m1 bs1 m2 bs2, same_ids m m1 -> for_each ids collect_blueprint (m1, bs1) = Ok (m2, bs2) ->
    gap ∉ ids /\ same_ids m m2).
  { intros ids m1 bs1 m2 bs2 Hs Hr.
    apply (for_each_inv_ok (fun visited st => gap ∉ visited /\ same_ids m (fst st)) _ _ _ _ Hr).
    - split; [apply not_elem_of_nil|done].
    - intros visited id [m3 bs3] [m4 bs4] _ Hc [Hn Hs3]. unfold collect_blueprint in Hc. inv_ok. cbn in *.
      split; [|etransitivity; [exact Hs3|by apply same_ids_relabel]].
      intros [Hin| ->%list_elem_of_singleton]%elem_of_app; [done|].
      apply (same_ids_None _ _ _ Hs3) in Hnone. congruence. }
  assert (HI : gap ∉ concat (map RangeKey.ids ivs) /\ same_ids m (fst (m', bs))); [|by destruct HI].
  apply (for_each_inv_ok (fun visited st => gap ∉ concat (map RangeKey.ids visited) /\ same_ids m (fst st)) _ _ _ _ Hrun).
  - split; [apply not_elem_of_nil|done].
  - intros visited i [m1 bs1] [m2 bs2] Hin Hb [Hn Hs]. rewrite Forall_forall in Hf.
    rewrite RangeKey.iter_ok in Hb by by apply Hf. cbn [mbind result_bind] in Hb.
    apply Hids in Hb as [Hg Hs2]; [|done]. split; [|done].
    rewrite map_app, concat_app. cbn. rewrite app_nil_r. by intros [?|?]%elem_of_app.
Qed.

(** ... with the panic of its [expect]: nothing else can go wrong. *)
Definition missing_tx_panic : string := "TODO: make sure all txs are here".

Lemma collect_ids_cases ids : forall st,
  is_ok (for_each ids collect_blueprint st) \/ for_each ids collect_blueprint st = Panic missing_tx_panic.
Proof.
  induction ids as [|id ids IH]; intros [m bs]; [by left; eexists|]. cbn [for_each collect_blueprint].
  destruct (m !! id) as [tx|]; cbn [expect mbind result_bind]; [apply IH|by right].
Qed.

Lemma collect_blueprints_cases m ivs : Forall RangeKey.interval_ok ivs ->
  is_ok (collect_blueprints m ivs) \/ collect_blueprints m ivs = Panic missing_tx_panic.
Proof.
  unfold collect_blueprints. generalize (m, @nil TaskBlueprint). induction ivs as [|i ivs IH]; intros st Hf; [by left; eexists|].
  apply Forall_cons in Hf as [Hi Hf]. cbn [for_each]. rewrite RangeKey.iter_ok by done. cbn [mbind result_bind].
  destruct (collect_ids_cases (RangeKey.ids i) st) as [[st' ->]| ->]; cbn [mbind result_bind]; [by apply IH|by right].
Qed.

Lemma collect_blueprints_panics m ivs gap : Forall RangeKey.interval_ok ivs -> gap ∈ concat (map RangeKey.ids ivs) ->
  m !! gap = None -> collect_blueprints m ivs = Panic missing_tx_panic.
Proof.
  intros Hf Hgap Hnone. destruct (collect_blueprints_cases m ivs Hf) as [[[m' bs] E]|E]; [|done].
  by destruct (collect_blueprints_missing m ivs gap Hf Hgap Hnone m' bs).
Qed.

Lemma sorted_ids_perm e id :
  id ∈ concat (map RangeKey.ids (Epoch_increments (sort_increments e))) <-> id ∈ epoch_ids e.
Proof. done. Qed.

Lemma sort_increments_ok e : epoch_ok e -> epoch_ok (sort_increments e) /\ epoch_ids (sort_increments e) = epoch_ids e.
Proof.
  intros [Hf Hl].
  assert (Hids : epoch_ids (sort_increments e) = epoch_ids e).
  { unfold epoch_ids, sort_increments. cbn. do 2 f_equal. apply RangeKey.sort_intervals_unique, RangeKey.sort_intervals_perm. }
  split; [|done]. split; [|by rewrite Hids]. cbn. by rewrite RangeKey.sort_intervals_perm.
Qed.

Lemma handle_epoch_ok a e :
  epoch_ok e -> Forall (fun i => RangeKey.addressable (RangeKey.right i)) (Epoch_increments e) ->
  (forall id, id ∈ epoch_ids e -> is_Some (transactions a !! id)) ->
  exists m', relabelled TxStatus_Pending (epoch_ids e) (transactions a) m' /\
    handle_epoch_coordinator_updates a (EpochUpdates_New e) = Ok (
      mkApp (params a) (peer_id a) (self_offsets a) (offsets a) (consensus_offset a)
        (commit_map (commited_offsets a) (RangeKey.sort_intervals (Epoch_increments e)))
        (epochs a ++ [sort_increments e]) m'
        (mkLogLineriazer (sequence (linearizer a) ++ epoch_ids e))
        (update_latest_epoch (send_decider a) (Epoch_creator e) (Epoch_creation_time e)),
      if decide (epoch_ids e = []) then []
      else [ToRuntime (Epoch_creation_time e, blueprints_of (transactions a) (epoch_ids e))]).
Proof.
  intros Hok Haddr Hall. destruct (sort_increments_ok e Hok) as [Hok' Hids].
  unfold handle_epoch_coordinator_updates. cbn zeta.
  rewrite new_epoch_ok by done. cbn [mbind result_bind].
  rewrite commit_offsets_ok by (cbn; by rewrite RangeKey.sort_intervals_perm). cbn [mbind result_bind].
  destruct (collect_blueprints_ok (transactions a) (Epoch_increments (sort_increments e))) as (m' & E & Hr).
  { apply Hok'. }
  { intros id Hid. by apply Hall. }
  exists m'. split; [exact Hr|]. rewrite E. cbn [mbind result_bind]. rewrite Hids.
  change (concat (map RangeKey.ids (Epoch_increments (sort_increments e)))) with (epoch_ids e).
  assert (Hlen : length (blueprints_of (transactions a) (epoch_ids e)) = length (epoch_ids e)).
  { by apply length_blueprints_of. }
  rewrite Hlen. destruct (decide (epoch_ids e = [])) as [->|Hne]; [done|].
  rewrite decide_True; [done|]. destruct (epoch_ids e); [done|cbn; lia].
Qed.
End apply.

(** ** Delays *)

(** What a node asks for: offset [k] of range [r] is above its own prefix, not stored,
    and [p] is a peer with the greatest known offset of the range. *)
Section delays.
Context `{Profile} `{PeerIds} `{HashOrder}.

Lemma max_by_key_spec l :
  match max_by_key l with
  | Some x => x ∈ l /\ forall y, y ∈ l -> snd y <= snd x
  | None => l = []
  end.
Proof.
  unfold max_by_key. induction l as [|x l IH] using rev_ind; [done|].
  rewrite foldl_app. cbn [foldl]. destruct (foldl _ None l) as [b|] eqn:E.
  - destruct IH as [Hb Hmax]. destruct (Z.leb_spec (snd b) (snd x)).
    + split; [set_solver|]. intros y [Hy| ->%list_elem_of_singleton]%elem_of_app; [|lia].
      specialize (Hmax y Hy). lia.
    + split; [set_solver|]. intros y [Hy| ->%list_elem_of_singleton]%elem_of_app; [by apply Hmax|lia].
  - subst l. split; [set_solver|]. intros y ->%list_elem_of_singleton. lia.
Qed.

Lemma elem_of_slot_interval r l k' id :
  id ∈ RangeKey.ids (RangeKey.MkInterval (RangeKey.slot_id r l) (RangeKey.slot_id r k')) <->
  exists k, l <= k <= k' /\ id = RangeKey.slot_id r k.
Proof.
  rewrite RangeKey.elem_of_ids. cbn. unfold RangeKey.slot_id. split.
  - intros Hid. exists (id - r * RangeKey.SINGLE_BLOB_SIZE). lia.
  - intros (k & Hk & ->). lia.
Qed.

Lemma missing_intervals_ok m r R n p lb acc :
  0 <= r < RangeKey.MAX_BLOCK_INDEX -> R < RangeKey.SINGLE_BLOB_SIZE ->
  0 <= lb <= p -> p <= R + 1 -> (Z.to_nat (R + 1 - p) < n)%nat ->
  (forall k, lb <= k < p -> m !! RangeKey.slot_id r k = None) ->
  exists ivs, missing_intervals n m r p lb R acc = Ok (acc ++ ivs) /\
    Forall RangeKey.interval_ok ivs /\ NoDup (concat (map RangeKey.ids ivs)) /\
    forall id, id ∈ concat (map RangeKey.ids ivs) <->
      exists k, lb <= k <= R /\ id = RangeKey.slot_id r k /\ m !! id = None.
Proof.
  intros Hr HR. revert p lb acc. induction n as [|n IH]; intros p lb acc Hlb Hp Hn Hgap; [lia|]. cbn.
  destruct (Z.leb_spec p R).
  - rewrite RangeKey.slot_id_ok by RangeKey.blob_lia. cbn.
    destruct (m !! RangeKey.slot_id r p) as [tx|] eqn:E.
    + destruct (IH (p + 1) (p + 1) (acc ++ if lb <? p then
        [RangeKey.MkInterval (RangeKey.slot_id r lb) (RangeKey.slot_id r (p - 1))] else []))
        as (ivs & Erun & Hf & Hnd & Hids); [lia|lia|lia|lia|].
      exists ((if lb <? p then
        [RangeKey.MkInterval (RangeKey.slot_id r lb) (RangeKey.slot_id r (p - 1))] else []) ++ ivs).
      destruct (Z.ltb_spec lb p).
      * rewrite u64_sub_ok by RangeKey.blob_lia. cbn.
        rewrite RangeKey.new_from_slots_ok by RangeKey.blob_lia. cbn.
        rewrite u64_add_ok by RangeKey.blob_lia. cbn. rewrite Erun, <-app_assoc. split; [done|].
        split; [by constructor; [RangeKey.blob_lia|]|]. split.
        { cbn. apply NoDup_app. split; [apply RangeKey.ids_nodup|]. split; [|done].
          intros id (k & Hk & ->)%elem_of_slot_interval (k' & Hk' & Heq & _)%Hids. unfold RangeKey.slot_id in Heq. lia. }
        intros id. cbn. rewrite elem_of_app, Hids, elem_of_slot_interval. split.
        -- intros [(k & Hk & ->)|(k & Hk & -> & Hnone)]; exists k; split_and!; try done; try lia.
           apply Hgap. lia.
        -- intros (k & Hk & -> & Hnone). destruct (Z.lt_trichotomy k p) as [?|[->|?]];
             [left; exists k; split; [lia|done]|congruence|right; exists k; split_and!; [lia|lia|done|done]].
      * rewrite app_nil_r in Erun. rewrite u64_add_ok by RangeKey.blob_lia. cbn. rewrite Erun.
        split; [done|]. split; [done|]. split; [done|]. intros id. cbn. rewrite Hids. split.
        -- intros (k & Hk & ?). exists k. split; [lia|done].
        -- intros (k & Hk & -> & Hnone). exists k. split; [|done].
           assert (k <> p) by congruence. lia.
    + rewrite u64_add_ok by RangeKey.blob_lia. cbn. apply IH; [lia|lia|lia|].
      intros k Hk. destruct (decide (k = p)) as [->|]; [done|apply Hgap; lia].
  - assert (p = R + 1) as -> by lia. destruct (decide (R + 1 <> lb)).
    + rewrite u64_sub_ok by RangeKey.blob_lia. cbn.
      rewrite RangeKey.new_from_slots_ok by RangeKey.blob_lia. cbn.
      eexists. split; [reflexivity|]. split; [by constructor; [RangeKey.blob_lia|]|].
      split; [cbn; rewrite app_nil_r; apply RangeKey.ids_nodup|].
      intros id. cbn. rewrite app_nil_r, elem_of_slot_interval. split.
      * intros (k & Hk & ->). exists k. split; [lia|]. split; [done|]. apply Hgap. lia.
      * intros (k & Hk & -> & _). exists k. split; [lia|done].
    + exists []. rewrite app_nil_r. split; [done|]. split; [done|]. split; [constructor|].
      intros id. split; [by intros ?%not_elem_of_nil|]. intros (k & Hk & _). lia.
Qed.
End delays.

Section self_delays.
Context `{Profile} `{PeerIds} `{HashOrder}.

Definition requested (res : gmap PeerId (list RangeKey.U64BlobIdClosedInterval)) (p : PeerId)
  (id : UniqueU64BlobId) : Prop :=
  exists ivs, res !! p = Some ivs /\ id ∈ concat (map RangeKey.ids ivs).

Definition requests_ok (res : gmap PeerId (list RangeKey.U64BlobIdClosedInterval)) : Prop :=
  forall p ivs, res !! p = Some ivs -> Forall RangeKey.interval_ok ivs.

(** No id is asked for twice: not in two intervals of one request, and not from two peers. *)
Record distinct (res : gmap PeerId (list RangeKey.U64BlobIdClosedInterval)) : Prop := {
  di_ids : forall p ivs, res !! p = Some ivs -> NoDup (concat (map RangeKey.ids ivs));
  di_peers : forall p q id, requested res p id -> requested res q id -> p = q
}.

Definition peer_offsets_ok (offs : gmap KeyRange (gmap PeerId KeyOffset)) : Prop :=
  forall r p o, peer_offset offs r p = Some o -> RangeKey.slot_ok r o.

(** The ids one entry of the known offsets makes the node ask for. *)
Definition wanted (m : gmap UniqueU64BlobId Transaction) (so : gmap KeyRange KeyOffset)
  (entry : KeyRange * gmap PeerId KeyOffset) (p : PeerId) (id : UniqueU64BlobId) : Prop :=
  exists o k, max_by_key (hash_iter entry.2) = Some (p, o) /\
    next_offset so entry.1 <= k <= o /\ id = RangeKey.slot_id entry.1 k /\ m !! id = None.

Lemma requested_insert res p0 ivs p id :
  requested (<[p0 := ivs]> res) p id <->
  (p = p0 /\ id ∈ concat (map RangeKey.ids ivs)) \/ (p <> p0 /\ requested res p id).
Proof.
  unfold requested. destruct (decide (p = p0)) as [->|Hne].
  - setoid_rewrite lookup_insert_eq. naive_solver.
  - setoid_rewrite (lookup_insert_ne res p0 p); [|done]. naive_solver.
Qed.

Lemma next_offset_pos so r : offsets_ok so -> 0 <= next_offset so r.
Proof. intros Hso. unfold next_offset. destruct (so !! r) as [c|] eqn:Ec; [apply Hso in Ec; RangeKey.blob_lia|lia]. Qed.

(** What an entry makes the node ask for is of its range, and from one peer. *)
Lemma wanted_range m so r nodes p id : offsets_ok so -> (forall p o, nodes !! p = Some o -> RangeKey.slot_ok r o) ->
  wanted m so (r, nodes) p id -> range_of id = r.
Proof.
  intros Hso Hnodes (o & k & Hm & Hk & -> & _). cbn [fst snd] in *. pose proof (max_by_key_spec (hash_iter nodes)) as Hs. rewrite Hm in Hs.
  destruct Hs as [Hin%hash_iter_elem _]. apply Hnodes in Hin. pose proof (next_offset_pos so r Hso).
  apply RangeKey.slot_id_div. RangeKey.blob_lia.
Qed.

Lemma wanted_peer m so entry p q id : wanted m so entry p id -> wanted m so entry q id -> p = q.
Proof. intros (o & k & Hm & _) (o' & k' & Hm' & _). congruence. Qed.

Lemma range_delays_ok m so res r nodes :
  offsets_ok so -> requests_ok res -> (forall p o, nodes !! p = Some o -> RangeKey.slot_ok r o) ->
  exists res', range_delays m so res (r, nodes) = Ok res' /\ requests_ok res' /\
    (forall p id, requested res' p id <-> requested res p id \/ wanted m so (r, nodes) p id) /\
    ((forall p id, requested res p id -> range_of id <> r) -> distinct res -> distinct res').
Proof.
  intros Hso Hres Hnodes.
  enough (Hex : exists res', range_delays m so res (r, nodes) = Ok res' /\ requests_ok res' /\
    (forall p id, requested res' p id <-> requested res p id \/ wanted m so (r, nodes) p id) /\
    ((forall p id, requested res p id -> range_of id <> r) -> distinct res ->
       forall p ivs, res' !! p = Some ivs -> NoDup (concat (map RangeKey.ids ivs)))).
  { destruct Hex as (res' & E & Hok & Hids & Hnd). exists res'. split; [done|]. split; [done|]. split; [done|].
    intros Hfresh Hd. split; [by apply Hnd|]. intros p q id [Hp|Hp]%Hids [Hq|Hq]%Hids.
    - by eapply (di_peers _ Hd).
    - by apply (wanted_range m so r nodes) in Hq as ?%(Hfresh _ _ Hp).
    - by apply (wanted_range m so r nodes) in Hp as ?%(Hfresh _ _ Hq).
    - by eapply wanted_peer. }
  pose proof (fun p id => wanted_range m so r nodes p id Hso Hnodes) as Hrange. revert Hrange.
  unfold range_delays, wanted. cbn [fst snd]. intros Hrange.
  pose proof (max_by_key_spec (hash_iter nodes)) as Hmax.
  destruct (max_by_key (hash_iter nodes)) as [[p o]|].
  2: { exists res. split; [done|]. split; [done|]. split; [naive_solver|]. by intros _ [Hd _]. }
  destruct Hmax as [Hin%hash_iter_elem _]. apply Hnodes in Hin as [Hr Ho].
  assert (Hskip : o < next_offset so r -> exists res', Ok res = Ok res' /\ requests_ok res' /\
    (forall q id, requested res' q id <-> requested res q id \/ exists o' k, Some (p, o) = Some (q, o') /\
      next_offset so r <= k <= o' /\ id = RangeKey.slot_id r k /\ m !! id = None) /\
    ((forall p id, requested res p id -> range_of id <> r) -> distinct res ->
       forall p ivs, res' !! p = Some ivs -> NoDup (concat (map RangeKey.ids ivs)))).
  { intros Hlt. exists res. split; [done|]. split; [done|]. split; [|by intros _ [Hd _]]. intros q id. split; [by left|].
    intros [?|(o' & k & [= <- <-] & Hk & _)]; [done|lia]. }
  assert (Hgo : 0 <= next_offset so r <= o -> exists res',
    (new_intervals ← missing_intervals (S (Z.to_nat (o + 1 - next_offset so r))) m r
       (next_offset so r) (next_offset so r) o [];
     match res !! p with
     | Some ranges => Ok (<[p := ranges ++ new_intervals]> res)
     | None => Ok (<[p := new_intervals]> res)
     end) = Ok res' /\ requests_ok res' /\
    (forall q id, requested res' q id <-> requested res q id \/ exists o' k, Some (p, o) = Some (q, o') /\
      next_offset so r <= k <= o' /\ id = RangeKey.slot_id r k /\ m !! id = None) /\
    ((forall p id, requested res p id -> range_of id <> r) -> distinct res ->
       forall p ivs, res' !! p = Some ivs -> NoDup (concat (map RangeKey.ids ivs)))).
  { intros Hn. destruct (missing_intervals_ok m r o (S (Z.to_nat (o + 1 - next_offset so r)))
      (next_offset so r) (next_offset so r) []) as (ivs & -> & Hf & Hnd & Hids); [done|lia|lia|lia|lia|lia|].
    cbn [mbind result_bind app].
    assert (Hids' : forall q id, (exists o' k, Some (p, o) = Some (q, o') /\ next_offset so r <= k <= o' /\
      id = RangeKey.slot_id r k /\ m !! id = None) <-> q = p /\ id ∈ concat (map RangeKey.ids ivs)).
    { intros q id. rewrite Hids. naive_solver. }
    assert (Hof : forall id, id ∈ concat (map RangeKey.ids ivs) -> range_of id = r).
    { intros id Hid. apply (Hrange p). apply Hids'. by split. }
    destruct (res !! p) as [ranges|] eqn:E; (eexists; split; [reflexivity|split; [|split]]).
    - intros q ivs'. destruct (decide (q = p)) as [->|]; [|rewrite lookup_insert_ne by done; apply Hres].
      rewrite lookup_insert_eq. intros [= <-]. apply Forall_app. split; [by eapply Hres|done].
    - intros q id. rewrite requested_insert, Hids', map_app, concat_app, elem_of_app.
      unfold requested. destruct (decide (q = p)) as [->|]; [|naive_solver]. rewrite E. naive_solver.
    - intros Hfresh [Hd _] q ivs'. destruct (decide (q = p)) as [->|]; [|rewrite lookup_insert_ne by done; apply Hd].
      rewrite lookup_insert_eq. intros [= <-]. rewrite map_app, concat_app. apply NoDup_app. split; [by eapply Hd|]. split; [|done].
      intros id Hid Hin%Hof. apply (Hfresh p id); [by exists ranges|done].
    - intros q ivs'. destruct (decide (q = p)) as [->|]; [|rewrite lookup_insert_ne by done; apply Hres].
      rewrite lookup_insert_eq. by intros [= <-].
    - intros q id. rewrite requested_insert, Hids'.
      unfold requested. destruct (decide (q = p)) as [->|]; [|naive_solver]. rewrite E. naive_solver.
    - intros _ [Hd _] q ivs'. destruct (decide (q = p)) as [->|]; [|rewrite lookup_insert_ne by done; apply Hd].
      rewrite lookup_insert_eq. by intros [= <-]. }
  cbn zeta. destruct (so !! r) as [c|] eqn:Ec.
  - assert (Hnx : next_offset so r = c + 1) by (unfold next_offset; by rewrite Ec).
    apply Hso in Ec. destruct (Z.geb_spec c o); [cbn; apply Hskip; lia|].
    rewrite u64_add_ok by RangeKey.blob_lia. cbn [mbind result_bind]. rewrite <-Hnx. apply Hgo.
    RangeKey.blob_lia.
  - assert (Hnx : next_offset so r = 0) by (unfold next_offset; by rewrite Ec).
    cbn [mbind result_bind]. rewrite <-Hnx. apply Hgo. lia.
Qed.

Lemma range_delays_run m so l : forall res,
  offsets_ok so -> (forall r nodes, (r, nodes) ∈ l -> forall p o, nodes !! p = Some o -> RangeKey.slot_ok r o) ->
  NoDup l.*1 -> requests_ok res -> distinct res -> (forall p id, requested res p id -> range_of id ∉ l.*1) ->
  exists res', for_each l (range_delays m so) res = Ok res' /\ requests_ok res' /\ distinct res' /\
    forall p id, requested res' p id <-> requested res p id \/ exists entry, entry ∈ l /\ wanted m so entry p id.
Proof.
  induction l as [|[r nodes] l IH]; intros res Hso Hl Hnd Hres Hd Hfresh.
  { exists res. split; [done|]. split; [done|]. split; [done|]. intros p id. split; [by left|].
    intros [?|(e & He & _)]; [done|by apply not_elem_of_nil in He]. }
  cbn [fmap list_fmap fst] in Hnd, Hfresh. apply NoDup_cons in Hnd as [Hr Hnd]. cbn [for_each].
  assert (Hnodes : forall p o, nodes !! p = Some o -> RangeKey.slot_ok r o) by (apply (Hl r); left).
  destruct (range_delays_ok m so res r nodes Hso Hres Hnodes) as (res1 & -> & Hres1 & Hids1 & Hd1). cbn [mbind result_bind].
  destruct (IH res1) as (res' & E & Hres' & Hd' & Hids'); [done|by intros; eapply Hl; [by right|]|done|done| | |].
  - apply Hd1; [|done]. intros p id Hp Heq. apply (Hfresh p id Hp). rewrite Heq. left.
  - intros p id [Hp|Hp]%Hids1; [|by apply (wanted_range m so r nodes) in Hp as ->].
    intros Hin. apply (Hfresh p id Hp). by right.
  - exists res'. split; [done|]. split; [done|]. split; [done|]. intros p id. rewrite Hids', Hids1. set_solver.
Qed.

Lemma self_delays_ok m so offs :
  offsets_ok so -> peer_offsets_ok offs ->
  exists res, self_delays m so offs = Ok res /\ requests_ok res /\ distinct res /\
    forall p id, requested res p id <->
      exists r nodes, offs !! r = Some nodes /\ wanted m so (r, nodes) p id.
Proof.
  intros Hso Hoffs. unfold self_delays.
  assert (Hempty : forall p id, ~ requested ∅ p id) by (intros p id (ivs & E & _); by rewrite lookup_empty in E).
  destruct (range_delays_run m so (hash_iter offs) ∅) as (res & -> & Hres & Hd & Hids); [done| | | | | |].
  - intros r nodes Hin%hash_iter_elem p o Hp. apply (Hoffs r p o). unfold peer_offset. by rewrite Hin.
  - apply hash_iter_nodup.
  - intros p ivs E. by rewrite lookup_empty in E.
  - split; [intros p ivs E; by rewrite lookup_empty in E|]. by intros p q id Hp%Hempty.
  - by intros p id Hp%Hempty.
  - exists res. split; [done|]. split; [done|]. split; [done|]. intros p id. rewrite Hids. split.
    + intros [Hp%Hempty|([r nodes] & Hin%hash_iter_elem & Hw)]; [done|]. by exists r, nodes.
    + intros (r & nodes & Hin & Hw). right. exists (r, nodes). split; [by apply hash_iter_elem|done].
Qed.
End self_delays.

(** ** What applying a published epoch commits *)
Lemma commit_map_untouched c ivs r :
  (forall i, i ∈ ivs -> range_of (RangeKey.right i) <> r) -> commit_map c ivs !! r = c !! r.
Proof.
  unfold commit_map. induction ivs as [|i ivs IH] using rev_ind; intros Hno; [done|].
  rewrite foldl_app. cbn [foldl]. rewrite lookup_insert_ne by (apply Hno; set_solver).
  apply IH. intros j Hj. apply Hno. set_solver.
Qed.

Lemma commit_map_touched c ivs r o :
  (exists i, i ∈ ivs /\ range_of (RangeKey.right i) = r) ->
  (forall i, i ∈ ivs -> range_of (RangeKey.right i) = r ->
     RangeKey.right i mod RangeKey.SINGLE_BLOB_SIZE = o) ->
  commit_map c ivs !! r = Some o.
Proof.
  induction ivs as [|j ivs IH] using rev_ind; intros (i & Hi & Hr) Hall.
  { by apply not_elem_of_nil in Hi. }
  unfold commit_map. rewrite foldl_app. cbn [foldl]. fold (commit_map c ivs).
  destruct (decide (range_of (RangeKey.right j) = r)) as [<-|Hne].
  - rewrite lookup_insert_eq. f_equal. apply Hall; [set_solver|done].
  - rewrite lookup_insert_ne by done. apply IH; [|intros; apply Hall; [set_solver|done]].
    exists i. split; [|done]. apply elem_of_app in Hi as [?| ->%list_elem_of_singleton]; done.
Qed.

(** Whether the intervals [ivs] are what a node with these offsets publishes. *)
Definition increments_spec (consensus commited : gmap KeyRange KeyOffset)
  (ivs : list RangeKey.U64BlobIdClosedInterval) : Prop :=
  NoDup ivs /\
  forall i, i ∈ ivs <->
    exists r o, consensus !! r = Some o /\ next_offset commited r <= o /\
      i = RangeKey.MkInterval (RangeKey.slot_id r (next_offset commited r)) (RangeKey.slot_id r o).

Lemma next_offset_nonneg commited r : offsets_ok commited -> 0 <= next_offset commited r.
Proof.
  intros Hc. unfold next_offset. destruct (commited !! r) as [c|] eqn:E; [apply Hc in E; RangeKey.blob_lia|lia].
Qed.

Lemma commit_increments consensus commited ivs r :
  offsets_ok consensus -> offsets_ok commited -> increments_spec consensus commited ivs ->
  commit_map commited ivs !! r
  = match consensus !! r with
    | Some o => if decide (next_offset commited r <= o) then Some o else commited !! r
    | None => commited !! r
    end.
Proof.
  intros Hc Hd [_ Hspec].
  assert (Hin : forall i, i ∈ ivs -> exists o, consensus !! range_of (RangeKey.right i) = Some o /\
    next_offset commited (range_of (RangeKey.right i)) <= o /\
    RangeKey.right i mod RangeKey.SINGLE_BLOB_SIZE = o).
  { intros i (r' & o & Hr & Hn & ->)%Hspec. pose proof (Hc _ _ Hr) as Hs. exists o. cbn [RangeKey.right].
    rewrite range_of_slot by done. rewrite RangeKey.slot_id_mod by apply Hs. done. }
  destruct (consensus !! r) as [o|] eqn:E; [destruct (decide _) as [Hn|Hn]|].
  - apply commit_map_touched.
    + exists (RangeKey.MkInterval (RangeKey.slot_id r (next_offset commited r)) (RangeKey.slot_id r o)).
      split; [apply Hspec; by exists r, o|]. apply range_of_slot. by apply Hc.
    + intros i Hi Hr. destruct (Hin i Hi) as (o' & Ho' & _ & <-). rewrite Hr in Ho'. congruence.
  - apply commit_map_untouched. intros i Hi Hr. destruct (Hin i Hi) as (o' & Ho' & Hn' & _).
    rewrite Hr in Ho', Hn'. assert (o' = o) as -> by congruence. done.
  - apply commit_map_untouched. intros i Hi Hr. destruct (Hin i Hi) as (o' & Ho' & _). congruence.
Qed.

Lemma increments_spec_ids consensus commited ivs id :
  increments_spec consensus commited ivs ->
  (exists i, i ∈ ivs /\ RangeKey.left i <= id <= RangeKey.right i) <->
  exists r o k, consensus !! r = Some o /\ next_offset commited r <= k <= o /\ id = RangeKey.slot_id r k.
Proof.
  intros [_ Hspec]. split.
  - intros (i & (r & o & Hr & Hn & ->)%Hspec & Hid). cbn in Hid. exists r, o, (id - r * RangeKey.SINGLE_BLOB_SIZE).
    unfold RangeKey.slot_id in *. split; [done|]. lia.
  - intros (r & o & k & Hr & Hk & ->).
    exists (RangeKey.MkInterval (RangeKey.slot_id r (next_offset commited r)) (RangeKey.slot_id r o)).
    split; [apply Hspec; exists r, o; split; [done|split; [lia|done]]|]. unfold RangeKey.slot_id. cbn. lia.
Qed.

Lemma increments_spec_ok consensus commited ivs :
  offsets_ok consensus -> offsets_ok commited -> increments_spec consensus commited ivs ->
  Forall RangeKey.interval_ok ivs /\ Forall (fun i => RangeKey.addressable (RangeKey.right i)) ivs.
Proof.
  intros Hc Hd [_ Hspec]. rewrite !Forall_forall. split; intros i (r & o & Hr & Hn & ->)%Hspec;
    apply Hc in Hr as Hs; pose proof (next_offset_nonneg commited r Hd); RangeKey.blob_lia.
Qed.

Lemma calculate_increments_spec `{Profile} `{HashOrder} consensus commited :
  offsets_ok consensus -> offsets_ok commited ->
  exists ivs, calculate_epoch_increments consensus commited = Ok ivs /\
    increments_spec consensus commited ivs.
Proof.
  intros Hc Hd. eexists. split; [by apply calculate_epoch_increments_ok|].
  split; [|intros i; apply elem_of_increments].
  assert (Hnd : NoDup (hash_iter consensus)).
  { apply (NoDup_fmap_1 fst), hash_iter_nodup. }
  apply NoDup_concat_map; [done| |].
  - intros [r o] _. unfold increment_of. destruct (_ >? _); repeat constructor. apply not_elem_of_nil.
  - intros [r o] [r' o'] i Hin%hash_iter_elem Hin'%hash_iter_elem. unfold increment_of.
    destruct (next_offset commited r >? o); [by intros ?%not_elem_of_nil|].
    destruct (next_offset commited r' >? o'); [by intros _ ?%not_elem_of_nil|].
    intros ->%list_elem_of_singleton Heq%list_elem_of_singleton. injection Heq as _ Heq.
    apply RangeKey.slot_id_inj in Heq as [-> ->]; [done|by eapply Hc|by eapply Hc].
Qed.

Lemma increments_spec_perm consensus commited ivs ivs' :
  ivs ≡ₚ ivs' -> increments_spec consensus commited ivs -> increments_spec consensus commited ivs'.
Proof. intros Hp [Hnd Hs]. split; [by rewrite <-Hp|]. intros i. by rewrite <-Hp. Qed.

(** The ids of a published epoch are pairwise different. *)
Lemma increments_spec_nodup consensus commited ivs :
  offsets_ok consensus -> offsets_ok commited -> increments_spec consensus commited ivs ->
  NoDup (concat (map RangeKey.ids ivs)).
Proof.
  intros Hc Hd [Hnd Hs]. apply NoDup_concat_map; [done|intros; apply RangeKey.ids_nodup|].
  intros i j id (r & o & Hr & Hn & ->)%Hs (r' & o' & Hr' & Hn' & ->)%Hs.
  intros (k & Hk & ->)%elem_of_slot_interval (k' & Hk' & Heq)%elem_of_slot_interval.
  pose proof (next_offset_nonneg commited r Hd). pose proof (next_offset_nonneg commited r' Hd).
  apply Hc in Hr as Hs1. apply Hc in Hr' as Hs2.
  apply RangeKey.slot_id_inj in Heq as [<- <-]; [|RangeKey.blob_lia|RangeKey.blob_lia].
  congruence.
Qed.

(** ** Properties *)

(** The consensus offset of a range is the greatest offset that at least
    [n_consensus] peers have reached, and it is absent exactly when fewer peers are
    known; it is one of the peers' offsets and does not depend on hash-map order. *)
Theorem consensus_is_quorum_maximum `{Profile} `{PeerIds} `{HashOrder} map n :
  exists res, consensus_maximum map n = Ok res /\
    (res = None <-> (size map < Pos.to_nat n)%nat) /\
    (forall m, res = Some m ->
       (Pos.to_nat n <= peers_at_least map m)%nat /\
       (forall m', (Pos.to_nat n <= peers_at_least map m')%nat -> m' <= m) /\
       exists p, map !! p = Some m).
Proof.
  destruct (consensus_maximum_spec map n) as [[E Hlt]|(m & E & Hn & Hmax & Hp)].
  - exists None. split; [done|]. split; [done|done].
  - exists (Some m). split; [done|]. split; [split; [done|]|by intros ? [= <-]].
    intros Hlt. exfalso. unfold peers_at_least in Hn. pose proof (map_size_filter (fun kv => m <= kv.2) map). lia.
Qed.

(** C22: one advertisement asks for exactly what is missing, and for each transaction
    once. With well-formed offsets (every offset below the size of a range) [self_delays]
    terminates without panicking, every requested interval can be iterated, an id is
    requested from some peer iff it lies above the node's own prefix, is not stored and
    some peer is known to have reached it; each such id is in one request to one peer and
    in that request once, and the peer is one with the greatest known offset of the range.
    (The claim is about one call: what has not arrived by the next tick is asked for
    again.) *)
Theorem delays_request_missing `{Profile} `{PeerIds} `{HashOrder} txs so offs :
  offsets_ok so -> peer_offsets_ok offs ->
  exists res, self_delays txs so offs = Ok res /\ requests_ok res /\
    (forall id, (exists p, requested res p id) <->
       exists r k p o, id = RangeKey.slot_id r k /\ next_offset so r <= k <= o /\
         peer_offset offs r p = Some o /\ txs !! id = None) /\
    (forall p q id, requested res p id -> requested res q id -> p = q) /\
    (forall p ivs, res !! p = Some ivs -> NoDup (concat (map RangeKey.ids ivs))) /\
    (forall p r k, RangeKey.slot_ok r k -> requested res p (RangeKey.slot_id r k) ->
       exists o, peer_offset offs r p = Some o /\ k <= o /\
         forall q o', peer_offset offs r q = Some o' -> o' <= o).
Proof.
  intros Hso Hoffs. destruct (self_delays_ok txs so offs Hso Hoffs) as (res & E & Hres & [Hnd Hone] & Hids).
  assert (Hpeer : forall r nodes p o, offs !! r = Some nodes ->
    max_by_key (hash_iter nodes) = Some (p, o) -> peer_offset offs r p = Some o /\
      forall q o', peer_offset offs r q = Some o' -> o' <= o).
  { intros r nodes p o Hr Hm. pose proof (max_by_key_spec (hash_iter nodes)) as Hs. rewrite Hm in Hs.
    destruct Hs as [Hin%hash_iter_elem Hmax]. unfold peer_offset. rewrite Hr. split; [done|].
    intros q o' Hq%hash_iter_elem. exact (Hmax _ Hq). }
  exists res. split; [done|]. split; [done|]. split; [|split; [done|split; [done|]]].
  - intros id. split.
    + intros (p & (r & nodes & Hr & o & k & Hm & Hk & -> & Hnone)%Hids).
      exists r, k, p, o.
      split; [done|]. split; [exact Hk|]. split; [by eapply Hpeer|done].
    + intros (r & k & p & o & -> & Hk & Hp & Hnone). unfold peer_offset in Hp.
      destruct (offs !! r) as [nodes|] eqn:Er; [|done]. cbn in Hp.
      pose proof (max_by_key_spec (hash_iter nodes)) as Hs. apply hash_iter_elem in Hp.
      destruct (max_by_key (hash_iter nodes)) as [[q v]|] eqn:Em; [|rewrite Hs in Hp; by apply not_elem_of_nil in Hp].
      exists q. apply Hids. exists r, nodes. split; [done|]. exists v, k. cbn.
      destruct Hs as [_ Hs]. specialize (Hs _ Hp). cbn in Hs.
      split; [done|]. split; [lia|done].
  - intros p r k Hs (r' & nodes & Hr & o & k' & Hm & Hk & Heq & Hnone)%Hids. cbn in *.
    destruct (Hpeer _ _ _ _ Hr Hm) as [Hp Hmax]. pose proof (Hoffs _ _ _ Hp) as Hs'.
    pose proof (next_offset_pos so r' Hso).
    apply RangeKey.slot_id_inj in Heq as [-> ->]; [|RangeKey.blob_lia|RangeKey.blob_lia].
    exists o. split; [done|]. split; [lia|done].
Qed.

Definition witness_offsets : gmap KeyRange (gmap nat KeyOffset) :=
  {[0 := {[1%nat := 8; 2%nat := 2]}]}.

Lemma delays_request_missing_witness :
  exists res, @self_delays dev_profile nat_peers list_order
      (insert_txs ∅ [tx_with_id 5; tx_with_id 6]) {[0 := 1]} witness_offsets = Ok res /\
    exists p, @requested nat_peers res p 7.
Proof.
  destruct (@delays_request_missing dev_profile nat_peers list_order
    (insert_txs ∅ [tx_with_id 5; tx_with_id 6]) {[0 := 1]} witness_offsets) as (res & E & _ & Hids & _).
  - intros r o Hr. apply lookup_singleton_Some in Hr as [<- <-]. vm_compute. repeat split; discriminate.
  - intros r p o Hp. unfold peer_offset, witness_offsets in Hp. apply bind_Some in Hp as (nodes & Hn & Hp).
    apply lookup_singleton_Some in Hn as [<- <-].
    assert (o = 8 \/ o = 2) as [->| ->]; [|vm_compute; repeat split; discriminate..].
    apply lookup_insert_Some in Hp as [[_ <-]|[_ Hp]]; [by left|].
    apply lookup_singleton_Some in Hp as [_ <-]. by right.
  - exists res. split; [exact E|]. apply Hids. exists 0, 7, 1%nat, 8. split; [reflexivity|].
    split; [vm_compute; split; discriminate|]. split; reflexivity.
Defined.

(** C21: when it is a node's turn, the epoch it proposes follows the last one it knows
    and contains, range by range, exactly the ids above the committed offset up to the
    consensus offset: nothing committed is proposed again, nothing is skipped and
    nothing beyond the quorum is proposed; and once it is committed the next proposal
    of the range starts right after it. *)
Theorem proposed_epoch_exact `{Profile} `{PeerIds} `{HashOrder} `{Sha256} a decider_now now :
  offsets_ok (consensus_offset a) -> offsets_ok (commited_offsets a) ->
  should_send (send_decider a) decider_now = Ok true ->
  (forall e, last (epochs a) = Some e -> u64_ok (Epoch_sequence_number e + 1)) ->
  exists e, commit_epoch_if_needed a decider_now now = Ok [ToCoordinator (mkEpochRequest e)] /\
    Epoch_sequence_number e = match last (epochs a) with
                              | Some prev => Epoch_sequence_number prev + 1
                              | None => 0
                              end /\
    Epoch_creator e = peer_id a /\ Epoch_creation_time e = now /\
    (forall id, (exists i, i ∈ Epoch_increments e /\ RangeKey.left i <= id <= RangeKey.right i) <->
       exists r o k, consensus_offset a !! r = Some o /\
         next_offset (commited_offsets a) r <= k <= o /\ id = RangeKey.slot_id r k) /\
    (forall r, next_offset (commit_map (commited_offsets a)
                  (RangeKey.sort_intervals (Epoch_increments e))) r
       = match consensus_offset a !! r with
         | Some o => Z.max (next_offset (commited_offsets a) r) (o + 1)
         | None => next_offset (commited_offsets a) r
         end).
Proof.
  intros Hc Hd Hsend Hseq. unfold commit_epoch_if_needed. rewrite Hsend. cbn.
  destruct (calculate_increments_spec _ _ Hc Hd) as (ivs & -> & Hspec). cbn. unfold next.
  assert (Hnum : exists n, (match last (epochs a) with
      | Some prev => u64_add (Epoch_sequence_number prev) 1 | None => Ok 0 end) = Ok n /\
    n = match last (epochs a) with Some prev => Epoch_sequence_number prev + 1 | None => 0 end).
  { destruct (last (epochs a)) as [e|]; eexists; (split; [|reflexivity]); [|done].
    by apply u64_add_ok, Hseq. }
  destruct Hnum as (n & -> & Hn). cbn. eexists. split; [reflexivity|]. cbn.
  split; [done|]. split; [done|]. split; [done|]. split; [intros id; by apply increments_spec_ids|].
  intros r. unfold next_offset at 1. rewrite (commit_increments (consensus_offset a)); [|done|done|].
  - destruct (consensus_offset a !! r) as [o|]; [|done]. destruct (decide _); [lia|].
    fold (next_offset (commited_offsets a) r). lia.
  - eapply increments_spec_perm; [symmetry; apply RangeKey.sort_intervals_perm|done].
Qed.

Definition witness_node : @App nat_peers :=
  @mkApp nat_peers params_default 0%nat ∅ ∅ {[0 := 4; 1 := 2]} {[0 := 1]} [] ∅ linearizer_new
    (@mkEngine nat_peers 0%nat [0%nat; 1%nat] 60 None).

Lemma witness_node_ok : offsets_ok {[0 := 4; 1 := 2]} /\ offsets_ok {[0 := 1]}.
Proof.
  split; intros r o Hr.
  - apply lookup_insert_Some in Hr as [[<- <-]|[_ Hr]]; [|apply lookup_singleton_Some in Hr as [<- <-]];
      vm_compute; repeat split; discriminate.
  - apply lookup_singleton_Some in Hr as [<- <-]. vm_compute; repeat split; discriminate.
Qed.

Lemma proposed_epoch_exact_witness :
  exists e, @commit_epoch_if_needed dev_profile nat_peers list_order test_hash witness_node 61 61
      = Ok [ToCoordinator (mkEpochRequest e)] /\ Epoch_sequence_number e = 0 /\
    exists i, i ∈ Epoch_increments e /\ RangeKey.left i <= 3 <= RangeKey.right i.
Proof.
  destruct (@proposed_epoch_exact dev_profile nat_peers list_order test_hash witness_node 61 61)
    as (e & E & Hn & _ & _ & Hids & _).
  - apply witness_node_ok.
  - apply witness_node_ok.
  - reflexivity.
  - intros e' He'. discriminate He'.
  - exists e. split; [exact E|]. split; [exact Hn|]. apply Hids. exists 0, 4, 3.
    split; [reflexivity|]. split; [vm_compute; split; discriminate|reflexivity].
Defined.

(** C20: applying an epoch whose transactions are all stored succeeds and does all of
    its effects at once: the ids are appended to the log in increasing interval order,
    exactly one batch with their blueprints in log order and the epoch's creation time
    goes to the runtime (none for an empty epoch), exactly those transactions become
    pending, and the epoch and its creator are remembered for the next turn. *)
Theorem epoch_applied `{Profile} `{PeerIds} a e :
  epoch_ok e -> Forall (fun i => RangeKey.addressable (RangeKey.right i)) (Epoch_increments e) ->
  (forall id, id ∈ epoch_ids e -> is_Some (transactions a !! id)) ->
  exists a' effs, handle_epoch_coordinator_updates a (EpochUpdates_New e) = Ok (a', effs) /\
    sequence (linearizer a') = sequence (linearizer a) ++ epoch_ids e /\
    epochs a' = epochs a ++ [sort_increments e] /\
    latest_epoch (send_decider a') = Some (Epoch_creator e, Epoch_creation_time e) /\
    (forall id, transactions a' !! id
       = if decide (id ∈ epoch_ids e) then set_status TxStatus_Pending <$> transactions a !! id
         else transactions a !! id) /\
    (epoch_ids e = [] -> effs = []) /\
    (epoch_ids e <> [] -> exists bs, effs = [ToRuntime (Epoch_creation_time e, bs)] /\
       length bs = length (epoch_ids e) /\
       forall n id tx, epoch_ids e !! n = Some id -> transactions a !! id = Some tx ->
         bs !! n = Some (blueprint_of tx)).
Proof.
  intros Hok Haddr Hall. destruct (handle_epoch_ok a e Hok Haddr Hall) as (m' & Hr & E).
  rewrite E. do 2 eexists. split; [reflexivity|]. cbn -[decide].
  split; [done|]. split; [done|]. split; [done|]. split; [apply Hr|].
  split; [by intros ->|]. intros Hne. rewrite decide_False by done. eexists. split; [done|].
  split; [by apply length_blueprints_of|]. clear -Hall. unfold blueprints_of. revert Hall.
  induction (epoch_ids e) as [|id l IH]; intros Hall n id' tx Hn Htx; [done|].
  destruct (Hall id) as [tx0 Htx0]; [left|]. cbn. rewrite Htx0. cbn. destruct n as [|n]; cbn in Hn |- *.
  - injection Hn as ->. congruence.
  - eapply IH; eauto. intros; apply Hall; by right.
Qed.

Lemma epoch_applied_witness :
  exists a' effs, @handle_epoch_coordinator_updates dev_profile nat_peers (witness_app [4; 5; 9])
      (EpochUpdates_New (witness_epoch [RangeKey.MkInterval 9 9; RangeKey.MkInterval 4 4])) = Ok (a', effs) /\
    sequence (linearizer a') = [4; 9] /\ length (epochs a') = 1%nat.
Proof.
  destruct (@epoch_applied dev_profile nat_peers (witness_app [4; 5; 9])
    (witness_epoch [RangeKey.MkInterval 9 9; RangeKey.MkInterval 4 4]))
    as (a' & effs & E & Hs & He & _).
  - split; [repeat constructor; vm_compute; (discriminate || reflexivity)|vm_compute; reflexivity].
  - repeat constructor; vm_compute; discriminate.
  - vm_compute. intros id Hid.
    repeat (apply list_elem_of_In in Hid; destruct Hid as [<-|Hid]; [eexists; reflexivity|];
      apply list_elem_of_In in Hid). by apply not_elem_of_nil in Hid.
  - exists a', effs. split; [exact E|]. split; [exact Hs|]. by rewrite He.
Defined.


