(* ===== verification/AppSteps.v ===== *)
(** * What a step of the application changes and sends

    Frame lemmas about [app_step]: which fields a step leaves alone, what the known
    offsets and the consensus may become, and what the messages it sends say. The
    cluster's invariants are proved from these. *)
From S2P Require Import Prelude Types Values Protocol Epoch Decision App AppOffsets AppEpochs.
Local Open Scope Z_scope.

Section steps.
Context `{Profile} `{PeerIds} `{HashOrder} `{Sha256}.

Definition is_update (ev : Event) : bool :=
  match ev with CoordinatorUpdate _ => true | _ => false end.

Definition to_runtime (eff : Effect) : option Input :=
  match eff with ToRuntime i => Some i | _ => None end.
Definition to_coordinator (eff : Effect) : option EpochRequest :=
  match eff with ToCoordinator r => Some r | _ => None end.
Definition to_p2p (eff : Effect) : option Outbox :=
  match eff with ToP2p m => Some m | _ => None end.

(** Only a coordinator update touches the log, the epochs and the runtime. *)
Record epoch_frame (a a' : App) (effs : list Effect) : Prop := {
  frame_params : params a' = params a;
  frame_epochs : epochs a' = epochs a;
  frame_commited : commited_offsets a' = commited_offsets a;
  frame_log : sequence (linearizer a') = sequence (linearizer a);
  frame_runtime : omap to_runtime effs = []
}.

Lemma omap_delays_runtime (l : list (PeerId * list RangeKey.U64BlobIdClosedInterval)) :
  omap to_runtime (map (fun '(p, ivs) => ToP2p (Outbox_RequestMissingTxs p ivs)) l) = [].
Proof. induction l as [|[p ivs] l IH]; [done|exact IH]. Qed.

Lemma app_step_frame a ev a' effs :
  is_update ev = false -> app_step a ev = Ok (a', effs) -> epoch_frame a a' effs.
Proof.
  intros Hev Hrun. destruct ev as [|dn now|req|msg|upd|rs]; cbn in Hrun; [| | | |done|].
  - unfold advertise_offsets_and_request_missing, recalculate_consensus_offsets in Hrun. inv_ok.
    destruct (decide _); inv_ok; split; try done. apply omap_delays_runtime.
  - unfold commit_epoch_if_needed in Hrun. inv_ok. destruct (negb _) in Ha; inv_ok; by split.
  - inv_ok. split; try done. by destruct req.
  - destruct msg; cbn in Hrun; inv_ok; try by split.
    + destruct a0 as [[? ?] ?]. inv_ok. by split.
    + destruct a1 as [[? ?] ?]. inv_ok. by split.
  - unfold handle_runtime_results in Hrun. destruct (decide _); inv_ok; [by split|].
    destruct a0. inv_ok. by split.
Qed.

(** ** Known offsets *)

(** Every known offset satisfies [P]. *)
Definition offsets_sat (P : KeyRange -> PeerId -> KeyOffset -> Prop)
  (offs : gmap KeyRange (gmap PeerId KeyOffset)) : Prop :=
  forall r q o, peer_offset offs r q = Some o -> P r q o.

Lemma offsets_sat_move P offs p r o :
  offsets_sat P offs -> P r p o -> offsets_sat P (move_offset_pointer offs p r o).
Proof.
  intros Hs Hp r' q o'. rewrite peer_offset_move. destruct (decide _) as [[-> ->]|]; [|by apply Hs].
  by intros [= <-].
Qed.

Lemma offsets_sat_moves P ups offs p :
  offsets_sat P offs -> (forall r o, (r, o) ∈ ups -> P r p o) ->
  offsets_sat P (foldl (fun offs '(r, o) => move_offset_pointer offs p r o) offs ups).
Proof.
  revert offs. induction ups as [|[r o] ups IH]; intros offs Hs Hups; [done|]. cbn [foldl].
  apply IH; [|set_solver]. apply offsets_sat_move; [done|]. apply Hups. set_solver.
Qed.

(** Known offsets stay truthful if what the step learns is. *)
Lemma app_step_offsets P a ev a' effs :
  app_inv a -> event_ok (peer_id a) ev -> app_step a ev = Ok (a', effs) ->
  offsets_sat P (offsets a) -> (forall r o, self_offsets a' !! r = Some o -> P r (peer_id a) o) ->
  match ev with
  | InboxMessage (Inbox_State p st) => forall r o, NodeState_offsets st !! r = Some o -> P r p o
  | _ => True
  end ->
  offsets_sat P (offsets a').
Proof.
  intros Hinv Hev Hrun Hs Hself Hst. destruct ev as [|dn now|req|msg|[e]|rs]; cbn [app_step] in Hrun.
  - unfold advertise_offsets_and_request_missing, recalculate_consensus_offsets in Hrun. inv_ok.
    by destruct (decide _); inv_ok.
  - by inv_ok.
  - by inv_ok.
  - destruct msg as [p st|nodes|tx|p ivs|txs]; cbn [handle_inbox_message] in Hrun; cbn in Hev.
    + inv_ok. cbn. assert (Hl : forall k v, (k, v) ∈ hash_iter (NodeState_offsets st) -> P k p v).
      { intros k v Hin%hash_iter_elem. by apply Hst. }
      clear Hst Hself. revert Hl Hs. generalize (offsets a).
      induction (hash_iter (NodeState_offsets st)) as [|[k v] l IH]; intros offs Hl Hs; [done|].
      cbn [foldl]. apply IH; [set_solver|]. apply offsets_sat_move; [done|apply Hl; set_solver].
    + by inv_ok.
    + assert (Hl : Forall (fun tx => legal_id (tx_id tx)) [tx]) by (constructor; done).
      destruct (legal_batch_grouped [tx] Hl) as [m Em].
      destruct (store_batch_ok a [tx] m Hinv Hl Em) as (so' & ups & E & _ & _ & Hups).
      unfold update_self_offset in Hrun. rewrite Em in Hrun. cbn [mbind result_bind] in Hrun.
      rewrite E in Hrun. cbn [mbind result_bind] in Hrun. inv_ok. cbn in *.
      destruct (last ups) as [[r o]|] eqn:El; [|done]. apply offsets_sat_move; [done|].
      apply Hself. apply last_Some_elem_of in El. by apply Hups in El as [_ ?].
    + by inv_ok.
    + destruct (legal_batch_grouped txs Hev) as [m Em].
      destruct (store_batch_ok a txs m Hinv Hev Em) as (so' & ups & E & _ & _ & Hups).
      rewrite Em in Hrun. cbn [mbind result_bind] in Hrun. rewrite E in Hrun.
      cbn [mbind result_bind] in Hrun. inv_ok. cbn in *.
      apply offsets_sat_moves; [done|]. intros r o [_ ?]%Hups. by apply Hself.
  - unfold handle_epoch_coordinator_updates in Hrun. inv_ok. destruct a2. by inv_ok.
  - unfold handle_runtime_results in Hrun. destruct (decide _); inv_ok; [done|].
    destruct a0. by inv_ok.
Qed.

(** ** Stored transactions *)

(** Relabelling keeps what a transaction asks for. *)
Definition same_content (m m' : gmap UniqueU64BlobId Transaction) : Prop :=
  forall id tx, m' !! id = Some tx ->
    exists tx0, m !! id = Some tx0 /\ Transaction_blueprint tx = Transaction_blueprint tx0.

Lemma same_content_relabel m m1 id tx status :
  same_content m m1 -> m1 !! id = Some tx -> same_content m (<[id := set_status status tx]> m1).
Proof.
  intros Hs Htx k tx' [[<- <-]|[_ Hk]]%lookup_insert_Some; [|by apply Hs].
  destruct (Hs _ _ Htx) as (tx0 & ? & Hb). by exists tx0.
Qed.

Lemma collect_blueprints_content m ivs m' bs :
  collect_blueprints m ivs = Ok (m', bs) -> same_content m m'.
Proof.
  unfold collect_blueprints. intros Hrun.
  apply (for_each_inv_ok (fun _ st => same_content m (fst st)) _ _ _ _ Hrun); [by intros id tx; exists tx|].
  intros _ i [m1 bs1] [m2 bs2] _ Hb Hs. inv_ok. cbn in Hs |- *.
  apply (for_each_inv_ok (fun _ st => same_content m (fst st)) _ _ _ _ Hb); [done|].
  intros _ id [m3 bs3] [m4 bs4] _ Hc Hs3. unfold collect_blueprint in Hc. inv_ok. cbn in Hs3 |- *.
  by apply same_content_relabel.
Qed.

Lemma finish_transactions_content m rs m' us us' :
  for_each rs finish_transaction (m, us) = Ok (m', us') -> same_content m m'.
Proof.
  intros Hrun.
  apply (for_each_inv_ok (fun _ st => same_content m (fst st)) _ _ _ _ Hrun); [by intros id tx; exists tx|].
  intros _ r [m1 us1] [m2 us2] _ Hf Hs. unfold finish_transaction in Hf. inv_ok. cbn in Hs |- *.
  by apply same_content_relabel.
Qed.

(** What is stored after a step was stored before, up to its status, or has arrived. *)
Lemma app_step_stored a ev a' effs id tx :
  app_inv a -> event_ok (peer_id a) ev -> app_step a ev = Ok (a', effs) ->
  transactions a' !! id = Some tx ->
  (exists tx0, transactions a !! id = Some tx0 /\ Transaction_blueprint tx = Transaction_blueprint tx0) \/
  ev = InboxMessage (Inbox_NewTransaction tx) \/
  exists txs, ev = InboxMessage (Inbox_MissingTx txs) /\ tx ∈ txs.
Proof.
  intros Hinv Hev Hrun Htx. destruct ev as [|dn now|req|msg|[e]|rs]; cbn in Hrun.
  - unfold advertise_offsets_and_request_missing, recalculate_consensus_offsets in Hrun. inv_ok.
    destruct (decide _); inv_ok; eauto.
  - inv_ok; eauto.
  - inv_ok; eauto.
  - destruct msg as [p st|nodes|tx0|p ivs|txs].
    + cbn in Hrun. inv_ok; eauto.
    + cbn in Hrun. inv_ok; eauto.
    + destruct (handle_new_tx_ok a tx0 Hinv Hev) as (a1 & E & _ & _ & Ht). rewrite E in Hrun. inv_ok.
      rewrite Ht in Htx. apply lookup_insert_Some in Htx as [[_ ->]|[_ ?]]; eauto.
    + cbn in Hrun. inv_ok; eauto.
    + destruct (handle_missing_ok a txs Hinv Hev) as (a1 & E & _ & _ & Ht). rewrite E in Hrun. inv_ok.
      rewrite Ht, insert_txs_lookup in Htx. destruct (last_with_id txs id) as [tx1|] eqn:El; [|eauto].
      injection Htx as ->. apply last_with_id_Some in El as [? _]. eauto.
  - left. inv_ok. destruct a2 as [m bs]. inv_ok. cbn in Htx.
    by apply (collect_blueprints_content _ _ _ _ Ha1) in Htx.
  - left. unfold handle_runtime_results in Hrun. destruct (decide _); inv_ok; [eauto|].
    destruct a0 as [m us]. inv_ok. cbn in Htx. by apply (finish_transactions_content _ _ _ _ _ Ha) in Htx.
Qed.
End steps.

Section effects.
Context `{Profile} `{PeerIds} `{HashOrder} `{Sha256}.

(** ** The consensus offsets *)
Lemma app_step_consensus a ev a' effs r o :
  app_step a ev = Ok (a', effs) -> consensus_offset a' !! r = Some o ->
  consensus_offset a !! r = Some o \/
  exists nodes, offsets a !! r = Some nodes /\
    consensus_maximum nodes (consensus_nodes (params a)) = Ok (Some o).
Proof.
  intros Hrun Ho. destruct ev as [|dn now|req|msg|[e]|rs]; cbn [app_step] in Hrun.
  - unfold advertise_offsets_and_request_missing, recalculate_consensus_offsets in Hrun. inv_ok.
    assert (Hc : consensus_offset a' = a2).
    { destruct (decide _); inv_ok; done. }
    rewrite Hc in Ho. clear Hrun Hc. revert r o Ho.
    apply (for_each_inv_ok (fun _ c => forall r o, c !! r = Some o -> consensus_offset a !! r = Some o \/
      exists nodes, offsets a !! r = Some nodes /\
        consensus_maximum nodes (consensus_nodes (params a)) = Ok (Some o)) _ _ _ _ Ha1); [by left|].
    intros _ [k v] c c' Hin%hash_iter_elem Hb Hc r o Ho.
    apply bind_ok in Hb as ([mx|] & Hmx & Hb); inv_ok; [|by apply Hc].
    apply lookup_insert_Some in Ho as [[<- <-]|[_ Ho]]; [right; by exists v|by apply Hc].
  - inv_ok. by left.
  - inv_ok. by left.
  - left. destruct msg; cbn [handle_inbox_message] in Hrun; inv_ok; try done.
    + destruct a0 as [[? ?] ?]. by inv_ok.
    + destruct a1 as [[? ?] ?]. by inv_ok.
  - left. unfold handle_epoch_coordinator_updates in Hrun. inv_ok. destruct a2. by inv_ok.
  - left. unfold handle_runtime_results in Hrun. destruct (decide _); inv_ok; [done|].
    destruct a0. by inv_ok.
Qed.

(** A consensus offset computed from the known offsets is reached by a quorum of peers. *)
Lemma consensus_quorum (nodes : gmap PeerId KeyOffset) n o :
  consensus_maximum nodes n = Ok (Some o) ->
  exists S : gset PeerId, (Pos.to_nat n <= size S)%nat /\
    forall q, q ∈ S -> exists o', nodes !! q = Some o' /\ o <= o'.
Proof.
  intros Hm. destruct (consensus_maximum_spec nodes n) as [[E _]|(m & E & Hn & _)]; [congruence|].
  rewrite E in Hm. injection Hm as ->.
  exists (dom (filter (fun kv : PeerId * KeyOffset => o <= kv.2) nodes)). split.
  - unfold peers_at_least in Hn. by rewrite size_dom.
  - intros q [o' Hq]%elem_of_dom. apply map_lookup_filter_Some in Hq as [? ?]. by exists o'.
Qed.

(** ** Messages *)
Lemma serve_interval_stored n m p e resp txs tx :
  serve_interval n m p e resp = Ok txs -> tx ∈ txs -> tx ∈ resp \/ exists id, m !! id = Some tx.
Proof.
  revert p resp. induction n as [|n IH]; intros p resp; cbn; [done|].
  destruct (p <=? e); [|intros [= <-]; by left].
  destruct (m !! p) as [tx0|] eqn:E; [|by apply IH].
  intros Hrun Hin. inv_ok. destruct (IH _ _ Hrun Hin) as [[?| ->%list_elem_of_singleton]%elem_of_app|?]; eauto.
Qed.

Lemma serve_missing_stored m ivs txs tx :
  serve_missing m ivs = Ok txs -> tx ∈ txs -> exists id, m !! id = Some tx.
Proof.
  unfold serve_missing. intros Hrun. inv_ok. revert tx.
  apply (for_each_inv_ok (fun _ resp => forall tx, tx ∈ resp -> exists id, m !! id = Some tx) _ _ _ _ Hrun).
  { intros tx Hin. by apply not_elem_of_nil in Hin. }
  intros _ i resp resp' _ Hs Hresp tx Hin. destruct (serve_interval_stored _ _ _ _ _ _ _ Hs Hin); eauto.
Qed.

Lemma app_step_messages a ev a' effs m :
  app_step a ev = Ok (a', effs) -> ToP2p m ∈ effs ->
  match m with
  | Outbox_State st => NodeState_offsets st = self_offsets a'
  | Outbox_RequestMissingTxs p ivs =>
      exists res, self_delays (transactions a) (self_offsets a) (offsets a) = Ok res /\ res !! p = Some ivs
  | Outbox_RequestedTxsForPeer p txs => forall tx, tx ∈ txs -> exists id, transactions a !! id = Some tx
  | Outbox_NotifyGWs _ => True
  end.
Proof.
  intros Hrun Hm. destruct ev as [|dn now|req|msg|[e]|rs]; cbn [app_step] in Hrun.
  - unfold advertise_offsets_and_request_missing, recalculate_consensus_offsets in Hrun. inv_ok.
    destruct (decide _); inv_ok.
    + apply list_elem_of_singleton in Hm. by injection Hm as ->.
    + apply elem_of_cons in Hm as [Hm|Hm]; [by injection Hm as ->|].
      apply list_elem_of_In, in_map_iff in Hm as ([p ivs] & [= <-] & Hin%list_elem_of_In%hash_iter_elem).
      by eexists.
  - unfold commit_epoch_if_needed in Hrun. inv_ok. destruct (negb _) in Ha; inv_ok; set_solver.
  - inv_ok. destruct req. set_solver.
  - destruct msg; cbn [handle_inbox_message] in Hrun; inv_ok; try set_solver.
    + destruct a0 as [[? ?] ?]. inv_ok. set_solver.
    + apply list_elem_of_singleton in Hm. injection Hm as ->. intros tx Hin.
      by eapply serve_missing_stored.
    + destruct a1 as [[? ?] ?]. inv_ok. set_solver.
  - unfold handle_epoch_coordinator_updates in Hrun. inv_ok. destruct a2. inv_ok.
    destruct (decide _); set_solver.
  - unfold handle_runtime_results in Hrun. destruct (decide _); inv_ok; [set_solver|].
    destruct a0. inv_ok. apply list_elem_of_singleton in Hm. by injection Hm as ->.
Qed.

(** What a node asks the coordinator to commit. *)
Lemma app_step_request a ev a' effs req :
  app_step a ev = Ok (a', effs) -> ToCoordinator req ∈ effs ->
  exists now ivs, calculate_epoch_increments (consensus_offset a) (commited_offsets a) = Ok ivs /\
    next (peer_id a) ivs (last (epochs a)) now = Ok (EpochRequest_epoch req).
Proof.
  intros Hrun Hm. destruct ev as [|dn now|rq|msg|[e]|rs]; cbn [app_step] in Hrun.
  - unfold advertise_offsets_and_request_missing in Hrun. inv_ok. destruct (decide _); inv_ok; [set_solver|].
    apply elem_of_cons in Hm as [Hm|Hm]; [done|].
    by apply list_elem_of_In, in_map_iff in Hm as ([p ivs] & ? & _).
  - unfold commit_epoch_if_needed in Hrun. inv_ok. destruct (negb _) in Ha; inv_ok; [set_solver|].
    apply list_elem_of_singleton in Hm. injection Hm as ->. eauto.
  - inv_ok. destruct rq. set_solver.
  - destruct msg; cbn [handle_inbox_message] in Hrun; inv_ok; try set_solver.
    + destruct a0 as [[? ?] ?]. inv_ok. set_solver.
    + destruct a1 as [[? ?] ?]. inv_ok. set_solver.
  - unfold handle_epoch_coordinator_updates in Hrun. inv_ok. destruct a2. inv_ok.
    destruct (decide _); set_solver.
  - unfold handle_runtime_results in Hrun. destruct (decide _); inv_ok; [set_solver|].
    destruct a0. inv_ok. set_solver.
Qed.

(** ** Epoch updates *)

(** The batch an epoch sends to the runtime, for the blueprints of the ids. *)
Definition epoch_inputs (bp : UniqueU64BlobId -> TaskBlueprint) (e : Epoch) : list Input :=
  if decide (epoch_ids e = []) then [] else [(Epoch_creation_time e, map bp (epoch_ids e))].

Lemma app_step_update a e a' effs :
  Forall RangeKey.interval_ok (Epoch_increments e) ->
  Forall (fun i => RangeKey.addressable (RangeKey.right i)) (Epoch_increments e) ->
  app_step a (CoordinatorUpdate (EpochUpdates_New e)) = Ok (a', effs) ->
  params a' = params a /\ offsets a' = offsets a /\ self_offsets a' = self_offsets a /\
  commited_offsets a' = commit_map (commited_offsets a) (RangeKey.sort_intervals (Epoch_increments e)) /\
  epochs a' = epochs a ++ [sort_increments e] /\
  sequence (linearizer a') = sequence (linearizer a) ++ epoch_ids e /\
  (forall id, id ∈ epoch_ids e -> is_Some (transactions a !! id)) /\
  effs = if decide (epoch_ids e = []) then []
         else [ToRuntime (Epoch_creation_time e, blueprints_of (transactions a) (epoch_ids e))].
Proof.
  intros Hf Haddr Hrun. cbn [app_step] in Hrun. unfold handle_epoch_coordinator_updates in Hrun.
  assert (Hf' : Forall RangeKey.interval_ok (Epoch_increments (sort_increments e))).
  { cbn. by rewrite RangeKey.sort_intervals_perm. }
  inv_ok. destruct a2 as [m bs]. inv_ok. cbn [params offsets self_offsets commited_offsets epochs linearizer].
  split_and!; try done.
  - rewrite commit_offsets_ok in Ha0 by (cbn; by rewrite RangeKey.sort_intervals_perm). by injection Ha0 as <-.
  - unfold Epoch.new_epoch in Ha. inv_ok. rewrite push_intervals_ok in Ha.
    + injection Ha as <-. cbn. f_equal. unfold epoch_ids. do 2 f_equal.
      apply RangeKey.sort_intervals_unique, RangeKey.sort_intervals_perm.
    + cbn. rewrite (RangeKey.sort_intervals_perm (RangeKey.sort_intervals (Epoch_increments e))). exact Hf'.
  - intros id Hid. destruct (transactions a !! id) eqn:E; [by eexists|].
    exfalso. by eapply collect_blueprints_missing.
  - assert (Hall : forall id, id ∈ epoch_ids e -> is_Some (transactions a !! id)).
    { intros id Hid. destruct (transactions a !! id) eqn:E; [by eexists|].
      exfalso. by eapply collect_blueprints_missing. }
    destruct (collect_blueprints_ok (transactions a) (Epoch_increments (sort_increments e)) Hf' Hall)
      as (m' & E & _). rewrite E in Ha1. injection Ha1 as <- <-.
    change (concat (map RangeKey.ids (RangeKey.sort_intervals (Epoch_increments e)))) with (epoch_ids e).
    rewrite (length_blueprints_of _ _ Hall).
    destruct (decide (epoch_ids e = [])) as [->|Hne]; [done|].
    rewrite decide_True; [done|]. destruct (epoch_ids e); [done|cbn; lia].
Qed.
End effects.
