(* ===== verification/Network.v ===== *)
(** * The p2p layer of a maroon node

    Models the handlers of [maroon/src/network/p2p.rs] and the message types of
    [protocol/src/{m2m_request_response,gm_request_response,meta_exchange,node2gw}.rs].
    The [libp2p] swarm is not modelled: an event it produces is a [SwarmEvent], a
    call on it is an [Action] the handler returns, next to the messages it sends to
    the application. JSON ([serde_json]) is the class [Json] below. *)
From S2P Require Import Prelude Types Values Protocol.

(** ** JSON ([serde_json]): encoding may fail, decoding inverts it *)
Class Json (A : Type) := {
  json_bytes : Type;
  to_vec : A -> option json_bytes;
  from_slice : json_bytes -> option A;
  from_to_vec : forall a b, to_vec a = Some b -> from_slice b = Some a
}.

(** The codec that keeps the value, to evaluate the model with. *)
Definition plain_json (A : Type) : Json A.
Proof. refine {| json_bytes := A; to_vec := Some; from_slice := Some |}. by intros a b [= ->]. Defined.

(** ** Request-response events ([libp2p_request_response]) *)
Inductive RequestResponseMessage (Req Res : Type) : Type :=
| RR_Request (request : Req)
| RR_Response (response : Res).
Arguments RR_Request {Req Res} request.
Arguments RR_Response {Req Res} response.

Section network.
Context `{PeerIds}.

Inductive RequestResponseEvent (Req Res : Type) : Type :=
| RR_Message (peer : PeerId) (message : RequestResponseMessage Req Res)
| RR_Other.
Arguments RR_Message {Req Res} peer message.
Arguments RR_Other {Req Res}.

(** ** Protocol messages *)
Inductive M2MRequest : Type :=
| M2M_GetMissingTx (ranges : list RangeKey.U64BlobIdClosedInterval)
| M2M_MissingTx (txs : list Transaction).
Inductive M2MResponse : Type := M2M_Ack.

Inductive GMRequest : Type := GM_NewTransaction (tx : Transaction).
Inductive GMResponse : Type := GM_Acknowledged | GM_Rejected.

Inductive Role : Type := Role_Gateway | Role_Node.
Record MERequest := mkMERequest { MERequest_role : Role }.
Record MEResponse := mkMEResponse { MEResponse_role : Role }.

Inductive GossipPayload : Type := GossipPayload_State (state : NodeState).
Record GossipMessage := mkGossipMessage {
  GossipMessage_peer_id : PeerId;
  GossipMessage_payload : GossipPayload
}.

Inductive N2GWGossipPayload : Type := Node2GWTxUpdate (updates : list TxUpdate).
Record N2GWGossipMessage := mkN2GWGossipMessage {
  N2GWGossipMessage_peer_id : PeerId;
  N2GWGossipMessage_payload : N2GWGossipPayload
}.

Context `{!Json GossipMessage} `{!Json N2GWGossipMessage}.

(** ** The swarm's interface *)
Inductive SwarmEvent : Type :=
| Ev_Gossip (data : json_bytes (A := GossipMessage))
| Ev_MetaExchange (ev : RequestResponseEvent MERequest MEResponse)
| Ev_Ping
| Ev_RequestResponse (ev : RequestResponseEvent GMRequest GMResponse)
| Ev_M2MReqRes (ev : RequestResponseEvent M2MRequest M2MResponse)
| Ev_ConnectionEstablished (peer_id : PeerId)
| Ev_ConnectionClosed (peer_id : PeerId)
| Ev_OutgoingConnectionError
| Ev_Other.

Inductive Action : Type :=
| PublishNodes (bytes : json_bytes (A := GossipMessage))
| PublishGateways (bytes : json_bytes (A := N2GWGossipMessage))
| SendM2M (peer : PeerId) (request : M2MRequest)
| RespondM2M (response : M2MResponse)
| RespondGM (response : GMResponse)
| SendME (peer : PeerId) (request : MERequest)
| RespondME (response : MEResponse).

(** The state of the event loop. *)
Record P2P := mkP2P {
  P2P_peer_id : PeerId;
  alive_peer_ids : gset PeerId;
  alive_gateway_ids : gset PeerId
}.

(** The start of [start_event_loop]: a node counts itself among the alive ones. *)
Definition p2p_start (peer_id : PeerId) : P2P := mkP2P peer_id {[peer_id]} ∅.

(** The addresses [prepare] dials: every node's but the node's own. *)
Definition dialed (node_urls : list string) (self_url : string) : list string :=
  filter (fun url => url <> self_url) node_urls.

(** ** Handlers *)
Definition handle_receiver_outbox (outbox_message : Outbox) (peer_id : PeerId)
  (alive_gateway_ids : gset PeerId) : list Action :=
  match outbox_message with
  | Outbox_State state =>
      match to_vec (mkGossipMessage peer_id (GossipPayload_State state)) with
      | Some bytes => [PublishNodes bytes]
      | None => []
      end
  | Outbox_RequestMissingTxs peer_id ranges => [SendM2M peer_id (M2M_GetMissingTx ranges)]
  | Outbox_RequestedTxsForPeer peer_id missing_txs => [SendM2M peer_id (M2M_MissingTx missing_txs)]
  | Outbox_NotifyGWs tx_updates =>
      if decide (size alive_gateway_ids = 0%nat) then []
      else
        match to_vec (mkN2GWGossipMessage peer_id (Node2GWTxUpdate tx_updates)) with
        | Some bytes => [PublishGateways bytes]
        | None => []
        end
  end.

Definition handle_m2m_req_res (ev : RequestResponseEvent M2MRequest M2MResponse)
  : list Inbox * list Action :=
  match ev with
  | RR_Message peer (RR_Request request) =>
      ([match request with
        | M2M_GetMissingTx ranges => Inbox_RequestMissingTxs peer ranges
        | M2M_MissingTx missing_txs => Inbox_MissingTx missing_txs
        end], [RespondM2M M2M_Ack])
  | RR_Message _ (RR_Response _) => ([], [])
  | RR_Other => ([], [])
  end.

Definition handle_request_response (ev : RequestResponseEvent GMRequest GMResponse)
  : list Inbox * list Action :=
  match ev with
  | RR_Message _ (RR_Request (GM_NewTransaction tx)) =>
      ([Inbox_NewTransaction tx], [RespondGM GM_Acknowledged])
  | RR_Message _ (RR_Response _) => ([], [])
  | RR_Other => ([], [])
  end.

(** The closure [insert_by_role] of [handle_meta_exchange]. *)
Definition insert_by_role (self : P2P) (peer : PeerId) (role : Role) : P2P * list Inbox :=
  match role with
  | Role_Gateway =>
      (mkP2P (P2P_peer_id self) (alive_peer_ids self) ({[peer]} ∪ alive_gateway_ids self), [])
  | Role_Node =>
      let alive_node_ids := {[peer]} ∪ alive_peer_ids self in
      (mkP2P (P2P_peer_id self) alive_node_ids (alive_gateway_ids self), [Inbox_Nodes alive_node_ids])
  end.

Definition handle_meta_exchange (self : P2P) (ev : RequestResponseEvent MERequest MEResponse)
  : P2P * list Inbox * list Action :=
  match ev with
  | RR_Other => (self, [], [])
  | RR_Message peer (RR_Response response) =>
      (insert_by_role self peer (MEResponse_role response), [])
  | RR_Message peer (RR_Request request) =>
      (insert_by_role self peer (MERequest_role request), [RespondME (mkMEResponse Role_Node)])
  end.

Definition handle_swarm_event (self : P2P) (event : SwarmEvent) : P2P * list Inbox * list Action :=
  match event with
  | Ev_Gossip data =>
      match from_slice data with
      | Some p2p_message =>
          match GossipMessage_payload p2p_message with
          | GossipPayload_State state =>
              (self, [Inbox_State (GossipMessage_peer_id p2p_message) state], [])
          end
      | None => (self, [], [])
      end
  | Ev_MetaExchange meta_exchange => handle_meta_exchange self meta_exchange
  | Ev_Ping => (self, [], [])
  | Ev_RequestResponse gm => (self, (handle_request_response gm).1, (handle_request_response gm).2)
  | Ev_M2MReqRes m2m => (self, (handle_m2m_req_res m2m).1, (handle_m2m_req_res m2m).2)
  | Ev_ConnectionEstablished peer_id => (self, [], [SendME peer_id (mkMERequest Role_Node)])
  | Ev_ConnectionClosed peer_id =>
      let alive_gateway_ids := alive_gateway_ids self ∖ {[peer_id]} in
      if decide (peer_id ∈ alive_peer_ids self) then
        let alive_peer_ids := alive_peer_ids self ∖ {[peer_id]} in
        (mkP2P (P2P_peer_id self) alive_peer_ids alive_gateway_ids, [Inbox_Nodes alive_peer_ids], [])
      else (mkP2P (P2P_peer_id self) (alive_peer_ids self) alive_gateway_ids, [], [])
  | Ev_OutgoingConnectionError => (self, [], [])
  | Ev_Other => (self, [], [])
  end.

(** The swarm branch of the event loop, over a sequence of events. *)
Definition run_events (self : P2P) (events : list SwarmEvent) : P2P * list Inbox * list Action :=
  foldl (fun '(self, inbox, actions) ev =>
    let '(self', inbox', actions') := handle_swarm_event self ev in
    (self', inbox ++ inbox', actions ++ actions')) (self, [], []) events.
End network.

Arguments RR_Message {_ Req Res} peer message.
Arguments RR_Other {_ Req Res}.

(** ** What the transport delivers

    [transport src action dst ev]: an action of the swarm of [src] shows up at [dst] as
    the event [ev]: a publication reaches the other subscribers, a request its
    addressee, with the authenticated sender. *)
Inductive transport `{PeerIds} `{!Json GossipMessage} `{!Json N2GWGossipMessage} (src : PeerId) :
  Action -> PeerId -> SwarmEvent -> Prop :=
| transport_gossip bytes dst : dst <> src -> transport src (PublishNodes bytes) dst (Ev_Gossip bytes)
| transport_m2m dst request :
    transport src (SendM2M dst request) dst (Ev_M2MReqRes (RR_Message src (RR_Request request)))
| transport_meta dst request :
    transport src (SendME dst request) dst (Ev_MetaExchange (RR_Message src (RR_Request request))).

(** What the application at [dst] may receive when the one at [src] sends [msg]. *)
Definition relayed `{PeerIds} (src : PeerId) (msg : Outbox) (dst : PeerId) (inbox : Inbox) : Prop :=
  match msg with
  | Outbox_State state => dst <> src /\ inbox = Inbox_State src state
  | Outbox_RequestMissingTxs peer ivs => dst = peer /\ inbox = Inbox_RequestMissingTxs src ivs
  | Outbox_RequestedTxsForPeer peer txs => dst = peer /\ inbox = Inbox_MissingTx txs
  | Outbox_NotifyGWs _ => False
  end.

(** ** Lemmas *)
Section lemmas.
Context `{PeerIds} `{!Json GossipMessage} `{!Json N2GWGossipMessage}.

(** Node [q] is alive for the p2p layer after [evs]: how the last relevant event left it. *)
Definition sets_alive (q : PeerId) (ev : SwarmEvent) : option bool :=
  match ev with
  | Ev_MetaExchange (RR_Message p (RR_Response (mkMEResponse Role_Node))) =>
      if decide (p = q) then Some true else None
  | Ev_MetaExchange (RR_Message p (RR_Request (mkMERequest Role_Node))) =>
      if decide (p = q) then Some true else None
  | Ev_ConnectionClosed p => if decide (p = q) then Some false else None
  | _ => None
  end.

Lemma alive_after self ev q :
  q ∈ alive_peer_ids (handle_swarm_event self ev).1.1 <->
  match sets_alive q ev with Some b => b = true | None => q ∈ alive_peer_ids self end.
Proof.
  destruct ev as [data|[p [[[]]|[[]]]|]| | | | |p| |]; cbn; try done.
  - destruct (from_slice data) as [m|]; [|done]. by destruct (GossipMessage_payload m).
  - destruct (decide (p = q)); set_solver.
  - destruct (decide (p = q)); set_solver.
  - destruct (decide (p ∈ alive_peer_ids self)), (decide (p = q)); cbn; set_solver.
Qed.
End lemmas.

(** ** Properties *)

(** C28: the p2p layers of two nodes relay the application's messages faithfully: what
    the receiving application gets for a message of the sender is that message, with
    the sender's identity, at its addressee (at every other node for a state), and
    nothing else reaches an application from it. *)
Theorem relay_faithful `{PeerIds} `{!Json GossipMessage} `{!Json N2GWGossipMessage}
  src msg gws self action ev inbox :
  action ∈ handle_receiver_outbox msg src gws ->
  transport src action (P2P_peer_id self) ev ->
  inbox ∈ (handle_swarm_event self ev).1.2 -> relayed src msg (P2P_peer_id self) inbox.
Proof.
  intros Ha Ht Hi. destruct msg as [st|p ivs|p txs|us]; cbn in Ha.
  - destruct (to_vec _) as [bytes|] eqn:E; [|by apply not_elem_of_nil in Ha].
    apply list_elem_of_singleton in Ha as ->. inversion Ht; subst. cbn in Hi.
    rewrite (from_to_vec _ _ E) in Hi. cbn in Hi. apply list_elem_of_singleton in Hi as ->. done.
  - apply list_elem_of_singleton in Ha as ->. inversion Ht; subst. cbn in Hi.
    apply list_elem_of_singleton in Hi as ->. done.
  - apply list_elem_of_singleton in Ha as ->. inversion Ht; subst. cbn in Hi.
    apply list_elem_of_singleton in Hi as ->. done.
  - destruct (decide _); [by apply not_elem_of_nil in Ha|].
    destruct (to_vec _); [|by apply not_elem_of_nil in Ha].
    apply list_elem_of_singleton in Ha as ->. inversion Ht.
Qed.

#[local] Instance test_gossip_json : Json (@GossipMessage nat_peers) := plain_json _.
#[local] Instance test_n2gw_json : Json (@N2GWGossipMessage nat_peers) := plain_json _.

Definition test_state : @NodeState := mkNodeState {[0%Z := 4%Z]}.
Definition test_gossip : @GossipMessage nat_peers :=
  @mkGossipMessage nat_peers 1%nat (GossipPayload_State test_state).

Lemma relay_faithful_witness :
  @relayed nat_peers 1%nat (@Outbox_State nat_peers test_state) 2%nat
    (@Inbox_State nat_peers 1%nat test_state).
Proof.
  apply (@relay_faithful nat_peers test_gossip_json test_n2gw_json 1%nat (@Outbox_State nat_peers test_state) ∅
    (@p2p_start nat_peers 2%nat)
    (@PublishNodes nat_peers test_gossip_json test_n2gw_json test_gossip)
    (@Ev_Gossip nat_peers test_gossip_json test_gossip)).
  - left.
  - by constructor.
  - left.
Defined.

(** The application always knows the p2p layer's membership: along any sequence of
    swarm events, a node is alive iff the last event about it introduced it as a node
    and did not close its connection, and whenever the set changes the last set sent
    to the application is the current one. *)
Theorem membership_tracked `{PeerIds} `{!Json GossipMessage} `{!Json N2GWGossipMessage} self evs :
  (forall q, q ∈ alive_peer_ids (run_events self evs).1.1 <->
     match last (omap (sets_alive q) evs) with
     | Some b => b = true
     | None => q ∈ alive_peer_ids self
     end) /\
  match last (omap (fun m => match m with Inbox_Nodes s => Some s | _ => None end)
                (run_events self evs).1.2) with
  | Some s => s = alive_peer_ids (run_events self evs).1.1
  | None => alive_peer_ids (run_events self evs).1.1 = alive_peer_ids self
  end.
Proof.
  induction evs as [|ev evs [IH1 IH2]] using rev_ind; [done|].
  unfold run_events in *. rewrite foldl_app. cbn [foldl].
  destruct (foldl _ (self, [], []) evs) as [[self1 in1] ac1] eqn:E. cbn in IH1, IH2.
  destruct (handle_swarm_event self1 ev) as [[self2 in2] ac2] eqn:E2. cbn. split.
  - intros q. pose proof (alive_after self1 ev q) as Ha. rewrite E2 in Ha. cbn in Ha. rewrite Ha.
    rewrite omap_app. cbn. destruct (sets_alive q ev) as [b|] eqn:Es; cbn.
    + by rewrite last_snoc.
    + rewrite app_nil_r. apply IH1.
  - rewrite omap_app.
    assert (Hstep : match last (omap (fun m => match m with Inbox_Nodes s => Some s | _ => None end) in2) with
                    | Some s => s = alive_peer_ids self2
                    | None => alive_peer_ids self2 = alive_peer_ids self1 end).
    { revert E2. destruct ev as [data|[p [[[]]|[[]]]|]| |[p [[tx]|]|]|[p [[]|]|]| |p| |]; cbn;
        try (intros [= <- <- <-]; done).
      - destruct (from_slice data) as [m|]; [|intros [= <- <- <-]; done].
        destruct (GossipMessage_payload m). intros [= <- <- <-]; done.
      - destruct (decide _); intros [= <- <- <-]; done. }
    destruct (last (omap _ in2)) as [s|] eqn:El.
    + by rewrite last_app, El.
    + rewrite last_app, El. by rewrite Hstep.
Qed.
