(* ===== verification/NetworkSetup.v ===== *)
(** * Setting up the p2p layers

    [P2P::new] and [prepare] of maroon/src/network/p2p.rs and gateway/src/p2p.rs with the
    [create_behaviour] functions of protocol/src: which protocols and topics a swarm speaks,
    whom it dials, and at which step the set-up fails. libp2p's constructors are operations
    of a class; a swarm is what was asked of it. *)
From S2P Require Import Prelude Protocol Network.
From stdpp Require Import strings.
Local Open Scope string_scope.
Local Open Scope list_scope.

(** ** Protocols *)
Inductive ProtocolSupport : Type := Support_Inbound | Support_Outbound | Support_Full.
#[export] Instance ProtocolSupport_eq_dec : EqDecision ProtocolSupport.
Proof. solve_decision. Defined.

(** [json::Behaviour::new] of one protocol. *)
Record RequestResponse := mkRequestResponse { stream_protocol : string; support : ProtocolSupport }.

Definition gm_create_behaviour (protocol : ProtocolSupport) : RequestResponse :=
  mkRequestResponse "/maroon/request/1.0.0" protocol.
Definition me_create_behaviour : RequestResponse := mkRequestResponse "/maroon/meta_exchange/1.0.0" Support_Full.
Definition m2m_create_behaviour : RequestResponse := mkRequestResponse "/maroon/p2p_direct/1.0.0" Support_Full.

Definition NODE2GW_TOPIC_NAME : string := "node-2-gw-broadcast".
Definition node2gw_topic : string := NODE2GW_TOPIC_NAME.

(** ** libp2p *)
Record GossipsubConfig := mkGossipsubConfig { mesh_outbound_min : Z; mesh_n_low : Z; mesh_n : Z; permissive : bool }.
Record PingConfig := mkPingConfig { interval_secs : Z; timeout_secs : Z }.

(** The fallible constructors, and the parser of addresses; an error is a message. *)
Class Libp2p := {
  Keypair : Type;
  Multiaddr : Type;
  noise_config : Keypair -> string + unit;
  gossipsub_config : GossipsubConfig -> string + unit;
  gossipsub_new : Keypair -> string + unit;
  gossipsub_subscribe : string -> string + unit;
  parse_multiaddr : string -> string + Multiaddr
}.

Definition question {A B} (r : string + A) (k : A -> string + B) : string + B :=
  match r with inl e => inl e | inr a => k a end.
Definition map_err {A} (prefix : string) (r : string + A) : string + A :=
  match r with inl e => inl (String.append prefix e) | inr a => inr a end.
#[local] Notation "x <-? e ; k" := (question e (fun x => k)) (at level 100, e at next level, k at level 200).

Section setup.
Context `{Libp2p} `{PeerIds}.

(** A swarm: its behaviour, and what it was asked to do. *)
Inductive SwarmOp : Type := ListenOn (addr : Multiaddr) | Dial (addr : Multiaddr).
Record Swarm := mkSwarm {
  ping : PingConfig;
  subscriptions : list string;
  protocols : list RequestResponse;
  idle_secs : Z;
  swarm_peer_id : PeerId;
  asked : list SwarmOp
}.
Definition ask (op : SwarmOp) (s : Swarm) : Swarm :=
  mkSwarm (ping s) (subscriptions s) (protocols s) (idle_secs s) (swarm_peer_id s) (asked s ++ [op]).

(** ** A node: maroon/src/network/p2p.rs *)
Record NodeP2P := mkNodeP2P {
  np_peer_id : PeerId;
  np_node_urls : list string;
  np_self_url : string;
  np_swarm : Swarm;
  np_node_p2p_topic : string;
  np_node_2_gw_topic : string
}.

(** [kp] and [peer_id] are the key pair that was generated and its identity. *)
Definition node_p2p_new (kp : Keypair) (peer_id : PeerId) (node_urls : list string) (self_url : string) : string + NodeP2P :=
  _ <-? map_err "noise config error: " (noise_config kp);
  _ <-? map_err "gossipsub config builder: " (gossipsub_config (mkGossipsubConfig 1 1 2 true));
  _ <-? map_err "gossipsub behaviour creation: " (gossipsub_new kp);
  let node_p2p_topic := "node-p2p" in
  _ <-? gossipsub_subscribe node_p2p_topic;
  let swarm := mkSwarm (mkPingConfig 5 10) [node_p2p_topic]
    [gm_create_behaviour Support_Inbound; me_create_behaviour; m2m_create_behaviour] 60 peer_id [] in
  inr (mkNodeP2P peer_id node_urls self_url swarm node_p2p_topic node2gw_topic).

(** [listen_on] and [dial] of the swarm, which may fail. *)
Context (listen_on dial : Multiaddr -> string + unit).

Fixpoint node_dial (node_urls : list string) (self_url : string) (swarm : Swarm) : string + Swarm :=
  match node_urls with
  | [] => inr swarm
  | url :: rest =>
      if decide (url = self_url) then node_dial rest self_url swarm
      else
        addr <-? parse_multiaddr url;
        _ <-? dial addr;
        node_dial rest self_url (ask (Dial addr) swarm)
  end.

Definition with_swarm (self : NodeP2P) (swarm : Swarm) : NodeP2P :=
  mkNodeP2P (np_peer_id self) (np_node_urls self) (np_self_url self) swarm (np_node_p2p_topic self) (np_node_2_gw_topic self).

Definition node_prepare (self : NodeP2P) : string + NodeP2P :=
  addr <-? parse_multiaddr (np_self_url self);
  _ <-? map_err "swarm.listen err: " (listen_on addr);
  swarm <-? node_dial (np_node_urls self) (np_self_url self) (ask (ListenOn addr) (np_swarm self));
  inr (with_swarm self swarm).

(** ** A gateway: gateway/src/p2p.rs *)
Record GatewayP2P := mkGatewayP2P { gp_node_urls : list string; gp_swarm : Swarm; gp_id : PeerId }.

Definition gateway_p2p_new (kp : Keypair) (peer_id : PeerId) (node_urls : list string) : string + GatewayP2P :=
  _ <-? map_err "noise config error: " (noise_config kp);
  _ <-? map_err "gossipsub config builder: " (gossipsub_config (mkGossipsubConfig 1 1 2 true));
  _ <-? map_err "gossipsub behaviour creation: " (gossipsub_new kp);
  _ <-? gossipsub_subscribe node2gw_topic;
  let swarm := mkSwarm (mkPingConfig 5 10) [node2gw_topic]
    [gm_create_behaviour Support_Outbound; me_create_behaviour] 60 peer_id [] in
  inr (mkGatewayP2P node_urls swarm peer_id).

Fixpoint gateway_dial (node_urls : list string) (swarm : Swarm) : string + Swarm :=
  match node_urls with
  | [] => inr swarm
  | url :: rest =>
      addr <-? map_err (String.append "parse url: " (String.append url ": ")) (parse_multiaddr url);
      _ <-? dial addr;
      gateway_dial rest (ask (Dial addr) swarm)
  end.

Definition gateway_prepare (self : GatewayP2P) : string + GatewayP2P :=
  swarm <-? gateway_dial (gp_node_urls self) (gp_swarm self);
  inr (mkGatewayP2P (gp_node_urls self) swarm (gp_id self)).

(** ** Who hears what *)

(** [a] can send requests of the protocol to [b]; libp2p negotiates by the supports. *)
Definition speaks (s : Swarm) (protocol : string) (supports : list ProtocolSupport) : bool :=
  existsb (fun rr => bool_decide (stream_protocol rr = protocol) && bool_decide (support rr ∈ supports)) (protocols s).
Definition can_request (a b : Swarm) (protocol : string) : bool :=
  speaks a protocol [Support_Outbound; Support_Full] && speaks b protocol [Support_Inbound; Support_Full].

Lemma node_p2p_new_ok kp peer_id node_urls self_url self : node_p2p_new kp peer_id node_urls self_url = inr self ->
  np_swarm self = mkSwarm (mkPingConfig 5 10) ["node-p2p"]
    [gm_create_behaviour Support_Inbound; me_create_behaviour; m2m_create_behaviour] 60 peer_id [] /\
  np_peer_id self = peer_id /\ np_node_urls self = node_urls /\ np_self_url self = self_url /\
  np_node_p2p_topic self = "node-p2p" /\ np_node_2_gw_topic self = node2gw_topic.
Proof.
  unfold node_p2p_new. destruct (noise_config kp); [done|]. destruct (gossipsub_config _); [done|]. destruct (gossipsub_new kp); [done|].
  cbn. destruct (gossipsub_subscribe _); [done|]. by intros [= <-].
Qed.

Lemma gateway_p2p_new_ok kp peer_id node_urls self : gateway_p2p_new kp peer_id node_urls = inr self ->
  gp_swarm self = mkSwarm (mkPingConfig 5 10) [node2gw_topic] [gm_create_behaviour Support_Outbound; me_create_behaviour] 60 peer_id [] /\
  gp_node_urls self = node_urls /\ gp_id self = peer_id.
Proof.
  unfold gateway_p2p_new. destruct (noise_config kp); [done|]. destruct (gossipsub_config _); [done|]. destruct (gossipsub_new kp); [done|].
  cbn. destruct (gossipsub_subscribe _); [done|]. by intros [= <-].
Qed.

(** Gateways submit to nodes and not the other way round, nodes talk to nodes, and everybody
    exchanges roles; what nodes publish for nodes reaches nodes only, and what they publish
    for gateways gateways only. *)
Lemma who_hears_whom kp peer_id urls url node kp' peer_id' urls' gw :
  node_p2p_new kp peer_id urls url = inr node -> gateway_p2p_new kp' peer_id' urls' = inr gw ->
  let n := np_swarm node in let g := gp_swarm gw in
  map (can_request g n) ["/maroon/request/1.0.0"; "/maroon/meta_exchange/1.0.0"; "/maroon/p2p_direct/1.0.0"] = [true; true; false] /\
  map (can_request n g) ["/maroon/request/1.0.0"; "/maroon/meta_exchange/1.0.0"; "/maroon/p2p_direct/1.0.0"] = [false; true; false] /\
  map (can_request n n) ["/maroon/request/1.0.0"; "/maroon/meta_exchange/1.0.0"; "/maroon/p2p_direct/1.0.0"] = [false; true; true] /\
  np_node_p2p_topic node ∈ subscriptions n /\ np_node_p2p_topic node ∉ subscriptions g /\
  np_node_2_gw_topic node ∈ subscriptions g /\ np_node_2_gw_topic node ∉ subscriptions n.
Proof.
  intros (-> & _ & _ & _ & -> & ->)%node_p2p_new_ok (-> & _ & _)%gateway_p2p_new_ok. cbn zeta. cbn [subscriptions].
  split; [done|]. split; [done|]. split; [done|]. rewrite !list_elem_of_singleton. by split_and!.
Qed.

(** *** Whom a node dials *)
Lemma node_dial_ok node_urls self_url : forall swarm swarm', node_dial node_urls self_url swarm = inr swarm' ->
  exists addrs, asked swarm' = asked swarm ++ map Dial addrs /\
    Forall2 (fun url addr => parse_multiaddr url = inr addr /\ dial addr = inr tt) (dialed node_urls self_url) addrs /\
    subscriptions swarm' = subscriptions swarm /\ protocols swarm' = protocols swarm.
Proof.
  induction node_urls as [|url rest IH]; intros swarm swarm' Hrun; cbn [node_dial] in Hrun.
  { injection Hrun as <-. exists []. cbn. by rewrite app_nil_r. }
  unfold dialed. rewrite filter_cons. destruct (decide (url = self_url)) as [->|Hne].
  - rewrite decide_False by (intros ?; done). by apply IH.
  - rewrite decide_True by done. destruct (parse_multiaddr url) as [|addr] eqn:Ep; [done|]. cbn in Hrun.
    destruct (dial addr) as [|[]] eqn:Ed; [done|]. cbn in Hrun. destruct (IH _ _ Hrun) as (addrs & Ha & Hf & Hs & Hpr).
    exists (addr :: addrs). cbn in *. rewrite Ha, <-app_assoc. split; [done|]. split; [|done]. by constructor.
Qed.

(** A node that is prepared listens on its own address and has dialed every other one. *)
Lemma node_prepare_ok self self' : node_prepare self = inr self' ->
  exists addr addrs, parse_multiaddr (np_self_url self) = inr addr /\
    asked (np_swarm self') = asked (np_swarm self) ++ ListenOn addr :: map Dial addrs /\
    Forall2 (fun url addr => parse_multiaddr url = inr addr /\ dial addr = inr tt)
      (dialed (np_node_urls self) (np_self_url self)) addrs /\
    subscriptions (np_swarm self') = subscriptions (np_swarm self) /\ protocols (np_swarm self') = protocols (np_swarm self).
Proof.
  unfold node_prepare. destruct (parse_multiaddr (np_self_url self)) as [|addr]; [done|]. cbn.
  destruct (listen_on addr); [done|]. cbn. destruct (node_dial _ _ _) as [|swarm] eqn:E; [done|]. intros [= <-].
  destruct (node_dial_ok _ _ _ _ E) as (addrs & Ha & Hf & Hs & Hp). exists addr, addrs. cbn in *. rewrite Ha, <-app_assoc. done.
Qed.

(** One address that cannot be parsed or dialed and the node does not start. *)
Lemma node_prepare_fails self url : url ∈ dialed (np_node_urls self) (np_self_url self) ->
  (forall addr, parse_multiaddr url = inr addr -> dial addr <> inr tt) -> exists e, node_prepare self = inl e.
Proof.
  intros Hin Hbad. destruct (node_prepare self) as [e|self'] eqn:E; [by exists e|]. exfalso.
  destruct (node_prepare_ok _ _ E) as (addr & addrs & _ & _ & Hf & _). apply list_elem_of_lookup in Hin as [i Hi].
  destruct (Forall2_lookup_l _ _ _ _ _ Hf Hi) as (a & _ & Hp & Hd). by apply (Hbad a Hp).
Qed.
End setup.
