(* ===== verification/Coordinator.v ===== *)
(** * The epoch coordinator over etcd

    Models [epoch_coordinator/src/etcd.rs]. The etcd service and its client are the
    class [Etcd]: the versions of keys, transactions and watches, with the laws etcd
    documents and the code relies on; [log_etcd] is an instance. A failed request
    may or may not have taken effect: the environment chooses a [Delivery]. *)
From stdpp Require Import pretty.
From S2P Require Import Prelude Types Protocol Epoch Network.
Local Open Scope Z_scope.

(** ** The etcd client ([etcd_client]) *)
Inductive Compare : Type := Compare_version_equal (key : string) (version : Z).
Inductive TxnOp (V : Type) : Type := TxnOp_put (key : string) (value : V).
Arguments TxnOp_put {V} key value.
Record Txn (V : Type) := mkTxn { txn_when : list Compare; txn_and_then : list (TxnOp V) }.
Arguments mkTxn {V} txn_when txn_and_then.
Arguments txn_when {V} _.
Arguments txn_and_then {V} _.

Definition op_key {V} (op : TxnOp V) : string := match op with TxnOp_put key _ => key end.
Definition op_value {V} (op : TxnOp V) : V := match op with TxnOp_put _ value => value end.

(** How often a list of operations writes a key, and what it writes under a prefix. *)
Definition puts_to {V} (key : string) (ops : list (TxnOp V)) : Z :=
  Z.of_nat (length (filter (fun op => op_key op = key) ops)).

Definition puts_under {V} (pfx : string) (ops : list (TxnOp V)) : list V :=
  omap (fun op => if String.prefix pfx (op_key op) then Some (op_value op) else None) ops.

Class Etcd (V : Type) := {
  Db : Type;
  db_empty : Db;
  (** the version of a key: how often it was written, 0 if it does not exist *)
  db_version : Db -> string -> Z;
  db_txn : Txn V -> Db -> Db * bool;
  (** the values put under a prefix, in revision order: what a watch delivers *)
  db_events : Db -> string -> list V;
  version_empty : forall key, db_version db_empty key = 0;
  events_empty : forall pfx, db_events db_empty pfx = [];
  txn_succeeds : forall t db, (db_txn t db).2 = true <->
    Forall (fun c => match c with Compare_version_equal k v => db_version db k = v end) (txn_when t);
  txn_failed : forall t db, (db_txn t db).2 = false -> (db_txn t db).1 = db;
  txn_version : forall t db key, (db_txn t db).2 = true ->
    db_version (db_txn t db).1 key = db_version db key + puts_to key (txn_and_then t);
  txn_events : forall t db pfx, (db_txn t db).2 = true ->
    db_events (db_txn t db).1 pfx = db_events db pfx ++ puts_under pfx (txn_and_then t)
}.

Section coordinator.
Context `{Profile} `{PeerIds} `{!Json (@Epoch _)} `{!Etcd (json_bytes (A := @Epoch _))}.

(** [EpochObject { epoch }] is its only field. *)
Abbreviation EpochObject := Epoch (only parsing).
Abbreviation Bytes := (json_bytes (A := Epoch)) (only parsing).

Definition MAROON_LATEST : string := "/maroon/latest".
Definition MAROON_HISTORY : string := "/maroon/history".

(** [format!("{}/{}", MAROON_HISTORY, seq_number)]. *)
Definition history_key (seq_number : Z) : string :=
  String.append MAROON_HISTORY (String.append "/" (pretty seq_number)).

(** What became of a request to the service. *)
Inductive Delivery : Type := Delivered | LostRequest | LostResponse.

Record CommitOutcome := mkCommitOutcome {
  success : bool;
  counted_txs : Z      (* what the committed-transactions counter grew by *)
}.

Definition handle_commit_new_epoch (db : Db) (epoch_request : EpochRequest) (net : Delivery)
  : result (Db * CommitOutcome) :=
  let seq_number := Epoch_sequence_number (EpochRequest_epoch epoch_request) in
  count_new_txs ← new_elements_count (Epoch_increments (EpochRequest_epoch epoch_request));
  bytes ← expect "called `Result::unwrap()` on an `Err` value" (to_vec (EpochRequest_epoch epoch_request));
  let txn := mkTxn [Compare_version_equal (history_key seq_number) 0]
                   [TxnOp_put MAROON_LATEST bytes; TxnOp_put (history_key seq_number) bytes] in
  match net with
  | Delivered =>
      let '(db', succeeded) := db_txn txn db in
      Ok (db', mkCommitOutcome succeeded count_new_txs)
  | LostRequest => Ok (db, mkCommitOutcome false 0)
  | LostResponse => Ok ((db_txn txn db).1, mkCommitOutcome false 0)
  end.

(** A message of the watch stream: the header's revision and the events' values. *)
Record WatchMessage := mkWatchMessage {
  header_revision : option Z;
  watch_events : list (option Bytes)
}.

Definition handle_watch_message (message : WatchMessage) : list EpochUpdates :=
  omap (fun kv =>
    match kv with
    | Some value => EpochUpdates_New <$> from_slice value
    | None => None
    end) (watch_events message).

(** The variables of the coordinator's task. *)
Record Coordinator := mkCoordinator {
  last_rev : option Z;
  last_committed_sn : option Z;
  watcher_creation_timeout : Z      (* milliseconds *)
}.

Definition coordinator_start : Coordinator := mkCoordinator None None 50.

(** The start revision of the next watch: none at first, then the last one seen. *)
Definition watch_start_revision (self : Coordinator) : option Z := last_rev self.

(** Creating the watcher: the delay is reset on success and doubled up to a bound. *)
Definition watcher_created (self : Coordinator) (ok : bool) : Coordinator :=
  mkCoordinator (last_rev self) (last_committed_sn self)
    (if ok then 50
     else if watcher_creation_timeout self <=? 5000 then watcher_creation_timeout self * 2
     else watcher_creation_timeout self).

(** The branch [receiver.changed()] of the loop; [next] is the value of the channel. *)
Definition request_changed (self : Coordinator) (db : Db) (next : option EpochRequest)
  (net : Delivery) : result (Coordinator * Db) :=
  match next with
  | None => Ok (self, db)
  | Some payload =>
      let sn := Epoch_sequence_number (EpochRequest_epoch payload) in
      if decide (Some sn = last_committed_sn self) then Ok (self, db)
      else
        '(db, outcome) ← handle_commit_new_epoch db payload net;
        Ok (if success outcome
            then mkCoordinator (last_rev self) (Some sn) (watcher_creation_timeout self)
            else self, db)
  end.

(** The branch [watch_stream.message()] when it delivers a message. *)
Definition watch_received (self : Coordinator) (message : WatchMessage) : Coordinator * list EpochUpdates :=
  (mkCoordinator (match header_revision message with Some r => Some r | None => last_rev self end)
     (last_committed_sn self) (watcher_creation_timeout self),
   handle_watch_message message).
End coordinator.

(** ** An etcd that is a log of puts *)
Definition log_version {V} (log : list (TxnOp V)) (key : string) : Z := puts_to key log.

Definition log_holds {V} (log : list (TxnOp V)) (c : Compare) : bool :=
  match c with Compare_version_equal k v => bool_decide (log_version log k = v) end.

Definition log_txn {V} (t : Txn V) (log : list (TxnOp V)) : list (TxnOp V) * bool :=
  if forallb (log_holds log) (txn_when t) then (log ++ txn_and_then t, true) else (log, false).

Definition log_etcd (V : Type) : Etcd V.
Proof.
  refine {| Db := list (TxnOp V); db_empty := []; db_version := log_version; db_txn := log_txn;
            db_events := fun log pfx => puts_under pfx log |}.
  - done.
  - done.
  - intros t db. unfold log_txn. rewrite Forall_forall.
    destruct (forallb _ _) eqn:E; cbn; split; try done.
    + intros _ [k v] Hin. rewrite forallb_forall in E. apply list_elem_of_In, E in Hin.
      by apply bool_decide_eq_true in Hin.
    + intros Hall. enough (forallb (log_holds db) (txn_when t) = true) by congruence.
      apply forallb_forall. intros [k v] Hin%list_elem_of_In.
      apply Hall in Hin. cbn. by apply bool_decide_eq_true.
  - intros t db. unfold log_txn. by destruct (forallb _ _).
  - intros t db key. unfold log_txn. destruct (forallb _ _); [|done]. intros _. cbn.
    unfold log_version, puts_to. rewrite filter_app, length_app. lia.
  - intros t db pfx. unfold log_txn. destruct (forallb _ _); [|done]. intros _. cbn.
    unfold puts_under. by rewrite omap_app.
Defined.

(** ** Lemmas *)

Lemma append_inj a x y : String.append a x = String.append a y -> x = y.
Proof. induction a as [|c a IH]; cbn; [done|]. intros [= Heq]. by apply IH. Qed.

Lemma history_key_inj i j : history_key i = history_key j -> i = j.
Proof. intros Heq. apply append_inj, append_inj in Heq. by apply (inj pretty) in Heq. Qed.

Section lemmas.
Context `{Profile} `{PeerIds} `{!Json (@Epoch _)} `{!Etcd (json_bytes (A := @Epoch _))}.

(** All epochs ever committed, oldest first: the decoded values put at [MAROON_LATEST]. *)
Definition history (db : Db) : list Epoch :=
  omap from_slice (db_events db MAROON_LATEST).

(** The keys of the history are exactly those of the epochs in it. *)
Record db_inv (db : Db) : Prop := {
  inv_decodes : length (history db) = length (db_events db MAROON_LATEST);
  inv_sequence : forall k e, history db !! k = Some e -> Epoch_sequence_number e = Z.of_nat k;
  inv_versions : forall s, db_version db (history_key s)
                   = if decide (0 <= s < Z.of_nat (length (history db))) then 1 else 0
}.

Lemma db_inv_empty : db_inv db_empty.
Proof.
  assert (Hh : history db_empty = []) by (unfold history; by rewrite events_empty).
  split.
  - by rewrite Hh, events_empty.
  - intros k e. by rewrite Hh.
  - intros s. rewrite Hh, version_empty. destruct (decide _) as [Hs|]; [cbn in Hs; lia|done].
Qed.

Lemma puts_to_history s s' (v : json_bytes (A := @Epoch _)) :
  puts_to (history_key s') [TxnOp_put MAROON_LATEST v; TxnOp_put (history_key s) v]
  = if decide (s' = s) then 1 else 0.
Proof.
  unfold puts_to. rewrite filter_cons_False by discriminate. rewrite filter_cons, filter_nil.
  destruct (decide (s' = s)) as [->|Hne].
  - by rewrite decide_True by done.
  - rewrite decide_False; [done|]. intros Heq. apply Hne. by apply history_key_inj.
Qed.

(** The transaction of [handle_commit_new_epoch] appends the epoch to the history iff its
    number is the next one, and otherwise changes nothing. *)
Lemma commit_txn_spec db e bytes :
  db_inv db -> to_vec e = Some bytes -> 0 <= Epoch_sequence_number e ->
  Epoch_sequence_number e <= Z.of_nat (length (history db)) ->
  let s := Epoch_sequence_number e in
  let txn := mkTxn [Compare_version_equal (history_key s) 0]
                   [TxnOp_put MAROON_LATEST bytes; TxnOp_put (history_key s) bytes] in
  if decide (s = Z.of_nat (length (history db)))
  then (db_txn txn db).2 = true /\ history (db_txn txn db).1 = history db ++ [e] /\ db_inv (db_txn txn db).1
  else db_txn txn db = (db, false).
Proof.
  intros [Hdec Hseq Hver] Hb Hs0 Hs s txn. fold s in Hs0, Hs.
  pose proof (txn_succeeds txn db) as Hsucc. cbn in Hsucc.
  rewrite Forall_singleton, Hver in Hsucc.
  destruct (decide (s = Z.of_nat (length (history db)))) as [Heq|Hne].
  - rewrite decide_False in Hsucc by lia.
    assert (Hok : (db_txn txn db).2 = true) by by apply Hsucc. split; [done|].
    assert (Hev : db_events (db_txn txn db).1 MAROON_LATEST = db_events db MAROON_LATEST ++ [bytes]).
    { by rewrite txn_events by done. }
    assert (Hh : history (db_txn txn db).1 = history db ++ [e]).
    { unfold history. rewrite Hev, omap_app. cbn. by rewrite (from_to_vec _ _ Hb). }
    split; [done|]. split.
    + rewrite Hh, Hev, !length_app. cbn. lia.
    + intros k e'. rewrite Hh. intros [Hk|[Hk Hl]]%lookup_app_Some; [by apply Hseq|].
      apply list_lookup_singleton_Some in Hl as [Hk' <-].
      fold s. lia.
    + intros s'. rewrite txn_version by done. unfold txn at 1. cbn [txn_and_then].
      rewrite puts_to_history, Hver, Hh, length_app. cbn [length].
      destruct (decide (s' = s)), (decide (0 <= s' < Z.of_nat (length (history db)))),
        (decide (0 <= s' < Z.of_nat (length (history db) + 1))); lia.
  - rewrite decide_True in Hsucc by lia.
    assert (Hno : (db_txn txn db).2 = false).
    { apply not_true_is_false. intros Ht%Hsucc. lia. }
    rewrite (surjective_pairing (db_txn txn db)), Hno. by rewrite txn_failed.
Qed.
End lemmas.

(** ** Properties *)

(** C24: committing an epoch is a compare-and-swap on the history: a request whose number
    is the next one extends the history by exactly that epoch, also when only the answer
    is lost; any request for a number already taken, or lost on the way, changes
    nothing; success is reported exactly when the request was delivered and won. The
    committed-transactions counter, however, grows for every delivered request. *)
Theorem commit_is_compare_and_swap `{Profile} `{PeerIds} `{!Json (@Epoch _)}
  `{!Etcd (json_bytes (A := @Epoch _))} db e net :
  db_inv db -> epoch_ok e -> is_Some (to_vec e) ->
  0 <= Epoch_sequence_number e <= Z.of_nat (length (history db)) ->
  exists db' out, handle_commit_new_epoch db (mkEpochRequest e) net = Ok (db', out) /\ db_inv db' /\
    (success out = true <->
       net = Delivered /\ Epoch_sequence_number e = Z.of_nat (length (history db))) /\
    (Epoch_sequence_number e = Z.of_nat (length (history db)) -> net <> LostRequest ->
       history db' = history db ++ [e]) /\
    (Epoch_sequence_number e < Z.of_nat (length (history db)) \/ net = LostRequest -> db' = db) /\
    counted_txs out = match net with Delivered => Z.of_nat (length (epoch_ids e)) | _ => 0 end.
Proof.
  intros Hinv [Hf Hl] [bytes Hb] [Hs0 Hs]. unfold handle_commit_new_epoch. cbn [EpochRequest_epoch].
  assert (Hlen : length (concat (map RangeKey.ids (Epoch_increments e))) = length (epoch_ids e)).
  { unfold epoch_ids. rewrite <-!flat_map_concat_map. apply Permutation_length, Permutation_flat_map.
    symmetry. apply RangeKey.sort_intervals_perm. }
  rewrite new_elements_count_ok by (done || by rewrite Hlen). cbn [mbind result_bind].
  rewrite Hb. cbn [expect mbind result_bind].
  pose proof (commit_txn_spec db e bytes Hinv Hb Hs0 Hs) as Ht. cbn zeta in Ht.
  set (txn := mkTxn _ _) in *. rewrite Hlen.
  destruct (decide (Epoch_sequence_number e = Z.of_nat (length (history db)))) as [Heq|Hne].
  - destruct Ht as (Hok & Hh & Hinv'). destruct (db_txn txn db) as [db' ok]. cbn in Hok, Hh, Hinv'. subst ok.
    destruct net; do 2 eexists; (split; [reflexivity|]); cbn in *; split_and!; try done;
      naive_solver lia.
  - rewrite Ht. destruct net; do 2 eexists; (split; [reflexivity|]); cbn in *; split_and!; try done;
      naive_solver lia.
Qed.

#[local] Instance test_epoch_json : Json (@Epoch nat_peers) := plain_json _.

Lemma commit_is_compare_and_swap_witness :
  exists db' out, @handle_commit_new_epoch dev_profile nat_peers test_epoch_json (log_etcd _)
      [] (mkEpochRequest (witness_epoch [RangeKey.MkInterval 0 2])) LostResponse = Ok (db', out) /\
    @history nat_peers test_epoch_json (log_etcd _) db' = [witness_epoch [RangeKey.MkInterval 0 2]].
Proof.
  destruct (@commit_is_compare_and_swap dev_profile nat_peers test_epoch_json (log_etcd _)
    [] (witness_epoch [RangeKey.MkInterval 0 2]) LostResponse) as (db' & out & E & _ & _ & Hh & _).
  - apply (@db_inv_empty nat_peers test_epoch_json (log_etcd _)).
  - split; [repeat constructor; vm_compute; (discriminate || reflexivity)|vm_compute; reflexivity].
  - by eexists.
  - cbn. lia.
  - exists db', out. split; [exact E|]. by apply Hh.
Defined.
