(* ===== verification/CoordinatorWatch.v ===== *)
(** * Watching the committed epochs

    The loop of [start] in epoch_coordinator/src/etcd.rs around the handlers of
    [Coordinator]: the outer loop creates a watch, the inner one takes requests to commit
    and messages of the watch until etcd closes it, then the outer loop creates the next
    one. What etcd does on its side is in the events: every write takes the next revision of
    the store, a watch without a start revision delivers what is written after its creation,
    one with a start revision everything from that revision on, in order, and the header of
    a message is a revision up to which everything has been delivered. *)
From S2P Require Import Prelude Types Protocol Epoch Network Coordinator.
Local Open Scope Z_scope.

(** ** The loop *)
Section watch.
Context `{Profile} `{PeerIds} `{!Json (@Epoch _)} `{!Etcd (json_bytes (A := @Epoch _))}.

Abbreviation Bytes := (json_bytes (A := Epoch)) (only parsing).

Record Watched := mkWatched {
  wa_coordinator : Coordinator;
  wa_db : Db;
  wa_revs : list Z;             (* the revision of every put of [MAROON_LATEST], oldest first *)
  wa_revision : Z;              (* the revision of the store *)
  wa_watch : option Z;          (* the open watch: the first revision it has not delivered *)
  wa_sent : list EpochUpdates   (* what was sent to the application *)
}.

Inductive WatchEvent : Type :=
| Ev_Write                                                  (* a write of another key *)
| Ev_Commit (request : EpochRequest) (net : Delivery)       (* another node commits *)
| Ev_Request (next : option EpochRequest) (net : Delivery)  (* [receiver.changed()] *)
| Ev_Connect (ok : bool)                                    (* the outer loop creates a watch *)
| Ev_Message (rev : Z)                                      (* [watch_stream.message()] *)
| Ev_Closed.                                                (* the watch ends: [break] *)

(** All puts of [MAROON_LATEST] so far. *)
Definition puts (db : Db) : list Bytes := db_events db MAROON_LATEST.

(** The values with a revision between two bounds, in order. *)
Definition watch_values (revs : list Z) (values : list Bytes) (from upto : Z) : list Bytes :=
  map snd (filter (fun p => from <= fst p <= upto) (zip revs values)).

(** The store after a transaction, which takes one revision if it has succeeded. *)
Definition after_txn (w : Watched) (c : Coordinator) (db : Db) : Watched :=
  if decide (length (puts (wa_db w)) < length (puts db))%nat
  then mkWatched c db (wa_revs w ++ [wa_revision w + 1]) (wa_revision w + 1) (wa_watch w) (wa_sent w)
  else mkWatched c db (wa_revs w) (wa_revision w) (wa_watch w) (wa_sent w).

Definition watch_step (w : Watched) (ev : WatchEvent) : option Watched :=
  let '(mkWatched c db revs revision watch sent) := w in
  match ev with
  | Ev_Write => Some (mkWatched c db revs (revision + 1) watch sent)
  | Ev_Commit request net =>
      match handle_commit_new_epoch db request net with
      | Ok (db', _) => Some (after_txn w c db')
      | _ => None
      end
  | Ev_Request next net =>
      _ ← watch;
      match request_changed c db next net with
      | Ok (c', db') => Some (after_txn w c' db')
      | _ => None
      end
  | Ev_Connect ok =>
      match watch with
      | Some _ => None
      | None =>
          let start := match watch_start_revision c with Some r => r | None => revision + 1 end in
          Some (mkWatched (watcher_created c ok) db revs revision (if ok then Some start else None) sent)
      end
  | Ev_Message rev =>
      from ← watch;
      let values := watch_values revs (puts db) from rev in
      if decide (values <> [] /\ rev <= revision) then
        let '(c, updates) := watch_received c (mkWatchMessage (Some rev) (map Some values)) in
        Some (mkWatched c db revs revision (Some (rev + 1)) (sent ++ updates))
      else None
  | Ev_Closed =>
      match watch with
      | Some _ => Some (mkWatched c db revs revision None sent)
      | None => None
      end
  end.

Fixpoint watch_run (w : Watched) (evs : list WatchEvent) : option Watched :=
  match evs with
  | [] => Some w
  | ev :: evs => w ← watch_step w ev; watch_run w evs
  end.

(** A node that starts on an etcd without epochs. *)
Definition watch_fresh (revision : Z) : Watched := mkWatched coordinator_start db_empty [] revision None [].

(** How many of the puts have a revision up to [r]. *)
Definition puts_upto (revs : list Z) (r : Z) : nat := length (filter (fun x => x <= r) revs).

Definition is_closed (ev : WatchEvent) : bool := match ev with Ev_Closed => true | _ => false end.
Definition closes (evs : list WatchEvent) : nat := length (filter (fun ev => is_closed ev = true) evs).

(** Positions from [k] to [n - 1], each followed by itself or by the next one. *)
Definition stutters (k n : nat) (ps : list nat) : Prop :=
  head ps = Some k /\ last ps = Some (n - 1)%nat /\
  forall i a b, ps !! i = Some a -> ps !! S i = Some b -> b = a \/ b = S a.

(** The epochs at some positions of the history, as updates. *)
Definition updates_at (values : list Bytes) (ps : list nat) : list EpochUpdates :=
  map EpochUpdates_New (omap (fun i => values !! i ≫= from_slice) ps).

(** ** Revisions *)
Lemma sorted_later x revs y : StronglySorted Z.lt (x :: revs) -> y ∈ revs -> x < y.
Proof. intros Hs Hy. inversion Hs as [|? ? _ Hf]; subst. rewrite Forall_forall in Hf. by apply Hf. Qed.

Lemma puts_upto_none revs r : (forall y, y ∈ revs -> r < y) -> puts_upto revs r = 0%nat.
Proof.
  intros Hr. unfold puts_upto. replace (filter (fun x => x <= r) revs) with (@nil Z); [done|]. symmetry.
  apply elem_of_nil_inv. intros y [Hy Hin]%list_elem_of_filter. specialize (Hr y Hin). lia.
Qed.

Lemma puts_upto_cons x revs r : puts_upto (x :: revs) r = ((if decide (x <= r)%Z then 1 else 0) + puts_upto revs r)%nat.
Proof. unfold puts_upto. rewrite filter_cons. by destruct (decide (x <= r)). Qed.

Lemma puts_upto_le revs r : (puts_upto revs r <= length revs)%nat.
Proof. apply length_filter. Qed.

Lemma puts_upto_mono revs r r' : r <= r' -> (puts_upto revs r <= puts_upto revs r')%nat.
Proof. intros Hle. induction revs as [|x revs IH]; [done|]. rewrite !puts_upto_cons. destruct (decide (x <= r)), (decide (x <= r')); lia. Qed.

Lemma puts_upto_all revs r : Forall (fun x => x <= r) revs -> puts_upto revs r = length revs.
Proof. induction 1 as [|x revs Hx _ IH]; [done|]. rewrite puts_upto_cons, decide_True, IH by done. done. Qed.

Lemma puts_upto_snoc revs x r : puts_upto (revs ++ [x]) r = (puts_upto revs r + if decide (x <= r)%Z then 1 else 0)%nat.
Proof. unfold puts_upto. rewrite filter_app, length_app, filter_cons. by destruct (decide (x <= r)). Qed.

(** A single revision is that of at most one put. *)
Lemma puts_upto_step revs r : StronglySorted Z.lt revs -> (puts_upto revs r <= S (puts_upto revs (r - 1)))%nat.
Proof.
  induction revs as [|x revs IH]; intros Hs; [cbn; lia|]. rewrite !puts_upto_cons.
  assert (Hs' : StronglySorted Z.lt revs) by by inversion Hs. specialize (IH Hs').
  destruct (decide (x <= r)), (decide (x <= r - 1)); try lia.
  rewrite (puts_upto_none revs r); [lia|]. intros y Hy. pose proof (sorted_later _ _ _ Hs Hy). lia.
Qed.

(** The values a message carries are a contiguous part of the history. *)
Lemma watch_values_part revs values from upto : StronglySorted Z.lt revs -> length revs = length values -> from <= upto + 1 ->
  watch_values revs values from upto =
    take (puts_upto revs upto - puts_upto revs (from - 1)) (drop (puts_upto revs (from - 1)) values).
Proof.
  unfold watch_values. revert values. induction revs as [|x revs IH]; intros [|v values] Hs Hlen Hle; try done.
  cbn [zip zip_with]. rewrite filter_cons, !puts_upto_cons. cbn [fst]. injection Hlen as Hlen.
  assert (Hs' : StronglySorted Z.lt revs) by by inversion Hs.
  destruct (decide (x <= from - 1)).
  { rewrite decide_False, decide_True by lia. cbn [Nat.add Nat.sub drop]. by apply IH. }
  assert (Hz : puts_upto revs (from - 1) = 0%nat).
  { apply puts_upto_none. intros y Hy. pose proof (sorted_later _ _ _ Hs Hy). lia. }
  rewrite Hz. destruct (decide (x <= upto)).
  - rewrite decide_True by lia. cbn [map snd Nat.add Nat.sub drop take]. f_equal.
    rewrite IH by done. by rewrite Hz, Nat.sub_0_r.
  - rewrite decide_False by lia. rewrite (puts_upto_none revs upto).
    2: { intros y Hy. pose proof (sorted_later _ _ _ Hs Hy). lia. }
    cbn [Nat.add Nat.sub take drop]. rewrite IH, Hz, Nat.sub_0_r by done.
    rewrite (puts_upto_none revs upto); [done|]. intros y Hy. pose proof (sorted_later _ _ _ Hs Hy). lia.
Qed.

(** ** Positions *)
Lemma omap_positions {A B} (f : A -> option B) (l : list A) a n : (a + n <= length l)%nat ->
  omap (fun i => l !! i ≫= f) (seq a n) = omap f (take n (drop a l)).
Proof.
  revert a. induction n as [|n IH]; intros a Hle; [done|]. cbn [seq omap list_omap].
  destruct (lookup_lt_is_Some_2 l a) as [x Hx]; [lia|]. rewrite (drop_S _ _ _ Hx), Hx. cbn [mbind option_bind take omap list_omap].
  rewrite IH by lia. done.
Qed.

Lemma updates_at_grows values values' ps : Forall (fun i => (i < length values)%nat) ps -> values `prefix_of` values' ->
  updates_at values' ps = updates_at values ps.
Proof.
  intros Hps [more ->]. unfold updates_at. f_equal. induction Hps as [|i ps Hi _ IH]; [done|]. cbn [omap list_omap].
  rewrite lookup_app_l by done. by rewrite IH.
Qed.

Lemma updates_at_app values ps ps' : updates_at values (ps ++ ps') = updates_at values ps ++ updates_at values ps'.
Proof. unfold updates_at. by rewrite omap_app, map_app. Qed.

Lemma stutters_app k n m a ps : stutters k n ps -> (0 < n)%nat -> a = n \/ a = (n - 1)%nat -> (a < m)%nat ->
  stutters k m (ps ++ seq a (m - a)).
Proof.
  intros (Hh & Hl & Hs) Hn Ha Hm. destruct ps as [|p ps]; [done|]. split; [done|]. split.
  - rewrite last_app. replace (m - a)%nat with (S (m - 1 - a)) by lia. rewrite seq_S, last_snoc. f_equal. lia.
  - intros i x y Hx Hy. destruct (Nat.lt_ge_cases (S i) (length (p :: ps))) as [Hlt|Hge].
    + rewrite lookup_app_l in Hx, Hy by lia. by eapply Hs.
    + rewrite lookup_app_r in Hy by done. apply lookup_seq in Hy as [-> Hy].
      destruct (Nat.lt_ge_cases i (length (p :: ps))) as [Hi|Hi].
      * rewrite lookup_app_l in Hx by done. rewrite last_lookup in Hl.
        replace (Nat.pred (length (p :: ps))) with i in Hl by lia. rewrite Hl in Hx. injection Hx as <-. lia.
      * rewrite lookup_app_r in Hx by done. apply lookup_seq in Hx as [-> _]. lia.
Qed.

Lemma stutters_seq k m : (k < m)%nat -> stutters k m (seq k (m - k)).
Proof.
  intros Hk. replace (m - k)%nat with (S (m - 1 - k)) by lia. split; [done|]. split.
  - rewrite seq_S, last_snoc. f_equal. lia.
  - intros i x y [-> _]%lookup_seq [-> _]%lookup_seq. lia.
Qed.

(** ** The invariant *)
Definition store_ok (w : Watched) : Prop :=
  length (wa_revs w) = length (puts (wa_db w)) /\ StronglySorted Z.lt (wa_revs w) /\
  Forall (fun x => x <= wa_revision w) (wa_revs w) /\ Forall (fun v => is_Some (from_slice v)) (puts (wa_db w)).

(** A new watch is due, or open and without a message. *)
Definition pending (w : Watched) (r : Z) : nat := if decide (wa_watch w = Some (r + 1)) then 0%nat else 1%nat.

(** What was sent, and how often something was sent again, after [c] watches have ended. *)
Definition delivered_ok (c : nat) (w : Watched) : Prop :=
  match last_rev (wa_coordinator w) with
  | None => wa_sent w = []
  | Some r =>
      r <= wa_revision w /\ (forall from, wa_watch w = Some from -> from = r \/ from = r + 1) /\
      exists k ps, stutters k (puts_upto (wa_revs w) r) ps /\ (k < puts_upto (wa_revs w) r)%nat /\
        Forall (fun i => (i < puts_upto (wa_revs w) r)%nat) ps /\
        wa_sent w = updates_at (puts (wa_db w)) ps /\
        (length ps + pending w r <= puts_upto (wa_revs w) r - k + c)%nat
  end.

Definition watch_inv (c : nat) (w : Watched) : Prop := store_ok w /\ delivered_ok c w.

Lemma pending_le w r : (pending w r <= 1)%nat.
Proof. unfold pending. destruct (decide _); lia. Qed.

(** A commit puts one value that can be read back, or nothing. *)
Lemma commit_puts db request net db' out : handle_commit_new_epoch db request net = Ok (db', out) ->
  puts db' = puts db \/ exists bytes, puts db' = puts db ++ [bytes] /\ is_Some (from_slice bytes).
Proof.
  unfold handle_commit_new_epoch. intros Hrun. inv_ok. rename a0 into bytes. set (txn := mkTxn _ _) in Hrun.
  assert (Htxn : puts (db_txn txn db).1 = puts db \/ exists bytes, puts (db_txn txn db).1 = puts db ++ [bytes] /\ is_Some (from_slice bytes)).
  { destruct ((db_txn txn db).2) eqn:E; [right|left; by rewrite txn_failed].
    exists bytes. split; [unfold puts; by rewrite txn_events by done|]. rewrite (from_to_vec _ _ Ha0). by eexists. }
  destruct net.
  - rewrite (surjective_pairing (db_txn txn db)) in Hrun. by injection Hrun as <- _.
  - injection Hrun as <- _. by left.
  - by injection Hrun as <- _.
Qed.

Lemma request_puts c db next net c' db' : request_changed c db next net = Ok (c', db') -> last_rev c' = last_rev c /\
  (puts db' = puts db \/ exists bytes, puts db' = puts db ++ [bytes] /\ is_Some (from_slice bytes)).
Proof.
  unfold request_changed. destruct next as [payload|]; [|intros [= <- <-]; by split; [|left]].
  destruct (decide _); [intros [= <- <-]; by split; [|left]|]. intros Hrun. inv_ok. destruct a as [db1 out]. inv_ok.
  split; [by destruct (success out)|by eapply commit_puts].
Qed.

Lemma after_txn_inv k w c db : watch_inv k w -> last_rev c = last_rev (wa_coordinator w) ->
  (puts db = puts (wa_db w) \/ exists bytes, puts db = puts (wa_db w) ++ [bytes] /\ is_Some (from_slice bytes)) ->
  watch_inv k (after_txn w c db).
Proof.
  intros [(Hlen & Hsort & Hle & Hdec) Hd] Hc Hputs. unfold after_txn. destruct Hputs as [E|(bytes & E & Hb)].
  - rewrite decide_False by (rewrite E; lia). unfold watch_inv, store_ok, delivered_ok, pending in *. cbn. by rewrite Hc, E.
  - rewrite decide_True by (rewrite E, length_app; cbn; lia). split.
    + split; cbn; [rewrite E, !length_app; cbn; lia|]. split; [|split].
      * apply StronglySorted_app_2; [|done|repeat constructor]. intros x y Hx Hy%list_elem_of_singleton.
        rewrite Forall_forall in Hle. specialize (Hle x Hx). subst. lia.
      * apply Forall_app. split; [eapply Forall_impl; [exact Hle|]; cbn; lia|]. by repeat constructor.
      * rewrite E. apply Forall_app. split; [done|by repeat constructor].
    + unfold delivered_ok, pending in *. cbn -[puts_upto updates_at puts]. rewrite Hc. destruct (last_rev (wa_coordinator w)) as [r|]; [|done].
      destruct Hd as (Hr & Hw & i & ps & Hst & Hi & Hps & Hsent & Hn). rewrite puts_upto_snoc, decide_False, Nat.add_0_r by lia.
      split; [lia|]. split; [done|]. exists i, ps. split; [done|]. split; [done|]. split; [done|]. split; [|done]. rewrite Hsent.
      symmetry. apply updates_at_grows; [|rewrite E; by apply prefix_app_r]. eapply Forall_impl; [exact Hps|]. cbn.
      pose proof (puts_upto_le (wa_revs w) r). intros j Hj. lia.
Qed.

(** *** One message *)
Lemma handle_watch_values h values : handle_watch_message (mkWatchMessage h (map Some values)) = map EpochUpdates_New (omap from_slice values).
Proof.
  unfold handle_watch_message. cbn. induction values as [|v values IH]; [done|]. cbn. destruct (from_slice v); cbn; by rewrite IH.
Qed.

(** A message with values carries the positions from where the watch stands to its header. *)
Lemma message_positions w from rev : store_ok w -> watch_values (wa_revs w) (puts (wa_db w)) from rev <> [] ->
  let a := puts_upto (wa_revs w) (from - 1) in let m := puts_upto (wa_revs w) rev in
  (a < m)%nat /\ from <= rev /\ (m <= length (puts (wa_db w)))%nat /\
  map EpochUpdates_New (omap from_slice (watch_values (wa_revs w) (puts (wa_db w)) from rev)) = updates_at (puts (wa_db w)) (seq a (m - a)).
Proof.
  intros (Hlen & Hsort & _ & _) Hne a m. assert (Hle : from <= rev).
  { apply Z.nlt_ge. intros Hlt. apply Hne. unfold watch_values. replace (filter _ _) with (@nil (Z * Bytes)); [done|]. symmetry.
    apply elem_of_nil_inv. intros [x v] [Hx _]%list_elem_of_filter. cbn in Hx. lia. }
  pose proof (puts_upto_le (wa_revs w) rev) as Hm. fold m in Hm. rewrite Hlen in Hm.
  rewrite watch_values_part in Hne |- * by (done || lia). fold a m in Hne |- *.
  assert (Ham : (a < m)%nat). { apply Nat.nle_gt. intros Hge. apply Hne. by replace (m - a)%nat with 0%nat by lia. }
  split; [done|]. split; [done|]. split; [done|]. unfold updates_at. by rewrite omap_positions by lia.
Qed.

Lemma message_inv k w rev w' : watch_inv k w -> watch_step w (Ev_Message rev) = Some w' -> watch_inv k w'.
Proof.
  intros [Hst Hd] Hstep. destruct w as [c db revs revision watch sent]. cbn -[watch_values puts watch_received] in Hstep.
  apply bind_Some in Hstep as (from & -> & Hstep). case_decide as Hv; [|done]. destruct Hv as [Hne Hrev].
  cbn -[watch_values puts handle_watch_message] in Hstep. injection Hstep as <-. rewrite handle_watch_values.
  destruct (message_positions (mkWatched c db revs revision (Some from) sent) from rev Hst Hne) as (Ham & Hle & Hm & Hup). cbn [wa_revs wa_db] in *.
  rewrite Hup. split; [done|]. unfold delivered_ok, pending in *. cbn -[puts_upto updates_at puts seq] in *.
  rewrite decide_True by done. set (m := puts_upto revs rev) in *. set (a := puts_upto revs (from - 1)) in *.
  assert (Hall : forall x n, (x + n <= m)%nat -> Forall (fun i => (i < m)%nat) (seq x n)).
  { intros x n Hx. apply Forall_forall. intros i [? ?]%elem_of_seq. lia. }
  destruct (last_rev c) as [r|].
  - destruct Hd as (Hr & Hfrom & i & ps & Hs & Hi & Hps & -> & Hn). pose proof Hst as (_ & Hsort & _ & _). cbn [wa_revs] in Hsort.
    assert (Hnm : (puts_upto revs r <= m)%nat) by (apply puts_upto_mono; destruct (Hfrom from eq_refl) as [->| ->]; lia).
    assert (Ha : a = puts_upto revs r \/ a = (puts_upto revs r - 1)%nat /\ from = r).
    { destruct (Hfrom from eq_refl) as [->| ->]; unfold a; [|left; f_equal; lia].
      pose proof (puts_upto_step revs r Hsort). pose proof (puts_upto_mono revs (r - 1) r ltac:(lia)). lia. }
    split; [done|]. split; [intros x [= <-]; by right|]. exists i, (ps ++ seq a (m - a)). split; [|split; [lia|split; [|split]]].
    + apply (stutters_app i (puts_upto revs r)); [done|lia|tauto|done].
    + apply Forall_app. split; [eapply Forall_impl; [exact Hps|]; cbn; lia|apply Hall; lia].
    + by rewrite updates_at_app.
    + rewrite length_app, length_seq. destruct Ha as [Ha|[Ha ->]]; [lia|]. rewrite decide_False in Hn by (intros [= ?]; lia). lia.
  - subst sent. split; [done|]. split; [intros x [= <-]; by right|]. exists a, (seq a (m - a)).
    split; [by apply stutters_seq|]. split; [done|]. split; [apply Hall; lia|]. split; [done|]. rewrite length_seq. lia.
Qed.

Lemma watch_step_inv k w ev w' : watch_inv k w -> watch_step w ev = Some w' -> watch_inv (k + (if is_closed ev then 1 else 0)) w'.
Proof.
  intros Hinv Hstep. destruct ev as [|req net|next net|ok|rev|]; cbn [is_closed]; rewrite ?Nat.add_0_r.
  - destruct w as [c db revs revision watch sent]. injection Hstep as <-. destruct Hinv as [(Hlen & Hsort & Hle & Hdec) Hd]. split.
    + split; [done|]. split; [done|]. split; [|done]. cbn in *. eapply Forall_impl; [exact Hle|]. cbn. lia.
    + unfold delivered_ok, pending in *. cbn -[puts_upto updates_at puts] in *. destruct (last_rev c); [|done].
      destruct Hd as (Hr & Hd). split; [lia|done].
  - destruct w as [c db revs revision watch sent]. cbn -[handle_commit_new_epoch after_txn] in Hstep.
    destruct (handle_commit_new_epoch db req net) as [[db' out]| |] eqn:E; try done. injection Hstep as <-.
    apply after_txn_inv; [done..|]. by eapply commit_puts.
  - destruct w as [c db revs revision watch sent]. cbn -[request_changed after_txn] in Hstep. apply bind_Some in Hstep as (from & _ & Hstep).
    destruct (request_changed c db next net) as [[c' db']| |] eqn:E; try done. injection Hstep as <-.
    apply request_puts in E as [E1 E2]. by apply after_txn_inv.
  - destruct w as [c db revs revision watch sent]. cbn in Hstep. destruct watch; [done|]. injection Hstep as <-.
    destruct Hinv as [Hst Hd]. split; [done|]. unfold delivered_ok, pending, watch_start_revision in *. cbn -[puts_upto updates_at puts] in *.
    destruct (last_rev c) as [r|]; [|done]. destruct Hd as (Hr & _ & i & ps & Hs & Hi & Hps & Hsent & Hn).
    rewrite decide_False in Hn by done. split; [done|]. split; [destruct ok; [intros x [= <-]; by left|done]|].
    exists i, ps. split; [done|]. split; [done|]. split; [done|]. split; [done|].
    rewrite decide_False; [done|]. destruct ok; [intros [= ?]; lia|done].
  - by eapply message_inv.
  - destruct w as [c db revs revision watch sent]. cbn in Hstep. destruct watch as [from|]; [|done]. injection Hstep as <-.
    destruct Hinv as [Hst Hd]. split; [done|]. unfold delivered_ok in *. cbn -[puts_upto updates_at puts pending] in *.
    destruct (last_rev c) as [r|]; [|done]. destruct Hd as (Hr & _ & i & ps & Hs & Hi & Hps & Hsent & Hn). split; [done|]. split; [done|].
    exists i, ps. split; [done|]. split; [done|]. split; [done|]. split; [done|]. pose proof (pending_le (mkWatched c db revs revision None sent) r). lia.
Qed.

Lemma watch_run_inv evs : forall k w w', watch_inv k w -> watch_run w evs = Some w' -> watch_inv (k + closes evs) w'.
Proof.
  induction evs as [|ev evs IH]; intros k w w' Hinv Hrun; [injection Hrun as <-; by rewrite Nat.add_0_r|].
  apply bind_Some in Hrun as (w1 & Hstep & Hrun). apply (watch_step_inv k w ev w1 Hinv) in Hstep.
  apply (IH _ _ _ Hstep) in Hrun. unfold closes in *. rewrite filter_cons. destruct (is_closed ev); cbn in *.
  - by rewrite <-Nat.add_assoc in Hrun.
  - by rewrite Nat.add_0_r in Hrun.
Qed.

Lemma fresh_inv revision : watch_inv 0 (watch_fresh revision).
Proof.
  split; [|done]. unfold store_ok, puts, watch_fresh. cbn. rewrite events_empty. split; [done|]. split; [constructor|]. by split.
Qed.

(** The puts and the history, when every put can be read back. *)
Lemma history_lookup db i : Forall (fun v => is_Some (from_slice v)) (puts db) -> history db !! i = (puts db !! i ≫= from_slice).
Proof.
  unfold history. fold (puts db). generalize (puts db) as l. intros l Hl. revert i. induction Hl as [|v l [e He] _ IH]; intros i; [done|].
  cbn [omap list_omap]. rewrite He. destruct i as [|i]; cbn; [by rewrite He|apply IH].
Qed.

Lemma history_length db : Forall (fun v => is_Some (from_slice v)) (puts db) -> length (history db) = length (puts db).
Proof.
  unfold history. fold (puts db). generalize (puts db) as l. induction 1 as [|v l [e He] _ IH]; [done|].
  cbn [omap list_omap]. rewrite He. cbn [length]. by rewrite IH.
Qed.

Definition epochs_at (db : Db) (ps : list nat) : list EpochUpdates := map EpochUpdates_New (omap (fun i => history db !! i) ps).

Lemma updates_at_history db ps : Forall (fun v => is_Some (from_slice v)) (puts db) -> updates_at (puts db) ps = epochs_at db ps.
Proof.
  intros Hdec. unfold updates_at, epochs_at. f_equal. induction ps as [|i ps IH]; [done|]. cbn [omap list_omap].
  by rewrite history_lookup, IH.
Qed.

(** *** Reconnecting *)
Lemma reconnect_repeats k w r : watch_inv k w -> last_rev (wa_coordinator w) = Some r -> is_Some (wa_watch w) ->
  let n := puts_upto (wa_revs w) r in wa_revs w !! (n - 1)%nat = Some r ->
  exists w', watch_run w [Ev_Closed; Ev_Connect true; Ev_Message (wa_revision w)] = Some w' /\
    wa_sent w' = wa_sent w ++ updates_at (puts (wa_db w)) (seq (n - 1) (length (puts (wa_db w)) - (n - 1))).
Proof.
  intros [Hst Hd] Hr [from Hfrom] n Hn. destruct w as [c db revs revision watch sent]. cbn [wa_coordinator wa_watch wa_revs wa_db wa_sent wa_revision] in *.
  unfold delivered_ok in Hd. cbn -[puts_upto updates_at puts pending] in Hd. rewrite Hr in Hd. destruct Hd as (Hle & _ & i & ps & _ & Hi & _).
  fold n in Hi. pose proof Hst as (Hlen & Hsort & Hall & _). cbn [wa_revs wa_db wa_revision] in *. subst watch.
  set (w1 := mkWatched (watcher_created c true) db revs revision (Some r) sent).
  assert (Ha : puts_upto revs (r - 1) = (n - 1)%nat).
  { pose proof (puts_upto_step revs r Hsort) as Hs1. pose proof (puts_upto_mono revs (r - 1) r ltac:(lia)) as Hs2. fold n in Hs1, Hs2.
    enough (puts_upto revs (r - 1) <> n) by lia. intros E. unfold n in E. clear -E Hn Hi Hsort. apply list_elem_of_lookup_2 in Hn. revert E. clear Hi.
    induction revs as [|x revs IH]; [by apply not_elem_of_nil in Hn|]. rewrite !puts_upto_cons. apply elem_of_cons in Hn as [->|Hn].
    - pose proof (puts_upto_mono revs (x - 1) x ltac:(lia)). destruct (decide (x <= x)), (decide (x <= x - 1)); lia.
    - pose proof (sorted_later _ _ _ Hsort Hn). destruct (decide (x <= r)), (decide (x <= r - 1)); try lia. intros E. apply IH; first [done|lia|by inversion Hsort]. }
  assert (Hne : watch_values revs (puts db) r revision <> []).
  { rewrite watch_values_part, (puts_upto_all revs revision), Ha by (done || lia). intros E%(f_equal length).
    rewrite length_take, length_drop in E. cbn in E. pose proof (puts_upto_le revs r) as Hn'. fold n in Hn'. lia. }
  destruct (message_positions w1 r revision Hst Hne) as (_ & _ & _ & Hup). cbn [w1 wa_revs wa_db] in Hup.
  rewrite Ha, (puts_upto_all revs revision) in Hup by done.
  eexists. split.
  - cbn -[puts watch_values handle_watch_message]. unfold watch_start_revision. cbn [watcher_created last_rev]. rewrite Hr. cbn -[puts watch_values handle_watch_message].
    rewrite decide_True by (split; [done|lia]). reflexivity.
  - cbn -[puts watch_values handle_watch_message updates_at]. f_equal. etrans; [apply handle_watch_values|]. rewrite Hup, Hlen. done.
Qed.
End watch.

(** ** Properties *)


(** Two epochs reach the application, and the second one again after a reconnect. *)
Module Demo.
#[local] Existing Instance dev_profile.
#[local] Existing Instance nat_peers.
#[local] Existing Instance Coordinator.test_epoch_json.
#[local] Instance etcd : Etcd (json_bytes (A := @Epoch nat_peers)) := log_etcd _.

Definition numbered (n : Z) : @EpochRequest nat_peers :=
  mkEpochRequest (mkEpoch n [RangeKey.MkInterval n n] 0%nat n []).

Definition events : list WatchEvent :=
  [Ev_Connect true; Ev_Commit (numbered 0) Delivered; Ev_Message 11; Ev_Request (Some (numbered 1)) Delivered; Ev_Message 12].

Definition again : list WatchEvent := [Ev_Closed; Ev_Connect true; Ev_Message 12].
Definition sent_numbers (w : Watched) : list Z := map (fun '(EpochUpdates_New e) => Epoch_sequence_number e) (wa_sent w).
End Demo.

