(* ===== verification/Cluster.v ===== *)
(** * A cluster of maroon nodes over one etcd

    Composes the application ([App]), the p2p relay ([Network]) and the coordinator
    ([Coordinator]) of every node of [maroon/src/stack.rs] into one step relation. A
    message, once sent, may be delivered any number of times, in any order or never; a
    commit may be lost or answered late; the watches deliver what etcd recorded, in
    order, from the start and without reconnecting. Nodes start empty and do not lose
    their memory. *)
From S2P Require Import Prelude Types Values Protocol Epoch Decision App AppOffsets AppEpochs AppSteps.
From S2P Require Import Network Coordinator.
Local Open Scope Z_scope.

Section cluster.
Context `{Profile} `{PeerIds} `{HashOrder} `{Sha256}.
Context `{!Json (@Epoch _)} `{!Etcd (json_bytes (A := @Epoch _))}.
(** The parameters all nodes run with, and what gateways submitted under every id:
    an id belongs to one range, a range to one gateway, which uses every id once. *)
Context (ps : Params) (submitted : UniqueU64BlobId -> TxBlueprint).

Record Node := mkNode {
  n_app : App;
  n_coordinator : Coordinator;
  n_request : option EpochRequest;   (* the watch channel, if it holds an unseen value *)
  n_seen : nat;                      (* how many events its etcd watch delivered *)
  n_inputs : list Input              (* everything sent to its runtime *)
}.

Record World := mkWorld {
  w_nodes : gmap PeerId Node;
  w_net : list (PeerId * Outbox);    (* everything ever sent *)
  w_db : Db
}.

(** A node as [MaroonStack::new] and [start] leave it. *)
Definition fresh_node (p : PeerId) : Node := mkNode (app_new p ps) coordinator_start None 0 [].

Definition initial (w : World) : Prop :=
  (forall p n, w_nodes w !! p = Some n -> n = fresh_node p) /\ w_net w = [] /\ w_db w = db_empty.

(** Where the effects of an application step go. *)
Definition latest_request (old : option EpochRequest) (effs : list Effect) : option EpochRequest :=
  match last (omap to_coordinator effs) with Some r => Some r | None => old end.

Definition dispatch (n : Node) (a : App) (effs : list Effect) : Node :=
  mkNode a (n_coordinator n) (latest_request (n_request n) effs) (n_seen n)
    (n_inputs n ++ omap to_runtime effs).

Definition sent (p : PeerId) (effs : list Effect) : list (PeerId * Outbox) :=
  map (pair p) (omap to_p2p effs).

(** The events the environment may give to the application of node [p]. *)
Inductive admissible (w : World) (p : PeerId) : Event -> Prop :=
| adm_advertise : admissible w p AdvertiseTick
| adm_commit decider_now now : admissible w p (CommitTick decider_now now)
| adm_request req : admissible w p (StateRequest req)
| adm_nodes nodes : admissible w p (InboxMessage (Inbox_Nodes nodes))
| adm_results rs : admissible w p (RuntimeResults rs)
| adm_gateway tx : legal_id (tx_id tx) -> Transaction_blueprint tx = submitted (tx_id tx) ->
    admissible w p (InboxMessage (Inbox_NewTransaction tx))
| adm_relay src msg inbox : (src, msg) ∈ w_net w -> relayed src msg p inbox ->
    admissible w p (InboxMessage inbox).

Inductive step (w : World) : World -> Prop :=
| step_app p n ev a effs :
    w_nodes w !! p = Some n -> admissible w p ev -> app_step (n_app n) ev = Ok (a, effs) ->
    step w (mkWorld (<[p := dispatch n a effs]> (w_nodes w)) (w_net w ++ sent p effs) (w_db w))
| step_commit p n req net c db :
    w_nodes w !! p = Some n -> n_request n = Some req ->
    request_changed (n_coordinator n) (w_db w) (Some req) net = Ok (c, db) ->
    step w (mkWorld (<[p := mkNode (n_app n) c None (n_seen n) (n_inputs n)]> (w_nodes w)) (w_net w) db)
| step_watch p n bytes rev c upds a effs :
    w_nodes w !! p = Some n -> db_events (w_db w) MAROON_LATEST !! n_seen n = Some bytes ->
    watch_received (n_coordinator n) (mkWatchMessage rev [Some bytes]) = (c, upds) ->
    loop_until_shutdown (n_app n) (map CoordinatorUpdate upds) = Ok (a, effs) ->
    step w (mkWorld (<[p := dispatch (mkNode (n_app n) c (n_request n) (S (n_seen n)) (n_inputs n)) a effs]>
                       (w_nodes w)) (w_net w ++ sent p effs) (w_db w)).

Inductive reachable : World -> Prop :=
| reachable_initial w : initial w -> reachable w
| reachable_step w w' : reachable w -> step w w' -> reachable w'.

(** ** What the cluster agrees on *)

Abbreviation hist w := (history (w_db w)) (only parsing).

(** The offsets committed by a sequence of epochs. *)
Definition committed_by (h : list Epoch) : gmap KeyRange KeyOffset :=
  foldl (fun c e => commit_map c (RangeKey.sort_intervals (Epoch_increments e))) ∅ h.

(** The global log: the ids of the epochs, in order. *)
Definition log_of (h : list Epoch) : list UniqueU64BlobId := concat (map epoch_ids h).

Definition submitted_task (id : UniqueU64BlobId) : TaskBlueprint :=
  mkTaskBlueprint id (TxBlueprint_queue_name (submitted id)) (TxBlueprint_param (submitted id)).

(** What a runtime receives for a sequence of epochs. *)
Definition inputs_of (h : list Epoch) : list Input := concat (map (epoch_inputs submitted_task) h).

(** Node [q] stores the transactions [0..o] of range [r]. *)
Definition holds (w : World) (r : KeyRange) (q : PeerId) (o : KeyOffset) : Prop :=
  RangeKey.slot_ok r o /\
  exists n o', w_nodes w !! q = Some n /\ self_offsets (n_app n) !! r = Some o' /\ o <= o'.

Definition quorum (w : World) (r : KeyRange) (o : KeyOffset) : Prop :=
  exists S : gset PeerId, (Pos.to_nat (consensus_nodes ps) <= size S)%nat /\
    forall q, q ∈ S -> holds w r q o.

(** The increments of [e] are what a quorum supports on top of the epochs [h]. *)
Definition justified (w : World) (h : list Epoch) (e : Epoch) : Prop :=
  exists consensus, offsets_ok consensus /\
    (forall r o, consensus !! r = Some o -> quorum w r o) /\
    increments_spec consensus (committed_by h) (Epoch_increments e).

(** A proposal continues some prefix of the history. *)
Definition proposal_ok (w : World) (e : Epoch) : Prop :=
  exists j, (j <= length (hist w))%nat /\ Epoch_sequence_number e = Z.of_nat j /\
    justified w (take j (hist w)) e.

(** What a message says is true, and stays so. *)
Definition message_ok (w : World) (src : PeerId) (msg : Outbox) : Prop :=
  match msg with
  | Outbox_State st => forall r o, NodeState_offsets st !! r = Some o -> holds w r src o
  | Outbox_RequestMissingTxs p ivs =>
      Forall RangeKey.interval_ok ivs /\
      forall n id, w_nodes w !! p = Some n -> id ∈ concat (map RangeKey.ids ivs) ->
        is_Some (transactions (n_app n) !! id)
  | Outbox_RequestedTxsForPeer _ txs =>
      forall tx, tx ∈ txs -> legal_id (tx_id tx) /\ Transaction_blueprint tx = submitted (tx_id tx)
  | Outbox_NotifyGWs _ => True
  end.

Record node_inv (w : World) (p : PeerId) (n : Node) : Prop := {
  ni_id : peer_id (n_app n) = p;
  ni_params : params (n_app n) = ps;
  ni_app : app_inv (n_app n);
  ni_content : forall id tx, transactions (n_app n) !! id = Some tx -> Transaction_blueprint tx = submitted id;
  ni_seen : (n_seen n <= length (hist w))%nat;
  ni_epochs : epochs (n_app n) = map sort_increments (take (n_seen n) (hist w));
  ni_commited : commited_offsets (n_app n) = committed_by (take (n_seen n) (hist w));
  ni_log : sequence (linearizer (n_app n)) = log_of (take (n_seen n) (hist w));
  ni_inputs : n_inputs n = inputs_of (take (n_seen n) (hist w));
  ni_offsets : offsets_sat (holds w) (offsets (n_app n));
  ni_consensus : forall r o, consensus_offset (n_app n) !! r = Some o -> quorum w r o;
  ni_request : forall req, n_request n = Some req -> proposal_ok w (EpochRequest_epoch req);
  ni_stored : forall id, id ∈ sequence (linearizer (n_app n)) -> is_Some (transactions (n_app n) !! id);
  ni_coordinator : forall sn, last_committed_sn (n_coordinator n) = Some sn -> sn < Z.of_nat (length (hist w))
}.

Record world_inv (w : World) : Prop := {
  wi_db : db_inv (w_db w);
  wi_hist : forall k e, hist w !! k = Some e -> justified w (take k (hist w)) e;
  wi_nodes : forall p n, w_nodes w !! p = Some n -> node_inv w p n;
  wi_net : forall src msg, (src, msg) ∈ w_net w -> message_ok w src msg
}.

(** Epoch numbers have not run out. *)
Definition small (w : World) : Prop := Z.of_nat (length (hist w)) < u64_modulus.

(** ** Growth: what holds in a world holds in the later ones *)
Record world_le (w w' : World) : Prop := {
  le_nodes : forall p n, w_nodes w !! p = Some n ->
    exists n', w_nodes w' !! p = Some n' /\ app_extends (n_app n) (n_app n');
  le_back : forall p n', w_nodes w' !! p = Some n' ->
    exists n, w_nodes w !! p = Some n /\ app_extends (n_app n) (n_app n');
  le_hist : hist w `prefix_of` hist w'
}.

Lemma holds_mono w w' r q o : world_le w w' -> holds w r q o -> holds w' r q o.
Proof.
  intros Hle [Hs (n & o' & Hn & Ho & ?)]. split; [done|].
  destruct (le_nodes _ _ Hle q n Hn) as (n' & Hn' & Hx).
  destruct (ext_offsets _ _ Hx r o' Ho) as (o2 & Ho2 & ?). exists n', o2. split; [done|]. split; [done|lia].
Qed.

Lemma quorum_mono w w' r o : world_le w w' -> quorum w r o -> quorum w' r o.
Proof. intros Hle (S & HS & Hq). exists S. split; [done|]. intros q Hin. by eapply holds_mono, Hq. Qed.

Lemma justified_mono w w' h e : world_le w w' -> justified w h e -> justified w' h e.
Proof.
  intros Hle (c & Hc & Hq & Hs). exists c. split; [done|]. split; [|done].
  intros r o Hr. by eapply quorum_mono, Hq.
Qed.

Lemma take_prefix {A} (l l' : list A) j : l `prefix_of` l' -> (j <= length l)%nat -> take j l' = take j l.
Proof. intros [k ->] Hj. by rewrite take_app_le. Qed.

Lemma proposal_mono w w' e : world_le w w' -> proposal_ok w e -> proposal_ok w' e.
Proof.
  intros Hle (j & Hj & Hs & Hjust). pose proof (le_hist _ _ Hle) as Hp. exists j.
  split; [apply prefix_length in Hp; lia|]. split; [done|].
  rewrite (take_prefix _ _ j Hp Hj). by eapply justified_mono.
Qed.

Lemma message_mono w w' src msg : world_le w w' -> message_ok w src msg -> message_ok w' src msg.
Proof.
  intros Hle. destruct msg as [st|p ivs|p txs|us]; cbn; [| |done|done].
  - intros Hst r o Hr. by eapply holds_mono, Hst.
  - intros [Hf Hids]. split; [done|]. intros n' id Hn' Hid.
    destruct (le_back _ _ Hle p n' Hn') as (n & Hn & Hx). by eapply (ext_txs _ _ Hx), Hids.
Qed.

(** A node that did not move keeps its invariant. *)
Lemma node_inv_mono w w' p n : world_le w w' -> node_inv w p n -> node_inv w' p n.
Proof.
  intros Hle Hn. pose proof (le_hist _ _ Hle) as Hp. 
  pose proof (take_prefix _ _ _ Hp (ni_seen _ _ _ Hn)) as Ht.
  destruct Hn as [Hi Hps Ha Hct Hs He Hc Hl Hin Ho Hco Hrq Hst Hcn].
  split; try done; try (by rewrite Ht).
  - apply prefix_length in Hp. lia.
  - intros r q o Hq. by eapply holds_mono, Ho.
  - intros r o Hr. by eapply quorum_mono, Hco.
  - intros req Hr. by eapply proposal_mono, Hrq.
  - intros sn Hsn. apply prefix_length in Hp. apply Hcn in Hsn. lia.
Qed.
End cluster.
