(* ===== verification/ClusterInv.v ===== *)
(** * Invariants and agreement of the cluster

    Every reachable world of [Cluster] satisfies [world_inv]; from it follow the
    agreement of the nodes' logs, the absence of gaps and duplicates in the log, the
    durability of what is committed, and that requests between nodes are served. *)
From S2P Require Import Prelude Types Values Protocol Epoch Decision App AppOffsets AppEpochs AppSteps.
From S2P Require Import Network Coordinator Cluster.
Local Open Scope Z_scope.

Section inv.
Context `{Profile} `{PeerIds} `{HashOrder} `{Sha256}.
Context `{!Json (@Epoch _)} `{!Etcd (json_bytes (A := @Epoch _))}.
Context (ps : Params) (submitted : UniqueU64BlobId -> TxBlueprint).

Abbreviation hist w := (history (w_db w)) (only parsing).
Abbreviation node_inv := (node_inv ps submitted).
Abbreviation world_inv := (world_inv ps submitted).
Abbreviation step := (step submitted).

(** ** The history as a sequence of justified epochs *)

(** Each epoch's increments are computed on top of those before it. *)
Definition chained (h : list Epoch) : Prop :=
  forall k e, h !! k = Some e ->
    exists consensus, offsets_ok consensus /\ increments_spec consensus (committed_by (take k h)) (Epoch_increments e).

Lemma chained_app h e :
  chained (h ++ [e]) -> chained h /\
  exists consensus, offsets_ok consensus /\ increments_spec consensus (committed_by h) (Epoch_increments e).
Proof.
  intros Hc. split.
  - intros k e' Hk. destruct (Hc k e') as (c & Hok & Hs); [by apply lookup_app_l_Some|].
    apply lookup_lt_Some in Hk. rewrite take_app_le in Hs by lia. eauto.
  - destruct (Hc (length h) e) as (c & Hok & Hs).
    { rewrite lookup_app_r, Nat.sub_diag by lia. done. }
    rewrite take_app_length in Hs. eauto.
Qed.

Lemma committed_snoc h e :
  committed_by (h ++ [e]) = commit_map (committed_by h) (RangeKey.sort_intervals (Epoch_increments e)).
Proof. unfold committed_by. by rewrite foldl_app. Qed.

Lemma log_snoc h e : log_of (h ++ [e]) = log_of h ++ epoch_ids e.
Proof. unfold log_of. rewrite map_app, concat_app. cbn. by rewrite app_nil_r. Qed.

Lemma epoch_ids_nodup consensus commited e :
  offsets_ok consensus -> offsets_ok commited -> increments_spec consensus commited (Epoch_increments e) ->
  NoDup (epoch_ids e).
Proof.
  intros Hc Hd Hs. eapply increments_spec_nodup; [exact Hc|exact Hd|].
  eapply increments_spec_perm; [symmetry; apply RangeKey.sort_intervals_perm|done].
Qed.

(** What is in the log: exactly the ids below the next offset of their range. *)
Lemma chained_log h :
  chained h -> offsets_ok (committed_by h) /\ NoDup (log_of h) /\
  forall id, id ∈ log_of h <-> exists r k, 0 <= k < next_offset (committed_by h) r /\ id = RangeKey.slot_id r k.
Proof.
  induction h as [|e h IH] using rev_ind; intros Hc.
  { split; [intros r o; cbn; by rewrite lookup_empty|]. split; [constructor|]. intros id. cbn. split.
    - by intros ?%not_elem_of_nil.
    - intros (r & k & Hk & _). unfold next_offset in Hk. rewrite lookup_empty in Hk. lia. }
  apply chained_app in Hc as [Hc (cons & Hok & Hs)]. destruct (IH Hc) as (Hcm & Hnd & Hlog). clear IH Hc.
  assert (Hs' : increments_spec cons (committed_by h) (RangeKey.sort_intervals (Epoch_increments e))).
  { eapply increments_spec_perm; [symmetry; apply RangeKey.sort_intervals_perm|done]. }
  assert (Hnext : forall r, next_offset (committed_by (h ++ [e])) r
     = match cons !! r with Some o => Z.max (next_offset (committed_by h) r) (o + 1)
                          | None => next_offset (committed_by h) r end).
  { intros r. unfold next_offset at 1. rewrite committed_snoc, (commit_increments cons) by done.
    destruct (cons !! r) as [o|]; [|done]. destruct (decide _); [lia|]. fold (next_offset (committed_by h) r). lia. }
  assert (Heid : forall id, id ∈ epoch_ids e <-> exists r o k, cons !! r = Some o /\
     next_offset (committed_by h) r <= k <= o /\ id = RangeKey.slot_id r k).
  { intros id. rewrite elem_of_epoch_ids. by apply increments_spec_ids. }
  split; [|split].
  - intros r o. rewrite committed_snoc, (commit_increments cons) by done.
    destruct (cons !! r) as [o'|] eqn:E; [|by apply Hcm].
    destruct (decide _); [intros [= <-]; by apply Hok|by apply Hcm].
  - rewrite log_snoc. apply NoDup_app. split; [done|]. split; [|by apply (epoch_ids_nodup cons (committed_by h))].
    intros id (r & k & Hk & ->)%Hlog (r' & o & k' & Hr & Hk' & Heq)%Heid.
    pose proof (next_offset_nonneg (committed_by h) r' Hcm). pose proof (Hok _ _ Hr).
    assert (Hkb : k < RangeKey.SINGLE_BLOB_SIZE).
    { unfold next_offset in Hk. destruct (committed_by h !! r) as [c|] eqn:E; [apply Hcm in E; RangeKey.blob_lia|lia]. }
    apply RangeKey.slot_id_inj in Heq as [-> ->]; [|lia|RangeKey.blob_lia]. lia.
  - intros id. rewrite log_snoc, elem_of_app, Hlog, Heid. split.
    + intros [(r & k & Hk & ->)|(r & o & k & Hr & Hk & ->)]; exists r, k; (split; [|done]); rewrite Hnext.
      * destruct (cons !! r); lia.
      * rewrite Hr. pose proof (next_offset_nonneg (committed_by h) r Hcm). lia.
    + intros (r & k & Hk & ->). rewrite Hnext in Hk.
      destruct (decide (k < next_offset (committed_by h) r)); [left; exists r, k; split; [lia|done]|right].
      destruct (cons !! r) as [o|] eqn:E; [|lia]. exists r, o, k. split; [done|]. split; [lia|done].
Qed.

Lemma hist_chained w : world_inv w -> chained (hist w).
Proof. intros Hw k e Hk. destruct (wi_hist _ _ _ Hw k e Hk) as (c & ? & _ & ?). eauto. Qed.

Lemma chained_take h j : chained h -> chained (take j h).
Proof.
  intros Hc k e Hk. apply lookup_take_Some in Hk as [Hk Hj]. destruct (Hc k e Hk) as (c & ? & Hs).
  exists c. split; [done|]. by rewrite take_take, Nat.min_l by lia.
Qed.

(** ** Initial worlds *)
Lemma initial_inv w : initial ps w -> world_inv w.
Proof.
  intros (Hn & Hnet & Hdb).
  assert (Hh : hist w = []) by (rewrite Hdb; unfold history; by rewrite events_empty).
  split.
  - rewrite Hdb. apply db_inv_empty.
  - intros k e. by rewrite Hh.
  - intros p n Hp. apply Hn in Hp as ->. split; cbn; try done; try (by rewrite Hh). by intros id ?%not_elem_of_nil.
  - intros src msg. rewrite Hnet. by intros ?%not_elem_of_nil.
Qed.

(** ** Application steps *)

Lemma holds_self w p n r o :
  node_inv w p n -> w_nodes w !! p = Some n -> self_offsets (n_app n) !! r = Some o -> holds w r p o.
Proof.
  intros Hn Hp Ho. split; [by apply (inv_valid _ (ni_app _ _ _ _ _ Hn))|]. exists n, o. split; [done|]. split; [done|lia].
Qed.

(** Who holds a prefix stores every transaction of it. *)
Lemma holds_stored w q r o k :
  world_inv w -> holds w r q o -> 0 <= k <= o ->
  exists n, w_nodes w !! q = Some n /\ is_Some (transactions (n_app n) !! RangeKey.slot_id r k).
Proof.
  intros Hw [[Hr Ho] (n & o' & Hn & Hso & Hle)] Hk. exists n. split; [done|].
  pose proof (ni_app _ _ _ _ _ (wi_nodes _ _ _ Hw q n Hn)) as Ha.
  pose proof (inv_range _ Ha r Hr) as Hri. unfold range_inv in Hri. rewrite Hso in Hri.
  destruct Hri as (_ & Hall & _). apply Hall. lia.
Qed.

Lemma admissible_ok w p n ev :
  world_inv w -> w_nodes w !! p = Some n -> admissible submitted w p ev -> event_ok p ev.
Proof.
  intros Hw Hn Hadm. destruct Hadm as [| | | | |tx Hl _|src msg inbox Hin Hrel]; try done.
  destruct msg as [st|q ivs|q txs|us]; cbn in Hrel; [| | |done]; destruct Hrel as [Hq ->]; cbn; try done.
  apply Forall_forall. intros tx Htx. by apply (wi_net _ _ _ Hw _ _ Hin tx Htx).
Qed.

(** The world after one node moved. *)
Lemma moved_le w p n n' net db :
  w_nodes w !! p = Some n -> app_extends (n_app n) (n_app n') -> hist w `prefix_of` history db ->
  world_le w (mkWorld (<[p := n']> (w_nodes w)) net db).
Proof.
  intros Hn Hx Hp. split; [| |done]; cbn.
  - intros q m Hq. destruct (decide (q = p)) as [->|].
    + rewrite lookup_insert_eq. exists n'. split; [done|]. congruence.
    + rewrite lookup_insert_ne by done. by exists m.
  - intros q m'. destruct (decide (q = p)) as [->|].
    + rewrite lookup_insert_eq. intros [= <-]. by exists n.
    + rewrite lookup_insert_ne by done. intros Hq. by exists m'.
Qed.

(** The invariant of the moved world, from what changed: the node and the messages. *)
Lemma moved_inv w p n n' net :
  world_inv w -> w_nodes w !! p = Some n -> app_extends (n_app n) (n_app n') ->
  let w' := mkWorld (<[p := n']> (w_nodes w)) (w_net w ++ net) (w_db w) in
  (world_le w w' -> node_inv w' p n') ->
  (world_le w w' -> forall src msg, (src, msg) ∈ net -> message_ok submitted w' src msg) ->
  world_inv w'.
Proof.
  intros Hw Hn Hx w' Hnode Hnet. assert (Hle : world_le w w') by by eapply moved_le.
  split; cbn.
  - apply Hw.
  - intros k e Hk. eapply justified_mono; [exact Hle|]. by apply (wi_hist _ _ _ Hw).
  - intros q m. destruct (decide (q = p)) as [->|].
    + rewrite lookup_insert_eq. intros [= <-]. by apply Hnode.
    + rewrite lookup_insert_ne by done. intros Hq. eapply node_inv_mono; [exact Hle|]. by apply Hw.
  - intros src msg [Hin|Hin]%elem_of_app; [eapply message_mono; [exact Hle|by apply Hw]|by apply Hnet].
Qed.

Lemma consensus_valid w p n : node_inv w p n -> offsets_ok (consensus_offset (n_app n)).
Proof.
  intros Hn r o Hr. destruct (ni_consensus _ _ _ _ _ Hn r o Hr) as (S & HS & Hq).
  assert (Hne : S ≢ ∅) by (intros ->%leibniz_equiv; rewrite size_empty in HS; lia).
  apply set_choose in Hne as [q Hin]. by destruct (Hq q Hin).
Qed.

Lemma delays_valid w p n : node_inv w p n -> peer_offsets_ok (offsets (n_app n)).
Proof. intros Hn r q o Ho. apply (ni_offsets _ _ _ _ _ Hn) in Ho. apply Ho. Qed.

(** What a node proposes continues the part of the history it has seen. *)
Lemma proposed_ok w p n ev a effs req :
  world_inv w -> small w -> w_nodes w !! p = Some n -> app_step (n_app n) ev = Ok (a, effs) ->
  ToCoordinator req ∈ effs -> proposal_ok ps w (EpochRequest_epoch req).
Proof.
  intros Hw Hsm Hn Hrun Hin. pose proof (wi_nodes _ _ _ Hw p n Hn) as Hni.
  destruct (app_step_request _ _ _ _ _ Hrun Hin) as (now & ivs & Hivs & Hnext).
  pose proof (consensus_valid _ _ _ Hni) as Hcv. pose proof (ni_seen _ _ _ _ _ Hni) as Hseen.
  destruct (chained_log (take (n_seen n) (hist w))) as (Hdv & _); [by apply chained_take, hist_chained|].
  rewrite (ni_commited _ _ _ _ _ Hni) in Hivs.
  destruct (calculate_increments_spec _ _ Hcv Hdv) as (ivs' & E & Hs). rewrite E in Hivs. injection Hivs as ->.
  rewrite (ni_epochs _ _ _ _ _ Hni) in Hnext. unfold next in Hnext.
  assert (Hseq : Epoch_sequence_number (EpochRequest_epoch req) = Z.of_nat (n_seen n)
    /\ Epoch_increments (EpochRequest_epoch req) = ivs).
  { rewrite fmap_last in Hnext. destruct (n_seen n) as [|j].
    - cbn in Hnext. by injection Hnext as <-.
    - destruct (lookup_lt_is_Some_2 (hist w) j) as [e He]; [lia|].
      rewrite (take_S_r _ _ e He), last_snoc in Hnext. cbn in Hnext.
      rewrite (inv_sequence _ (wi_db _ _ _ Hw) j e He) in Hnext.
      rewrite u64_add_ok in Hnext by (unfold small in Hsm; unfold u64_ok; lia). cbn in Hnext.
      injection Hnext as <-. cbn. split; [lia|done]. }
  destruct Hseq as [Hseq Hinc]. exists (n_seen n). split; [done|]. split; [done|].
  exists (consensus_offset (n_app n)). split; [done|]. split; [apply Hni|]. by rewrite Hinc.
Qed.

Lemma quorum_from_known w (nodes : gmap PeerId KeyOffset) r o :
  consensus_maximum nodes (consensus_nodes ps) = Ok (Some o) ->
  (forall q o', nodes !! q = Some o' -> holds w r q o') -> 0 <= o -> quorum ps w r o.
Proof.
  intros Hm Hh Ho. destruct (consensus_quorum _ _ _ Hm) as (S & HS & Hq). exists S. split; [done|].
  intros q Hin. destruct (Hq q Hin) as (o' & Ho' & Hle). destruct (Hh q o' Ho') as [Hs (n & o2 & Hn & Hso & ?)].
  split; [RangeKey.blob_lia|]. exists n, o2. split; [done|]. split; [done|lia].
Qed.

Lemma step_app_inv w p n ev a effs :
  world_inv w -> small w -> w_nodes w !! p = Some n -> admissible submitted w p ev ->
  app_step (n_app n) ev = Ok (a, effs) ->
  world_inv (mkWorld (<[p := dispatch n a effs]> (w_nodes w)) (w_net w ++ sent p effs) (w_db w)).
Proof.
  intros Hw Hsm Hn Hadm Hrun. pose proof (wi_nodes _ _ _ Hw p n Hn) as Hni.
  pose proof (admissible_ok _ _ _ _ Hw Hn Hadm) as Hev.
  rewrite <-(ni_id _ _ _ _ _ Hni) in Hev.
  destruct (app_step_inv _ _ _ _ (ni_app _ _ _ _ _ Hni) Hev Hrun) as [Hai Hext].
  assert (Hupd : is_update ev = false) by (by destruct Hadm).
  destruct (app_step_frame _ _ _ _ Hupd Hrun) as [Hf1 Hf2 Hf3 Hf4 Hf5].
  assert (Hid : peer_id a = p) by (rewrite (ext_id _ _ Hext); apply Hni).
  apply (moved_inv w p n); [done|done|done| |].
  - intros Hle. set (w' := mkWorld _ _ _) in *.
    assert (Hself : forall r o, self_offsets a !! r = Some o -> holds w' r p o).
    { intros r o Ho. split; [by apply (inv_valid _ Hai)|]. exists (dispatch n a effs), o. cbn.
      rewrite lookup_insert_eq. split; [done|]. split; [done|lia]. }
    split; cbn [n_app dispatch n_seen n_inputs n_request w_db w'].
    + done.
    + rewrite Hf1. apply Hni.
    + done.
    + intros id tx Htx.
      destruct (app_step_stored _ _ _ _ _ _ (ni_app _ _ _ _ _ Hni) Hev Hrun Htx)
        as [(tx0 & Htx0 & ->)|[->|(txs & -> & Hin)]]; [by apply (ni_content _ _ _ _ _ Hni)| |].
      * destruct (inv_keys _ Hai _ _ Htx) as [_ <-].
        inversion Hadm as [| | | | |tx' Hl Hb|src msg inbox Hin Hrel]; subst; [done|].
        destruct msg; cbn in Hrel; naive_solver.
      * destruct (inv_keys _ Hai _ _ Htx) as [_ <-].
        inversion Hadm as [| | | | | |src msg inbox Hnet Hrel]; subst.
        destruct msg as [| |q txs'|]; cbn in Hrel; try done; destruct Hrel as [? [=]]; subst.
        by apply (wi_net _ _ _ Hw _ _ Hnet tx Hin).
    + apply Hni.
    + rewrite Hf2. apply Hni.
    + rewrite Hf3. apply Hni.
    + rewrite Hf4. apply Hni.
    + rewrite Hf5, app_nil_r. apply Hni.
    + apply (app_step_offsets (holds w') (n_app n) ev a effs); [apply Hni|done|done| | |].
      * intros r q o Ho. eapply holds_mono; [exact Hle|]. by apply (ni_offsets _ _ _ _ _ Hni).
      * intros r o Ho. rewrite (ni_id _ _ _ _ _ Hni). by apply Hself.
      * destruct ev as [| | |[q st| | | |]| |]; try done. intros r o Ho.
        inversion Hadm as [| | | | | |src msg inbox Hnet Hrel]; subst.
        destruct msg as [st'| | |]; cbn in Hrel; try done; destruct Hrel as [? [=]]; subst.
        eapply holds_mono; [exact Hle|]. by apply (wi_net _ _ _ Hw _ _ Hnet).
    + intros r o Ho. eapply quorum_mono; [exact Hle|].
      destruct (app_step_consensus _ _ _ _ _ _ Hrun Ho) as [Hold|(nodes & Hnodes & Hm)];
        [by apply (ni_consensus _ _ _ _ _ Hni)|].
      rewrite (ni_params _ _ _ _ _ Hni) in Hm.
      assert (Hh : forall q o', nodes !! q = Some o' -> holds w r q o').
      { intros q o' Hq. apply (ni_offsets _ _ _ _ _ Hni). unfold peer_offset. by rewrite Hnodes. }
      apply (quorum_from_known w nodes); [done|done|].
      destruct (consensus_maximum_spec nodes (consensus_nodes ps)) as [[E _]|(m & E & _ & _ & q & Hq)]; [congruence|].
      rewrite E in Hm. injection Hm as ->. apply (Hh q o Hq).
    + intros req Hreq. eapply proposal_mono; [exact Hle|]. unfold latest_request in Hreq.
      destruct (last (omap to_coordinator effs)) as [r|] eqn:El; [|by apply (ni_request _ _ _ _ _ Hni)].
      injection Hreq as ->. apply last_Some_elem_of, list_elem_of_omap in El as (eff & Heff & Hr).
      destruct eff; try done. injection Hr as ->. by eapply proposed_ok.
    + intros id. rewrite Hf4. intros Hin. by apply (ext_txs _ _ Hext), (ni_stored _ _ _ _ _ Hni).
    + apply Hni.
  - intros Hle src msg Hin. unfold sent in Hin.
    apply list_elem_of_In, in_map_iff in Hin as (m & [= <- <-] & Hm%list_elem_of_In).
    apply list_elem_of_omap in Hm as (eff & Heff & He). destruct eff; try done. injection He as ->.
    pose proof (app_step_messages _ _ _ _ _ Hrun Heff) as Hmsg. destruct m as [st|q ivs|q txs|us]; cbn; [| | |done].
    + intros r o Hr. rewrite Hmsg in Hr. split; [by apply (inv_valid _ Hai)|]. exists (dispatch n a effs), o. cbn.
      rewrite lookup_insert_eq. split; [done|]. split; [done|lia].
    + destruct Hmsg as (res & Hres & Hq).
      destruct (self_delays_ok (transactions (n_app n)) _ _ (inv_valid _ (ni_app _ _ _ _ _ Hni))
        (delays_valid _ _ _ Hni)) as (res' & E & Hok & _ & Hids). rewrite E in Hres. injection Hres as ->.
      split; [by eapply Hok|]. intros n' id Hn' Hin'.
      destruct (proj1 (Hids q id)) as (r & nodes & Hr & o & k & Hmax & Hk & -> & _).
      { by exists ivs. }
      cbn in Hmax, Hk. pose proof (max_by_key_spec (hash_iter nodes)) as Hmk. rewrite Hmax in Hmk.
      destruct Hmk as [Hin%hash_iter_elem _].
      assert (Hh : holds w r q o).
      { apply (ni_offsets _ _ _ _ _ Hni). unfold peer_offset. by rewrite Hr. }
      pose proof (next_offset_nonneg (self_offsets (n_app n)) r (inv_valid _ (ni_app _ _ _ _ _ Hni))).
      destruct (holds_stored w q r o k Hw Hh) as (n0 & Hn0 & Hst); [lia|].
      destruct (le_back _ _ Hle q n' Hn') as (n1 & Hn1 & Hx). apply (ext_txs _ _ Hx).
      assert (n1 = n0) as -> by congruence. done.
    + intros tx Htx. destruct (Hmsg tx Htx) as [id Hst].
      destruct (inv_keys _ (ni_app _ _ _ _ _ Hni) _ _ Hst) as [Hl Hi]. rewrite Hi. split; [done|].
      by apply (ni_content _ _ _ _ _ Hni).
Qed.

(** ** Commits *)
Lemma request_changed_db c db req net c' db' :
  db_inv db -> request_changed c db (Some req) net = Ok (c', db') ->
  0 <= Epoch_sequence_number (EpochRequest_epoch req) <= Z.of_nat (length (history db)) ->
  db' = db \/
  (Epoch_sequence_number (EpochRequest_epoch req) = Z.of_nat (length (history db)) /\
   history db' = history db ++ [EpochRequest_epoch req] /\ db_inv db').
Proof.
  intros Hdb Hrun [Hs0 Hs]. cbn in Hrun. destruct (decide _) in Hrun; [inv_ok; by left|].
  apply bind_ok in Hrun as ([db1 out] & Hc & Hrun). injection Hrun as _ <-.
  unfold handle_commit_new_epoch in Hc. apply bind_ok in Hc as (cnt & _ & Hc).
  apply bind_ok in Hc as (bytes & Hb%expect_ok & Hc).
  pose proof (commit_txn_spec db (EpochRequest_epoch req) bytes Hdb Hb Hs0 Hs) as Ht. cbn zeta in Ht.
  set (txn := mkTxn _ _) in *.
  assert (Hdb1 : db1 = db \/ db1 = (db_txn txn db).1).
  { destruct net; [destruct (db_txn txn db) as [? ?]|..]; cbn in *; inv_ok; auto. }
  destruct Hdb1 as [-> | ->]; [by left|].
  destruct (decide (_ = _)); [right; by destruct Ht as (_ & ? & ?)|left; by rewrite Ht].
Qed.

(** A number is remembered as committed only when its epoch is in the history. *)
Lemma request_changed_sn c db req net c' db' sn :
  db_inv db -> request_changed c db (Some req) net = Ok (c', db') ->
  0 <= Epoch_sequence_number (EpochRequest_epoch req) <= Z.of_nat (length (history db)) ->
  last_committed_sn c' = Some sn -> last_committed_sn c = Some sn \/ sn < Z.of_nat (length (history db')).
Proof.
  intros Hdb Hrun [Hs0 Hs] Hsn. cbn in Hrun. destruct (decide _) in Hrun; [inv_ok; by left|].
  apply bind_ok in Hrun as ([db1 out] & Hc & Hrun). injection Hrun as <- <-.
  unfold handle_commit_new_epoch in Hc. apply bind_ok in Hc as (cnt & _ & Hc).
  apply bind_ok in Hc as (bytes & Hb%expect_ok & Hc).
  pose proof (commit_txn_spec db (EpochRequest_epoch req) bytes Hdb Hb Hs0 Hs) as Ht. cbn zeta in Ht.
  set (txn := mkTxn _ _) in *. destruct net; [|injection Hc as <- <-; by left..].
  destruct (db_txn txn db) as [db2 ok] eqn:Et. injection Hc as <- <-. cbn [success] in Hsn. destruct ok; [|by left].
  right. cbn in Hsn. injection Hsn as <-. destruct (decide (_ = _)) as [E|]; [|by injection Ht].
  destruct Ht as (_ & Hh & _). cbn [fst] in Hh. rewrite Hh, length_app, E. cbn. lia.
Qed.

Lemma step_commit_inv w p n req net c db :
  world_inv w -> w_nodes w !! p = Some n -> n_request n = Some req ->
  request_changed (n_coordinator n) (w_db w) (Some req) net = Ok (c, db) ->
  world_inv (mkWorld (<[p := mkNode (n_app n) c None (n_seen n) (n_inputs n)]> (w_nodes w)) (w_net w) db).
Proof.
  intros Hw Hn Hreq Hrun. pose proof (wi_nodes _ _ _ Hw p n Hn) as Hni.
  destruct (ni_request _ _ _ _ _ Hni req Hreq) as (j & Hj & Hseq & Hjust).
  assert (Hdb : db_inv db /\ hist w `prefix_of` history db /\
    forall k e, history db !! k = Some e -> justified ps w (take k (history db)) e).
  { destruct (request_changed_db _ _ _ _ _ _ (wi_db _ _ _ Hw) Hrun) as [->|(Hs & Hh & Hinv)]; [lia| |].
    - split; [apply Hw|]. split; [done|apply Hw].
    - split; [done|]. rewrite Hh. split; [by apply prefix_app_r|]. intros k e [Hk|[Hk Hl]]%lookup_app_Some.
      + rewrite take_app_le by (apply lookup_lt_Some in Hk; lia). by apply (wi_hist _ _ _ Hw).
      + apply list_lookup_singleton_Some in Hl as [Hk' <-].
        assert (k = j) as -> by lia. by rewrite take_app_le. }
  destruct Hdb as (Hinv & Hpre & Hjusts). set (n' := mkNode _ _ _ _ _). set (w' := mkWorld _ _ _).
  assert (Hle : world_le w w') by by apply (moved_le w p n n').
  split; cbn.
  - done.
  - intros k e Hk. eapply justified_mono; [exact Hle|]. by apply Hjusts.
  - intros q m. destruct (decide (q = p)) as [->|].
    + rewrite lookup_insert_eq. intros [= <-].
      destruct (node_inv_mono _ _ _ _ _ _ Hle Hni) as [I1 I2 I3 I4 I5 I6 I7 I8 I9 I10 I11 I12 I13 I14]. split; try done.
      intros sn Hsn. by destruct (request_changed_sn _ _ _ _ _ _ sn (wi_db _ _ _ Hw) Hrun) as [?%I14|?]; [lia|done| |].
    + rewrite lookup_insert_ne by done. intros Hq. eapply node_inv_mono; [exact Hle|]. by apply Hw.
  - intros src msg Hin. eapply message_mono; [exact Hle|by apply Hw].
Qed.

(** ** Watch deliveries *)
Lemma hist_lookup w k bytes :
  db_inv (w_db w) -> db_events (w_db w) MAROON_LATEST !! k = Some bytes ->
  exists e, hist w !! k = Some e /\ from_slice bytes = Some e.
Proof.
  intros Hdb Hk. pose proof (omap_total_lookup from_slice _ k (inv_decodes _ Hdb)) as Hl.
  fold (history (w_db w)) in Hl. rewrite Hk in Hl. cbn in Hl.
  destruct (lookup_lt_is_Some_2 (hist w) k) as [e He].
  { rewrite (inv_decodes _ Hdb). by eapply lookup_lt_Some. }
  exists e. split; [done|]. congruence.
Qed.

Lemma blueprints_submitted w p n ids :
  node_inv w p n -> (forall id, id ∈ ids -> is_Some (transactions (n_app n) !! id)) ->
  blueprints_of (transactions (n_app n)) ids = map (submitted_task submitted) ids.
Proof.
  intros Hni. unfold blueprints_of. induction ids as [|id l IH]; intros Hall; [done|].
  destruct (Hall id) as [tx Htx]; [left|]. cbn. rewrite Htx. cbn. f_equal; [|apply IH; intros; apply Hall; by right].
  unfold blueprint_of, submitted_task. destruct (inv_keys _ (ni_app _ _ _ _ _ Hni) _ _ Htx) as [_ ->].
  by rewrite (ni_content _ _ _ _ _ Hni _ _ Htx).
Qed.

Lemma step_watch_inv w p n bytes rev c upds a effs :
  world_inv w -> w_nodes w !! p = Some n -> db_events (w_db w) MAROON_LATEST !! n_seen n = Some bytes ->
  watch_received (n_coordinator n) (mkWatchMessage rev [Some bytes]) = (c, upds) ->
  loop_until_shutdown (n_app n) (map CoordinatorUpdate upds) = Ok (a, effs) ->
  world_inv (mkWorld (<[p := dispatch (mkNode (n_app n) c (n_request n) (S (n_seen n)) (n_inputs n)) a effs]>
                        (w_nodes w)) (w_net w ++ sent p effs) (w_db w)).
Proof.
  intros Hw Hn Hbytes Hwatch Hrun. pose proof (wi_nodes _ _ _ Hw p n Hn) as Hni.
  destruct (hist_lookup w _ _ (wi_db _ _ _ Hw) Hbytes) as (e & He & Hdec).
  unfold watch_received, handle_watch_message in Hwatch. cbn in Hwatch. rewrite Hdec in Hwatch.
  injection Hwatch as <- <-. cbn [map fmap option_fmap option_map] in Hrun. unfold loop_until_shutdown in Hrun.
  cbn -[app_step] in Hrun. apply bind_ok in Hrun as (st & Hrun & Hst). injection Hst as ->.
  apply bind_ok in Hrun as ([a0 effs0] & Hrun & Heq). injection Heq as -> <-.
  destruct (wi_hist _ _ _ Hw _ e He) as (cons & Hcons & _ & Hspec).
  destruct (chained_log (take (n_seen n) (hist w))) as (Hdv & _); [by apply chained_take, hist_chained|].
  destruct (increments_spec_ok _ _ _ Hcons Hdv Hspec) as [Hf Haddr].
  assert (Hev : event_ok (peer_id (n_app n)) (CoordinatorUpdate (EpochUpdates_New e))) by done.
  destruct (app_step_inv _ _ _ _ (ni_app _ _ _ _ _ Hni) Hev Hrun) as [Hai Hext].
  destruct (app_step_update _ _ _ _ Hf Haddr Hrun) as (U1 & U2 & U3 & U4 & U5 & U6 & Hall & Heffs).
  rewrite (blueprints_submitted w p n _ Hni Hall) in Heffs.
  assert (Htake : take (S (n_seen n)) (hist w) = take (n_seen n) (hist w) ++ [e]) by by apply take_S_r.
  assert (Hcons' : consensus_offset a = consensus_offset (n_app n)).
  { clear -Hrun. cbn [app_step] in Hrun. unfold handle_epoch_coordinator_updates in Hrun. inv_ok.
    match goal with Hc : collect_blueprints _ _ = Ok ?x |- _ => destruct x end. by inv_ok. }
  apply (moved_inv w p n); [done|done|done| |].
  - intros Hle. set (w' := mkWorld _ _ _) in *.
    pose proof (node_inv_mono _ _ _ _ _ _ Hle Hni) as [_ _ _ _ _ _ _ _ _ Hoff Hco Hrq _ Hcn].
    split; cbn [n_app dispatch n_seen n_inputs n_request w_db w']; try rewrite Htake.
    + rewrite (ext_id _ _ Hext). apply Hni.
    + rewrite U1. apply Hni.
    + done.
    + intros id tx Htx. destruct (app_step_stored _ _ _ _ _ _ (ni_app _ _ _ _ _ Hni) Hev Hrun Htx)
        as [(tx0 & Htx0 & ->)|[?|(? & ? & _)]]; [by apply (ni_content _ _ _ _ _ Hni)|done|done].
    + by eapply lookup_lt_Some.
    + by rewrite U5, (ni_epochs _ _ _ _ _ Hni), map_app.
    + by rewrite U4, (ni_commited _ _ _ _ _ Hni), committed_snoc.
    + by rewrite U6, (ni_log _ _ _ _ _ Hni), log_snoc.
    + rewrite (ni_inputs _ _ _ _ _ Hni), Heffs. unfold inputs_of. rewrite map_app, concat_app. f_equal.
      cbn. rewrite app_nil_r. unfold epoch_inputs. by destruct (decide _).
    + by rewrite U2.
    + by rewrite Hcons'.
    + rewrite Heffs. unfold latest_request. destruct (decide _); exact Hrq.
    + intros id. rewrite U6. intros [Hid|Hid]%elem_of_app; apply (ext_txs _ _ Hext); [by apply (ni_stored _ _ _ _ _ Hni)|by apply Hall].
    + exact Hcn.
  - intros Hle src msg Hin. exfalso. revert Hin. rewrite Heffs. unfold sent.
    destruct (decide _); apply not_elem_of_nil.
Qed.

Lemma step_inv w w' : world_inv w -> small w -> step w w' -> world_inv w'.
Proof.
  intros Hw Hsm [p n ev a effs|p n req net c db|p n bytes rev c upds a effs].
  - by eapply step_app_inv.
  - by eapply step_commit_inv.
  - by eapply step_watch_inv.
Qed.

(** The history only grows, whatever the database holds. *)
Lemma txn_history_length txn db : (length (history db) <= length (history (db_txn txn db).1))%nat.
Proof.
  destruct (db_txn txn db).2 eqn:E; [|by rewrite txn_failed].
  unfold history. rewrite txn_events, omap_app, length_app by done. lia.
Qed.

Lemma step_small w w' : step w w' -> small w' -> small w.
Proof.
  unfold small. intros Hstep. destruct Hstep as [|p n req net c db Hn Hreq Hrun|]; cbn [w_db]; try done.
  enough (length (hist w) <= length (history db))%nat by lia.
  cbn in Hrun. destruct (decide _) in Hrun; [inv_ok; done|].
  apply bind_ok in Hrun as ([db1 out] & Hc & Hrun). injection Hrun as _ <-.
  unfold handle_commit_new_epoch in Hc. apply bind_ok in Hc as (cnt & _ & Hc).
  apply bind_ok in Hc as (bytes & _ & Hc). set (txn := mkTxn _ _) in *.
  pose proof (txn_history_length txn (w_db w)) as Hlen.
  destruct net; [destruct (db_txn txn (w_db w)) as [? ?]|..]; cbn in *; inv_ok; lia || done.
Qed.

Lemma reachable_inv w : reachable ps submitted w -> small w -> world_inv w.
Proof.
  induction 1 as [w Hi|w w' _ IH Hstep]; intros Hsm; [by apply initial_inv|].
  pose proof (step_small _ _ Hstep Hsm). by eapply step_inv; eauto.
Qed.
End inv.

(** ** Consequences of the invariant *)
Section consequences.
Context `{Profile} `{PeerIds} `{HashOrder} `{Sha256}.
Context `{!Json (@Epoch _)} `{!Etcd (json_bytes (A := @Epoch _))}.
Context (ps : Params) (submitted : UniqueU64BlobId -> TxBlueprint).

Lemma concat_map_take_prefix {A B} (f : A -> list B) (h : list A) i j :
  (i <= j)%nat -> concat (map f (take i h)) `prefix_of` concat (map f (take j h)).
Proof.
  intros Hij. rewrite <-(take_drop i (take j h)) at 1. rewrite take_take, Nat.min_l by lia.
  replace (take j h) with (take i h ++ drop i (take j h)).
  - rewrite map_app, concat_app. by apply prefix_app_r.
  - rewrite <-(take_drop i (take j h)) at 2. by rewrite take_take, Nat.min_l by lia.
Qed.

(** Every committed transaction is stored by a quorum of nodes. *)
Lemma log_stored w k id :
  world_inv ps submitted w -> id ∈ log_of (take k (history (w_db w))) ->
  exists S : gset PeerId, (Pos.to_nat (consensus_nodes ps) <= size S)%nat /\
    forall q, q ∈ S -> exists m, w_nodes w !! q = Some m /\ is_Some (transactions (n_app m) !! id).
Proof.
  intros Hw (e & He & Hid)%elem_of_concat_map. apply list_elem_of_lookup in He as [i He].
  apply lookup_take_Some in He as [He _].
  destruct (wi_hist _ _ _ Hw i e He) as (cons & Hc & Hq & Hs).
  destruct (chained_log (take i (history (w_db w)))) as (Hdv & _).
  { by eapply chained_take, hist_chained. }
  apply elem_of_epoch_ids in Hid.
  destruct (proj1 (increments_spec_ids _ _ _ id Hs) Hid) as (r & o & j & Hr & Hj & Heq).
  pose proof (next_offset_nonneg _ r Hdv).
  destruct (Hq r o Hr) as (S & HS & Hh). exists S. split; [done|]. intros q Hin.
  rewrite Heq. apply (holds_stored ps submitted w q r o); [done|by apply Hh|lia].
Qed.
End consequences.

(** ** A run of two nodes, to evaluate the theorems on *)
Section act.
Context `{Profile} `{PeerIds} `{HashOrder} `{Sha256}.
Context `{!Json (@Epoch _)} `{!Etcd (json_bytes (A := @Epoch _))}.
Context (ps : Params) (submitted : UniqueU64BlobId -> TxBlueprint).

Definition act_app (w : World) (p : PeerId) (ev : Event) : option World :=
  n ← w_nodes w !! p;
  match app_step (n_app n) ev with
  | Ok (a, effs) =>
      Some (mkWorld (<[p := dispatch n a effs]> (w_nodes w)) (w_net w ++ sent p effs) (w_db w))
  | _ => None
  end.

Definition act_commit (w : World) (p : PeerId) (net : Delivery) : option World :=
  n ← w_nodes w !! p;
  match n_request n with
  | Some req =>
      match request_changed (n_coordinator n) (w_db w) (Some req) net with
      | Ok (c, db) =>
          Some (mkWorld (<[p := mkNode (n_app n) c None (n_seen n) (n_inputs n)]> (w_nodes w)) (w_net w) db)
      | _ => None
      end
  | None => None
  end.

Definition act_watch (w : World) (p : PeerId) (rev : option Z) : option World :=
  n ← w_nodes w !! p;
  bytes ← db_events (w_db w) MAROON_LATEST !! n_seen n;
  let '(c, upds) := watch_received (n_coordinator n) (mkWatchMessage rev [Some bytes]) in
  match loop_until_shutdown (n_app n) (map CoordinatorUpdate upds) with
  | Ok (a, effs) =>
      Some (mkWorld (<[p := dispatch (mkNode (n_app n) c (n_request n) (S (n_seen n)) (n_inputs n)) a effs]>
                       (w_nodes w)) (w_net w ++ sent p effs) (w_db w))
  | _ => None
  end.

Lemma act_app_reachable w p ev w' :
  reachable ps submitted w -> admissible submitted w p ev -> act_app w p ev = Some w' -> reachable ps submitted w'.
Proof.
  intros Hr Hadm Ha. unfold act_app in Ha. apply bind_Some in Ha as (n & Hn & Ha).
  destruct (app_step (n_app n) ev) as [[a effs]| |] eqn:E; try done. injection Ha as <-.
  eapply reachable_step; [exact Hr|]. by eapply step_app.
Qed.

Lemma act_commit_reachable w p net w' :
  reachable ps submitted w -> act_commit w p net = Some w' -> reachable ps submitted w'.
Proof.
  intros Hr Ha. unfold act_commit in Ha. apply bind_Some in Ha as (n & Hn & Ha).
  destruct (n_request n) as [req|] eqn:E; [|done].
  destruct (request_changed _ _ _ _) as [[c db]| |] eqn:E2; try done. injection Ha as <-.
  eapply reachable_step; [exact Hr|]. by eapply step_commit.
Qed.

Lemma act_watch_reachable w p rev w' :
  reachable ps submitted w -> act_watch w p rev = Some w' -> reachable ps submitted w'.
Proof.
  intros Hr Ha. unfold act_watch in Ha. apply bind_Some in Ha as (n & Hn & Ha).
  apply bind_Some in Ha as (bytes & Hb & Ha).
  destruct (watch_received _ _) as [c upds] eqn:E.
  destruct (loop_until_shutdown _ _) as [[a effs]| |] eqn:E2; try done. injection Ha as <-.
  eapply reachable_step; [exact Hr|]. by eapply step_watch.
Qed.
End act.

Module Demo.
#[local] Existing Instance dev_profile.
#[local] Existing Instance nat_peers.
#[local] Existing Instance list_order.
#[local] Existing Instance test_hash.
#[local] Existing Instance Coordinator.test_epoch_json.
#[local] Instance etcd : Etcd (json_bytes (A := Epoch)) := log_etcd _.

Definition submitted (id : UniqueU64BlobId) : TxBlueprint := mkTxBlueprint "" (Value_U64 0).

Definition start : World :=
  mkWorld {[0%nat := fresh_node params_default 0%nat; 1%nat := fresh_node params_default 1%nat]} [] [].

(** Both nodes get transaction 0 and advertise it; node 0 learns the offset of node 1,
    finds the quorum, proposes an epoch and commits it; both watches deliver it. *)
Definition prepare : option World :=
  w ← act_app start 0%nat (InboxMessage (Inbox_NewTransaction (tx_with_id 0)));
  w ← act_app w 1%nat (InboxMessage (Inbox_NewTransaction (tx_with_id 0)));
  act_app w 1%nat AdvertiseTick.

Definition run : option World :=
  w ← prepare;
  w ← act_app w 0%nat (InboxMessage (Inbox_State 1%nat (mkNodeState {[0 := 0]})));
  w ← act_app w 0%nat AdvertiseTick;
  w ← act_app w 0%nat (CommitTick 61 61);
  w ← act_commit w 0%nat LostResponse;
  w ← act_watch w 0%nat (Some 1);
  act_watch w 1%nat (Some 1).

Lemma start_initial : initial params_default start.
Proof.
  split; [|done]. intros p n Hp. unfold start in Hp. cbn [w_nodes] in Hp. apply lookup_insert_Some in Hp as [[<- <-]|[_ Hp]]; [done|].
  by apply lookup_singleton_Some in Hp as [<- <-].
Qed.

Lemma tx0_legal : legal_id (tx_id (tx_with_id 0)).
Proof. vm_compute. repeat split; discriminate || (intros; discriminate). Qed.

Lemma run_reachable w : run = Some w -> reachable params_default submitted w.
Proof.
  intros Hrun. unfold run in Hrun.
  apply bind_Some in Hrun as (w3 & Hprep & Hrun). apply bind_Some in Hrun as (w4 & E4 & Hrun).
  apply bind_Some in Hrun as (w5 & E5 & Hrun). apply bind_Some in Hrun as (w6 & E6 & Hrun).
  apply bind_Some in Hrun as (w7 & E7 & Hrun). apply bind_Some in Hrun as (w8 & E8 & Hrun).
  assert (Hnet : (1%nat, Outbox_State (mkNodeState {[0 := 0]})) ∈ w_net w3).
  { assert (Hn : w_net <$> prepare = Some [(1%nat, Outbox_State (mkNodeState {[0 := 0]}))])
      by (vm_compute; reflexivity).
    rewrite Hprep in Hn. injection Hn as ->. left. }
  unfold prepare in Hprep. apply bind_Some in Hprep as (w1 & E1 & Hprep).
  apply bind_Some in Hprep as (w2 & E2 & E3).
  eapply act_watch_reachable; [|exact Hrun]. eapply act_watch_reachable; [|exact E8].
  eapply act_commit_reachable; [|exact E7]. eapply act_app_reachable; [|constructor|exact E6].
  eapply act_app_reachable; [|constructor|exact E5].
  eapply act_app_reachable; [|by eapply adm_relay; [exact Hnet|]|exact E4].
  eapply act_app_reachable; [|constructor|exact E3].
  eapply act_app_reachable; [|by apply adm_gateway; [apply tx0_legal|]|exact E2].
  eapply act_app_reachable; [|by apply adm_gateway; [apply tx0_legal|]|exact E1].
  apply reachable_initial, start_initial.
Qed.

(** What the run ends with: one committed epoch, and id 0 in the log of both nodes. *)
Definition summary (w : World) : nat * list (option (list UniqueU64BlobId)) :=
  (length (history (w_db w)),
   map (fun p => (fun n => sequence (linearizer (n_app n))) <$> w_nodes w !! p) [0%nat; 1%nat]).

Lemma run_summary : summary <$> run = Some (1%nat, [Some [0]; Some [0]]).
Proof. vm_compute. reflexivity. Qed.

Lemma run_facts : exists w n m, run = Some w /\ small w /\
  w_nodes w !! 0%nat = Some n /\ w_nodes w !! 1%nat = Some m /\
  sequence (linearizer (n_app n)) = [0] /\ sequence (linearizer (n_app m)) = [0].
Proof.
  pose proof run_summary as Hs. destruct run as [w|]; [|discriminate Hs].
  injection Hs as Hlen Hn Hm. apply fmap_Some in Hn as (n & Hn & Hsn), Hm as (m & Hm & Hsm).
  exists w, n, m. split_and!; try done. unfold small. by rewrite Hlen.
Qed.

(** Node 1 learns that node 0 has transaction 0 and asks for it. *)
Definition request_run : option World :=
  w ← act_app start 0%nat (InboxMessage (Inbox_NewTransaction (tx_with_id 0)));
  w ← act_app w 0%nat AdvertiseTick;
  w ← act_app w 1%nat (InboxMessage (Inbox_State 0%nat (mkNodeState {[0 := 0]})));
  act_app w 1%nat AdvertiseTick.

Definition advertised : option World :=
  w ← act_app start 0%nat (InboxMessage (Inbox_NewTransaction (tx_with_id 0)));
  act_app w 0%nat AdvertiseTick.

Lemma advertised_net : w_net <$> advertised = Some [(0%nat, Outbox_State (mkNodeState {[0 := 0]}))].
Proof. vm_compute. reflexivity. Qed.

Lemma request_reachable w : request_run = Some w -> reachable params_default submitted w.
Proof.
  intros Hrun. unfold request_run in Hrun.
  apply bind_Some in Hrun as (w1 & E1 & Hrun). apply bind_Some in Hrun as (w2 & E2 & Hrun).
  apply bind_Some in Hrun as (w3 & E3 & Hrun).
  assert (Hnet : (0%nat, Outbox_State (mkNodeState {[0 := 0]})) ∈ w_net w2).
  { assert (Ha : advertised = Some w2) by (unfold advertised; rewrite E1; exact E2).
    pose proof advertised_net as Hn. rewrite Ha in Hn. injection Hn as ->. left. }
  eapply act_app_reachable; [|constructor|exact Hrun].
  eapply act_app_reachable; [|by eapply adm_relay; [exact Hnet|]|exact E3].
  eapply act_app_reachable; [|constructor|exact E2].
  eapply act_app_reachable; [|by apply adm_gateway; [apply tx0_legal|]|exact E1].
  apply reachable_initial, start_initial.
Qed.

Lemma request_summary :
  (fun w => (last (w_net w), length (history (w_db w)), bool_decide (is_Some (w_nodes w !! 0%nat))))
    <$> request_run
  = Some (Some (1%nat, Outbox_RequestMissingTxs 0%nat [RangeKey.MkInterval 0 0]), 0%nat, true).
Proof. vm_compute. reflexivity. Qed.
End Demo.

(** ** Properties *)

(** C1: agreement. In every reachable world of a cluster whose nodes start with it and whose
    watches do not break, as in [Cluster], and with fewer than 2^64 epochs ([small]),
    whatever was lost, repeated or reordered between the nodes, the log of every node and
    the batches its runtime received are those of the epochs it has seen, in the order etcd
    committed them; so of any two nodes one log is a prefix of the other, and so are the
    runtime inputs. *)
Theorem nodes_agree `{Profile} `{PeerIds} `{HashOrder} `{Sha256} `{!Json (@Epoch _)}
  `{!Etcd (json_bytes (A := @Epoch _))} ps submitted w p q n m :
  reachable ps submitted w -> small w -> w_nodes w !! p = Some n -> w_nodes w !! q = Some m ->
  (sequence (linearizer (n_app n)) `prefix_of` sequence (linearizer (n_app m)) \/
   sequence (linearizer (n_app m)) `prefix_of` sequence (linearizer (n_app n))) /\
  (n_inputs n `prefix_of` n_inputs m \/ n_inputs m `prefix_of` n_inputs n) /\
  sequence (linearizer (n_app n)) = log_of (take (n_seen n) (history (w_db w))) /\
  n_inputs n = inputs_of submitted (take (n_seen n) (history (w_db w))).
Proof.
  intros Hr Hsm Hn Hm. pose proof (reachable_inv ps submitted w Hr Hsm) as Hw.
  pose proof (wi_nodes _ _ _ Hw p n Hn) as Hin. pose proof (wi_nodes _ _ _ Hw q m Hm) as Him.
  rewrite (ni_log _ _ _ _ _ Hin), (ni_log _ _ _ _ _ Him), (ni_inputs _ _ _ _ _ Hin), (ni_inputs _ _ _ _ _ Him).
  unfold log_of, inputs_of. split; [|split; [|done]];
    (destruct (decide (n_seen n <= n_seen m)%nat); [left|right]; apply concat_map_take_prefix; lia).
Qed.

Lemma nodes_agree_witness :
  exists w n m, Demo.run = Some w /\ w_nodes w !! 0%nat = Some n /\ w_nodes w !! 1%nat = Some m /\
    (sequence (linearizer (n_app n)) `prefix_of` sequence (linearizer (n_app m)) \/
     sequence (linearizer (n_app m)) `prefix_of` sequence (linearizer (n_app n))) /\
    sequence (linearizer (n_app m)) = [0].
Proof.
  destruct Demo.run_facts as (w & n & m & E & Hsm & Hn & Hm & _ & Hlog). exists w, n, m.
  split; [exact E|]. split; [exact Hn|]. split; [exact Hm|]. split; [|exact Hlog].
  exact (proj1 (nodes_agree params_default Demo.submitted w 0%nat 1%nat n m (Demo.run_reachable w E) Hsm Hn Hm)).
Defined.

(** C8: the log is gap-free and duplicate-free, and epochs are numbered by their place:
    in every reachable world (of [Cluster], and [small]) a node's log contains no id
    twice, an id only together with all earlier ids of its range, and the k-th committed
    epoch has number k. *)
Theorem log_gap_free `{Profile} `{PeerIds} `{HashOrder} `{Sha256} `{!Json (@Epoch _)}
  `{!Etcd (json_bytes (A := @Epoch _))} ps submitted w p n :
  reachable ps submitted w -> small w -> w_nodes w !! p = Some n ->
  NoDup (sequence (linearizer (n_app n))) /\
  (forall r k j, RangeKey.slot_ok r k -> RangeKey.slot_id r k ∈ sequence (linearizer (n_app n)) ->
     0 <= j <= k -> RangeKey.slot_id r j ∈ sequence (linearizer (n_app n))) /\
  (forall k e, history (w_db w) !! k = Some e -> Epoch_sequence_number e = Z.of_nat k).
Proof.
  intros Hr Hsm Hn. pose proof (reachable_inv ps submitted w Hr Hsm) as Hw.
  pose proof (wi_nodes _ _ _ Hw p n Hn) as Hin. rewrite (ni_log _ _ _ _ _ Hin).
  destruct (chained_log (take (n_seen n) (history (w_db w)))) as (Hcm & Hnd & Hlog).
  { by eapply chained_take, hist_chained. }
  split; [done|]. split; [|apply Hw].
  intros r k j Hs (r' & k' & Hk & Heq)%Hlog Hj.
  assert (Hkb : k' < RangeKey.SINGLE_BLOB_SIZE).
  { unfold next_offset in Hk. destruct (committed_by _ !! r') as [c|] eqn:E; [apply Hcm in E; RangeKey.blob_lia|lia]. }
  apply RangeKey.slot_id_inj in Heq as [<- <-]; [|RangeKey.blob_lia|lia].
  apply Hlog. exists r, j. split; [lia|done].
Qed.

Lemma log_gap_free_witness :
  exists w n, Demo.run = Some w /\ w_nodes w !! 1%nat = Some n /\
    sequence (linearizer (n_app n)) = [0] /\ NoDup (sequence (linearizer (n_app n))).
Proof.
  destruct Demo.run_facts as (w & _ & n & E & Hsm & _ & Hn & _ & Hlog). exists w, n.
  split; [exact E|]. split; [exact Hn|]. split; [exact Hlog|].
  exact (proj1 (log_gap_free params_default Demo.submitted w 1%nat n (Demo.run_reachable w E) Hsm Hn)).
Defined.

(** C9: durability. Everything in the log of any node of a reachable world (of [Cluster],
    and [small]) is stored by at least [consensus_nodes] nodes: an epoch never contains a
    transaction that only a minority could provide. *)
Theorem committed_is_replicated `{Profile} `{PeerIds} `{HashOrder} `{Sha256} `{!Json (@Epoch _)}
  `{!Etcd (json_bytes (A := @Epoch _))} ps submitted w p n id :
  reachable ps submitted w -> small w -> w_nodes w !! p = Some n ->
  id ∈ sequence (linearizer (n_app n)) ->
  exists S : gset PeerId, (Pos.to_nat (consensus_nodes ps) <= size S)%nat /\
    forall q, q ∈ S -> exists m, w_nodes w !! q = Some m /\ is_Some (transactions (n_app m) !! id).
Proof.
  intros Hr Hsm Hn Hid. pose proof (reachable_inv ps submitted w Hr Hsm) as Hw.
  rewrite (ni_log _ _ _ _ _ (wi_nodes _ _ _ Hw p n Hn)) in Hid. by eapply log_stored.
Qed.

Lemma committed_is_replicated_witness :
  exists w (S : gset nat), Demo.run = Some w /\ (2 <= size S)%nat /\
    forall q, q ∈ S -> exists m, w_nodes w !! q = Some m /\ is_Some (transactions (n_app m) !! 0).
Proof.
  destruct Demo.run_facts as (w & _ & n & E & Hsm & _ & Hn & _ & Hlog).
  destruct (committed_is_replicated params_default Demo.submitted w 1%nat n 0 (Demo.run_reachable w E) Hsm Hn)
    as (S & HS & Hq); [rewrite Hlog; left|].
  exists w, S. split; [exact E|]. split; [exact HS|exact Hq].
Defined.

(** C23: nodes never hang on each other: although a request for a transaction one does
    not have is never answered, every request for missing transactions that a node sends
    in a reachable world (of [Cluster], and [small]), for fewer than 2^64 of them, can be
    answered by its addressee, at once and with exactly the requested transactions, however
    late it arrives. *)
Theorem cluster_requests_served `{Profile} `{PeerIds} `{HashOrder} `{Sha256} `{!Json (@Epoch _)}
  `{!Etcd (json_bytes (A := @Epoch _))} ps submitted w src p ivs n :
  reachable ps submitted w -> small w -> (src, Outbox_RequestMissingTxs p ivs) ∈ w_net w ->
  w_nodes w !! p = Some n -> Z.of_nat (length (concat (map RangeKey.ids ivs))) < u64_modulus ->
  exists resp, serve_missing (transactions (n_app n)) ivs = Ok resp /\
    handle_inbox_message (n_app n) (Inbox_RequestMissingTxs src ivs)
      = Ok (n_app n, [ToP2p (Outbox_RequestedTxsForPeer src resp)]) /\
    map tx_id resp = concat (map RangeKey.ids ivs).
Proof.
  intros Hr Hsm Hin Hn Hlen. pose proof (reachable_inv ps submitted w Hr Hsm) as Hw.
  destruct (wi_net _ _ _ Hw _ _ Hin) as [Hf Hids].
  assert (Hk : keys_ok (transactions (n_app n))) by apply (ni_app _ _ _ _ _ (wi_nodes _ _ _ Hw p n Hn)).
  destruct (serve_missing_ok _ ivs Hk Hf Hlen (fun id => Hids n id Hn)) as (resp & E & Hm).
  exists resp. split; [done|]. cbn. by rewrite E.
Qed.

Lemma cluster_requests_served_witness :
  exists w n resp, Demo.request_run = Some w /\ w_nodes w !! 0%nat = Some n /\
    serve_missing (H := dev_profile) (transactions (n_app n)) [RangeKey.MkInterval 0 0] = Ok resp /\
    map tx_id resp = [0].
Proof.
  pose proof Demo.request_summary as Hs. destruct Demo.request_run as [w|] eqn:E; [|discriminate Hs].
  injection Hs as Hnet Hlen Hp. apply bool_decide_eq_true in Hp as [n Hn].
  destruct (cluster_requests_served params_default Demo.submitted w 1%nat 0%nat [RangeKey.MkInterval 0 0] n
    (Demo.request_reachable w E)) as (resp & Hr & _ & Hm).
  - unfold small. rewrite Hlen. reflexivity.
  - by apply last_Some_elem_of.
  - exact Hn.
  - reflexivity.
  - exists w, n, resp. split; [done|]. split; [exact Hn|]. split; [exact Hr|exact Hm].
Defined.
