(* ===== verification/Restart.v ===== *)
(** * A node that starts late

    A node that starts (again) when epochs are already committed: its memory is empty, and
    its watch has no start revision, so etcd delivers only what is put afterwards. Such a
    node cannot commit anything before the next epoch of another node, and its log is the
    log of another machine from then on: interface.rs leaves open from where the earlier
    epochs are to be had. *)
From S2P Require Import Prelude Types Values Protocol Epoch Decision App AppOffsets AppEpochs AppSteps.
From S2P Require Import Network Coordinator Cluster ClusterInv.
Local Open Scope Z_scope.

Section late.
Context `{Profile} `{PeerIds} `{HashOrder} `{Sha256} `{!Json (@Epoch _)} `{!Etcd (json_bytes (A := @Epoch _))}.
Context (ps : Params).

(** The application after some time without an update of the coordinator. *)
Record has_no_epoch (a : App) : Prop := { hn_epochs : epochs a = []; hn_log : sequence (linearizer a) = [] }.

Lemma late_start p evs a effs : Forall (fun ev => is_update ev = false) evs ->
  loop_until_shutdown (app_new p ps) evs = Ok (a, effs) -> has_no_epoch a.
Proof.
  intros Hev Hrun. apply (for_each_inv_ok (fun _ st => has_no_epoch (fst st)) _ _ _ _ Hrun); [by split|].
  intros _ ev [a1 e1] [a2 e2] Hin Hone [He Hl]. rewrite Forall_forall in Hev. specialize (Hev ev Hin).
  apply bind_ok in Hone as ([a3 new] & Hstep & Hone). injection Hone as <- <-. cbn [fst] in *.
  destruct (app_step_frame _ _ _ _ Hev Hstep). split; congruence.
Qed.

(** It proposes the epoch of number 0, which etcd refuses: nothing changes. *)
Lemma late_node_cannot_commit a ev a' effs req c db net c' db' : has_no_epoch a -> app_step a ev = Ok (a', effs) ->
  ToCoordinator req ∈ effs -> db_inv db -> history db <> [] -> request_changed c db (Some req) net = Ok (c', db') -> db' = db.
Proof.
  intros [He _] Hstep Hin Hdb Hne Hrun. destruct (app_step_request _ _ _ _ _ Hstep Hin) as (now & ivs & _ & Hnext).
  rewrite He in Hnext. injection Hnext as Hnext.
  assert (Hs : Epoch_sequence_number (EpochRequest_epoch req) = 0) by by rewrite <-Hnext.
  destruct (request_changed_db _ _ _ _ _ _ Hdb Hrun) as [->|(Hlen & _)]; [rewrite Hs; lia|done|].
  destruct (history db); [done|cbn in Hlen; lia].
Qed.

(** Its log begins with the first epoch it sees, so it is not that of the others. *)
Lemma late_node_disagrees h e a a' effs : chained (h ++ [e]) -> has_no_epoch a ->
  app_step a (CoordinatorUpdate (EpochUpdates_New e)) = Ok (a', effs) -> log_of h <> [] -> epoch_ids e <> [] ->
  sequence (linearizer a') = epoch_ids e /\ ~ sequence (linearizer a') `prefix_of` log_of (h ++ [e]).
Proof.
  intros Hc [_ Hl] Hstep Hh He. destruct (chained_app _ _ Hc) as [Hch (cons & Hok & Hspec)].
  destruct (chained_log _ Hch) as (Hd & _). destruct (increments_spec_ok _ _ _ Hok Hd Hspec) as [Hiv Haddr].
  destruct (app_step_update _ _ _ _ Hiv Haddr Hstep) as (_ & _ & _ & _ & _ & Hseq & _). rewrite Hl in Hseq. cbn in Hseq.
  split; [done|]. rewrite Hseq. intros [rest E]. destruct (chained_log _ Hc) as (_ & Hnd & _). rewrite log_snoc in *.
  destruct (log_of h) as [|id l]; [done|]. destruct (epoch_ids e) as [|id' l']; [done|]. cbn in E. injection E as <- _.
  cbn in Hnd. apply NoDup_cons in Hnd as [Hnot _]. apply Hnot, elem_of_app. right. by left.
Qed.
End late.
