(* ===== verification/Gateway.v ===== *)
(** * The gateway

    Models [gateway/src/core.rs] and the handlers of [gateway/src/p2p.rs] and
    [gateway/src/main.rs]: the ids a gateway gives to requests, the registry of the
    sockets that wait for results, and the relay to the maroon nodes. A web socket
    ([axum]) is a value of the type [WebSocket]; what is sent on it is an effect. *)
From S2P Require Import Prelude Types Values Protocol AppOffsets Network.
Local Open Scope Z_scope.

(** ** The p2p layer of the gateway *)
Section p2p.
Context `{PeerIds} `{!Json N2GWGossipMessage}.

Inductive GwOutbox : Type := GwOutbox_NewTransaction (tx : Transaction).
Inductive GwInbox : Type := GwInbox_TxUpdates (updates : list TxUpdate).

Inductive GatewayEvent : Type :=
| Gw_RequestResponse (ev : RequestResponseEvent GMRequest GMResponse)
| Gw_MetaExchange (ev : RequestResponseEvent MERequest MEResponse)
| Gw_Ping
| Gw_Gossip (data : json_bytes (A := N2GWGossipMessage))
| Gw_ConnectionEstablished (peer_id : PeerId)
| Gw_ConnectionClosed (peer_id : PeerId)
| Gw_OutgoingConnectionError
| Gw_Other.

Inductive GwAction : Type :=
| GwSend (peer : PeerId) (request : GMRequest)
| GwRespondME (response : MEResponse).

(** The branch of the event loop that takes a request of the gateway: one copy for
    every connected node ([HashSet] order is left to [elements]). *)
Definition broadcast (maroon_peer_ids : gset PeerId) (request : GwOutbox) : list GwAction :=
  map (fun peer_id =>
    match request with GwOutbox_NewTransaction tx => GwSend peer_id (GM_NewTransaction tx) end)
    (elements maroon_peer_ids).

Definition gw_handle_swarm_event (event : GatewayEvent) (maroon_peer_ids : gset PeerId)
  : gset PeerId * list GwInbox * list GwAction :=
  match event with
  | Gw_RequestResponse _ => (maroon_peer_ids, [], [])
  | Gw_MetaExchange (RR_Message _ (RR_Request _)) =>
      (maroon_peer_ids, [], [GwRespondME (mkMEResponse Role_Gateway)])
  | Gw_MetaExchange _ => (maroon_peer_ids, [], [])
  | Gw_Ping => (maroon_peer_ids, [], [])
  | Gw_Gossip data =>
      match from_slice data with
      | Some p2p_message =>
          match N2GWGossipMessage_payload p2p_message with
          | Node2GWTxUpdate tx_updates => (maroon_peer_ids, [GwInbox_TxUpdates tx_updates], [])
          end
      | None => (maroon_peer_ids, [], [])
      end
  | Gw_ConnectionEstablished peer_id => ({[peer_id]} ∪ maroon_peer_ids, [], [])
  | Gw_ConnectionClosed peer_id => (maroon_peer_ids ∖ {[peer_id]}, [], [])
  | Gw_OutgoingConnectionError => (maroon_peer_ids, [], [])
  | Gw_Other => (maroon_peer_ids, [], [])
  end.
End p2p.

(** ** The gateway itself *)
Section core.
Context `{Profile} {WebSocket : Type}.

Inductive MonitorEvent : Type :=
| Monitor_NewRequest (id : UniqueU64BlobId) (queue : string) (value : Value)
| Monitor_TxUpdate (meta : Meta) (res : option Value).

Record NewRequest := mkNewRequest {
  NewRequest_id : UniqueU64BlobId;
  NewRequest_blueprint : TxBlueprint;
  NewRequest_response_socket : option WebSocket
}.

Record Gateway := mkGateway {
  interval_left : UniqueU64BlobId;
  interval_right : UniqueU64BlobId
}.

(** What the background task does to the outside. *)
Inductive GwEffect : Type :=
| GwToP2p (msg : GwOutbox)
| GwMonitor (event : MonitorEvent)
| GwSocketText (socket : WebSocket) (update : TxUpdate).

Definition gateway_new (range : KeyRange) : result Gateway :=
  interval ← RangeKey.full_interval_for_range range;
  Ok (mkGateway (RangeKey.left interval) (RangeKey.right interval)).

Definition send_request (self : Gateway) (blueprint : TxBlueprint) (response_socket : option WebSocket)
  : result (Gateway * NewRequest) :=
  if interval_left self >=? interval_right self then Panic "not yet implemented: request new key range"
  else
    let id := interval_left self in
    left ← u64_add (interval_left self) 1;
    Ok (mkGateway left (interval_right self), mkNewRequest id blueprint response_socket).

(** A [HashMap] from ids to sockets. *)
Abbreviation Registry := (gmap UniqueU64BlobId WebSocket) (only parsing).

Definition handle_send_new_request (request : NewRequest) (ws_registry : Registry)
  : Registry * list GwEffect :=
  let '(mkNewRequest id blueprint response_socket) := request in
  let ws_registry := match response_socket with
                     | Some sock => <[id := sock]> ws_registry
                     | None => ws_registry
                     end in
  (ws_registry,
   [GwToP2p (GwOutbox_NewTransaction (mkTransaction (mkMeta id TxStatus_Created) blueprint));
    GwMonitor (Monitor_NewRequest id (TxBlueprint_queue_name blueprint) (TxBlueprint_param blueprint))]).

(** [TxStatus] is compared with [==]. *)
#[export] Instance TxStatus_eq_dec : EqDecision TxStatus.
Proof. solve_decision. Defined.

(** One iteration of the loop of [handle_inbox]. *)
Definition handle_update (st : Registry * list GwEffect) (update : TxUpdate) : Registry * list GwEffect :=
  let '(ws_registry, effects) := st in
  let id := Meta_id (TxUpdate_meta update) in
  let monitor := GwMonitor (Monitor_TxUpdate (TxUpdate_meta update) (TxUpdate_result update)) in
  match ws_registry !! id with
  | Some socket =>
      let ws_registry := if decide (Meta_status (TxUpdate_meta update) = TxStatus_Finished)
                         then delete id ws_registry else ws_registry in
      (ws_registry, effects ++ [GwSocketText socket update; monitor])
  | None => (ws_registry, effects ++ [monitor])
  end.

Definition handle_inbox (inbox : GwInbox) (ws_registry : Registry) : Registry * list GwEffect :=
  match inbox with
  | GwInbox_TxUpdates tx_updates => foldl handle_update (ws_registry, []) tx_updates
  end.

(** The requests a gateway accepts one after the other. *)
Fixpoint send_requests (self : Gateway) (requests : list (TxBlueprint * option WebSocket))
  : result (Gateway * list NewRequest) :=
  match requests with
  | [] => Ok (self, [])
  | (blueprint, socket) :: requests' =>
      '(self, request) ← send_request self blueprint socket;
      '(self, rest) ← send_requests self requests';
      Ok (self, request :: rest)
  end.

(** [multiply_handler] of [main.rs]: the blueprint of [/multiply/{a}/{b}]. *)
Definition multiply_blueprint (a b : Z) : TxBlueprint :=
  mkTxBlueprint "testInfiniteCalculatorQueue"
    (Value_TestInfiniteSummatorQueueMessagePub (mkTestInfiniteSummatorQueueMessagePub a b)).
End core.
Arguments NewRequest : clear implicits.
Arguments GwEffect : clear implicits.

(** ** Lemmas *)

Section lemmas.
Context `{Profile} {WebSocket : Type}.

Lemma send_requests_ok range k (requests : list (TxBlueprint * option WebSocket)) :
  0 <= range < RangeKey.MAX_BLOCK_INDEX -> 0 <= k ->
  k + Z.of_nat (length requests) < RangeKey.SINGLE_BLOB_SIZE ->
  exists sent,
    send_requests (mkGateway (RangeKey.slot_id range k)
                    (RangeKey.slot_id range (RangeKey.SINGLE_BLOB_SIZE - 1))) requests
    = Ok (mkGateway (RangeKey.slot_id range (k + Z.of_nat (length requests)))
            (RangeKey.slot_id range (RangeKey.SINGLE_BLOB_SIZE - 1)), sent) /\
    map NewRequest_id sent = map (RangeKey.slot_id range) (seqZ k (Z.of_nat (length requests))) /\
    map (fun r => (NewRequest_blueprint r, NewRequest_response_socket r)) sent = requests.
Proof.
  intros Hr. revert k. induction requests as [|[bp sock] requests IH]; intros k Hk Hlen.
  - exists []. cbn. by rewrite Z.add_0_r.
  - cbn [send_requests]. unfold send_request. cbn [interval_left interval_right length] in *.
    destruct (Z.geb_spec (RangeKey.slot_id range k) (RangeKey.slot_id range (RangeKey.SINGLE_BLOB_SIZE - 1)));
      [RangeKey.blob_lia|].
    rewrite u64_add_ok by RangeKey.blob_lia. cbn [mbind result_bind].
    replace (RangeKey.slot_id range k + 1) with (RangeKey.slot_id range (k + 1)) by (unfold RangeKey.slot_id; lia).
    destruct (IH (k + 1)) as (sent & -> & Hids & Hreqs); [lia|lia|]. cbn [mbind result_bind].
    eexists. split; [do 3 f_equal; f_equal; lia|]. cbn. rewrite Hids, Hreqs. split; [|done].
    rewrite (seqZ_cons k) by lia. cbn. do 3 f_equal; lia.
Qed.

Lemma gateway_new_ok range :
  0 <= range < RangeKey.MAX_BLOCK_INDEX ->
  gateway_new range = Ok (mkGateway (RangeKey.slot_id range 0)
                           (RangeKey.slot_id range (RangeKey.SINGLE_BLOB_SIZE - 1))).
Proof.
  intros Hr. unfold gateway_new, RangeKey.full_interval_for_range.
  destruct (Z.gtb_spec range RangeKey.MAX_BLOCK_INDEX); [lia|].
  rewrite u64_mul_ok by RangeKey.blob_lia. cbn. rewrite u64_add_ok by RangeKey.blob_lia. cbn.
  rewrite u64_sub_ok by RangeKey.blob_lia. cbn. rewrite RangeKey.new_ok by RangeKey.blob_lia. cbn.
  do 2 f_equal; RangeKey.blob_lia.
Qed.

(** What a socket receives, in order. *)
Definition texts (s : WebSocket -> bool) (effs : list (GwEffect WebSocket)) : list TxUpdate :=
  omap (fun e => match e with GwSocketText sock u => if s sock then Some u else None | _ => None end) effs.

(** The updates of an id up to the first final one, and whether that one is among them. *)
Fixpoint until_finished (id : UniqueU64BlobId) (us : list TxUpdate) : list TxUpdate * bool :=
  match us with
  | [] => ([], false)
  | u :: us' =>
      if decide (Meta_id (TxUpdate_meta u) = id) then
        if decide (Meta_status (TxUpdate_meta u) = TxStatus_Finished) then ([u], true)
        else let '(l, b) := until_finished id us' in (u :: l, b)
      else until_finished id us'
  end.

(** The registry and the effects of one update, separately. *)
Definition after_update (reg : gmap UniqueU64BlobId WebSocket) (u : TxUpdate) : gmap UniqueU64BlobId WebSocket :=
  match reg !! Meta_id (TxUpdate_meta u) with
  | Some _ => if decide (Meta_status (TxUpdate_meta u) = TxStatus_Finished)
              then delete (Meta_id (TxUpdate_meta u)) reg else reg
  | None => reg
  end.

Definition update_text (s : WebSocket -> bool) (reg : gmap UniqueU64BlobId WebSocket) (u : TxUpdate) : list TxUpdate :=
  match reg !! Meta_id (TxUpdate_meta u) with
  | Some sock => if s sock then [u] else []
  | None => []
  end.

Lemma handle_updates_step s reg effs u us :
  let '(reg', effs') := foldl handle_update (reg, effs) (u :: us) in
  reg' = (foldl handle_update (after_update reg u, []) us).1 /\
  texts s effs' = texts s effs ++ update_text s reg u
                  ++ texts s (foldl handle_update (after_update reg u, []) us).2.
Proof.
  assert (Hgen : forall us (reg : gmap UniqueU64BlobId WebSocket) (effs : list (GwEffect WebSocket)),
    foldl handle_update (reg, effs) us
    = ((foldl handle_update (reg, []) us).1, effs ++ (foldl handle_update (reg, []) us).2)).
  { clear. induction us as [|u us IH]; intros reg effs; cbn [foldl]; [by rewrite app_nil_r|].
    assert (Hone : forall effs : list (GwEffect WebSocket), handle_update (reg, effs) u
      = ((handle_update (reg, []) u).1, effs ++ (handle_update (reg, []) u).2)).
    { intros effs'. unfold handle_update. by destruct (reg !! _). }
    rewrite Hone, IH, (surjective_pairing (handle_update (reg, []) u)), (IH _ (handle_update (reg, []) u).2).
    cbn [fst snd]. by rewrite app_assoc. }
  cbn [foldl].
  assert (Hone : handle_update (reg, effs) u = (after_update reg u, effs ++ (handle_update (reg, []) u).2) /\
    texts s (handle_update (reg, []) u).2 = update_text s reg u).
  { unfold handle_update, after_update, update_text. destruct (reg !! _); cbn; [|done]. by destruct (s _). }
  destruct Hone as [-> Ht]. rewrite Hgen. split; [done|]. unfold texts in *. by rewrite !omap_app, Ht, <-app_assoc.
Qed.

Lemma after_update_other reg u id :
  Meta_id (TxUpdate_meta u) <> id -> after_update reg u !! id = reg !! id.
Proof.
  intros Hne. unfold after_update. destruct (reg !! _); [|done]. destruct (decide _); [|done].
  by rewrite lookup_delete_ne.
Qed.

Lemma after_update_subset reg u id sock : after_update reg u !! id = Some sock -> reg !! id = Some sock.
Proof.
  unfold after_update. destruct (reg !! _); [|done]. destruct (decide _); [|done].
  by intros [_ ?]%lookup_delete_Some.
Qed.

Lemma updates_of_others s us reg id :
  reg !! id = None -> (forall id' sock, reg !! id' = Some sock -> s sock = true -> id' = id) ->
  texts s (foldl handle_update (reg, []) us).2 = [] /\ (foldl handle_update (reg, []) us).1 !! id = None.
Proof.
  revert reg. induction us as [|u us IH]; intros reg Hnone Huniq; [done|].
  pose proof (handle_updates_step s reg [] u us) as Hstep.
  destruct (foldl handle_update (reg, []) (u :: us)) as [reg' effs']. destruct Hstep as [-> Ht].
  destruct (IH (after_update reg u)) as [IH1 IH2].
  - destruct (after_update reg u !! id) eqn:E; [|done]. apply after_update_subset in E. congruence.
  - intros id' sock Hl. apply after_update_subset in Hl. by apply Huniq.
  - cbn [fst snd]. split; [|done]. rewrite Ht, IH1, app_nil_r. unfold update_text.
    destruct (reg !! Meta_id (TxUpdate_meta u)) as [sock|] eqn:E; [|done]. destruct (s sock) eqn:Es; [|done].
    pose proof (Huniq _ _ E Es) as Heq. rewrite Heq in E. congruence.
Qed.
End lemmas.

(** ** Properties *)

(** C27: a gateway hands out the ids of its own range in order, each once, and never the
    last one: for any requests that fit, the ids are those of offsets 0, 1, 2, ..., all
    legal for the nodes, with the requests' blueprints and sockets; the request after
    offset 2^30 - 2 panics although one id of the range is left. *)
Theorem gateway_ids_sequential `{Profile} {WebSocket : Type} range
  (requests : list (TxBlueprint * option WebSocket)) :
  0 <= range < RangeKey.MAX_BLOCK_INDEX ->
  Z.of_nat (length requests) < RangeKey.SINGLE_BLOB_SIZE ->
  exists gw gw' sent, gateway_new range = Ok gw /\ send_requests gw requests = Ok (gw', sent) /\
    map NewRequest_id sent = map (RangeKey.slot_id range) (seqZ 0 (Z.of_nat (length requests))) /\
    map (fun r => (NewRequest_blueprint r, NewRequest_response_socket r)) sent = requests /\
    Forall legal_id (map NewRequest_id sent) /\
    (Z.of_nat (length requests) = RangeKey.SINGLE_BLOB_SIZE - 1 -> forall bp (sock : option WebSocket),
       send_request gw' bp sock = Panic "not yet implemented: request new key range").
Proof.
  intros Hr Hlen. destruct (send_requests_ok range 0 requests Hr) as (sent & E & Hids & Hreqs); [lia|lia|].
  do 3 eexists. split; [by apply gateway_new_ok|]. split; [exact E|]. split; [done|]. split; [done|]. split.
  - rewrite Hids. apply Forall_forall. intros id Hid. apply list_elem_of_fmap in Hid as (k & -> & Hk%elem_of_seqZ).
    split; [RangeKey.blob_lia|]. rewrite RangeKey.slot_id_mod by lia. lia.
  - intros Hfull bp sock. rewrite Hfull, Z.add_0_l. unfold send_request. cbn [interval_left interval_right].
    by rewrite Z.geb_leb, Z.leb_refl.
Qed.

Lemma gateway_ids_sequential_witness :
  exists gw gw' sent, @gateway_new dev_profile 3 = Ok gw /\
    @send_requests dev_profile unit gw [(multiply_blueprint 2 3, None); (multiply_blueprint 4 5, Some tt)]
      = Ok (gw', sent) /\
    map NewRequest_id sent = [RangeKey.slot_id 3 0; RangeKey.slot_id 3 1].
Proof.
  destruct (@gateway_ids_sequential dev_profile unit 3
    [(multiply_blueprint 2 3, None); (multiply_blueprint 4 5, Some tt)]) as (gw & gw' & sent & E1 & E2 & E3 & _).
  - vm_compute. split; [discriminate|reflexivity].
  - vm_compute. reflexivity.
  - exists gw, gw', sent. split; [exact E1|]. split; [exact E2|exact E3].
Defined.

(** C26: a waiting socket gets exactly the updates of its own request, in order, up to
    and including the first final one, and is then forgotten: whatever updates arrive,
    what is written on the socket registered for [id] is the prefix of the updates of
    [id] that ends with the first [Finished], and it stays registered iff there is none. *)
Theorem socket_gets_updates_until_finished {WebSocket : Type} (reg : gmap UniqueU64BlobId WebSocket)
  id sock (s : WebSocket -> bool) us :
  reg !! id = Some sock -> s sock = true ->
  (forall id' sock', reg !! id' = Some sock' -> s sock' = true -> id' = id) ->
  let '(reg', effs) := handle_inbox (GwInbox_TxUpdates us) reg in
  texts s effs = (until_finished id us).1 /\
  reg' !! id = (if (until_finished id us).2 then None else Some sock).
Proof.
  intros Hid Hs. cbn [handle_inbox]. revert reg Hid. induction us as [|u us IH]; intros reg Hid Huniq; [done|].
  pose proof (handle_updates_step s reg [] u us) as Hstep.
  destruct (foldl handle_update (reg, []) (u :: us)) as [reg' effs']. destruct Hstep as [-> ->].
  assert (Huniq' : forall id' sock', after_update reg u !! id' = Some sock' -> s sock' = true -> id' = id).
  { intros id' sock' Hl. apply after_update_subset in Hl. by apply Huniq. }
  cbn [until_finished]. destruct (decide (Meta_id (TxUpdate_meta u) = id)) as [Heq|Hne].
  - unfold update_text. rewrite Heq, Hid, Hs. destruct (decide (Meta_status _ = _)) as [Hf|Hf].
    + destruct (updates_of_others s us (after_update reg u) id) as [Ht Hn]; [|done|by rewrite Ht, Hn].
      unfold after_update. rewrite Heq, Hid, decide_True by done. apply lookup_delete_eq.
    + assert (Hsame : after_update reg u = reg).
      { unfold after_update. by rewrite Heq, Hid, decide_False. }
      rewrite Hsame. specialize (IH reg Hid Huniq). destruct (foldl handle_update (reg, []) us) as [reg' effs].
      destruct (until_finished id us) as [l b]. destruct IH as [IH1 IH2]. cbn [fst snd] in *. by rewrite IH1.
  - specialize (IH (after_update reg u)). rewrite after_update_other in IH by done.
    specialize (IH Hid Huniq'). destruct (foldl handle_update (after_update reg u, []) us) as [reg' effs].
    cbn [fst snd]. enough (update_text s reg u = []) as -> by exact IH. unfold update_text.
    destruct (reg !! Meta_id (TxUpdate_meta u)) as [sock'|] eqn:E; [|done].
    destruct (s sock') eqn:Es; [|done]. by pose proof (Huniq _ _ E Es).
Qed.

Definition upd (id : UniqueU64BlobId) (st : TxStatus) : TxUpdate := mkTxUpdate (mkMeta id st) None.

Lemma socket_gets_updates_until_finished_witness :
  let '(reg', effs) := handle_inbox (GwInbox_TxUpdates
     [upd 1 TxStatus_Pending; upd 2 TxStatus_Finished; upd 1 TxStatus_Finished; upd 1 TxStatus_Pending])
     {[1 := true]} in
  texts id effs = [upd 1 TxStatus_Pending; upd 1 TxStatus_Finished] /\ reg' !! 1 = None.
Proof.
  apply (@socket_gets_updates_until_finished bool {[1 := true]} 1 true id
    [upd 1 TxStatus_Pending; upd 2 TxStatus_Finished; upd 1 TxStatus_Finished; upd 1 TxStatus_Pending]).
  - reflexivity.
  - reflexivity.
  - intros id' sock' Hl _. by apply lookup_singleton_Some in Hl as [<- _].
Defined.
