(* ===== verification/GatewayHttp.v ===== *)
(** * The gateway's HTTP server

    The handlers of gateway/src/main.rs: how requests over HTTP and web sockets become
    requests of the gateway, and the loop of a monitoring socket. What a socket or the
    broadcast channel of events gives next is an argument; JSON is a class. *)
From S2P Require Import Prelude Types Values Protocol Gateway.
Local Open Scope Z_scope.

(** [serde_json] on blueprints, with the text of its errors, and on events. *)
Class ServerJson := {
  blueprint_from_str : string -> TxBlueprint + string;
  blueprint_from_slice : list Z -> TxBlueprint + string;
  event_to_string : MonitorEvent -> option string;
  event_debug : MonitorEvent -> string
}.

Section handlers.
Context `{Profile} `{ServerJson} {WebSocket : Type}.

(** [axum::extract::ws::Message], and what [socket.recv()] gives: the end of the stream, an
    error or a message. *)
Inductive Message : Type :=
| Message_Text (t : string)
| Message_Binary (b : list Z)
| Message_Ping | Message_Pong | Message_Close.

Inductive Received : Type :=
| Received_End
| Received_Error
| Received_Message (m : Message).

(** What became of a request on a socket: a text was sent back and the socket closed, or
    the gateway took it. *)
Inductive Outcome : Type :=
| Refused (text : string)
| Taken (r : result (Gateway * NewRequest WebSocket)).

Definition multiply_handler (gw : Gateway) (a b : Z) (socket : WebSocket) : Outcome :=
  Taken (send_request gw (multiply_blueprint a b) (Some socket)).

(** The answer is [StatusCode::ACCEPTED], whatever becomes of the request. *)
Definition new_request_handler (gw : Gateway) (blueprint : TxBlueprint) : result (Gateway * NewRequest WebSocket * Z) :=
  '(gw, request) ← send_request gw blueprint None; Ok (gw, request, 202).

Definition read_blueprint (first : Received) : TxBlueprint + string :=
  match first with
  | Received_Message (Message_Text t) =>
      match blueprint_from_str t with
      | inl bp => inl bp
      | inr e => inr ("error: invalid blueprint json: " +:+ e)
      end
  | Received_Message (Message_Binary b) =>
      match blueprint_from_slice b with
      | inl bp => inl bp
      | inr e => inr ("error: invalid blueprint json(bin): " +:+ e)
      end
  | _ => inr "error: expected first message with TaskBlueprint"%string
  end.

Definition request_ws_handler (gw : Gateway) (first : Received) (socket : WebSocket) : Outcome :=
  match read_blueprint first with
  | inl blueprint => Taken (send_request gw blueprint (Some socket))
  | inr text => Refused text
  end.

(** ** Monitoring *)

(** What [rx.recv()] gives. *)
Inductive EventReceived : Type :=
| Event_Ok (evt : MonitorEvent)
| Event_Lagged (missed : Z)
| Event_Closed.

Definition event_payload (evt : MonitorEvent) : string := default (event_debug evt) (event_to_string evt).

(** The texts handed to the socket, for what the channel gives next and whether the socket
    would still take a text. *)
Fixpoint monitor_ws_loop (rx : list (EventReceived * bool)) : list string :=
  match rx with
  | [] => []
  | (Event_Ok evt, open) :: rx' => event_payload evt :: (if (open : bool) then monitor_ws_loop rx' else [])
  | (Event_Lagged _, _) :: rx' => monitor_ws_loop rx'
  | (Event_Closed, _) :: _ => []
  end.
End handlers.
Arguments Outcome : clear implicits.

(** ** Lemmas *)
Section lemmas.
Context `{Profile} `{ServerJson} {WebSocket : Type}.

(** A request is taken exactly when its first message holds a blueprint; otherwise the
    gateway does not change and the socket is told why. *)
Lemma request_taken_iff gw first (socket : WebSocket) :
  (exists bp, read_blueprint first = inl bp /\ request_ws_handler gw first socket = Taken (send_request gw bp (Some socket))) \/
  (exists text, read_blueprint first = inr text /\ request_ws_handler gw first socket = Refused text).
Proof. unfold request_ws_handler. destruct (read_blueprint first) as [bp|text]; [left|right]; by eexists. Qed.

(** A monitor that keeps up is told every event, in order, until its socket closes. *)
Lemma monitor_events evts :
  monitor_ws_loop (map (fun e => (Event_Ok e, true)) evts) = map event_payload evts.
Proof. induction evts as [|e evts IH]; [done|]. cbn. by rewrite IH. Qed.

(** Events it was too slow for are skipped, and nothing else. *)
Lemma monitor_lagged rx n b rx' : Forall (fun r => r.2 = true /\ r.1 <> Event_Closed) rx ->
  monitor_ws_loop (rx ++ (Event_Lagged n, b) :: rx') = monitor_ws_loop (rx ++ rx').
Proof.
  induction 1 as [|[[e|m|] open] rx [Ho Hc] Hrx IH]; [done|..]; cbn in *; [by rewrite Ho, IH|done|done].
Qed.
End lemmas.
