(* ===== verification/Waits.v ===== *)
(** * The wait registry

    Models [runtime/src/wait_registry.rs]: who waits for which queue or future. The
    waiters of a key form a doubly linked list whose nodes live in a slab; the arms
    of one [select] are registered together and removed together. The slab ([slab])
    is the class [Slab], with [gmap_slab] as an instance. *)
From S2P Require Import Prelude Values Assembler.
Local Open Scope nat_scope.

(** ** The slab ([slab::Slab]) *)
Class Slab := {
  slab : Type -> Type;
  slab_empty : forall {A}, slab A;
  (** [insert] picks a free key *)
  slab_insert : forall {A}, A -> slab A -> nat * slab A;
  slab_get : forall {A}, nat -> slab A -> option A;
  (** writing through [get_mut] *)
  slab_set : forall {A}, nat -> A -> slab A -> slab A;
  slab_remove : forall {A}, nat -> slab A -> slab A;
  slab_get_empty : forall A k, slab_get k (slab_empty (A := A)) = None;
  slab_insert_fresh : forall A (a : A) s, slab_get (slab_insert a s).1 s = None;
  slab_get_insert : forall A (a : A) s k,
    slab_get k (slab_insert a s).2 = if decide (k = (slab_insert a s).1) then Some a else slab_get k s;
  slab_get_set : forall A (a : A) s k j, is_Some (slab_get k s) ->
    slab_get j (slab_set k a s) = if decide (j = k) then Some a else slab_get j s;
  slab_get_remove : forall A (s : slab A) k j,
    slab_get j (slab_remove k s) = if decide (j = k) then None else slab_get j s
}.

Definition gmap_slab : Slab.
Proof.
  refine {| slab := gmap nat; slab_empty := fun A => ∅;
            slab_insert := fun A a s => (fresh (dom s), <[fresh (dom s) := a]> s);
            slab_get := fun A k s => s !! k;
            slab_set := fun A k a s => <[k := a]> s;
            slab_remove := fun A k s => delete k s |}.
  - intros A k. apply lookup_empty.
  - intros A a s. cbn. apply not_elem_of_dom, is_fresh.
  - intros A a s k. cbn. destruct (decide _) as [->|]; [by rewrite lookup_insert_eq|by rewrite lookup_insert_ne].
  - intros A a s k j _. destruct (decide _) as [->|]; [by rewrite lookup_insert_eq|by rewrite lookup_insert_ne].
  - intros A s k j. destruct (decide _) as [->|]; [by rewrite lookup_delete_eq|by rewrite lookup_delete_ne].
Defined.

(** ** Data *)
Inductive WaitKey : Type :=
| WaitKey_Queue (name : string)
| WaitKey_Future (id : string).

#[export] Instance WaitKey_eq_dec : EqDecision WaitKey.
Proof. solve_decision. Defined.
#[export] Instance WaitKey_countable : Countable WaitKey.
Proof.
  refine (inj_countable'
    (fun k => match k with WaitKey_Queue n => inl n | WaitKey_Future i => inr i end)
    (fun x => match x with inl n => WaitKey_Queue n | inr i => WaitKey_Future i end) _).
  by intros [].
Defined.

Record WaitNode := mkWaitNode {
  prev : option nat;
  next : option nat;
  node_reg_id : nat;
  node_fiber_id : Z
}.

Record WaitList := mkWaitList { head : option nat; tail : option nat }.

Inductive ArmKind : Type := ArmKind_Queue | ArmKind_Future.
Record ArmResume := mkArmResume { ArmResume_bind : option string; ArmResume_next : State }.
Record ArmHandle := mkArmHandle {
  ArmHandle_key : WaitKey;
  ArmHandle_node_id : nat;
  ArmHandle_kind : ArmKind;
  ArmHandle_resume : ArmResume
}.
Record SelectReg := mkSelectReg { SelectReg_fiber_id : Z; SelectReg_arms : list ArmHandle }.

Record WakeOutcome := mkWakeOutcome {
  WakeOutcome_fiber_id : Z;
  WakeOutcome_bind : option string;
  WakeOutcome_next : State
}.

Section registry.
Context `{Slab}.

Record WaitRegistry := mkWaitRegistry {
  per_key : gmap WaitKey WaitList;
  nodes : slab WaitNode;
  regs : slab SelectReg
}.

Definition registry_default : WaitRegistry := mkWaitRegistry ∅ slab_empty slab_empty.

(** [if let Some(node) = self.nodes.get_mut(id) { .. }]. *)
Definition modify_node (id : nat) (f : WaitNode -> WaitNode) (ns : slab WaitNode) : slab WaitNode :=
  match slab_get id ns with
  | Some node => slab_set id (f node) ns
  | None => ns
  end.

Definition set_next (n : option nat) (node : WaitNode) : WaitNode :=
  mkWaitNode (prev node) n (node_reg_id node) (node_fiber_id node).
Definition set_prev (p : option nat) (node : WaitNode) : WaitNode :=
  mkWaitNode p (next node) (node_reg_id node) (node_fiber_id node).

Definition list_push_back (self : WaitRegistry) (key : WaitKey) (node_id : nat) : WaitRegistry :=
  let wl := default (mkWaitList None None) (per_key self !! key) in
  match tail wl with
  | None =>
      mkWaitRegistry (<[key := mkWaitList (Some node_id) (Some node_id)]> (per_key self))
        (nodes self) (regs self)
  | Some tail_id =>
      let ns := modify_node tail_id (set_next (Some node_id)) (nodes self) in
      let ns := modify_node node_id (set_prev (Some tail_id)) ns in
      mkWaitRegistry (<[key := mkWaitList (head wl) (Some node_id)]> (per_key self)) ns (regs self)
  end.

Definition list_unlink (self : WaitRegistry) (key : WaitKey) (node_id : nat) : WaitRegistry :=
  match slab_get node_id (nodes self) with
  | None => self
  | Some n =>
      let '(p, x) := (prev n, next n) in
      let ns := slab_remove node_id (nodes self) in
      let ns := match p with Some p' => modify_node p' (set_next x) ns | None => ns end in
      let ns := match x with Some x' => modify_node x' (set_prev p) ns | None => ns end in
      match per_key self !! key with
      | Some wl =>
          let h := if decide (head wl = Some node_id) then x else head wl in
          let t := if decide (tail wl = Some node_id) then p else tail wl in
          let remove_list_entry := match h, t with None, None => true | _, _ => false end in
          mkWaitRegistry (if remove_list_entry then delete key (per_key self)
                          else <[key := mkWaitList h t]> (per_key self)) ns (regs self)
      | None => mkWaitRegistry (per_key self) ns (regs self)
      end
  end.

(** One iteration of the loop over the arms in [register_select]. *)
Definition register_arm (reg_id : nat) (fiber_id : Z) (st : WaitRegistry * list ArmHandle) (arm : SelectArm)
  : WaitRegistry * list ArmHandle :=
  let '(self, arm_handles) := st in
  let '(key, kind, resume) :=
    match arm with
    | SelectArm_Queue queue_name bind nxt =>
        (WaitKey_Queue queue_name, ArmKind_Queue, mkArmResume (Some bind) nxt)
    | SelectArm_FutureVar future_id bind nxt =>
        (WaitKey_Future future_id, ArmKind_Future, mkArmResume bind nxt)
    end in
  let '(node_id, ns) := slab_insert (mkWaitNode None None reg_id fiber_id) (nodes self) in
  let self := list_push_back (mkWaitRegistry (per_key self) ns (regs self)) key node_id in
  (self, arm_handles ++ [mkArmHandle key node_id kind resume]).

Definition register_select (self : WaitRegistry) (fiber_id : Z) (arms : list SelectArm)
  : WaitRegistry * nat :=
  let '(reg_id, rs) := slab_insert (mkSelectReg fiber_id []) (regs self) in
  let '(self, arm_handles) :=
    foldl (register_arm reg_id fiber_id) (mkWaitRegistry (per_key self) (nodes self) rs, []) arms in
  let rs := match slab_get reg_id (regs self) with
            | Some reg => slab_set reg_id (mkSelectReg (SelectReg_fiber_id reg) arm_handles) (regs self)
            | None => regs self
            end in
  (mkWaitRegistry (per_key self) (nodes self) rs, reg_id).

(** The loop of [wake_one] over the arms of the registration. *)
Definition unlink_arm (head_id : nat) (st : WaitRegistry * option ArmResume) (arm : ArmHandle)
  : WaitRegistry * option ArmResume :=
  let '(self, to_return) := st in
  (list_unlink self (ArmHandle_key arm) (ArmHandle_node_id arm),
   if decide (ArmHandle_node_id arm = head_id) then Some (ArmHandle_resume arm) else to_return).

Definition wake_one (self : WaitRegistry) (key : WaitKey) : result (option WakeOutcome * WaitRegistry) :=
  match per_key self !! key ≫= head with
  | None => Ok (None, self)
  | Some head_id =>
      node ← expect "if not here - huge consistency problem" (slab_get head_id (nodes self));
      let '(reg_id, fiber_id) := (node_reg_id node, node_fiber_id node) in
      reg ← expect "if not here - huge consistency problem" (slab_get reg_id (regs self));
      let self := mkWaitRegistry (per_key self) (nodes self) (slab_remove reg_id (regs self)) in
      let '(self, to_return) := foldl (unlink_arm head_id) (self, None) (SelectReg_arms reg) in
      winner_resume ← expect "if not here - huge consistency problem" to_return;
      Ok (Some (mkWakeOutcome fiber_id (ArmResume_bind winner_resume) (ArmResume_next winner_resume)), self)
  end.

Definition cancel_by_registered_select_id (self : WaitRegistry) (id : nat) : WaitRegistry * nat :=
  match slab_get id (regs self) with
  | None => (self, 0)
  | Some reg =>
      let self := mkWaitRegistry (per_key self) (nodes self) (slab_remove id (regs self)) in
      foldl (fun '(self, removed) arm =>
        (list_unlink self (ArmHandle_key arm) (ArmHandle_node_id arm), S removed))
        (self, 0) (SelectReg_arms reg)
  end.
End registry.

(** ** Abstract specification

    What the registry means: the registrations in the order they were made, each with
    its fiber and its arms. Waking a key takes the oldest registration that waits for
    it, resumes it by its first arm for that key, and forgets all its arms. *)
Record Waiter := mkWaiter { w_id : nat; w_fiber : Z; w_arms : list (WaitKey * ArmResume) }.

Definition arm_of (arm : SelectArm) : WaitKey * ArmResume :=
  match arm with
  | SelectArm_Queue queue_name bind nxt => (WaitKey_Queue queue_name, mkArmResume (Some bind) nxt)
  | SelectArm_FutureVar future_id bind nxt => (WaitKey_Future future_id, mkArmResume bind nxt)
  end.

(** The first arm for a key. *)
Fixpoint arm_for (key : WaitKey) (arms : list (WaitKey * ArmResume)) : option ArmResume :=
  match arms with
  | [] => None
  | (k, r) :: arms' => if decide (k = key) then Some r else arm_for key arms'
  end.

Fixpoint spec_wake (key : WaitKey) (ws : list Waiter) : option (WakeOutcome * list Waiter) :=
  match ws with
  | [] => None
  | w :: ws' =>
      match arm_for key (w_arms w) with
      | Some r => Some (mkWakeOutcome (w_fiber w) (ArmResume_bind r) (ArmResume_next r), ws')
      | None => '(out, rest) ← spec_wake key ws'; Some (out, w :: rest)
      end
  end.

Definition spec_register (id : nat) (fiber : Z) (arms : list SelectArm) (ws : list Waiter) : list Waiter :=
  ws ++ [mkWaiter id fiber (map arm_of arms)].

Definition spec_cancel (id : nat) (ws : list Waiter) : list Waiter :=
  filter (fun w => w_id w <> id) ws.
