(* ===== verification/WaitsSpec.v ===== *)
(** * The wait registry implements its specification

    The intrusive lists of [Waits] represent the abstract list of waiters: the
    registrations in order, each with its arms and their nodes. Every operation of the
    registry preserves the representation, never runs into the "huge consistency
    problem" panics, and answers what the specification answers. *)
From S2P Require Import Prelude Values Assembler Waits.
Local Open Scope nat_scope.

Section lists.
Context `{Slab}.

(** ** Doubly linked lists in the slab *)

(** Every node of [l] links to its neighbours. *)
Definition node_links (ns : slab WaitNode) (l : list nat) : Prop :=
  forall l1 n l2, l = l1 ++ n :: l2 ->
    exists w, slab_get n ns = Some w /\ prev w = last l1 /\ next w = hd_error l2.

Definition list_entry (l : list nat) : option WaitList :=
  match l with [] => None | n :: _ => Some (mkWaitList (Some n) (last l)) end.

(** The lists of all keys. *)
Record lists_ok (pk : gmap WaitKey WaitList) (ns : slab WaitNode) (L : WaitKey -> list nat) : Prop := {
  lo_entry : forall k, pk !! k = list_entry (L k);
  lo_nodup : forall k, NoDup (L k);
  lo_disj : forall k k' n, n ∈ L k -> n ∈ L k' -> k = k';
  lo_links : forall k, node_links ns (L k)
}.

Definition owner (ns : slab WaitNode) (n : nat) : option (nat * Z) :=
  (fun w => (node_reg_id w, node_fiber_id w)) <$> slab_get n ns.

Definition upd (L : WaitKey -> list nat) (k : WaitKey) (l : list nat) : WaitKey -> list nat :=
  fun k' => if decide (k' = k) then l else L k'.

Lemma upd_eq L k l : upd L k l k = l.
Proof. unfold upd. by rewrite decide_True. Qed.
Lemma upd_ne L k l k' : k' <> k -> upd L k l k' = L k'.
Proof. intros. unfold upd. by rewrite decide_False. Qed.

Lemma lists_ok_ext pk ns L L' : (forall k, L k = L' k) -> lists_ok pk ns L -> lists_ok pk ns L'.
Proof.
  intros Heq [H1 H2 H3 H4]. split.
  - intros k. by rewrite <-Heq.
  - intros k. by rewrite <-Heq.
  - intros k k' n. rewrite <-!Heq. apply H3.
  - intros k. rewrite <-Heq. apply H4.
Qed.

Lemma modify_node_get id f ns j :
  slab_get j (modify_node id f ns) = if decide (j = id) then f <$> slab_get id ns else slab_get j ns.
Proof.
  unfold modify_node. destruct (slab_get id ns) as [w|] eqn:E.
  - rewrite slab_get_set by (by rewrite E). by destruct (decide _).
  - destruct (decide _) as [->|]; [by rewrite E|done].
Qed.

Lemma modify_owner id f ns n :
  (forall w, node_reg_id (f w) = node_reg_id w /\ node_fiber_id (f w) = node_fiber_id w) ->
  owner (modify_node id f ns) n = owner ns n.
Proof.
  intros Hf. unfold owner. rewrite modify_node_get. destruct (decide _) as [->|]; [|done].
  destruct (slab_get id ns) as [w|]; [|done]. cbn. by destruct (Hf w) as [-> ->].
Qed.

Lemma node_links_in ns l n : node_links ns l -> n ∈ l -> is_Some (slab_get n ns).
Proof. intros Hl (l1 & l2 & ->)%list_elem_of_split. destruct (Hl l1 n l2 eq_refl) as (w & -> & _). by eexists. Qed.

(** Links do not depend on nodes outside of the list. *)
Lemma node_links_agree ns ns' l :
  (forall n, n ∈ l -> slab_get n ns' = slab_get n ns) -> node_links ns l -> node_links ns' l.
Proof.
  intros Hag Hl l1 n l2 ->. rewrite Hag by set_solver. by apply Hl.
Qed.

Lemma nodup_split_unique {A} (l1 l2 l1' l2' : list A) n :
  NoDup (l1 ++ n :: l2) -> l1 ++ n :: l2 = l1' ++ n :: l2' -> l1 = l1' /\ l2 = l2'.
Proof.
  intros Hnd Heq. revert l1' Hnd Heq. induction l1 as [|x l1 IH]; intros [|y l1'] Hnd Heq; cbn in *.
  - by injection Heq.
  - injection Heq as -> ->. apply NoDup_cons in Hnd as [Hn _]. set_solver.
  - injection Heq as -> <-. apply NoDup_cons in Hnd as [Hn _]. set_solver.
  - injection Heq as -> Heq. apply NoDup_cons in Hnd as [_ Hnd]. destruct (IH l1' Hnd Heq) as [-> ->]. done.
Qed.

(** ** Appending a node *)
Lemma push_back_links ns l t n w :
  NoDup (l ++ [t]) -> n ∉ l ++ [t] -> node_links ns (l ++ [t]) ->
  slab_get n ns = Some w -> next w = None ->
  node_links (modify_node n (set_prev (Some t)) (modify_node t (set_next (Some n)) ns)) ((l ++ [t]) ++ [n]).
Proof.
  intros Hnd Hn Hl Hw Hnx l1 m l2 Heq.
  assert (Htn : t <> n) by set_solver.
  destruct l2 as [|x l2 _] using rev_ind.
  - apply app_inj_tail in Heq as [<- ->]. exists (set_prev (Some t) w).
    rewrite modify_node_get, decide_True, modify_node_get, decide_False, Hw by done.
    by rewrite last_snoc.
  - rewrite app_comm_cons, app_assoc in Heq. apply app_inj_tail in Heq as [Heq <-].
    assert (Hm : m <> n) by (intros ->; rewrite Heq in Hn; set_solver).
    destruct (Hl l1 m l2 Heq) as (v & Hv & Hp & Hx).
    rewrite modify_node_get, decide_False, modify_node_get by done.
    destruct (decide (m = t)) as [->|Hmt].
    + rewrite Hv. cbn. eexists. split; [reflexivity|]. cbn. split; [done|].
      destruct (nodup_split_unique l [] l1 l2 t Hnd Heq) as [_ <-]. done.
    + exists v. split; [done|]. split; [done|]. destruct l2 as [|y l2]; [|done].
      apply app_inj_tail in Heq as [_ ->]. done.
Qed.

Lemma list_entry_snoc l n : list_entry (l ++ [n]) = Some (mkWaitList (hd_error (l ++ [n])) (Some n)).
Proof. destruct l as [|x l]; [done|]. unfold list_entry. cbn [app hd_error]. by rewrite <-(last_snoc n (x :: l)). Qed.

Lemma push_back_ok self k n w L :
  lists_ok (per_key self) (nodes self) L ->
  slab_get n (nodes self) = Some w -> prev w = None -> next w = None -> (forall k', n ∉ L k') ->
  lists_ok (per_key (list_push_back self k n)) (nodes (list_push_back self k n)) (upd L k (L k ++ [n])) /\
  (forall m, owner (nodes (list_push_back self k n)) m = owner (nodes self) m) /\
  regs (list_push_back self k n) = regs self.
Proof.
  intros [He Hnd Hdisj Hl] Hw Hp Hx Hfresh. unfold list_push_back. rewrite He.
  assert (Hcommon : (forall k', NoDup (upd L k (L k ++ [n]) k')) /\
    forall k1 k2 m, m ∈ upd L k (L k ++ [n]) k1 -> m ∈ upd L k (L k ++ [n]) k2 -> k1 = k2).
  { split.
    - intros k'. unfold upd. destruct (decide _); [|done]. apply NoDup_app. split; [done|].
      split; [|apply NoDup_singleton]. intros m Hm ->%list_elem_of_singleton. by apply (Hfresh k).
    - intros k1 k2 m. unfold upd. destruct (decide (k1 = k)) as [->|], (decide (k2 = k)) as [->|]; try done;
        rewrite ?elem_of_app, ?list_elem_of_singleton.
      + intros [Hm| ->] Hm2; [by eapply Hdisj|by apply Hfresh in Hm2].
      + intros Hm1 [Hm| ->]; [by eapply Hdisj|by apply Hfresh in Hm1].
      + intros Hm1 Hm2. by eapply Hdisj. }
  destruct Hcommon as [Hnd' Hdisj']. destruct (L k) as [|t l _] eqn:El using rev_ind.
  - cbn. split; [|done]. split; [|done|done|].
    + intros k'. destruct (decide (k' = k)) as [->|].
      * by rewrite upd_eq, lookup_insert_eq.
      * by rewrite upd_ne, lookup_insert_ne.
    + intros k'. destruct (decide (k' = k)) as [->|]; [|by rewrite upd_ne].
      rewrite upd_eq. cbn. intros l1 m l2 Heq. symmetry in Heq.
      apply (app_eq_unit l1 (m :: l2)) in Heq as [[-> Heq]|[-> ?]]; [|done]. injection Heq as -> ->.
      exists w. by split.
  - rewrite list_entry_snoc. cbn [from_option id tail head per_key nodes regs].
    split; [|split; [|done]].
    + split; [|done|done|].
      * intros k'. destruct (decide (k' = k)) as [->|].
        -- rewrite upd_eq, lookup_insert_eq, list_entry_snoc. by destruct l.
        -- by rewrite upd_ne, lookup_insert_ne.
      * intros k'. destruct (decide (k' = k)) as [->|Hk].
        -- rewrite upd_eq. apply (push_back_links _ _ _ _ w); try done.
           ++ rewrite <-El. done.
           ++ rewrite <-El. done.
           ++ rewrite <-El. done.
        -- rewrite upd_ne by done. apply (node_links_agree (nodes self)); [|done].
           intros m Hm. assert (m <> n) by (intros ->; by apply (Hfresh k')).
           assert (m <> t). { intros ->. apply Hk. eapply Hdisj; [exact Hm|]. rewrite El. set_solver. }
           by rewrite modify_node_get, decide_False, modify_node_get, decide_False.
    + intros m. by rewrite !modify_owner.
Qed.

(** ** Removing a node *)

(** The slab after the neighbours of a removed node were linked to each other. *)
Definition unlinked (n : nat) (p x : option nat) (ns : slab WaitNode) : slab WaitNode :=
  let ns := slab_remove n ns in
  let ns := match p with Some p' => modify_node p' (set_next x) ns | None => ns end in
  match x with Some x' => modify_node x' (set_prev p) ns | None => ns end.

Lemma unlinked_get n p x ns m :
  p <> Some n -> x <> Some n ->
  slab_get m (unlinked n p x ns)
  = if decide (m = n) then None
    else (fun w => (if decide (x = Some m) then set_prev p else id)
                     ((if decide (p = Some m) then set_next x else id) w)) <$> slab_get m ns.
Proof.
  intros Hp Hx. unfold unlinked. destruct (decide (m = n)) as [->|Hmn].
  - destruct x as [x|], p as [p|]; rewrite ?modify_node_get, ?slab_get_remove;
      repeat (destruct (decide _); try congruence).
  - destruct x as [x|], p as [p|]; rewrite ?modify_node_get, ?slab_get_remove;
      repeat (destruct (decide _); try congruence; simplify_eq); cbn;
      destruct (slab_get _ ns); done.
Qed.

Lemma unlinked_owner n p x ns m :
  p <> Some n -> x <> Some n -> m <> n -> owner (unlinked n p x ns) m = owner ns m.
Proof.
  intros Hp Hx Hm. unfold owner. rewrite unlinked_get, decide_False by done.
  destruct (slab_get m ns) as [w|]; [|done]. cbn. by destruct (decide _), (decide _).
Qed.

Lemma unlinked_links ns l1 n l2 :
  NoDup (l1 ++ n :: l2) -> node_links ns (l1 ++ n :: l2) ->
  node_links (unlinked n (last l1) (hd_error l2) ns) (l1 ++ l2).
Proof.
  intros Hnd Hl a m b Heq.
  assert (Hp : last l1 <> Some n).
  { intros Hn%last_Some_elem_of. apply NoDup_app in Hnd as (_ & Hd & _). apply (Hd n Hn). left. }
  assert (Hx : hd_error l2 <> Some n).
  { destruct l2 as [|y l2]; [done|]. intros [= ->]. apply NoDup_app in Hnd as (_ & _ & Hnd).
    apply NoDup_cons in Hnd as [Hnd _]. set_solver. }
  assert (Hmn : m <> n).
  { intros ->. apply NoDup_app in Hnd as (_ & Hd & Hnd). apply NoDup_cons in Hnd as [Hn _].
    assert (Hin : n ∈ l1 ++ l2) by (rewrite Heq; set_solver). apply elem_of_app in Hin as [Hin|Hin]; [|done].
    apply (Hd n Hin). left. }
  rewrite unlinked_get, decide_False by done.
  apply app_eq_inv in Heq as [(c & -> & Hb)|(c & -> & ->)].
  - destruct c as [|y c].
    + (* the right neighbour *)
      cbn in Hb. subst l2. rewrite app_nil_r in *.
      destruct (Hl (a ++ [n]) m b) as (w & -> & Hwp & Hwx); [by rewrite <-app_assoc|].
      cbn [fmap option_fmap option_map hd_error]. rewrite decide_True by done.
      eexists. split; [reflexivity|]. split; [done|]. cbn. rewrite decide_False; [done|].
      intros Hm%last_Some_elem_of. apply NoDup_app in Hnd as (_ & Hd & _). apply (Hd m Hm). set_solver.
    + injection Hb as <- ->. rewrite <-!app_assoc in *. cbn in *.
      destruct (Hl a m (c ++ n :: l2)) as (w & -> & Hwp & Hwx); [done|].
      cbn [fmap option_fmap option_map]. rewrite (decide_False (P := hd_error l2 = Some m)).
      2:{ destruct l2 as [|z l2]; [done|]. intros [= ->]. apply NoDup_app in Hnd as (_ & _ & Hnd).
          apply NoDup_cons in Hnd as [Hnd _]. set_solver. }
      eexists. split; [reflexivity|]. unfold id. destruct c as [|z c _] using rev_ind.
      * rewrite last_snoc, decide_True by done. cbn. done.
      * rewrite app_comm_cons, app_assoc, last_snoc, decide_False.
        { split; [done|]. rewrite Hwx. by destruct c. }
        intros [= ->]. apply NoDup_app in Hnd as (_ & _ & Hnd). apply NoDup_cons in Hnd as [Hnd _]. set_solver.
  - destruct (Hl (l1 ++ n :: c) m b) as (w & -> & Hwp & Hwx); [by rewrite <-app_assoc|].
    cbn [fmap option_fmap option_map]. rewrite (decide_False (P := last l1 = Some m)).
    2:{ intros Hm%last_Some_elem_of. apply NoDup_app in Hnd as (_ & Hd & _). apply (Hd m Hm). set_solver. }
    eexists. split; [reflexivity|]. unfold id. destruct c as [|z c].
    + cbn. rewrite decide_True by done. cbn. by rewrite app_nil_r.
    + cbn. rewrite decide_False.
      * split; [|done]. rewrite Hwp. rewrite !last_app. cbn. done.
      * intros [= ->]. apply NoDup_app in Hnd as (_ & _ & Hnd). apply NoDup_cons in Hnd as [_ Hnd].
        cbn in Hnd. apply NoDup_cons in Hnd as [Hnd _]. set_solver.
Qed.

Lemma list_entry_head l wl : list_entry l = Some wl -> head wl = hd_error l /\ tail wl = last l.
Proof. destruct l; [done|]. by intros [= <-]. Qed.

(** What [list_unlink] makes of the entry of the key. *)
Lemma unlinked_entry (l1 : list nat) (n : nat) (l2 : list nat) :
  NoDup (l1 ++ n :: l2) ->
  let h := if decide (hd_error (l1 ++ n :: l2) = Some n) then hd_error l2 else hd_error (l1 ++ n :: l2) in
  let t := if decide (last (l1 ++ n :: l2) = Some n) then last l1 else last (l1 ++ n :: l2) in
  h = hd_error (l1 ++ l2) /\ t = last (l1 ++ l2).
Proof.
  intros Hnd h t. subst h t. apply NoDup_app in Hnd as (_ & Hd & Hnd). apply NoDup_cons in Hnd as [Hn _].
  split.
  - destruct l1 as [|x l1]; cbn; [by rewrite decide_True|]. rewrite decide_False; [done|].
    intros [= ->]. apply (Hd n); set_solver.
  - destruct l2 as [|x l2 _] using rev_ind.
    + by rewrite last_snoc, decide_True, app_nil_r.
    + rewrite app_comm_cons, !app_assoc, !last_snoc, decide_False; [done|]. intros [= ->]. set_solver.
Qed.

Lemma unlink_ok self k n l1 l2 L :
  lists_ok (per_key self) (nodes self) L -> L k = l1 ++ n :: l2 ->
  lists_ok (per_key (list_unlink self k n)) (nodes (list_unlink self k n)) (upd L k (l1 ++ l2)) /\
  (forall m, m <> n -> owner (nodes (list_unlink self k n)) m = owner (nodes self) m) /\
  regs (list_unlink self k n) = regs self.
Proof.
  intros [He Hnd Hdisj Hl] Hk. pose proof (Hnd k) as Hndk. rewrite Hk in Hndk.
  pose proof (Hl k) as Hlk. rewrite Hk in Hlk.
  destruct (Hlk l1 n l2 eq_refl) as (w & Hw & Hp & Hx).
  assert (Hpn : last l1 <> Some n).
  { intros Hn%last_Some_elem_of. apply NoDup_app in Hndk as (_ & Hd & _). apply (Hd n Hn). left. }
  assert (Hxn : hd_error l2 <> Some n).
  { destruct l2 as [|y l2]; [done|]. intros [= ->]. apply NoDup_app in Hndk as (_ & _ & Hndk).
    apply NoDup_cons in Hndk as [Hndk _]. set_solver. }
  assert (Hwl : exists wl, per_key self !! k = Some wl /\ head wl = hd_error (L k) /\ tail wl = last (L k)).
  { rewrite He. destruct (list_entry (L k)) as [wl|] eqn:E.
    - exists wl. split; [done|]. by apply list_entry_head.
    - rewrite Hk in E. by destruct l1. }
  destruct Hwl as (wl & Hwl & Hh & Ht). unfold list_unlink. rewrite Hw, Hwl, Hh, Ht, Hk, Hp, Hx.
  destruct (unlinked_entry l1 n l2 Hndk) as [-> ->]. fold (unlinked n (last l1) (hd_error l2) (nodes self)).
  cbn [per_key nodes regs]. split; [|split; [|done]].
  - split.
    + intros k'. destruct (decide (k' = k)) as [->|Hk'].
      * rewrite upd_eq. destruct (l1 ++ l2) as [|y l] eqn:El; [apply lookup_delete_eq|].
        cbn [hd_error]. rewrite <-El. unfold list_entry.
        destruct (last (l1 ++ l2)); rewrite lookup_insert_eq, El; done.
      * rewrite upd_ne, <-He by done.
        destruct (hd_error (l1 ++ l2)), (last (l1 ++ l2));
          rewrite ?lookup_insert_ne, ?lookup_delete_ne by done; done.
    + intros k'. unfold upd. destruct (decide _); [|done]. clear -Hndk. rewrite <-Permutation_middle in Hndk. by apply NoDup_cons in Hndk as [_ ?].
    + intros k1 k2 m. unfold upd. destruct (decide (k1 = k)) as [->|], (decide (k2 = k)) as [->|]; try done.
      * intros Hm1 Hm2. eapply (Hdisj k k2 m); [|done]. rewrite Hk. set_solver.
      * intros Hm1 Hm2. eapply (Hdisj k1 k m); [done|]. rewrite Hk. set_solver.
      * apply Hdisj.
    + intros k'. destruct (decide (k' = k)) as [->|Hk'].
      * rewrite upd_eq. by apply unlinked_links.
      * rewrite upd_ne by done. apply (node_links_agree (nodes self)); [|done]. intros m Hm.
        assert (Hout : m ∉ L k) by (intros Hin; by apply Hk', (Hdisj k' k m)).
        rewrite Hk in Hout. rewrite unlinked_get by done.
        rewrite decide_False by set_solver. rewrite (decide_False (P := hd_error l2 = Some m)).
        2:{ destruct l2; [done|]. intros [= ->]. set_solver. }
        rewrite (decide_False (P := last l1 = Some m)).
        2:{ intros Hin%last_Some_elem_of. set_solver. }
        unfold id. by destruct (slab_get m (nodes self)).
  - intros m Hm. by apply unlinked_owner.
Qed.
End lists.

(** ** Registrations and their nodes *)
Section rep.
Context `{Slab}.

Definition handle_arm (h : ArmHandle) : WaitKey * ArmResume := (ArmHandle_key h, ArmHandle_resume h).

Definition nodes_for (k : WaitKey) (arms : list ArmHandle) : list nat :=
  map ArmHandle_node_id (filter (fun h => ArmHandle_key h = k) arms).

Abbreviation Regs := (list (nat * SelectReg)) (only parsing).

(** The list of a key: its arms' nodes, in the order of registration. *)
Definition lists_of (rs : Regs) (k : WaitKey) : list nat :=
  concat (map (fun r => nodes_for k (SelectReg_arms r.2)) rs).

Definition all_nodes (rs : Regs) : list nat :=
  concat (map (fun r => map ArmHandle_node_id (SelectReg_arms r.2)) rs).

Record rep_lists (self : WaitRegistry) (rs : Regs) : Prop := {
  rl_ok : lists_ok (per_key self) (nodes self) (lists_of rs);
  rl_nodup : NoDup (all_nodes rs);
  rl_owner : forall id reg h, (id, reg) ∈ rs -> h ∈ SelectReg_arms reg ->
    owner (nodes self) (ArmHandle_node_id h) = Some (id, SelectReg_fiber_id reg)
}.

Record rep_regs (self : WaitRegistry) (rs : Regs) : Prop := {
  rr_nodup : NoDup rs.*1;
  rr_get : forall id reg, slab_get id (regs self) = Some reg <-> (id, reg) ∈ rs
}.

Definition abs (rs : Regs) : list Waiter :=
  map (fun r => mkWaiter r.1 (SelectReg_fiber_id r.2) (map handle_arm (SelectReg_arms r.2))) rs.

(** The registry [self] represents the waiters [ws]. *)
Definition represents (self : WaitRegistry) (ws : list Waiter) : Prop :=
  exists rs, rep_lists self rs /\ rep_regs self rs /\ ws = abs rs.

Lemma lists_of_app rs1 rs2 k : lists_of (rs1 ++ rs2) k = lists_of rs1 k ++ lists_of rs2 k.
Proof. unfold lists_of. by rewrite map_app, concat_app. Qed.
Lemma lists_of_cons id reg rs k :
  lists_of ((id, reg) :: rs) k = nodes_for k (SelectReg_arms reg) ++ lists_of rs k.
Proof. done. Qed.
Lemma all_nodes_app rs1 rs2 : all_nodes (rs1 ++ rs2) = all_nodes rs1 ++ all_nodes rs2.
Proof. unfold all_nodes. by rewrite map_app, concat_app. Qed.

Lemma nodes_for_cons k h arms :
  nodes_for k (h :: arms)
  = if decide (ArmHandle_key h = k) then ArmHandle_node_id h :: nodes_for k arms else nodes_for k arms.
Proof. unfold nodes_for. rewrite filter_cons. by destruct (decide _). Qed.

Lemma nodes_for_app k arms1 arms2 : nodes_for k (arms1 ++ arms2) = nodes_for k arms1 ++ nodes_for k arms2.
Proof. unfold nodes_for. by rewrite filter_app, map_app. Qed.

Lemma lists_of_all rs k n : n ∈ lists_of rs k -> n ∈ all_nodes rs.
Proof.
  intros (r & Hr & Hn)%elem_of_concat_map. apply elem_of_concat_map. exists r. split; [done|].
  unfold nodes_for in Hn. apply list_elem_of_fmap in Hn as (h & -> & [_ Hh]%list_elem_of_filter).
  apply list_elem_of_fmap. by exists h.
Qed.

Lemma default_represents : represents registry_default [].
Proof.
  exists []. split; [|split; [|done]].
  - split; [|constructor|by intros ??? ?%not_elem_of_nil].
    split; [intros k; apply lookup_empty|constructor|by intros ??? ?%not_elem_of_nil|].
    intros k l1 n l2 Heq. by destruct l1.
  - split; [constructor|]. intros id reg. cbn. rewrite slab_get_empty. split; [done|by intros ?%not_elem_of_nil].
Qed.

(** ** Registration *)

(** One arm more for the registration that is being built at the end. *)
Lemma register_arm_ok self rs id fiber hs arm :
  rep_lists self (rs ++ [(id, mkSelectReg fiber hs)]) ->
  exists h, handle_arm h = arm_of arm /\
    (register_arm id fiber (self, hs) arm).2 = hs ++ [h] /\
    rep_lists (register_arm id fiber (self, hs) arm).1 (rs ++ [(id, mkSelectReg fiber (hs ++ [h]))]) /\
    regs (register_arm id fiber (self, hs) arm).1 = regs self.
Proof.
  intros [Hok Hnd Hown].
  set (w := mkWaitNode None None id fiber).
  pose proof (slab_insert_fresh _ w (nodes self)) as Hfresh.
  pose proof (slab_get_insert _ w (nodes self)) as Hget.
  destruct (slab_insert w (nodes self)) as [n ns] eqn:Ei. cbn [fst snd] in Hfresh, Hget.
  set (key := (arm_of arm).1). set (self1 := mkWaitRegistry (per_key self) ns (regs self)).
  assert (Hall : n ∉ all_nodes (rs ++ [(id, mkSelectReg fiber hs)])).
  { intros (r & Hr & Hn)%elem_of_concat_map. apply list_elem_of_fmap in Hn as (h & -> & Hh).
    destruct r as [i reg]. pose proof (Hown i reg h Hr Hh) as Ho. unfold owner in Ho. by rewrite Hfresh in Ho. }
  assert (Hns : forall m, m <> n -> slab_get m ns = slab_get m (nodes self)).
  { intros m Hm. by rewrite Hget, decide_False. }
  assert (Hok1 : lists_ok (per_key self1) (nodes self1) (lists_of (rs ++ [(id, mkSelectReg fiber hs)]))).
  { destruct Hok as [H1 H2 H3 H4]. split; try done. intros k. apply (node_links_agree (nodes self)); [|done].
    intros m Hm%lists_of_all. apply Hns. by intros ->. }
  destruct (push_back_ok self1 key n w _ Hok1) as (Hok2 & Hown2 & Hregs2); try done.
  { cbn. by rewrite Hget, decide_True. }
  { intros k Hn%lists_of_all. by apply Hall. }
  assert (Hreg : exists kind, register_arm id fiber (self, hs) arm
    = (list_push_back self1 key n, hs ++ [mkArmHandle key n kind (arm_of arm).2])).
  { unfold register_arm. fold w. rewrite Ei. destruct arm; eexists; reflexivity. }
  destruct Hreg as [kind ->]. exists (mkArmHandle key n kind (arm_of arm).2).
  split; [by destruct arm|]. split; [done|]. split; [|exact Hregs2]. cbn [fst].
  assert (Hnodes : all_nodes (rs ++ [(id, mkSelectReg fiber (hs ++ [mkArmHandle key n kind (arm_of arm).2]))])
    = all_nodes (rs ++ [(id, mkSelectReg fiber hs)]) ++ [n]).
  { rewrite !all_nodes_app. unfold all_nodes at 2 4. cbn. rewrite !app_nil_r, map_app. by rewrite app_assoc. }
  split.
  - eapply lists_ok_ext; [|exact Hok2]. intros k. unfold upd. rewrite !lists_of_app, !lists_of_cons.
    cbn [SelectReg_arms]. rewrite nodes_for_app, nodes_for_cons. cbn [ArmHandle_key ArmHandle_node_id].
    destruct (decide (k = key)) as [->|Hk].
    + rewrite decide_True by done. cbn. by rewrite !app_nil_r, !app_assoc.
    + rewrite decide_False by congruence. cbn. by rewrite !app_nil_r.
  - rewrite Hnodes. apply NoDup_app. split; [done|]. split; [|apply NoDup_singleton].
    by intros m Hm ->%list_elem_of_singleton.
  - intros i reg h Hin Hh. rewrite Hown2.
    assert (Hold : forall i reg h, (i, reg) ∈ rs ++ [(id, mkSelectReg fiber hs)] -> h ∈ SelectReg_arms reg ->
      owner ns (ArmHandle_node_id h) = Some (i, SelectReg_fiber_id reg)).
    { intros i' reg' h' Hin' Hh'. rewrite <-(Hown i' reg' h') by done. unfold owner. rewrite Hns; [done|].
      intros Heq. apply Hall. apply elem_of_concat_map. exists (i', reg'). split; [done|].
      apply list_elem_of_fmap. by exists h'. }
    apply elem_of_app in Hin as [Hin|Heq%list_elem_of_singleton]; [by apply Hold; [set_solver|]|].
    injection Heq as -> ->. cbn in Hh. apply elem_of_app in Hh as [Hh| ->%list_elem_of_singleton].
    + apply (Hold id (mkSelectReg fiber hs) h); [set_solver|done].
    + cbn. unfold owner. by rewrite Hget, decide_True.
Qed.

Lemma register_arms_ok arms self rs id fiber hs :
  rep_lists self (rs ++ [(id, mkSelectReg fiber hs)]) ->
  exists hs', map handle_arm hs' = map arm_of arms /\
    (foldl (register_arm id fiber) (self, hs) arms).2 = hs ++ hs' /\
    rep_lists (foldl (register_arm id fiber) (self, hs) arms).1 (rs ++ [(id, mkSelectReg fiber (hs ++ hs'))]) /\
    regs (foldl (register_arm id fiber) (self, hs) arms).1 = regs self.
Proof.
  revert self hs. induction arms as [|arm arms IH]; intros self hs Hrep.
  - exists []. cbn. by rewrite app_nil_r.
  - destruct (register_arm_ok self rs id fiber hs arm Hrep) as (h & Hh & E1 & Hrep1 & Hr1). cbn [foldl].
    destruct (register_arm id fiber (self, hs) arm) as [self1 hs1]. cbn in E1, Hrep1, Hr1. subst hs1.
    destruct (IH self1 (hs ++ [h]) Hrep1) as (hs' & Hm & E2 & Hrep2 & Hr2).
    exists (h :: hs'). rewrite <-app_assoc in E2, Hrep2. cbn in *. rewrite Hh, Hm, Hr2. done.
Qed.

Lemma register_represents self ws fiber arms :
  represents self ws ->
  represents (register_select self fiber arms).1 (spec_register (register_select self fiber arms).2 fiber arms ws) /\
  (register_select self fiber arms).2 ∉ map w_id ws.
Proof.
  intros (rs & Hl & [Hnd Hget] & ->). unfold register_select.
  pose proof (slab_insert_fresh _ (mkSelectReg fiber []) (regs self)) as Hfresh.
  pose proof (slab_get_insert _ (mkSelectReg fiber []) (regs self)) as Hins.
  destruct (slab_insert (mkSelectReg fiber []) (regs self)) as [id rsl]. cbn [fst snd] in Hfresh, Hins.
  assert (Hid : id ∉ rs.*1).
  { intros ([i reg] & -> & Hin%Hget)%list_elem_of_fmap. cbn in Hfresh. congruence. }
  assert (Hl0 : rep_lists (mkWaitRegistry (per_key self) (nodes self) rsl) (rs ++ [(id, mkSelectReg fiber [])])).
  { destruct Hl as [H1 H2 H3]. split.
    - eapply lists_ok_ext; [|exact H1]. intros k. rewrite lists_of_app. cbn. by rewrite app_nil_r.
    - rewrite all_nodes_app. cbn. by rewrite app_nil_r.
    - intros i reg h [Hin|Heq%list_elem_of_singleton]%elem_of_app Hh; [by eapply H3|].
      injection Heq as -> ->. by apply not_elem_of_nil in Hh. }
  destruct (register_arms_ok arms _ rs id fiber [] Hl0) as (hs & Hm & E2 & Hrep & Hregs).
  destruct (foldl _ _ arms) as [self1 hs1]. cbn [fst snd app] in *. subst hs1. cbn in Hregs.
  rewrite Hregs. rewrite (Hins id), decide_True by done. cbn [SelectReg_fiber_id]. split.
  - exists (rs ++ [(id, mkSelectReg fiber hs)]). split; [|split].
    + destruct Hrep as [H1 H2 H3]. by split.
    + split; cbn [regs].
      * rewrite fmap_app. cbn. apply NoDup_app. split; [done|]. split; [|apply NoDup_singleton].
        by intros i Hi ->%list_elem_of_singleton.
      * intros i reg. rewrite slab_get_set by (rewrite Hins, decide_True; done).
        rewrite elem_of_app, list_elem_of_singleton. destruct (decide (i = id)) as [->|Hne].
        -- split; [intros [= <-]; by right|]. intros [Hin|[= ->]]; [|done]. exfalso. apply Hid.
           apply list_elem_of_fmap. by exists (id, reg).
        -- rewrite Hins, decide_False, Hget by done. naive_solver.
    + unfold spec_register, abs. rewrite map_app. cbn. by rewrite Hm.
  - unfold abs. rewrite map_map. cbn. exact Hid.
Qed.
End rep.

Section sim.
Context `{Slab}.

(** ** Removing a registration *)

(** Unlinking the first remaining arm of the registration in the middle. *)
Lemma unlink_first self rs1 id fiber h hs rs2 :
  rep_lists self (rs1 ++ (id, mkSelectReg fiber (h :: hs)) :: rs2) ->
  rep_lists (list_unlink self (ArmHandle_key h) (ArmHandle_node_id h))
    (rs1 ++ (id, mkSelectReg fiber hs) :: rs2) /\
  regs (list_unlink self (ArmHandle_key h) (ArmHandle_node_id h)) = regs self.
Proof.
  intros [Hok Hnd Hown]. set (k := ArmHandle_key h). set (n := ArmHandle_node_id h).
  assert (Hall : all_nodes (rs1 ++ (id, mkSelectReg fiber (h :: hs)) :: rs2)
    ≡ₚ n :: all_nodes (rs1 ++ (id, mkSelectReg fiber hs) :: rs2)).
  { rewrite !all_nodes_app. unfold all_nodes at 2 4. cbn. by rewrite <-Permutation_middle. }
  rewrite Hall in Hnd. apply NoDup_cons in Hnd as [Hn Hnd].
  destruct (unlink_ok self k n (lists_of rs1 k) (nodes_for k hs ++ lists_of rs2 k) _ Hok)
    as (Hok2 & Hown2 & Hregs).
  { rewrite lists_of_app, lists_of_cons. cbn [SelectReg_arms]. rewrite nodes_for_cons, decide_True by done. done. }
  split; [|exact Hregs]. split; [|done|].
  - eapply lists_ok_ext; [|exact Hok2]. intros k'. unfold upd. rewrite !lists_of_app, !lists_of_cons.
    cbn [SelectReg_arms]. destruct (decide (k' = k)) as [->|Hk]; [done|].
    by rewrite nodes_for_cons, decide_False by (intros Heq; by apply Hk).
  - intros i reg h' Hin Hh'.
    assert (Hmem : ArmHandle_node_id h' ∈ all_nodes (rs1 ++ (id, mkSelectReg fiber hs) :: rs2)).
    { apply elem_of_concat_map. exists (i, reg). split; [done|]. apply list_elem_of_fmap. by exists h'. }
    rewrite Hown2 by (intros Heq; rewrite Heq in Hmem; done).
    apply elem_of_app in Hin as [Hin|[Heq|Hin]%elem_of_cons].
    + apply Hown; [set_solver|done].
    + injection Heq as -> ->. apply (Hown id (mkSelectReg fiber (h :: hs))); [set_solver|]. cbn in *. set_solver.
    + apply Hown; [set_solver|done].
Qed.

Lemma rep_lists_empty self rs1 id fiber rs2 :
  rep_lists self (rs1 ++ (id, mkSelectReg fiber []) :: rs2) -> rep_lists self (rs1 ++ rs2).
Proof.
  intros [Hok Hnd Hown]. split.
  - eapply lists_ok_ext; [|exact Hok]. intros k. by rewrite !lists_of_app, lists_of_cons.
  - by rewrite !all_nodes_app in *.
  - intros i reg h Hin. apply Hown. set_solver.
Qed.

(** The whole loop of [wake_one]: every arm is unlinked, and the arm of the head node is
    the one found. *)
Lemma unlink_arms_ok head_id hs self found rs1 id fiber rs2 :
  rep_lists self (rs1 ++ (id, mkSelectReg fiber hs) :: rs2) ->
  let st := foldl (unlink_arm head_id) (self, found) hs in
  rep_lists st.1 (rs1 ++ rs2) /\ regs st.1 = regs self /\
  (forall h, h ∈ hs -> ArmHandle_node_id h = head_id -> st.2 = Some (ArmHandle_resume h)) /\
  ((forall h, h ∈ hs -> ArmHandle_node_id h <> head_id) -> st.2 = found).
Proof.
  revert self found. induction hs as [|h hs IH]; intros self found Hrep; cbn zeta.
  - split; [by eapply rep_lists_empty|]. split; [done|]. split; [by intros h ?%not_elem_of_nil|done].
  - destruct (unlink_first _ _ _ _ _ _ _ Hrep) as [Hrep1 Hr1]. cbn [foldl].
    change (unlink_arm head_id (self, found) h) with
      (list_unlink self (ArmHandle_key h) (ArmHandle_node_id h),
       if decide (ArmHandle_node_id h = head_id) then Some (ArmHandle_resume h) else found).
    assert (Hnd : forall h', h' ∈ hs -> ArmHandle_node_id h' <> ArmHandle_node_id h).
    { intros h' Hh' Heq. pose proof (rl_nodup _ _ Hrep) as Hn. rewrite all_nodes_app in Hn.
      apply NoDup_app in Hn as (_ & _ & Hn). unfold all_nodes in Hn. cbn in Hn. apply NoDup_cons in Hn as [Hn _].
      apply Hn. apply elem_of_app. left. rewrite <-Heq. apply list_elem_of_fmap. by exists h'. }
    destruct (IH _ (if decide (ArmHandle_node_id h = head_id) then Some (ArmHandle_resume h) else found) Hrep1)
      as (I1 & I2 & I3 & I4).
    split; [exact I1|]. split; [by rewrite I2, Hr1|]. split.
    + intros h' [->|Hin]%elem_of_cons Hid; [|by apply I3].
      rewrite I4; [by rewrite decide_True|]. intros h2 Hh2. rewrite <-Hid. by apply Hnd.
    + intros Hno. rewrite I4 by (intros; apply Hno; by right). rewrite decide_False; [done|]. apply Hno. left.
Qed.

(** The concrete list of a key is empty iff nobody waits for it in the specification. *)
Lemma arm_for_split k hs :
  match arm_for k (map handle_arm hs) with
  | None => nodes_for k hs = []
  | Some r => exists h l, h ∈ hs /\ ArmHandle_resume h = r /\ nodes_for k hs = ArmHandle_node_id h :: l
  end.
Proof.
  induction hs as [|h hs IH]; [done|]. cbn [map arm_for handle_arm]. rewrite nodes_for_cons.
  destruct (decide (ArmHandle_key h = k)).
  - exists h, (nodes_for k hs). split; [left|done].
  - destruct (arm_for k (map handle_arm hs)); [|done]. destruct IH as (h' & l & Hin & ? & ?).
    exists h', l. split; [by right|done].
Qed.

Lemma spec_wake_split k rs :
  match spec_wake k (abs rs) with
  | None => lists_of rs k = []
  | Some (out, ws') => exists rs1 id reg rs2 r, rs = rs1 ++ (id, reg) :: rs2 /\ lists_of rs1 k = [] /\
      arm_for k (map handle_arm (SelectReg_arms reg)) = Some r /\
      out = mkWakeOutcome (SelectReg_fiber_id reg) (ArmResume_bind r) (ArmResume_next r) /\
      ws' = abs (rs1 ++ rs2)
  end.
Proof.
  induction rs as [|[id reg] rs IH]; [done|]. cbn [abs map fst snd spec_wake w_arms w_fiber].
  destruct (arm_for k (map handle_arm (SelectReg_arms reg))) as [r|] eqn:E.
  - exists [], id, reg, rs, r. done.
  - fold (abs rs). pose proof (arm_for_split k (SelectReg_arms reg)) as Hs. rewrite E in Hs.
    destruct (spec_wake k (abs rs)) as [[out ws']|]; cbn [mbind option_bind].
    + destruct IH as (rs1 & id' & reg' & rs2 & r & -> & Hn & Hr & -> & ->).
      exists ((id, reg) :: rs1), id', reg', rs2, r. rewrite lists_of_cons, Hs, Hn. done.
    + by rewrite lists_of_cons, Hs, IH.
Qed.

Lemma remove_reg_ok (self : WaitRegistry) rs1 id reg rs2 :
  rep_regs self (rs1 ++ (id, reg) :: rs2) ->
  slab_get id (regs self) = Some reg /\
  forall pk ns, rep_regs (mkWaitRegistry pk ns (slab_remove id (regs self))) (rs1 ++ rs2).
Proof.
  intros [Hnd Hget]. rewrite fmap_app in Hnd. cbn in Hnd. rewrite <-Permutation_middle in Hnd.
  apply NoDup_cons in Hnd as [Hid Hnd]. split; [apply Hget; set_solver|]. intros pk ns. split; cbn [regs].
  - by rewrite fmap_app.
  - intros i r. rewrite slab_get_remove. destruct (decide (i = id)) as [->|Hne].
    + split; [done|]. intros Hin. exfalso. apply Hid. rewrite <-fmap_app. apply list_elem_of_fmap. by exists (id, r).
    + rewrite Hget, !elem_of_app, elem_of_cons. naive_solver.
Qed.

Lemma rep_regs_same self self' rs : regs self' = regs self -> rep_regs self rs -> rep_regs self' rs.
Proof. intros Heq [Hnd Hget]. split; [done|]. by rewrite Heq. Qed.

Lemma wake_represents self ws k :
  represents self ws ->
  match spec_wake k ws with
  | None => wake_one self k = Ok (None, self)
  | Some (out, ws') => exists self', wake_one self k = Ok (Some out, self') /\ represents self' ws'
  end.
Proof.
  intros (rs & Hl & Hr & ->). pose proof (spec_wake_split k rs) as Hs. unfold wake_one.
  rewrite (lo_entry _ _ _ (rl_ok _ _ Hl)).
  destruct (spec_wake k (abs rs)) as [[out ws']|]; [|by rewrite Hs].
  destruct Hs as (rs1 & id & reg & rs2 & r & -> & Hn & Harm & -> & ->).
  pose proof (arm_for_split k (SelectReg_arms reg)) as Ha. rewrite Harm in Ha.
  destruct Ha as (h & l & Hh & <- & Hnodes).
  rewrite lists_of_app, lists_of_cons, Hn, Hnodes. cbn [app list_entry option_bind mbind head].
  pose proof (rl_owner _ _ Hl id reg h ltac:(set_solver) Hh) as Ho. unfold owner in Ho.
  apply fmap_Some in Ho as (w & Hw & Hwid). rewrite Hw. cbn [expect mbind result_bind].
  injection Hwid as Hwi Hwf. rewrite <-Hwi, <-Hwf.
  destruct (remove_reg_ok _ _ _ _ _ Hr) as [Hget Hrem]. rewrite Hget. cbn [expect mbind result_bind].
  set (self1 := mkWaitRegistry (per_key self) (nodes self) (slab_remove id (regs self))).
  destruct reg as [fiber hs].
  assert (Hl1 : rep_lists self1 (rs1 ++ (id, mkSelectReg fiber hs) :: rs2)) by (by destruct Hl as [? ? ?]; split).
  destruct (unlink_arms_ok (ArmHandle_node_id h) hs self1 None rs1 id fiber rs2 Hl1) as (U1 & U2 & U3 & _).
  cbn [SelectReg_arms] in *. destruct (foldl _ _ hs) as [self2 found]. cbn [fst snd] in *.
  rewrite (U3 h Hh eq_refl). cbn. eexists. split; [reflexivity|]. exists (rs1 ++ rs2). split; [exact U1|].
  split; [|done]. eapply rep_regs_same; [exact U2|]. apply Hrem.
Qed.

Lemma cancel_fold (hs : list ArmHandle) self removed :
  foldl (fun '(self, removed) arm =>
     (list_unlink self (ArmHandle_key arm) (ArmHandle_node_id arm), S removed)) (self, removed) hs
  = ((foldl (unlink_arm 0) (self, None) hs).1, length hs + removed).
Proof.
  assert (Hgen : forall found, foldl (fun '(self, removed) arm =>
     (list_unlink self (ArmHandle_key arm) (ArmHandle_node_id arm), S removed)) (self, removed) hs
    = ((foldl (unlink_arm 0) (self, found) hs).1, length hs + removed)); [|apply Hgen].
  revert self removed. induction hs as [|h hs IH]; intros self removed found; [done|]. cbn [foldl].
  rewrite (IH _ _ (if decide (ArmHandle_node_id h = 0) then Some (ArmHandle_resume h) else found)).
  f_equal. cbn. lia.
Qed.

Lemma cancel_represents self ws id :
  represents self ws ->
  represents (cancel_by_registered_select_id self id).1 (spec_cancel id ws) /\
  (cancel_by_registered_select_id self id).2
    = sum_list (map (fun w => if decide (w_id w = id) then length (w_arms w) else 0) ws).
Proof.
  intros (rs & Hl & Hr & ->). unfold cancel_by_registered_select_id.
  destruct (slab_get id (regs self)) as [reg|] eqn:E.
  - pose proof E as Hin. apply (rr_get _ _ Hr) in Hin. apply list_elem_of_split in Hin as (rs1 & rs2 & ->).
    destruct (remove_reg_ok _ _ _ _ _ Hr) as [_ Hrem]. destruct reg as [fiber hs]. cbn [SelectReg_arms].
    set (self1 := mkWaitRegistry (per_key self) (nodes self) (slab_remove id (regs self))).
    assert (Hl1 : rep_lists self1 (rs1 ++ (id, mkSelectReg fiber hs) :: rs2)) by (by destruct Hl as [? ? ?]; split).
    rewrite cancel_fold. destruct (unlink_arms_ok 0 hs self1 None rs1 id fiber rs2 Hl1) as (U1 & U2 & _).
    assert (Hother : forall r, r ∈ rs1 ++ rs2 -> r.1 <> id).
    { intros r Hin Heq. pose proof (rr_nodup _ _ Hr) as Hn. rewrite fmap_app in Hn. cbn in Hn.
      rewrite <-Permutation_middle in Hn. apply NoDup_cons in Hn as [Hn _]. apply Hn.
      rewrite <-fmap_app. apply list_elem_of_fmap. by exists r. }
    split.
    + exists (rs1 ++ rs2). split; [exact U1|]. split; [eapply rep_regs_same; [exact U2|apply Hrem]|].
      unfold spec_cancel, abs. rewrite !map_app, filter_app. cbn [map]. rewrite filter_cons_False by naive_solver.
      rewrite <-filter_app, <-map_app. clear -Hother. induction (rs1 ++ rs2) as [|r l IH]; [done|]. cbn [map].
      rewrite filter_cons_True by (apply Hother; left). f_equal. apply IH. intros; apply Hother; by right.
    + cbn [snd]. unfold abs. rewrite !map_app. cbn [map w_id w_arms fst snd SelectReg_arms].
      assert (Hz : forall l : list (nat * SelectReg), (forall r, r ∈ l -> r.1 <> id) ->
        sum_list (map (fun w => if decide (w_id w = id) then length (w_arms w) else 0)
          (map (fun r => mkWaiter r.1 (SelectReg_fiber_id r.2) (map handle_arm (SelectReg_arms r.2))) l)) = 0).
      { induction l as [|r l IH]; intros Hl'; [done|]. cbn. rewrite decide_False by (apply Hl'; left).
        apply IH. intros; apply Hl'; by right. }
      rewrite sum_list_with_app. cbn. rewrite decide_True by done.
      rewrite !Hz by (intros; apply Hother; set_solver). rewrite length_map. lia.
  - assert (Hno : forall r, r ∈ rs -> r.1 <> id).
    { intros [i reg] Hin Heq. cbn in Heq. subst i. apply (rr_get _ _ Hr) in Hin. congruence. }
    cbn [fst snd]. split.
    + exists rs. split; [done|]. split; [done|]. unfold spec_cancel, abs. clear -Hno.
      induction rs as [|r l IH]; [done|]. cbn [map]. rewrite filter_cons_True by (apply Hno; left).
      f_equal. apply IH. intros; apply Hno; by right.
    + clear -Hno. induction rs as [|r l IH]; [done|]. cbn. rewrite decide_False by (apply Hno; left).
      apply IH. intros; apply Hno; by right.
Qed.
End sim.

(** ** Runs *)
Inductive Op : Type :=
| Op_Register (fiber_id : Z) (arms : list SelectArm)
| Op_Wake (key : WaitKey)
| Op_Cancel (id : nat).

Inductive Answer : Type :=
| Answer_Registered (id : nat)
| Answer_Woken (outcome : option WakeOutcome)
| Answer_Cancelled (removed : nat).

Definition run_op `{Slab} (self : WaitRegistry) (op : Op) : result (WaitRegistry * Answer) :=
  match op with
  | Op_Register fiber_id arms =>
      let '(self, id) := register_select self fiber_id arms in Ok (self, Answer_Registered id)
  | Op_Wake key => '(out, self) ← wake_one self key; Ok (self, Answer_Woken out)
  | Op_Cancel id =>
      let '(self, removed) := cancel_by_registered_select_id self id in Ok (self, Answer_Cancelled removed)
  end.

Fixpoint run_ops `{Slab} (self : WaitRegistry) (ops : list Op) : result (WaitRegistry * list Answer) :=
  match ops with
  | [] => Ok (self, [])
  | op :: ops' =>
      '(self, answer) ← run_op self op;
      '(self, answers) ← run_ops self ops';
      Ok (self, answer :: answers)
  end.

(** What the specification allows an operation to answer. *)
Inductive spec_op (ws : list Waiter) : Op -> Answer -> list Waiter -> Prop :=
| spec_op_register fiber_id arms id : id ∉ map w_id ws ->
    spec_op ws (Op_Register fiber_id arms) (Answer_Registered id) (spec_register id fiber_id arms ws)
| spec_op_wake key out ws' : spec_wake key ws = Some (out, ws') ->
    spec_op ws (Op_Wake key) (Answer_Woken (Some out)) ws'
| spec_op_wake_nobody key : spec_wake key ws = None -> spec_op ws (Op_Wake key) (Answer_Woken None) ws
| spec_op_cancel id : spec_op ws (Op_Cancel id)
    (Answer_Cancelled (sum_list (map (fun w => if decide (w_id w = id) then length (w_arms w) else 0) ws)))
    (spec_cancel id ws).

Inductive spec_ops : list Waiter -> list Op -> list Answer -> list Waiter -> Prop :=
| spec_ops_nil ws : spec_ops ws [] [] ws
| spec_ops_cons ws op answer ws1 ops answers ws2 :
    spec_op ws op answer ws1 -> spec_ops ws1 ops answers ws2 ->
    spec_ops ws (op :: ops) (answer :: answers) ws2.

Lemma run_op_simulates `{Slab} self ws op :
  represents self ws ->
  exists self' answer ws', run_op self op = Ok (self', answer) /\ spec_op ws op answer ws' /\ represents self' ws'.
Proof.
  intros Hrep. destruct op as [fiber arms|key|id]; cbn [run_op].
  - destruct (register_represents self ws fiber arms Hrep) as [Hr Hid].
    destruct (register_select self fiber arms) as [self' id]. cbn in Hr, Hid.
    exists self', (Answer_Registered id), (spec_register id fiber arms ws). split; [done|]. split; [by constructor|done].
  - pose proof (wake_represents self ws key Hrep) as Hw. destruct (spec_wake key ws) as [[out ws']|] eqn:E.
    + destruct Hw as (self' & -> & Hr). exists self', (Answer_Woken (Some out)), ws'. split; [done|].
      split; [by constructor|done].
    + rewrite Hw. exists self, (Answer_Woken None), ws. split; [done|]. split; [by constructor|done].
  - destruct (cancel_represents self ws id Hrep) as [Hr Hn].
    destruct (cancel_by_registered_select_id self id) as [self' removed]. cbn in Hr, Hn. subst removed.
    do 3 eexists. split; [done|]. split; [constructor|done].
Qed.

(** A registry that represents no waiter holds no list and no registration. *)
Lemma registry_leaves_no_garbage `{Slab} self :
  represents self [] -> per_key self = ∅ /\ forall id, slab_get id (regs self) = None.
Proof.
  intros (rs & Hl & Hr & Heq). destruct rs; [|done]. split.
  - apply map_eq. intros k. rewrite (lo_entry _ _ _ (rl_ok _ _ Hl)). by rewrite lookup_empty.
  - intros id. destruct (slab_get id (regs self)) as [reg|] eqn:E; [|done].
    apply (rr_get _ _ Hr) in E. by apply not_elem_of_nil in E.
Qed.

(** ** Properties *)

(** C10: the registry with its intrusive linked lists refines the abstract list of
    waiters: any sequence of registrations, wakes and cancellations runs without
    hitting one of its consistency panics and gives answers the specification gives:
    a wake resumes the fiber of the oldest registration with an arm for the key, by its
    first such arm, and removes all its sibling arms, and wakes nobody only if nobody
    waits; when nobody is left no list of any key is left either. *)
Theorem registry_refines_spec `{Slab} ops :
  exists self answers ws, run_ops registry_default ops = Ok (self, answers) /\
    spec_ops [] ops answers ws /\ represents self ws /\ (ws = [] -> per_key self = ∅).
Proof.
  enough (forall self ws, represents self ws -> exists self' answers ws',
    run_ops self ops = Ok (self', answers) /\ spec_ops ws ops answers ws' /\ represents self' ws') as Hgo.
  { destruct (Hgo _ _ default_represents) as (self & answers & ws & Hrun & Hspec & Hrep).
    exists self, answers, ws. split_and!; try done. intros ->. by apply registry_leaves_no_garbage. }
  induction ops as [|op ops IH]; intros self ws Hrep.
  - exists self, [], ws. split; [done|]. split; [constructor|done].
  - destruct (run_op_simulates self ws op Hrep) as (self1 & a & ws1 & E1 & Hs1 & Hr1).
    destruct (IH self1 ws1 Hr1) as (self2 & answers & ws2 & E2 & Hs2 & Hr2).
    exists self2, (a :: answers), ws2. cbn. rewrite E1. cbn. rewrite E2. cbn.
    split; [done|]. split; [by econstructor|done].
Qed.
