(* ===== verification/Fiber.v ===== *)
(** * Fibers: the stack machine that runs the generated step function

    Models [runtime/src/fiber.rs] and [runtime/src/trace.rs]. A fiber's stack is the
    [Vec] of the source, its top the end of the list. [run_step] is one iteration of
    the loop of [Fiber::run]; [run] iterates it with a fuel, because the loop need
    not end. A [Vec] index out of range panics, so does a subtraction that
    underflows where the profile checks it. *)
From S2P Require Import Prelude Types Values Assembler.
From Stdlib Require Import Ascii.
Local Open Scope string_scope.
Local Open Scope list_scope.

(** ** State *)
Record TraceEvent := mkTraceEvent {
  TraceEvent_state : State;
  TraceEvent_result : StepResult
}.

Record Fiber := mkFiber {
  stack : list StackEntry;
  heap : Heap;
  function_key : string;
  f_type : string;
  unique_id : Z;
  trace_sink : list TraceEvent
}.

Inductive RunResult : Type :=
| RunResult_Done
| RunResult_Select (arms : list SelectArm)
| RunResult_SetValues (values : list SetPrimitiveValue)
| RunResult_CreateFibers (details : list (string * list Value))
| RunResult_Create (primitives : list CreatePrimitiveValue)
    (success_next : State) (success_binds : list string)
    (success_kinds : list SuccessBindKind)
    (fail_next : State) (fail_binds : list string).

Definition set_stack (st : list StackEntry) (self : Fiber) : Fiber :=
  mkFiber st (heap self) (function_key self) (f_type self) (unique_id self) (trace_sink self).

(** ** Construction and resumption *)

(** [Fiber::new]. *)
Definition fiber_new (f_type : string) (unique_id : Z) (init_vars : list Value) : result Fiber :=
  let f_name := f_type +:+ "." +:+ "main" in
  f ← get_prepare_fn f_name;
  let heap := get_heap_init_fn f_type init_vars in
  stack ← f [];
  Ok (mkFiber stack heap f_name f_type unique_id []).

(** [self.stack.pop()]. *)
Definition pop (st : list StackEntry) : option (StackEntry * list StackEntry) :=
  match reverse st with
  | [] => None
  | x :: r => Some (x, reverse r)
  end.

(** The first entry named [name] from the top, replaced: the search of [assign_local],
    on the reversed stack. *)
Fixpoint assign_first (name : string) (val : Value) (top_down : list StackEntry)
  : option (list StackEntry) :=
  match top_down with
  | [] => None
  | StackEntry_Value n v :: rest =>
      if decide (n = name) then Some (StackEntry_Value n val :: rest)
      else cons (StackEntry_Value n v) <$> assign_first name val rest
  | e :: rest => cons e <$> assign_first name val rest
  end.

Definition assign_local (name : string) (val : Value) (self : Fiber) : result Fiber :=
  top_down ← expect "didnt find the value with the right name, something is completely wrong"
               (assign_first name val (reverse (stack self)));
  Ok (set_stack (reverse top_down) self).

Definition push_next (next : State) (self : Fiber) : Fiber :=
  set_stack (stack self ++ [StackEntry_State next]) self.

Definition assign_local_and_push_next (name : string) (val : Value) (next : State) (self : Fiber)
  : result Fiber :=
  self ← assign_local name val self;
  Ok (push_next next self).

(** ** Debug output *)
Definition newline : string := String "010"%char "".


(** One line of [DebugPrintVars]. *)
Definition print_var (sink : string) (se : StackEntry) : string :=
  match se with
  | StackEntry_Value name val =>
      sink +:+ name +:+ "=" +:+
        match val with
        | Value_U64 x => debug_u64 x
        | Value_String s => s
        | Value_Unit => "()"
        | _ => debug_Value val
        end +:+ newline
  | _ => sink
  end.

(** ** The loop of [run] *)
Section run.
Context `{Profile}.

(** [self.stack[idx] = ...], keeping the label of the value that is there. *)
Definition overwrite (idx : nat) (default_label : string) (val : Value) (st : list StackEntry)
  : result (list StackEntry) :=
  old ← expect "index out of bounds" (st !! idx);
  let label := match old with StackEntry_Value label _ => label | _ => default_label end in
  Ok (<[idx := StackEntry_Value label val]> st).

(** [truncate(start)], then the return marker. *)
Definition pop_frame (start : nat) (st : list StackEntry) : result (list StackEntry * option nat) :=
  '(top, st) ← expect "stack is corrupted. No return instruction" (pop (take start st));
  match (top : StackEntry) with
  | StackEntry_Retrn return_instruction => Ok (st : list StackEntry, return_instruction)
  | _ => Panic "there is no return instruction on stack. Stack is corrupted"
  end.

(** [self.stack.len() - offset], used as an index: where the subtraction wraps around,
    the index is beyond every [Vec]. *)
Definition bind_index (len offset : nat) : result nat :=
  if decide (offset <= len)%nat then Ok (len - offset)%nat
  else Panic (if overflow_checks then "attempt to subtract with overflow" else "index out of bounds").

Definition bind_return (return_instruction : option nat) (val : Value) (st : list StackEntry)
  : result (list StackEntry) :=
  match return_instruction with
  | None => Ok st
  | Some offset =>
      ret_value_bind_index ← bind_index (length st) offset;
      overwrite ret_value_bind_index "ret" val st
  end.

(** The entries of [Next], applied in order. *)
Definition apply_entry (start : nat) (st : list StackEntry) (se : StackEntry)
  : result (list StackEntry) :=
  match se with
  | StackEntry_FrameAssign updates =>
      for_each updates (fun st '(ofs, val) => overwrite (start + ofs) "_" val st) st
  | other => Ok (st ++ [other])
  end.

(** What [run] does with the result of a step: the new stack, what it writes, and the
    value it returns if it does. [st] is the stack without the state that was popped. *)
Definition apply_result (start : nat) (st : list StackEntry) (res : StepResult)
  : result (list StackEntry * (string -> string) * option RunResult) :=
  let push s := st ++ [StackEntry_State s] in
  match res with
  | StepResult_Debug msg next => Ok (push next, fun sink => sink +:+ msg +:+ newline, None)
  | StepResult_DebugPrintVars next =>
      Ok (push next, fun sink => foldl print_var sink (drop start st), None)
  | StepResult_Return val =>
      '(st, return_instruction) ← pop_frame start st;
      st ← bind_return return_instruction val st;
      Ok (st, id, None)
  | StepResult_ReturnVoid =>
      '(st, _) ← pop_frame start st;
      Ok (st, id, None)
  | StepResult_GoTo state => Ok (push state, id, None)
  | StepResult_Next entries =>
      st ← for_each entries (apply_entry start) st;
      Ok (st, id, None)
  | StepResult_Select arms => Ok (st, id, Some (RunResult_Select arms))
  | StepResult_CreateFibers details next =>
      Ok (push next, id, Some (RunResult_CreateFibers details))
  | StepResult_Create primitives success_next success_binds success_kinds fail_next fail_binds =>
      Ok (st, id, Some (RunResult_Create primitives success_next success_binds success_kinds
                          fail_next fail_binds))
  | StepResult_SetValues values next => Ok (push next, id, Some (RunResult_SetValues values))
  | StepResult_Done | StepResult_Todo _ => Ok (st, id, None)
  end.

(** One iteration of the loop. *)
Definition run_step (self : Fiber) (sink : string) : result (Fiber * string * option RunResult) :=
  match pop (stack self) with
  | None => Ok (self, sink, Some RunResult_Done)
  | Some (StackEntry_State state, st) =>
      let arguments_number := func_args_count state in
      if decide (length st < arguments_number)%nat then Panic "miss amount of variables"
      else
        let start := (length st - arguments_number)%nat in
        '(res, heap) ← global_step state (drop start st) (heap self);
        '(st, write, returned) ← apply_result start st res;
        Ok (mkFiber st heap (function_key self) (f_type self) (unique_id self)
              (trace_sink self ++ [mkTraceEvent state res]),
            (write : string -> string) sink, returned)
  | Some (_, _) => Ok (self, sink, Some RunResult_Done)
  end.

Fixpoint run (fuel : nat) (self : Fiber) (sink : string) : result (Fiber * string * RunResult) :=
  match fuel with
  | O => OutOfFuel
  | S fuel' =>
      '(self, sink, returned) ← run_step self sink;
      match (returned : option RunResult) with
      | Some r => Ok (self, sink, r)
      | None => run fuel' self sink
      end
  end.
End run.
