(* ===== verification/FiberTypes.v ===== *)
(** * Types of the generated program's frames, and the soundness of the stack machine

    The generated step function reads the variables of a frame by position and
    panics ([unreachable!], an index out of range, a corrupted stack) when a frame
    has not the shape it expects. This file gives every function of the sample
    program its frame layout, taken from its [prepare] function, and shows that a
    fiber whose stack has those layouts keeps them, and fails in nothing but the
    checked arithmetic of the program itself. *)
From S2P Require Import Prelude Types Values Assembler Fiber.
Local Open Scope string_scope.
Local Open Scope list_scope.

(** ** Types of values *)
Inductive vtype : Type :=
| T_ArrayU64 | T_Bool | T_FutureTestIncrementTask | T_FutureU64 | T_FutureUnit
| T_OptionString | T_OptionU64 | T_String | T_TestCalculatorTask | T_TestCreateQueueMessage
| T_TestCreateQueueMessagePub | T_TestIncrementTask | T_TestInfiniteSummatorQueueMessage
| T_TestInfiniteSummatorQueueMessagePub | T_U64 | T_Unit.

#[export] Instance vtype_eq_dec : EqDecision vtype.
Proof. solve_decision. Defined.

Definition type_of (v : Value) : vtype :=
  match v with
  | Value_ArrayU64 _ => T_ArrayU64
  | Value_Bool _ => T_Bool
  | Value_FutureTestIncrementTask _ => T_FutureTestIncrementTask
  | Value_FutureU64 _ => T_FutureU64
  | Value_FutureUnit _ => T_FutureUnit
  | Value_OptionString _ => T_OptionString
  | Value_OptionU64 _ => T_OptionU64
  | Value_String _ => T_String
  | Value_TestCalculatorTask _ => T_TestCalculatorTask
  | Value_TestCreateQueueMessage _ => T_TestCreateQueueMessage
  | Value_TestCreateQueueMessagePub _ => T_TestCreateQueueMessagePub
  | Value_TestIncrementTask _ => T_TestIncrementTask
  | Value_TestInfiniteSummatorQueueMessage _ => T_TestInfiniteSummatorQueueMessage
  | Value_TestInfiniteSummatorQueueMessagePub _ => T_TestInfiniteSummatorQueueMessagePub
  | Value_U64 _ => T_U64
  | Value_Unit => T_Unit
  end.

(** ** Functions, their frames and what they return *)
Inductive fn : Type :=
| Fn_Root | Fn_Calculator | Fn_CreateQueue | Fn_BinarySearch | Fn_Factorial | Fn_Main | Fn_Mult
| Fn_Sub | Fn_InfiniteSummator | Fn_RootFiber | Fn_SleepTest | Fn_SelectQueue | Fn_Incrementer.

#[export] Instance fn_eq_dec : EqDecision fn.
Proof. solve_decision. Defined.

Definition fn_of (s : State) : option fn :=
  match s with
  | State_Completed | State_Idle => None
  | State_RootMainEntry | State_RootMainReturn => Some Fn_Root
  | State_TestCalculatorMainCalculate | State_TestCalculatorMainDebugGottenTask
  | State_TestCalculatorMainDebugVars | State_TestCalculatorMainEntry
  | State_TestCalculatorMainResponse | State_TestCalculatorMainReturn
  | State_TestCalculatorMainSelectQueue => Some Fn_Calculator
  | State_TestCreateQueueMainAnswer | State_TestCreateQueueMainAwaitOnQueue
  | State_TestCreateQueueMainCleanUp | State_TestCreateQueueMainCorrectCreation
  | State_TestCreateQueueMainDebugVars | State_TestCreateQueueMainDebugVars2
  | State_TestCreateQueueMainDebugVars3 | State_TestCreateQueueMainEntry
  | State_TestCreateQueueMainExtractFutAndInc | State_TestCreateQueueMainReturn
  | State_TestCreateQueueMainWrongQueueCreation => Some Fn_CreateQueue
  | State_TestFunctionsCallBinarySearchCalculateDiv | State_TestFunctionsCallBinarySearchCmpLess
  | State_TestFunctionsCallBinarySearchEntry | State_TestFunctionsCallBinarySearchGoLeft
  | State_TestFunctionsCallBinarySearchGoLeftCheckOverflow
  | State_TestFunctionsCallBinarySearchGoRight | State_TestFunctionsCallBinarySearchRecursiveCall
  | State_TestFunctionsCallBinarySearchReturnNone | State_TestFunctionsCallBinarySearchReturnFound
  | State_TestFunctionsCallBinarySearchReturnIfEqual
  | State_TestFunctionsCallBinarySearchReturnResult => Some Fn_BinarySearch
  | State_TestFunctionsCallFactorialEntry | State_TestFunctionsCallFactorialFactorialCall
  | State_TestFunctionsCallFactorialMultiply | State_TestFunctionsCallFactorialReturn
  | State_TestFunctionsCallFactorialReturn1 | State_TestFunctionsCallFactorialSubtract =>
      Some Fn_Factorial
  | State_TestFunctionsCallMainAfterBinary | State_TestFunctionsCallMainAfterFactorial
  | State_TestFunctionsCallMainAfterMultiply | State_TestFunctionsCallMainBinarySearch
  | State_TestFunctionsCallMainEntry | State_TestFunctionsCallMainFactorial
  | State_TestFunctionsCallMainFinish | State_TestFunctionsCallMainMultiply
  | State_TestFunctionsCallMainSetBSearchValues => Some Fn_Main
  | State_TestFunctionsCallMultEntry => Some Fn_Mult
  | State_TestFunctionsCallSubEntry => Some Fn_Sub
  | State_TestInfiniteSummatorMainCalculate | State_TestInfiniteSummatorMainCreateQueue
  | State_TestInfiniteSummatorMainEntry | State_TestInfiniteSummatorMainResponse
  | State_TestInfiniteSummatorMainReturn | State_TestInfiniteSummatorMainSelectQueue =>
      Some Fn_InfiniteSummator
  | State_TestRootFiberMainAwaitResponse | State_TestRootFiberMainAwaitResponse2
  | State_TestRootFiberMainCreateFiber | State_TestRootFiberMainCreateFuture
  | State_TestRootFiberMainCreateQueueues | State_TestRootFiberMainEntry
  | State_TestRootFiberMainPrepareCalculationRequests | State_TestRootFiberMainReturn
  | State_TestRootFiberMainReturnDbg | State_TestRootFiberMainSendCalculationRequest =>
      Some Fn_RootFiber
  | State_TestRootFiberSleepTestMainCreatePrimitives | State_TestRootFiberSleepTestMainEntry
  | State_TestRootFiberSleepTestMainReturn | State_TestRootFiberSleepTestMainReturnDbg
  | State_TestRootFiberSleepTestMainSeelect => Some Fn_SleepTest
  | State_TestSelectQueueMainCompare | State_TestSelectQueueMainEntry
  | State_TestSelectQueueMainIncFromFut | State_TestSelectQueueMainInitFutureId
  | State_TestSelectQueueMainPrepareCond | State_TestSelectQueueMainReturn
  | State_TestSelectQueueMainSelectCounter | State_TestSelectQueueMainStartWork =>
      Some Fn_SelectQueue
  | State_TestTaskExecutorIncrementerMainAwait | State_TestTaskExecutorIncrementerMainDebug2
  | State_TestTaskExecutorIncrementerMainDebugVars | State_TestTaskExecutorIncrementerMainDebugVars2
  | State_TestTaskExecutorIncrementerMainEntry | State_TestTaskExecutorIncrementerMainIncrement
  | State_TestTaskExecutorIncrementerMainInitQueueName
  | State_TestTaskExecutorIncrementerMainReturn
  | State_TestTaskExecutorIncrementerMainReturnResult => Some Fn_Incrementer
  end.

(** The first stack of the function, as its [prepare] function builds it. *)
Definition prepared (f : fn) : list StackEntry :=
  fst match f with
  | Fn_Root => root_prepare_main
  | Fn_Calculator => testCalculator_prepare_main
  | Fn_CreateQueue => testCreateQueue_prepare_main
  | Fn_BinarySearch => testFunctionsCall_prepare_binarySearch 0 0 0
  | Fn_Factorial => testFunctionsCall_prepare_factorial 0
  | Fn_Main => testFunctionsCall_prepare_main
  | Fn_Mult => testFunctionsCall_prepare_mult 0 0
  | Fn_Sub => testFunctionsCall_prepare_sub 0 0
  | Fn_InfiniteSummator => testInfiniteSummator_prepare_main
  | Fn_RootFiber => testRootFiber_prepare_main
  | Fn_SleepTest => testRootFiberSleepTest_prepare_main
  | Fn_SelectQueue => testSelectQueue_prepare_main
  | Fn_Incrementer => testTaskExecutorIncrementer_prepare_main
  end.

Definition returns (f : fn) : option vtype :=
  match f with
  | Fn_BinarySearch => Some T_OptionU64
  | Fn_Factorial | Fn_Mult | Fn_Sub => Some T_U64
  | _ => None
  end.

(** Name and type of the variables above the return marker. *)
Fixpoint layout (st : list StackEntry) : list (string * vtype) :=
  match st with
  | StackEntry_Retrn _ :: rest =>
      omap (fun se => match se with StackEntry_Value n v => Some (n, type_of v) | _ => None end) rest
  | _ :: rest => layout rest
  | [] => []
  end.

Definition frame_types (f : fn) : list (string * vtype) := layout (prepared f).

Definition has_type (se : StackEntry) (t : string * vtype) : Prop :=
  exists v, se = StackEntry_Value (fst t) v /\ type_of v = snd t.

Definition frame_ok (f : fn) (frame : list StackEntry) : Prop := Forall2 has_type frame (frame_types f).

(** ** Well-formed stacks *)

(** The stack below a frame whose function returns [r]: the marker of a fiber's first
    function, or a caller's frame with the state it goes on with and the marker that
    says which of its variables takes the result. *)
Inductive cont_ok : option vtype -> list StackEntry -> Prop :=
| cont_first off : cont_ok None [StackEntry_Retrn off]
| cont_result v : cont_ok (Some (type_of v)) [StackEntry_Value "ret" v; StackEntry_Retrn (Some 1)]
| cont_call base frame next f i n t :
    fn_of next = Some f -> cont_ok (returns f) base -> frame_ok f frame ->
    frame_types f !! i = Some (n, t) ->
    cont_ok (Some t)
      (base ++ frame ++ [StackEntry_State next; StackEntry_Retrn (Some (S (length frame) - i))]).

(** A fiber parked in function [f]: its frame is on top and the runtime decides its next state. *)
Definition parked (f : fn) (st : list StackEntry) : Prop :=
  exists base frame, st = base ++ frame /\ cont_ok (returns f) base /\ frame_ok f frame.

(** A fiber that can run: a state on top of a frame, or what is left when all is done. *)
Definition runnable (st : list StackEntry) : Prop :=
  (exists f s, fn_of s = Some f /\ exists st', st = st' ++ [StackEntry_State s] /\ parked f st') \/
  st = [] \/ exists v, st = [StackEntry_Value "ret" v].

(** The states whose code has checked arithmetic or reads an array. *)
Definition computes (s : State) : bool :=
  match s with
  | State_TestCalculatorMainCalculate | State_TestCreateQueueMainExtractFutAndInc
  | State_TestFunctionsCallBinarySearchCalculateDiv | State_TestFunctionsCallMainSetBSearchValues
  | State_TestFunctionsCallMultEntry | State_TestFunctionsCallSubEntry
  | State_TestInfiniteSummatorMainCalculate | State_TestSelectQueueMainIncFromFut
  | State_TestSelectQueueMainStartWork | State_TestTaskExecutorIncrementerMainIncrement => true
  | _ => false
  end.

Definition arithmetic_panics : list string :=
  ["attempt to add with overflow"; "attempt to subtract with overflow";
   "attempt to multiply with overflow"; "index out of bounds"].

(** ** Well-formed results *)
Definition var_ok (f : fn) (name : string) (t : vtype) : Prop := (name, t) ∈ frame_types f.

Definition arm_ok (f : fn) (arm : SelectArm) : Prop :=
  match arm with
  | SelectArm_FutureVar _ bind next =>
      fn_of next = Some f /\ match bind with Some b => exists t, var_ok f b t | None => True end
  | SelectArm_Queue _ bind next => fn_of next = Some f /\ exists t, var_ok f bind t
  end.

Definition kind_type (k : SuccessBindKind) : vtype :=
  match k with
  | SuccessBindKind_String => T_String
  | SuccessBindKind_Future FutureKind_FutureTestIncrementTask => T_FutureTestIncrementTask
  | SuccessBindKind_Future FutureKind_FutureU64 => T_FutureU64
  | SuccessBindKind_Future FutureKind_FutureUnit => T_FutureUnit
  end.

(** The fiber types [get_prepare_fn] knows the main function of. *)
Definition fiber_types : list string :=
  ["root"; "testCalculator"; "testCreateQueue"; "testFunctionsCall"; "testInfiniteSummator";
   "testRootFiber"; "testRootFiberSleepTest"; "testSelectQueue"; "testTaskExecutorIncrementer"].

(** What a [Create] asks for fits the frame it is asked from. *)
Definition create_ok (f : fn) (primitives : list CreatePrimitiveValue) (success_next : State)
  (success_binds : list string) (success_kinds : list SuccessBindKind) (fail_next : State)
  (fail_binds : list string) : Prop :=
  fn_of success_next = Some f /\ fn_of fail_next = Some f /\
  (length success_binds <= length primitives)%nat /\
  Forall2 (fun name k => var_ok f name (kind_type k)) success_binds success_kinds /\
  Forall (fun name => var_ok f name T_OptionString) fail_binds.

Definition entries_ok (f : fn) (entries : list StackEntry) : Prop :=
  (exists updates next, entries = [StackEntry_FrameAssign updates; StackEntry_State next] /\
     fn_of next = Some f /\
     Forall (fun '(i, v) => exists n, frame_types f !! i = Some (n, type_of v)) updates) \/
  (exists next i n t g args entry,
     entries = StackEntry_State next :: StackEntry_Retrn (Some (S (length (frame_types f)) - i)) ::
               args ++ [StackEntry_State entry] /\
     fn_of next = Some f /\ fn_of entry = Some g /\ frame_ok g args /\
     frame_types f !! i = Some (n, t) /\ returns g = Some t).

Definition step_ok (f : fn) (res : StepResult) : Prop :=
  match res with
  | StepResult_Next entries => entries_ok f entries
  | StepResult_GoTo s => fn_of s = Some f
  | StepResult_Select arms => Forall (arm_ok f) arms
  | StepResult_Create p sn sb sk fnx fb => create_ok f p sn sb sk fnx fb
  | StepResult_Return v => returns f = Some (type_of v)
  | StepResult_ReturnVoid => returns f = None
  | StepResult_SetValues _ next => fn_of next = Some f
  | StepResult_Debug _ next => fn_of next = Some f
  | StepResult_DebugPrintVars next => fn_of next = Some f
  | StepResult_CreateFibers details next =>
      fn_of next = Some f /\ Forall (fun d => fst d ∈ fiber_types) details
  | StepResult_Done | StepResult_Todo _ => False
  end.

(** ** The step function respects the frames *)

Lemma u64_arith_cases `{Profile} msg x :
  (exists y, u64_arith msg x = Ok y) \/ u64_arith msg x = Panic msg.
Proof. unfold u64_arith. destruct (u64_in_range x); [eauto|]. destruct overflow_checks; eauto. Qed.

Definition step_sound_at `{Profile} (s : State) (f : fn) (frame : list StackEntry) : Prop :=
  forall h,
  match global_step s frame h with
  | Ok (res, _) => step_ok f res
  | Panic msg => computes s = true /\ msg ∈ arithmetic_panics
  | OutOfFuel => False
  end.

(** Splits a frame of known layout into its variables. *)
Ltac inv_frame H :=
  unfold frame_ok, frame_types in H; cbn in H;
  repeat (apply Forall2_cons_inv_r in H as (?se & ?fr & (?v & -> & ?Ht) & H & ->));
  apply Forall2_nil_inv_r in H as ->;
  repeat match goal with Ht : type_of ?v = _ |- _ => cbn in Ht; destruct v; try discriminate Ht; clear Ht end.

Ltac split_arith :=
  repeat match goal with
  | |- context [u64_arith ?msg ?x] =>
      let y := fresh "y" in destruct (u64_arith_cases msg x) as [(y & ->)| ->]; cbn
  | |- context [expect ?msg ?o] => destruct o; cbn
  | |- context [if ?b then _ else _] => destruct b; cbn
  end.
Ltac var_solve :=
  unfold var_ok, frame_types; cbn; repeat (first [apply list_elem_of_here | apply list_elem_of_further]).

Ltac last_state l :=
  lazymatch l with
  | [StackEntry_State ?s] => s
  | _ :: ?l' => last_state l'
  end.

(** A call: the callee is the function of the state pushed last. *)
Ltac call_solve :=
  match goal with
  | |- entries_ok ?f (StackEntry_State ?next :: StackEntry_Retrn (Some ?off) :: ?rest) =>
      let entry := last_state rest in
      let g := eval cbn in (fn_of entry) in
      lazymatch g with
      | Some ?g =>
          right; exists next, (S (length (frame_types f)) - off)%nat; do 2 eexists;
          exists g, (removelast rest), entry; split_and!;
          [reflexivity|reflexivity|reflexivity| |reflexivity|reflexivity];
          unfold frame_ok, frame_types; cbn;
          repeat (apply Forall2_cons; split; [eexists; split; reflexivity|]); apply Forall2_nil_2
      end
  end.

Ltac assign_solve :=
  match goal with
  | |- entries_ok _ [StackEntry_FrameAssign _; _] =>
      left; do 2 eexists; split_and!; [reflexivity|reflexivity|];
      repeat (apply Forall_cons; split; [eexists; reflexivity|]); apply Forall_nil; exact I
  end.

Ltac arms_solve :=
  match goal with
  | |- Forall (arm_ok _) _ =>
      repeat (apply Forall_cons; split; [split; [reflexivity|]|]); try (apply Forall_nil; exact I);
      try exact I; eexists; var_solve
  end.

Ltac create_solve :=
  match goal with
  | |- create_ok _ _ _ _ _ _ _ =>
      split_and!; [reflexivity|reflexivity|cbn; lia| |];
      [repeat (apply Forall2_cons; split; [var_solve|]); apply Forall2_nil_2
      |repeat (apply Forall_cons; split; [var_solve|]); apply Forall_nil; exact I]
  end.

Lemma step_sound `{Profile} s f frame : fn_of s = Some f -> frame_ok f frame -> step_sound_at s f frame.
Proof.
  intros Hf Hfr h.
  destruct s; cbn in Hf; first [discriminate Hf | injection Hf as <-]; inv_frame Hfr;
    cbn; unfold u64_add, u64_sub, u64_mul; split_arith;
    first [reflexivity | split; [reflexivity | set_solver] | assign_solve | call_solve
          | arms_solve | create_solve
          | split; [reflexivity|]; repeat (apply Forall_cons; split; [set_solver|]); apply Forall_nil; exact I].
Qed.

(** ** The stack machine keeps well-formed stacks *)

Lemma pop_snoc st x : pop (st ++ [x]) = Some (x, st).
Proof. unfold pop. rewrite reverse_snoc. by rewrite reverse_involutive. Qed.

Lemma frame_ok_length f frame : frame_ok f frame -> length frame = length (frame_types f).
Proof. apply Forall2_length. Qed.

Lemma func_args_count_frame s f : fn_of s = Some f -> func_args_count s = length (frame_types f).
Proof. destruct s; cbn; intros [= <-]; reflexivity. Qed.

(** A variable overwritten with a value of its type keeps the frame. *)
Lemma overwrite_frame base frame rest f i n v label :
  frame_ok f frame -> frame_types f !! i = Some (n, type_of v) ->
  exists frame', frame_ok f frame' /\
    overwrite (length base + i) label v (base ++ frame ++ rest) = Ok (base ++ frame' ++ rest).
Proof.
  intros Hfr Hi. destruct (Forall2_lookup_r _ _ _ _ _ Hfr Hi) as (se & Hse & w & -> & Hw). cbn in *.
  pose proof (lookup_lt_Some _ _ _ Hse) as Hlt.
  exists (<[i := StackEntry_Value n v]> frame). split.
  - unfold frame_ok. rewrite <-(list_insert_id (frame_types f) i (n, type_of v)) by done.
    apply Forall2_insert; [done|]. exists v. done.
  - unfold overwrite. rewrite lookup_app_r by lia. replace (_ + i - _)%nat with i by lia.
    rewrite lookup_app_l by lia. rewrite Hse. cbn.
    rewrite insert_app_r_alt by lia. replace (_ + i - _)%nat with i by lia.
    by rewrite insert_app_l by lia.
Qed.

Lemma assigns_frame f base updates frame :
  frame_ok f frame ->
  Forall (fun '(i, v) => exists n, frame_types f !! i = Some (n, type_of v)) updates ->
  exists frame', frame_ok f frame' /\
    for_each updates (fun st '(ofs, val) => overwrite (length base + ofs) "_" val st) (base ++ frame)
      = Ok (base ++ frame').
Proof.
  intros Hfr Hups. revert frame Hfr.
  induction Hups as [|[i v] updates (n & Hi) _ IH]; intros frame Hfr; [by exists frame|].
  destruct (overwrite_frame base frame [] f i n v "_" Hfr Hi) as (frame' & Hfr' & Hov).
  rewrite !app_nil_r in Hov. destruct (IH frame' Hfr') as (fr & Hok & Hrun).
  exists fr. split; [done|]. cbn -[overwrite]. by rewrite Hov.
Qed.

(** What a stopped run leaves: done, parked in the function that asked, or ready to go on. *)
Definition result_fits (st : list StackEntry) (r : RunResult) : Prop :=
  match r with
  | RunResult_Done => st = [] \/ exists v, st = [StackEntry_Value "ret" v]
  | RunResult_Select arms => exists f, parked f st /\ Forall (arm_ok f) arms
  | RunResult_SetValues _ => runnable st
  | RunResult_CreateFibers details => runnable st /\ Forall (fun d => fst d ∈ fiber_types) details
  | RunResult_Create p sn sb sk fnx fb => exists f, parked f st /\ create_ok f p sn sb sk fnx fb
  end.

Definition outcome_fits (st : list StackEntry) (returned : option RunResult) : Prop :=
  match returned with
  | None => runnable st
  | Some r => result_fits st r
  end.

Lemma runnable_push f s st : fn_of s = Some f -> parked f st -> runnable (st ++ [StackEntry_State s]).
Proof. intros Hs Hp. left. exists f, s. split; [done|]. by exists st. Qed.

Section sound.
Context `{Profile}.

Lemma parked_intro f base frame : cont_ok (returns f) base -> frame_ok f frame -> parked f (base ++ frame).
Proof. intros. by exists base, frame. Qed.

(** Returning a value ends the frame and stores the value in the caller's variable. *)
Lemma return_sound f base frame v :
  cont_ok (returns f) base -> returns f = Some (type_of v) ->
  exists st off st', pop_frame (length base) (base ++ frame) = Ok (st, off) /\
    bind_return off v st = Ok st' /\ runnable st'.
Proof.
  intros Hc Hr. unfold pop_frame. rewrite take_app_length. rewrite Hr in Hc.
  inversion Hc as [|v' Hv Hb|b fr next g i n t Hn Hcont Hfr Hi Ht Hb]; subst base.
  - exists [StackEntry_Value "ret" v'], (Some 1%nat), [StackEntry_Value "ret" v].
    split; [done|]. split; [done|]. right. right. by exists v.
  - replace (b ++ fr ++ [StackEntry_State next; StackEntry_Retrn (Some (S (length fr) - i))])
      with ((b ++ fr ++ [StackEntry_State next]) ++ [StackEntry_Retrn (Some (S (length fr) - i))])
      by by rewrite <-!app_assoc.
    rewrite pop_snoc. cbn. subst t.
    pose proof (lookup_lt_Some _ _ _ Hi) as Hlt. rewrite <-(frame_ok_length _ _ Hfr) in Hlt.
    destruct (overwrite_frame b fr [StackEntry_State next] g i n v "ret" Hfr Hi) as (fr' & Hfr' & Hov).
    do 2 eexists. exists ((b ++ fr') ++ [StackEntry_State next]). split; [done|]. split.
    + cbn. unfold bind_index. rewrite decide_True by (rewrite !length_app; cbn; lia). cbn.
      rewrite !length_app. cbn.
      replace (length b + (length fr + 1) - (S (length fr) - i))%nat with (length b + i)%nat by lia.
      by rewrite Hov, <-app_assoc.
    + apply (runnable_push g); [done|]. by apply parked_intro.
Qed.

Lemma return_void_sound f base frame :
  cont_ok (returns f) base -> returns f = None ->
  exists off, pop_frame (length base) (base ++ frame) = Ok ([], off).
Proof.
  intros Hc Hr. unfold pop_frame. rewrite take_app_length. rewrite Hr in Hc.
  inversion Hc as [off| |]; subst base. by exists off.
Qed.

Lemma next_sound f base frame entries :
  cont_ok (returns f) base -> frame_ok f frame -> entries_ok f entries ->
  exists st', for_each entries (apply_entry (length base)) (base ++ frame) = Ok st' /\ runnable st'.
Proof.
  intros Hc Hfr [(updates & next & -> & Hn & Hups)|(next & i & n & t & g & args & entry & -> & Hn & He & Hargs & Hi & Hg)].
  - destruct (assigns_frame f base updates frame Hfr Hups) as (fr & Hfr' & Hrun).
    exists ((base ++ fr) ++ [StackEntry_State next]). split; [cbn -[overwrite]; by rewrite Hrun|].
    apply (runnable_push f); [done|]. by apply parked_intro.
  - exists (((base ++ frame ++ [StackEntry_State next;
             StackEntry_Retrn (Some (S (length frame) - i))]) ++ args) ++ [StackEntry_State entry]).
    rewrite <-(frame_ok_length _ _ Hfr). split.
    + assert (Hpush : forall l st, (forall ups, StackEntry_FrameAssign ups ∉ l) ->
        for_each l (apply_entry (length base)) st = Ok (st ++ l)).
      { induction l as [|e l IH]; intros st Hl; cbn -[overwrite]; [by rewrite app_nil_r|].
        destruct e as [s|o|m v|ups]; cbn -[overwrite]; try (rewrite IH by set_solver; by rewrite <-app_assoc).
        destruct (Hl ups). left. }
      rewrite Hpush; [by rewrite <-!app_assoc|].
      intros ups Hin. rewrite !elem_of_cons, elem_of_app, list_elem_of_singleton in Hin.
      destruct Hin as [?|[?|[Hin|?]]]; try done.
      apply list_elem_of_lookup in Hin as (k & Hk).
      destruct (Forall2_lookup_l _ _ _ _ _ Hargs Hk) as (tt & _ & w & ? & _). done.
    + apply (runnable_push g); [done|]. apply parked_intro; [|done]. rewrite Hg. by eapply cont_call.
Qed.

Lemma apply_result_sound f base frame res :
  cont_ok (returns f) base -> frame_ok f frame -> step_ok f res ->
  exists st' w ret, apply_result (length base) (base ++ frame) res = Ok (st', w, ret) /\
    outcome_fits st' ret.
Proof.
  intros Hc Hfr Hok. pose proof (parked_intro f base frame Hc Hfr) as Hp.
  destruct res as [ |entries|s|arms|p sn sb sk fnx fb|v| |msg|values next|msg next|next|details next];
    cbn [step_ok apply_result] in *; try done.
  - destruct (next_sound f base frame entries Hc Hfr Hok) as (st' & -> & ?). cbn. by do 3 eexists.
  - do 3 eexists. split; [done|]. by apply (runnable_push f).
  - do 3 eexists. split; [done|]. by exists f.
  - do 3 eexists. split; [done|]. by exists f.
  - destruct (return_sound f base frame v Hc Hok) as (st & off & st' & -> & Hb & Hr). cbn.
    rewrite Hb. by do 3 eexists.
  - destruct (return_void_sound f base frame Hc Hok) as (off & ->). cbn. do 3 eexists.
    split; [done|]. right. by left.
  - do 3 eexists. split; [done|]. by apply (runnable_push f).
  - do 3 eexists. split; [done|]. by apply (runnable_push f).
  - do 3 eexists. split; [done|]. by apply (runnable_push f).
  - destruct Hok as [Hn Hd]. do 3 eexists. split; [done|]. split; [|done]. by apply (runnable_push f).
Qed.

(** The panics a well-formed fiber can end in: those of its own arithmetic. *)
Definition own_panic (fb : Fiber) (msg : string) : Prop :=
  msg ∈ arithmetic_panics /\
  exists s st, stack fb = st ++ [StackEntry_State s] /\ computes s = true.

Lemma run_step_sound fb sink :
  runnable (stack fb) ->
  match run_step fb sink with
  | Ok (fb', _, returned) => outcome_fits (stack fb') returned
  | Panic msg => own_panic fb msg
  | OutOfFuel => False
  end.
Proof.
  intros [(f & s & Hs & st & Hst & base & frame & -> & Hc & Hfr)|Hend].
  - unfold run_step. rewrite Hst, pop_snoc.
    rewrite (func_args_count_frame s f Hs), <-(frame_ok_length _ _ Hfr), length_app.
    rewrite decide_False by lia. replace (_ + _ - _)%nat with (length base) by lia.
    rewrite drop_app_length.
    pose proof (step_sound s f frame Hs Hfr (heap fb)) as Hstep.
    destruct (global_step s frame (heap fb)) as [[res h']|msg|]; cbn [mbind result_bind]; [| |done].
    + destruct (apply_result_sound f base frame res Hc Hfr Hstep) as (st' & w & ret & -> & Hfit). done.
    + split; [apply Hstep|]. exists s, (base ++ frame). split; [done|apply Hstep].
  - unfold run_step. destruct Hend as [E|(v & E)]; rewrite E; cbn; [by left|]. right. by exists v.
Qed.
End sound.

(** ** Resumption *)

Lemma frame_names_distinct f : NoDup (frame_types f).*1.
Proof. destruct f; apply (bool_decide_unpack _); vm_compute; exact I. Qed.

(** The search from the top finds the variable in the frame on top. *)
Lemma assign_first_frame name t val ts top rest :
  Forall2 has_type top ts -> NoDup ts.*1 -> (name, t) ∈ ts -> type_of val = t ->
  exists top', Forall2 has_type top' ts /\ assign_first name val (top ++ rest) = Some (top' ++ rest).
Proof.
  intros Htop. revert name t. induction Htop as [|se [n u] top ts (v & -> & Hv) Htop IH];
    intros name t Hnd Hin Ht; cbn in *; [by apply elem_of_nil in Hin|].
  apply NoDup_cons in Hnd as [Hn Hnd]. destruct (decide (n = name)) as [->|Hne].
  - exists (StackEntry_Value name val :: top). split; [|done].
    apply elem_of_cons in Hin as [Heq|Hin]; simplify_eq.
    + constructor; [|done]. by exists val.
    + destruct Hn. apply list_elem_of_fmap. by eexists (name, _).
  - apply elem_of_cons in Hin as [Heq|Hin]; simplify_eq.
    destruct (IH name (type_of val)) as (top' & Htop' & ->); [done..|].
    exists (StackEntry_Value n v :: top'). split; [|done]. constructor; [|done]. by exists v.
Qed.

(** A fiber parked in [f] takes a value of the variable's type and stays parked. *)
Lemma assign_local_parked f name t v fb :
  parked f (stack fb) -> var_ok f name t -> type_of v = t ->
  exists st, assign_local name v fb = Ok (set_stack st fb) /\ parked f st.
Proof.
  intros (base & frame & E & Hc & Hfr) Hin Hv. unfold assign_local. rewrite E, reverse_app.
  destruct (assign_first_frame name t v (reverse (frame_types f)) (reverse frame) (reverse base))
    as (top & Htop & ->); [by apply Forall2_reverse|rewrite fmap_reverse, reverse_Permutation; apply frame_names_distinct
    |rewrite reverse_Permutation; exact Hin|done|].
  cbn. eexists. split; [done|]. rewrite reverse_app, reverse_involutive. apply parked_intro; [done|].
  unfold frame_ok. rewrite <-(reverse_involutive (frame_types f)). by apply Forall2_reverse.
Qed.

Lemma resume_ok f name t v next fb :
  parked f (stack fb) -> var_ok f name t -> type_of v = t -> fn_of next = Some f ->
  exists st, assign_local_and_push_next name v next fb = Ok (set_stack st fb) /\ runnable st.
Proof.
  intros Hp Hin Hv Hn. destruct (assign_local_parked f name t v fb Hp Hin Hv) as (st & E & Hst).
  unfold assign_local_and_push_next. rewrite E. cbn. eexists. split; [done|]. by apply (runnable_push f).
Qed.

(** The functions a fiber can start in. *)
Definition main_of (ty : string) : option fn :=
  if decide (ty = "root") then Some Fn_Root else
  if decide (ty = "testCalculator") then Some Fn_Calculator else
  if decide (ty = "testCreateQueue") then Some Fn_CreateQueue else
  if decide (ty = "testFunctionsCall") then Some Fn_Main else
  if decide (ty = "testInfiniteSummator") then Some Fn_InfiniteSummator else
  if decide (ty = "testRootFiber") then Some Fn_RootFiber else
  if decide (ty = "testRootFiberSleepTest") then Some Fn_SleepTest else
  if decide (ty = "testSelectQueue") then Some Fn_SelectQueue else
  if decide (ty = "testTaskExecutorIncrementer") then Some Fn_Incrementer else None.

Lemma prepared_runnable ty f : main_of ty = Some f -> runnable (prepared f).
Proof.
  unfold main_of. repeat case_decide; intros [= <-];
    match goal with |- runnable ?l =>
      let l' := eval cbv in l in
      let s := last_state l' in
      eapply (runnable_push _ s (removelast l'));
        [reflexivity|exists [StackEntry_Retrn (Some 1%nat)], (tail (removelast l'))]
    end;
    (split_and!; [reflexivity|constructor|]); unfold frame_ok, frame_types; cbn;
    repeat (apply Forall2_cons; split; [eexists; split; reflexivity|]); apply Forall2_nil_2.
Qed.

(** A new fiber of a known type is well-formed, whatever its initial variables. *)
Lemma fiber_new_ok ty uid vars :
  ty ∈ fiber_types ->
  exists fb, fiber_new ty uid vars = Ok fb /\ runnable (stack fb) /\ unique_id fb = uid /\ f_type fb = ty.
Proof.
  intros Hin. assert (Hf : exists f, main_of ty = Some f /\
    fiber_new ty uid vars = Ok (mkFiber (prepared f) (get_heap_init_fn ty vars)
                                  (ty +:+ "." +:+ "main") ty uid [])).
  { unfold fiber_types in Hin. repeat (apply elem_of_cons in Hin as [->|Hin]); [..|by apply elem_of_nil in Hin];
      eexists; split; reflexivity. }
  destruct Hf as (f & Hf & ->). eexists. split; [done|]. cbn. split; [|done].
  by apply (prepared_runnable ty).
Qed.

(** ** Soundness *)

(** C11: a fiber cannot corrupt its stack: a new fiber of any known type is well-formed
    whatever its initial variables; a well-formed fiber that runs, however long, either
    stops with a stack that fits what it asks for (each [Select] arm, [Create] branch and
    bound variable belongs to the function that is parked), or panics in checked
    arithmetic or an array access of the program itself, never in [unreachable!], a
    missing variable or a lost return marker; and a parked fiber that is given a value
    of the bound variable's type is well-formed again. *)
Theorem fiber_soundness `{Profile} :
  (forall ty uid vars, ty ∈ fiber_types ->
     exists fb, fiber_new ty uid vars = Ok fb /\ runnable (stack fb) /\ unique_id fb = uid) /\
  (forall fuel fb sink, runnable (stack fb) ->
     match run fuel fb sink with
     | Ok (fb', _, r) => result_fits (stack fb') r
     | Panic msg => msg ∈ arithmetic_panics
     | OutOfFuel => True
     end) /\
  (forall f name t v next fb, parked f (stack fb) -> var_ok f name t -> type_of v = t ->
     fn_of next = Some f ->
     exists st, assign_local_and_push_next name v next fb = Ok (set_stack st fb) /\ runnable st).
Proof.
  split_and!.
  - intros ty uid vars Hin. destruct (fiber_new_ok ty uid vars Hin) as (fb & ? & ? & ? & _). eauto.
  - intros fuel. induction fuel as [|fuel IH]; intros fb sink Hr; [done|]. cbn.
    pose proof (run_step_sound fb sink Hr) as Hstep.
    destruct (run_step fb sink) as [[[fb' sink'] ret]|msg|]; cbn; [|apply Hstep|done].
    destruct ret as [r|]; [done|]. by apply IH.
  - intros f name t v next fb. apply resume_ok.
Qed.
