(* ===== verification/FiberRuns.v ===== *)
(** * What the sample program's functions compute on the stack machine

    Runs of [Fiber::run] as sequences of iterations, the compositional lemmas for calls
    and returns, and with them the behaviour of the functions of [testFunctionsCall]:
    [mult], [sub], [factorial] and [binary_search]. *)
From S2P Require Import Prelude Types Values Assembler Fiber FiberTypes.
From stdpp Require Import relations.
Local Open Scope string_scope.
Local Open Scope list_scope.

(** ** Sequences of iterations *)
Section runs.
Context `{Profile}.

Definition fstep (c c' : Fiber * string) : Prop := run_step (fst c) (snd c) = Ok (c', None).

Lemma run_nsteps k c c' n : nsteps fstep k c c' -> run (k + n) (fst c) (snd c) = run n (fst c') (snd c').
Proof.
  induction 1 as [|k c1 c2 c3 Hs _ IH]; [done|]. cbn. unfold fstep in Hs. rewrite Hs. cbn.
  destruct c2 as [fb s]. apply IH.
Qed.

(** A fiber that shows the given stack and heap. *)
Definition shows (st : list StackEntry) (h : Heap) (c : Fiber * string) : Prop :=
  stack (fst c) = st /\ heap (fst c) = h.

(** From every fiber with the first stack and heap, [k] iterations lead to the second. *)
Definition reaches (k : nat) (st : list StackEntry) (h : Heap) (st' : list StackEntry) (h' : Heap) : Prop :=
  forall c, shows st h c -> exists c', nsteps fstep k c c' /\ shows st' h' c'.

Lemma reaches_trans k1 k2 st1 h1 st2 h2 st3 h3 :
  reaches k1 st1 h1 st2 h2 -> reaches k2 st2 h2 st3 h3 -> reaches (k1 + k2) st1 h1 st3 h3.
Proof.
  intros H1 H2 c Hc. destruct (H1 c Hc) as (c' & Hk & Hc'). destruct (H2 c' Hc') as (c'' & Hk' & Hc'').
  exists c''. split; [by eapply nsteps_trans|done].
Qed.

(** One iteration on a state whose frame is on top of the stack. *)
Lemma run_step_frame base frame s h res h' c :
  length frame = func_args_count s -> shows (base ++ frame ++ [StackEntry_State s]) h c ->
  global_step s frame h = Ok (res, h') ->
  run_step (fst c) (snd c) =
    ('(st, write, returned) ← apply_result (length base) (base ++ frame) res;
     Ok (mkFiber st h' (function_key (fst c)) (f_type (fst c)) (unique_id (fst c))
           (trace_sink (fst c) ++ [mkTraceEvent s res]), (write : string -> string) (snd c), returned)).
Proof.
  intros Hlen [Hst Hh] Hg. unfold run_step. rewrite Hst, app_assoc, pop_snoc, length_app, <-Hlen.
  rewrite decide_False by lia. replace (_ + _ - _)%nat with (length base) by lia.
  by rewrite drop_app_length, Hh, Hg.
Qed.

Lemma reaches_one base frame s h res h' st' w :
  length frame = func_args_count s ->
  global_step s frame h = Ok (res, h') ->
  apply_result (length base) (base ++ frame) res = Ok (st', w, None) ->
  reaches 1 (base ++ frame ++ [StackEntry_State s]) h st' h'.
Proof.
  intros Hlen Hg Ha c Hc. eexists. split; [eapply nsteps_once|].
  - unfold fstep. rewrite (run_step_frame base frame s h res h' c Hlen Hc Hg), Ha. reflexivity.
  - done.
Qed.

(** Every fiber with this stack and heap panics after [k] iterations. *)
Definition fails (k : nat) (st : list StackEntry) (h : Heap) (msg : string) : Prop :=
  forall c, shows st h c -> exists c', nsteps fstep k c c' /\ run_step (fst c') (snd c') = Panic msg.

Lemma reaches_fails k1 k2 st1 h1 st2 h2 msg :
  reaches k1 st1 h1 st2 h2 -> fails k2 st2 h2 msg -> fails (k1 + k2) st1 h1 msg.
Proof.
  intros H1 H2 c Hc. destruct (H1 c Hc) as (c' & Hk & Hc'). destruct (H2 c' Hc') as (c'' & Hk' & Hc'').
  exists c''. split; [by eapply nsteps_trans|done].
Qed.

Lemma fails_now base frame s h msg :
  length frame = func_args_count s -> global_step s frame h = Panic msg ->
  fails 0 (base ++ frame ++ [StackEntry_State s]) h msg.
Proof.
  intros Hlen Hg c [Hst Hh]. exists c. split; [constructor|]. unfold run_step.
  rewrite Hst, app_assoc, pop_snoc, length_app, <-Hlen, decide_False by lia.
  replace (_ + _ - _)%nat with (length base) by lia. by rewrite drop_app_length, Hh, Hg.
Qed.

(** No fuel is enough for a fiber with this stack and heap. *)
Definition diverges (st : list StackEntry) (h : Heap) : Prop :=
  forall c fuel, shows st h c -> run fuel (fst c) (snd c) = OutOfFuel.

Lemma run_short k c c' fuel : nsteps fstep k c c' -> (fuel <= k)%nat -> run fuel (fst c) (snd c) = OutOfFuel.
Proof.
  intros Hk. revert fuel. induction Hk as [|k c1 c2 c3 Hs _ IH]; intros [|fuel] Hle; try done; [lia|].
  cbn. unfold fstep in Hs. rewrite Hs. cbn. destruct c2 as [fb s]. apply IH. lia.
Qed.

Lemma reaches_diverges k st1 h1 st2 h2 : reaches k st1 h1 st2 h2 -> diverges st2 h2 -> diverges st1 h1.
Proof.
  intros Hr Hd c fuel Hc. destruct (Hr c Hc) as (c' & Hk & Hc').
  destruct (decide (fuel <= k)%nat); [by eapply run_short|].
  replace fuel with (k + (fuel - k))%nat by lia. rewrite (run_nsteps k c c' _ Hk). by apply Hd.
Qed.

(** A set of stacks that the machine never leaves. *)
Lemma diverges_by (P : list StackEntry -> Prop) h :
  (forall st, P st -> exists k st', (0 < k)%nat /\ reaches k st h st' h /\ P st') ->
  forall st, P st -> diverges st h.
Proof.
  intros Hstep st HP c fuel. revert st HP c.
  induction fuel as [fuel IH] using lt_wf_ind; intros st HP c Hc.
  destruct (Hstep st HP) as (k & st' & Hk & Hr & HP'). destruct (Hr c Hc) as (c' & Hn & Hc').
  destruct (decide (fuel <= k)%nat); [by eapply run_short|].
  replace fuel with (k + (fuel - k))%nat by lia. rewrite (run_nsteps k c c' _ Hn).
  apply (IH (fuel - k)%nat ltac:(lia) st'); done.
Qed.

(** ** Calls and returns *)

(** Returning [v] to a caller whose variable [lbl] lies [S (length above)] below the marker. *)
Lemma reaches_return below lbl old above frame s h v :
  length frame = func_args_count s -> global_step s frame h = Ok (StepResult_Return v, h) ->
  reaches 1 (below ++ StackEntry_Value lbl old :: above ++
               StackEntry_Retrn (Some (S (length above))) :: frame ++ [StackEntry_State s]) h
            (below ++ StackEntry_Value lbl v :: above) h.
Proof.
  intros Hlen Hg.
  set (base := below ++ StackEntry_Value lbl old :: above ++ [StackEntry_Retrn (Some (S (length above)))]).
  assert (E : below ++ StackEntry_Value lbl old :: above ++
                StackEntry_Retrn (Some (S (length above))) :: frame ++ [StackEntry_State s]
              = base ++ frame ++ [StackEntry_State s]).
  { unfold base. by rewrite <-!app_assoc; cbn; rewrite <-app_assoc. }
  rewrite E. eapply reaches_one; [done..|]. cbn -[overwrite]. unfold pop_frame.
  rewrite take_app_length. unfold base.
  replace (below ++ StackEntry_Value lbl old :: above ++ [StackEntry_Retrn (Some (S (length above)))])
    with ((below ++ StackEntry_Value lbl old :: above) ++ [StackEntry_Retrn (Some (S (length above)))])
    by by rewrite <-app_assoc.
  rewrite pop_snoc. cbn. unfold bind_index. rewrite length_app. cbn.
  rewrite decide_True by lia. cbn. unfold overwrite.
  replace (length below + S (length above) - S (length above))%nat with (length below + 0)%nat by lia.
  rewrite lookup_app_r by lia. replace (_ + 0 - _)%nat with 0%nat by lia. cbn.
  rewrite insert_app_r_alt by lia. replace (_ + 0 - _)%nat with 0%nat by lia. done.
Qed.

Lemma for_each_push start l st :
  (forall ups, StackEntry_FrameAssign ups ∉ l) -> for_each l (apply_entry start) st = Ok (st ++ l).
Proof.
  revert st. induction l as [|e l IH]; intros st Hl; cbn -[overwrite]; [by rewrite app_nil_r|].
  destruct e as [s|o|m v|ups]; cbn -[overwrite]; try (rewrite IH by set_solver; by rewrite <-app_assoc).
  destruct (Hl ups). left.
Qed.

Lemma reaches_goto base frame s s' h :
  length frame = func_args_count s -> global_step s frame h = Ok (StepResult_GoTo s', h) ->
  reaches 1 (base ++ frame ++ [StackEntry_State s]) h (base ++ frame ++ [StackEntry_State s']) h.
Proof. intros Hlen Hg. eapply reaches_one; [done..|]. cbn. by rewrite <-app_assoc. Qed.

Lemma reaches_call base frame s next off args entry h :
  length frame = func_args_count s ->
  global_step s frame h = Ok (StepResult_Next (StackEntry_State next :: StackEntry_Retrn off ::
                                args ++ [StackEntry_State entry]), h) ->
  (forall ups, StackEntry_FrameAssign ups ∉ args) ->
  reaches 1 (base ++ frame ++ [StackEntry_State s]) h
            (base ++ frame ++ StackEntry_State next :: StackEntry_Retrn off :: args ++ [StackEntry_State entry]) h.
Proof.
  intros Hlen Hg Hargs. eapply reaches_one; [done..|]. cbn [apply_result].
  rewrite for_each_push; [|set_solver]. cbn. by rewrite <-app_assoc.
Qed.

Lemma overwrite_app base frame i d v :
  overwrite (length base + i) d v (base ++ frame) = (fr ← overwrite i d v frame; Ok (base ++ fr)).
Proof.
  unfold overwrite. rewrite lookup_app_r by lia. replace (_ + i - _)%nat with i by lia.
  destruct (frame !! i); cbn; [|done].
  rewrite insert_app_r_alt by lia. by replace (_ + i - _)%nat with i by lia.
Qed.

Lemma reaches_assign base frame s ups next h h' frame' :
  length frame = func_args_count s ->
  global_step s frame h = Ok (StepResult_Next [StackEntry_FrameAssign ups; StackEntry_State next], h') ->
  for_each ups (fun st '(ofs, val) => overwrite ofs "_" val st) frame = Ok frame' ->
  reaches 1 (base ++ frame ++ [StackEntry_State s]) h (base ++ frame' ++ [StackEntry_State next]) h'.
Proof.
  intros Hlen Hg Hups. eapply reaches_one; [done..|]. cbn -[overwrite].
  assert (E : for_each ups (fun st '(ofs, val) => overwrite (length base + ofs) "_" val st) (base ++ frame)
              = Ok (base ++ frame')).
  { clear Hg Hlen. revert frame Hups. induction ups as [|[o w] ups IH]; intros frame Hups;
      cbn -[overwrite] in *; [by simplify_eq|].
    rewrite overwrite_app. destruct (overwrite o "_" w frame); cbn -[overwrite] in *; [|done..]. by apply IH. }
  rewrite E. cbn. by rewrite <-app_assoc.
Qed.

(** The stack of a call: the caller below, its variable [lbl] waiting for the result. *)
Definition call_stack (below : list StackEntry) (lbl : string) (old : Value)
  (above frame : list StackEntry) (s : State) : list StackEntry :=
  below ++ StackEntry_Value lbl old :: above ++
    StackEntry_Retrn (Some (S (length above))) :: frame ++ [StackEntry_State s].

(** The part of it below the callee's frame. *)
Definition call_base (below : list StackEntry) (lbl : string) (old : Value) (above : list StackEntry)
  : list StackEntry :=
  below ++ StackEntry_Value lbl old :: above ++ [StackEntry_Retrn (Some (S (length above)))].

Lemma call_stack_base below lbl old above frame s :
  call_stack below lbl old above frame s = call_base below lbl old above ++ frame ++ [StackEntry_State s].
Proof. unfold call_stack, call_base. by rewrite <-!app_assoc; cbn; rewrite <-app_assoc. Qed.
End runs.

(** ** [mult], [sub] and [factorial] *)

Abbreviation var n v := (StackEntry_Value n (Value_U64 v)).

Fixpoint factorial (n : nat) : Z :=
  match n with
  | O => 1
  | S n' => Z.of_nat n * factorial n'
  end.

Section functions.
Context `{Profile}.

Lemma mult_returns below lbl old above a b m h :
  u64_ok (a * b) ->
  reaches 1 (call_stack below lbl old above [var "a" a; var "b" b; var "mult" m] State_TestFunctionsCallMultEntry) h
            (below ++ StackEntry_Value lbl (Value_U64 (a * b)) :: above) h.
Proof. intros Hab. apply reaches_return; [done|]. cbn. by rewrite u64_mul_ok. Qed.

Lemma sub_computes below lbl old above a b m r h :
  u64_sub a b = Ok r ->
  reaches 1 (call_stack below lbl old above [var "a" a; var "b" b; var "sub" m] State_TestFunctionsCallSubEntry) h
            (below ++ StackEntry_Value lbl (Value_U64 r) :: above) h.
Proof. intros Hab. apply reaches_return; [done|]. cbn. by rewrite Hab. Qed.

Lemma sub_returns below lbl old above a b m h :
  u64_ok (a - b) ->
  reaches 1 (call_stack below lbl old above [var "a" a; var "b" b; var "sub" m] State_TestFunctionsCallSubEntry) h
            (below ++ StackEntry_Value lbl (Value_U64 (a - b)) :: above) h.
Proof. intros Hab. by apply sub_computes, u64_sub_ok. Qed.

Definition factorial_frame (n x y z : Z) : list StackEntry :=
  [var "n" n; var "fac_call_res" x; var "subtract_res" y; var "result" z].

(** From the entry of [factorial] with [n > 1] to the recursive call with [n - 1]. *)
Lemma factorial_calls base n x y z h :
  n <> 1%Z -> u64_ok (n - 1) ->
  reaches 4 (base ++ factorial_frame n x y z ++ [StackEntry_State State_TestFunctionsCallFactorialEntry]) h
    (call_stack (base ++ [var "n" n]) "fac_call_res" (Value_U64 x)
       [var "subtract_res" (n - 1); var "result" z; StackEntry_State State_TestFunctionsCallFactorialMultiply]
       (factorial_frame (n - 1) 0 0 0) State_TestFunctionsCallFactorialEntry) h.
Proof.
  intros Hn Hsub.
  eapply (reaches_trans 1 3); [apply (reaches_goto _ _ _ State_TestFunctionsCallFactorialSubtract);
    [done|cbn; by rewrite (proj2 (Z.eqb_neq _ _) Hn)]|].
  eapply (reaches_trans 1 2).
  { apply (reaches_call _ _ _ State_TestFunctionsCallFactorialFactorialCall (Some 3%nat)
      [var "a" n; var "b" 1; var "sub" 0] State_TestFunctionsCallSubEntry); [done|done|set_solver]. }
  eapply (reaches_trans 1 1).
  { pose proof (sub_returns (base ++ [var "n" n; var "fac_call_res" x]) "subtract_res" (Value_U64 y)
      [var "result" z; StackEntry_State State_TestFunctionsCallFactorialFactorialCall] n 1 0 h Hsub) as Hs.
    unfold call_stack in Hs. rewrite <-!app_assoc in Hs. exact Hs. }
  pose proof (reaches_call base (factorial_frame n x (n - 1) z) State_TestFunctionsCallFactorialFactorialCall
    State_TestFunctionsCallFactorialMultiply (Some 4%nat) (factorial_frame (n - 1) 0 0 0)
    State_TestFunctionsCallFactorialEntry h eq_refl eq_refl) as Hc.
  unfold call_stack. rewrite <-!app_assoc. apply Hc. unfold factorial_frame. set_solver.
Qed.

(** The call of [mult] after the recursive call has returned [x]. *)
Lemma factorial_mult_call base n x y z h :
  reaches 1 (base ++ factorial_frame n x y z ++ [StackEntry_State State_TestFunctionsCallFactorialMultiply]) h
    (call_stack (base ++ [var "n" n; var "fac_call_res" x; var "subtract_res" y]) "result" (Value_U64 z)
       [StackEntry_State State_TestFunctionsCallFactorialReturn]
       [var "a" n; var "b" x; var "mult" 0] State_TestFunctionsCallMultEntry) h.
Proof.
  pose proof (reaches_call base (factorial_frame n x y z) State_TestFunctionsCallFactorialMultiply
    State_TestFunctionsCallFactorialReturn (Some 2%nat) [var "a" n; var "b" x; var "mult" 0]
    State_TestFunctionsCallMultEntry h eq_refl eq_refl) as Hc.
  unfold call_stack. rewrite <-!app_assoc. apply Hc. set_solver.
Qed.

(** The multiplication and the return that follow it. *)
Lemma factorial_multiplies below lbl old above n x y z h :
  u64_ok (n * x) ->
  reaches 3 (call_stack below lbl old above (factorial_frame n x y z) State_TestFunctionsCallFactorialMultiply) h
    (below ++ StackEntry_Value lbl (Value_U64 (n * x)) :: above) h.
Proof.
  intros Hmul. rewrite call_stack_base. set (base := call_base below lbl old above).
  eapply (reaches_trans 1 2); [apply factorial_mult_call|].
  eapply (reaches_trans 1 1); [by apply mult_returns|].
  pose proof (reaches_return below lbl old above (factorial_frame n x y (n * x))
    State_TestFunctionsCallFactorialReturn h (Value_U64 (n * x)) eq_refl eq_refl) as Hr.
  change (below ++ _ :: above ++ _ :: _ ++ _) with
    (call_stack below lbl old above (factorial_frame n x y (n * x)) State_TestFunctionsCallFactorialReturn) in Hr.
  rewrite call_stack_base in Hr. fold base in Hr. rewrite <-!app_assoc. exact Hr.
Qed.

Lemma factorial_pos n : (1 <= factorial n)%Z.
Proof. induction n as [|n IH]; [done|]. cbn -[Z.mul]. nia. Qed.

Lemma factorial_mono n m : (n <= m)%nat -> (factorial n <= factorial m)%Z.
Proof.
  induction 1 as [|m _ IH]; [done|]. cbn -[Z.mul Z.of_nat]. pose proof (factorial_pos m). nia.
Qed.

Lemma factorial_self n : (Z.of_nat n <= factorial n)%Z.
Proof. destruct n as [|n]; [done|]. cbn -[Z.mul Z.of_nat]. pose proof (factorial_pos n). nia. Qed.

(** [factorial n] returns [n!] to its caller. *)
Lemma factorial_returns n h :
  (1 <= n)%nat -> u64_ok (factorial n) ->
  forall below lbl old above x y z,
  exists k, reaches k
    (call_stack below lbl old above (factorial_frame (Z.of_nat n) x y z) State_TestFunctionsCallFactorialEntry) h
    (below ++ StackEntry_Value lbl (Value_U64 (factorial n)) :: above) h.
Proof.
  induction n as [|n IH]; intros Hn Hok below lbl old above x y z; [lia|].
  destruct n as [|n].
  - exists (1 + 1)%nat. eapply reaches_trans.
    + rewrite call_stack_base.
      by apply (reaches_goto _ (factorial_frame 1 x y z) _ State_TestFunctionsCallFactorialReturn1).
    + rewrite <-call_stack_base. by apply reaches_return.
  - set (m := S n) in *. assert (Hfac : factorial (S m) = (Z.of_nat (S m) * factorial m)%Z) by done.
    pose proof (factorial_pos m). pose proof (factorial_self (S m)).
    assert (Hm : u64_ok (factorial m)) by (unfold u64_ok in *; nia).
    destruct (IH ltac:(lia) Hm (call_base below lbl old above ++ [var "n" (Z.of_nat (S m))]) "fac_call_res"
      (Value_U64 x) [var "subtract_res" (Z.of_nat (S m) - 1); var "result" z;
                     StackEntry_State State_TestFunctionsCallFactorialMultiply] 0%Z 0%Z 0%Z) as (k & Hk).
    exists (4 + (k + 3))%nat. eapply reaches_trans.
    { rewrite call_stack_base. apply factorial_calls; [lia|]. unfold u64_ok in *; lia. }
    replace (Z.of_nat (S m) - 1)%Z with (Z.of_nat m) in * by lia.
    eapply reaches_trans; [exact Hk|].
    rewrite <-!app_assoc. cbn -[Z.of_nat factorial].
    pose proof (factorial_multiplies below lbl old above (Z.of_nat (S m)) (factorial m) (Z.of_nat m) z h) as Hmul.
    rewrite call_stack_base in Hmul. rewrite Hfac. apply Hmul. by rewrite <-Hfac.
Qed.

(** Under overflow checks a factorial beyond [u64] ends in the panic of its multiplication. *)
Lemma factorial_overflows n h :
  overflow_checks = true -> (Z.of_nat n < u64_modulus)%Z -> (1 <= n)%nat -> ~ u64_ok (factorial n) ->
  forall below lbl old above x y z,
  exists k, fails k
    (call_stack below lbl old above (factorial_frame (Z.of_nat n) x y z) State_TestFunctionsCallFactorialEntry) h
    "attempt to multiply with overflow".
Proof.
  intros Hdev. induction n as [|n IH]; intros Hbound Hn Hov below lbl old above x y z; [lia|].
  destruct n as [|n]; [by destruct Hov|].
  set (m := S n) in *. assert (Hfac : factorial (S m) = (Z.of_nat (S m) * factorial m)%Z) by done.
  set (b := call_base below lbl old above ++ [var "n" (Z.of_nat (S m))]).
  set (a := [var "subtract_res" (Z.of_nat m); var "result" z; StackEntry_State State_TestFunctionsCallFactorialMultiply]).
  assert (Hcall : reaches 4
    (call_stack below lbl old above (factorial_frame (Z.of_nat (S m)) x y z) State_TestFunctionsCallFactorialEntry) h
    (call_stack b "fac_call_res" (Value_U64 x) a (factorial_frame (Z.of_nat m) 0 0 0)
       State_TestFunctionsCallFactorialEntry) h).
  { unfold a. replace (Z.of_nat m) with (Z.of_nat (S m) - 1)%Z by lia. rewrite call_stack_base.
    apply factorial_calls; [lia|]. unfold u64_ok; lia. }
  destruct (decide (u64_in_range (factorial m) = true)) as [Hm|Hm]; rewrite u64_in_range_spec in Hm.
  - destruct (factorial_returns m h ltac:(lia) Hm b "fac_call_res" (Value_U64 x) a 0%Z 0%Z 0%Z) as (k & Hk).
    exists (4 + (k + (1 + 0)))%nat. eapply reaches_fails; [exact Hcall|]. eapply reaches_fails; [exact Hk|].
    unfold b, a. rewrite <-!app_assoc. cbn -[Z.of_nat factorial]. eapply (reaches_fails 1 0);
      [apply (factorial_mult_call _ _ _ (Z.of_nat m) z)|].
    rewrite call_stack_base. apply fails_now; [done|]. cbn -[Z.of_nat factorial].
    unfold u64_mul. by rewrite u64_arith_overflow by (rewrite <-?Hfac; done).
  - destruct (IH ltac:(lia) ltac:(lia) Hm b "fac_call_res" (Value_U64 x) a 0%Z 0%Z 0%Z) as (k & Hk).
    exists (4 + k)%nat. by eapply reaches_fails.
Qed.

(** Without a predecessor, the subtraction that prepares the recursive call panics. *)
Lemma factorial_zero_fails base x y z h :
  overflow_checks = true ->
  fails (1 + (1 + 0)) (base ++ factorial_frame 0 x y z ++ [StackEntry_State State_TestFunctionsCallFactorialEntry]) h
    "attempt to subtract with overflow".
Proof.
  intros Hdev. eapply (reaches_fails 1 (1 + 0)).
  { by apply (reaches_goto _ _ _ State_TestFunctionsCallFactorialSubtract). }
  eapply (reaches_fails 1 0).
  { apply (reaches_call _ _ _ State_TestFunctionsCallFactorialFactorialCall (Some 3%nat)
      [var "a" 0; var "b" 1; var "sub" 0] State_TestFunctionsCallSubEntry); [done|done|set_solver]. }
  pose proof (fails_now (base ++ factorial_frame 0 x y z ++
    [StackEntry_State State_TestFunctionsCallFactorialFactorialCall; StackEntry_Retrn (Some 3%nat)])
    [var "a" 0; var "b" 1; var "sub" 0] State_TestFunctionsCallSubEntry h "attempt to subtract with overflow") as Hf.
  rewrite <-!app_assoc in Hf. apply Hf; [done|]. cbn. unfold u64_sub.
  by rewrite u64_arith_overflow by (done || u64_solve).
Qed.

(** ** [binary_search] *)

(** What [binary_search] does on the array [arr] from the bounds [left] and [right]: it
    halves the interval as long as it goes to the left; going right it recurses on the
    same interval and never returns; outside the array, or when it goes left from index 0,
    it panics. *)
Inductive search_outcome : Type :=
| Found (index : Z)
| NotFound
| Outside
| BelowZero
| Diverges.

Fixpoint left_search (fuel : nat) (arr : list Z) (e left right : Z) : search_outcome :=
  match fuel with
  | O => Diverges
  | S fuel' =>
      if (left >? right)%Z then NotFound
      else
        let div := ((left + right) / 2)%Z in
        match arr !! Z.to_nat div with
        | None => Outside
        | Some v =>
            if (v =? e)%Z then Found div
            else if (v <? e)%Z then Diverges
            else if (div =? 0)%Z then BelowZero
            else left_search fuel' arr e left (div - 1)
        end
  end.

Definition search_frame (e left right div v : Z) (res : option Z) : list StackEntry :=
  [var "e" e; var "left" left; var "right" right; var "div" div; var "v_by_index_div" v;
   StackEntry_Value "fac_call_res" (Value_OptionU64 res)].

Definition searched (h : Heap) : list Z := TestFunctionsCallHeap_binarySearchValues (Heap_testFunctionsCall h).

(** One round of the search, up to the comparison with the element in the middle. *)
Lemma search_middle base e left right d v res x h :
  (left <= right)%Z -> u64_ok (left + right) -> searched h !! Z.to_nat ((left + right) / 2) = Some x ->
  reaches 2 (base ++ search_frame e left right d v res ++ [StackEntry_State State_TestFunctionsCallBinarySearchEntry]) h
    (base ++ search_frame e left right ((left + right) / 2) x res ++
      [StackEntry_State State_TestFunctionsCallBinarySearchReturnIfEqual]) h.
Proof.
  intros Hle Hok Hx. eapply (reaches_trans 1 1).
  { apply (reaches_goto _ _ _ State_TestFunctionsCallBinarySearchCalculateDiv); [done|]. cbn.
    by replace (left >? right)%Z with false by lia. }
  eapply reaches_assign; [done| |].
  - cbn. rewrite u64_add_ok by done. cbn. unfold searched in Hx. rewrite Hx. reflexivity.
  - done.
Qed.

(** Going right leads to the same search, called from the state that waits for it. *)
Lemma search_goes_right base e left right div x res h :
  (x < e)%Z ->
  reaches 4 (base ++ search_frame e left right div x res ++
              [StackEntry_State State_TestFunctionsCallBinarySearchReturnIfEqual]) h
    (call_stack (base ++ take 5 (search_frame e left right div x res)) "fac_call_res" (Value_OptionU64 res)
      [StackEntry_State State_TestFunctionsCallBinarySearchReturnResult]
      (search_frame e left right 0 0 None) State_TestFunctionsCallBinarySearchEntry) h.
Proof.
  intros Hlt. eapply (reaches_trans 1 3).
  { apply (reaches_goto _ _ _ State_TestFunctionsCallBinarySearchCmpLess); [done|]. cbn.
    by replace (x =? e)%Z with false by lia. }
  eapply (reaches_trans 1 2).
  { apply (reaches_goto _ _ _ State_TestFunctionsCallBinarySearchGoRight); [done|]. cbn.
    by replace (x <? e)%Z with true by lia. }
  eapply (reaches_trans 1 1).
  { by apply (reaches_goto _ _ _ State_TestFunctionsCallBinarySearchRecursiveCall). }
  unfold call_stack. rewrite <-!app_assoc.
  apply (reaches_call base (search_frame e left right div x res) State_TestFunctionsCallBinarySearchRecursiveCall
    State_TestFunctionsCallBinarySearchReturnResult (Some 2%nat) (search_frame e left right 0 0 None)
    State_TestFunctionsCallBinarySearchEntry h); [done|done|unfold search_frame; set_solver].
Qed.

(** Going left calls [sub] for the new right bound. *)
Lemma search_goes_left base e left right div x res h :
  (e < x)%Z -> (0 <= div)%Z ->
  reaches 4 (base ++ search_frame e left right div x res ++
              [StackEntry_State State_TestFunctionsCallBinarySearchReturnIfEqual]) h
    (call_stack (base ++ take 2 (search_frame e left right div x res)) "right" (Value_U64 right)
      (drop 3 (search_frame e left right div x res) ++
        [StackEntry_State State_TestFunctionsCallBinarySearchRecursiveCall])
      [var "a" div; var "b" 1; var "sub" 0] State_TestFunctionsCallSubEntry) h.
Proof.
  intros Hlt Hdiv. eapply (reaches_trans 1 3).
  { apply (reaches_goto _ _ _ State_TestFunctionsCallBinarySearchCmpLess); [done|]. cbn.
    by replace (x =? e)%Z with false by lia. }
  eapply (reaches_trans 1 2).
  { apply (reaches_goto _ _ _ State_TestFunctionsCallBinarySearchGoLeftCheckOverflow); [done|]. cbn.
    by replace (x <? e)%Z with false by lia. }
  eapply (reaches_trans 1 1).
  { apply (reaches_goto _ _ _ State_TestFunctionsCallBinarySearchGoLeft); [done|]. cbn.
    by replace (div <? 0)%Z with false by lia. }
  unfold call_stack. rewrite <-!app_assoc.
  apply (reaches_call base (search_frame e left right div x res) State_TestFunctionsCallBinarySearchGoLeft
    State_TestFunctionsCallBinarySearchRecursiveCall (Some 5%nat) [var "a" div; var "b" 1; var "sub" 0]
    State_TestFunctionsCallSubEntry h); [done|done|set_solver].
Qed.

(** The recursive call on the left half, once [sub] has returned. *)
Lemma search_recurses base e left right div x res r h :
  u64_sub div 1 = Ok r -> (e < x)%Z -> (0 <= div)%Z ->
  reaches 6 (base ++ search_frame e left right div x res ++
              [StackEntry_State State_TestFunctionsCallBinarySearchReturnIfEqual]) h
    (call_stack (base ++ take 5 (search_frame e left r div x res)) "fac_call_res" (Value_OptionU64 res)
      [StackEntry_State State_TestFunctionsCallBinarySearchReturnResult]
      (search_frame e left r 0 0 None) State_TestFunctionsCallBinarySearchEntry) h.
Proof.
  intros Hok Hlt Hdiv. eapply (reaches_trans 4 2); [by apply search_goes_left|].
  eapply (reaches_trans 1 1); [by apply sub_computes|].
  unfold call_stack. rewrite <-!app_assoc.
  apply (reaches_call base (search_frame e left r div x res)
    State_TestFunctionsCallBinarySearchRecursiveCall
    State_TestFunctionsCallBinarySearchReturnResult (Some 2%nat) (search_frame e left r 0 0 None)
    State_TestFunctionsCallBinarySearchEntry h); [done|done|unfold search_frame; set_solver].
Qed.

(** The panic of a search that goes left from index 0: the new right bound overflows, or
    wraps around to the greatest u64, and then the middle is outside of every array. *)
Definition below_zero_panic : string :=
  if overflow_checks then "attempt to subtract with overflow" else "index out of bounds".

(** The outcome, for a search called with [below], [lbl] and [above] around it. *)
Definition search_does (o : search_outcome) (e left right : Z) (h : Heap) : Prop :=
  forall below lbl old above d v res,
  let st := call_stack below lbl old above (search_frame e left right d v res)
              State_TestFunctionsCallBinarySearchEntry in
  let answers w := exists k, reaches k st h (below ++ StackEntry_Value lbl (Value_OptionU64 w) :: above) h in
  match o with
  | Found i => answers (Some i)
  | NotFound => answers None
  | Outside => exists k, fails k st h "index out of bounds"
  | BelowZero => exists k, fails k st h below_zero_panic
  | Diverges => diverges st h
  end.

Lemma search_right_diverges e left right x h :
  (left <= right)%Z -> u64_ok (left + right) -> searched h !! Z.to_nat ((left + right) / 2) = Some x ->
  (x < e)%Z -> search_does Diverges e left right h.
Proof.
  intros Hle Hok Hx Hlt below lbl old above d v res.
  apply (diverges_by (fun st => exists below lbl old above d v res,
    st = call_stack below lbl old above (search_frame e left right d v res)
           State_TestFunctionsCallBinarySearchEntry)); [|by repeat eexists].
  clear below lbl old above d v res. intros st (below & lbl & old & above & d & v & res & ->).
  eexists (2 + 4)%nat, _. split; [lia|]. split; [|by repeat eexists].
  rewrite call_stack_base. eapply reaches_trans; [by apply search_middle|].
  by apply search_goes_right.
Qed.

(** The recursive call on the left half has the outcome of the whole search. *)
Lemma search_left_step o e left right x h :
  (left <= right)%Z -> u64_ok (left + right) ->
  let div := ((left + right) / 2)%Z in
  (0 < div)%Z -> u64_ok (div - 1) -> searched h !! Z.to_nat div = Some x -> (e < x)%Z ->
  search_does o e left (div - 1) h -> search_does o e left right h.
Proof.
  intros Hle Hok div Hdiv Hsub Hx Hlt Hrec below lbl old above d v res.
  assert (Hcall : reaches (2 + 6)
    (call_stack below lbl old above (search_frame e left right d v res) State_TestFunctionsCallBinarySearchEntry) h
    (call_stack (call_base below lbl old above ++ take 5 (search_frame e left (div - 1) div x res))
       "fac_call_res" (Value_OptionU64 res) [StackEntry_State State_TestFunctionsCallBinarySearchReturnResult]
       (search_frame e left (div - 1) 0 0 None) State_TestFunctionsCallBinarySearchEntry) h).
  { rewrite (call_stack_base below). eapply reaches_trans; [by apply search_middle|].
    apply search_recurses; [by apply u64_sub_ok|done|lia]. }
  specialize (Hrec (call_base below lbl old above ++ take 5 (search_frame e left (div - 1) div x res))
    "fac_call_res" (Value_OptionU64 res) [StackEntry_State State_TestFunctionsCallBinarySearchReturnResult]
    0%Z 0%Z None).
  assert (Hback : forall w, reaches 1
    ((call_base below lbl old above ++ take 5 (search_frame e left (div - 1) div x res)) ++
      StackEntry_Value "fac_call_res" (Value_OptionU64 w) ::
      [StackEntry_State State_TestFunctionsCallBinarySearchReturnResult]) h
    (below ++ StackEntry_Value lbl (Value_OptionU64 w) :: above) h).
  { intros w. rewrite <-app_assoc.
    pose proof (reaches_return below lbl old above (search_frame e left (div - 1) div x w)
      State_TestFunctionsCallBinarySearchReturnResult h (Value_OptionU64 w) eq_refl eq_refl) as Hr.
    pose proof (call_stack_base below lbl old above (search_frame e left (div - 1) div x w)
      State_TestFunctionsCallBinarySearchReturnResult) as E.
    unfold call_stack in E. rewrite E in Hr. exact Hr. }
  destruct o; cbn in *.
  - destruct Hrec as (k & Hk). eexists. eapply reaches_trans; [exact Hcall|].
    eapply reaches_trans; [exact Hk|apply Hback].
  - destruct Hrec as (k & Hk). eexists. eapply reaches_trans; [exact Hcall|].
    eapply reaches_trans; [exact Hk|apply Hback].
  - destruct Hrec as (k & Hk). eexists. eapply reaches_fails; [exact Hcall|exact Hk].
  - destruct Hrec as (k & Hk). eexists. eapply reaches_fails; [exact Hcall|exact Hk].
  - eapply reaches_diverges; [exact Hcall|exact Hrec].
Qed.

Lemma search_empty e left right h : (right < left)%Z -> search_does NotFound e left right h.
Proof.
  intros Hgt below lbl old above d v res. exists (1 + 1)%nat. rewrite call_stack_base. eapply reaches_trans.
  - apply (reaches_goto _ _ _ State_TestFunctionsCallBinarySearchReturnNone); [done|]. cbn.
    by replace (left >? right)%Z with true by lia.
  - rewrite <-call_stack_base. by apply reaches_return.
Qed.

Lemma search_outside e left right h :
  (left <= right)%Z -> u64_ok (left + right) -> searched h !! Z.to_nat ((left + right) / 2) = None ->
  search_does Outside e left right h.
Proof.
  intros Hle Hok Hx below lbl old above d v res st answers. unfold st. exists (1 + 0)%nat.
  rewrite call_stack_base. eapply reaches_fails.
  - apply (reaches_goto _ _ _ State_TestFunctionsCallBinarySearchCalculateDiv); [done|]. cbn.
    by replace (left >? right)%Z with false by lia.
  - apply fails_now; [done|]. cbn. rewrite u64_add_ok by done. cbn. unfold searched in Hx. by rewrite Hx.
Qed.

Lemma search_hit e left right h :
  (left <= right)%Z -> u64_ok (left + right) -> searched h !! Z.to_nat ((left + right) / 2) = Some e ->
  search_does (Found ((left + right) / 2)) e left right h.
Proof.
  intros Hle Hok Hx below lbl old above d v res. exists (2 + (1 + 1))%nat. rewrite call_stack_base.
  eapply reaches_trans; [by apply search_middle|]. eapply reaches_trans.
  - apply (reaches_goto _ _ _ State_TestFunctionsCallBinarySearchReturnFound); [done|]. cbn.
    by rewrite Z.eqb_refl.
  - rewrite <-call_stack_base. by apply reaches_return.
Qed.

(** No [Vec] has so many elements that the greatest u64 could halve to an index of one. *)
Definition vec_fits {A} (l : list A) : Prop := (Z.of_nat (length l) < 2 ^ 63)%Z.

Lemma search_below_zero e left right x h :
  (0 <= left)%Z -> (left <= right)%Z -> u64_ok (left + right) -> ((left + right) / 2 = 0)%Z ->
  vec_fits (searched h) -> searched h !! 0%nat = Some x -> (e < x)%Z -> search_does BelowZero e left right h.
Proof.
  intros Hl Hle Hok H0 Hfits Hx Hlt below lbl old above d v res st answers. unfold st, below_zero_panic.
  assert (left = 0)%Z as -> by (pose proof (Z.div_mod (left + right) 2); pose proof (Z.mod_pos_bound (left + right) 2); lia).
  destruct overflow_checks eqn:Hdev.
  - exists (2 + (4 + 0))%nat. rewrite call_stack_base.
    eapply reaches_fails; [apply search_middle; [done|done|by rewrite H0]|].
    eapply reaches_fails; [apply search_goes_left; lia|].
    rewrite call_stack_base. apply fails_now; [done|]. cbn. rewrite H0. unfold u64_sub.
    by rewrite u64_arith_overflow by (done || u64_solve).
  - exists (2 + (6 + (1 + 0)))%nat. rewrite call_stack_base.
    eapply reaches_fails; [apply search_middle; [done|done|by rewrite H0]|].
    eapply reaches_fails; [apply (search_recurses _ _ _ _ _ _ _ u64_max); [|done|lia]|].
    { rewrite H0. unfold u64_sub, u64_arith. rewrite Hdev. by vm_compute. }
    rewrite call_stack_base. eapply reaches_fails.
    + apply (reaches_goto _ _ _ State_TestFunctionsCallBinarySearchCalculateDiv); done.
    + apply fails_now; [done|]. cbn. rewrite u64_add_ok by u64_solve. rewrite Z.add_0_l. cbn -[u64_max Z.div].
      assert (Hnone : searched h !! Z.to_nat (u64_max / 2) = None).
      { apply lookup_ge_None. unfold vec_fits in Hfits. replace (u64_max / 2)%Z with (2 ^ 63 - 1)%Z by reflexivity. lia. }
      unfold searched in Hnone. by rewrite Hnone.
Qed.

(** The sum of the bounds is checked before anything else. *)
Lemma search_bounds_overflow base e left right d v res h :
  overflow_checks = true -> (left <= right)%Z -> ~ u64_ok (left + right) ->
  fails (1 + 0) (base ++ search_frame e left right d v res ++ [StackEntry_State State_TestFunctionsCallBinarySearchEntry]) h
    "attempt to add with overflow".
Proof.
  intros Hdev Hle Hbig. eapply reaches_fails.
  - apply (reaches_goto _ _ _ State_TestFunctionsCallBinarySearchCalculateDiv); [done|]. cbn.
    by replace (left >? right)%Z with false by lia.
  - apply fails_now; [done|]. cbn. unfold u64_add. by rewrite u64_arith_overflow.
Qed.

Lemma search_spec e left fuel right h :
  (0 <= left)%Z -> (0 <= right)%Z -> u64_ok (left + right) -> vec_fits (searched h) -> (Z.to_nat right < fuel)%nat ->
  search_does (left_search fuel (searched h) e left right) e left right h.
Proof.
  intros Hl. revert right. induction fuel as [|fuel IH]; intros right Hr Hok Hfits Hf; [lia|]. cbn.
  destruct (Z.gtb_spec left right) as [Hgt|Hle]; [by apply search_empty|].
  assert (Hdiv : (left <= (left + right) / 2 <= right)%Z)
    by (split; [apply Z.div_le_lower_bound|apply Z.div_le_upper_bound]; lia).
  destruct (searched h !! Z.to_nat ((left + right) / 2)) as [x|] eqn:Hx; [|by apply search_outside].
  destruct (Z.eqb_spec x e) as [->|Hne]; [by apply search_hit|].
  destruct (Z.ltb_spec x e) as [Hlt|Hge]; [by apply search_right_diverges with x|].
  destruct (Z.eqb_spec ((left + right) / 2) 0) as [H0|H0].
  - rewrite H0 in Hx. apply (search_below_zero e left right x); [done..|lia].
  - apply (search_left_step _ e left right x); [done|done|lia|unfold u64_ok in *; lia|done|lia|].
    apply IH; [lia|unfold u64_ok in *; lia|done|lia].
Qed.
End functions.

(** ** Whole runs *)
Section whole_runs.
Context `{Profile}.

(** The fiber stops with the value [v] left on its stack. *)
Definition finishes_with (fb : Fiber) (sink : string) (v : Value) : Prop :=
  exists fuel fb' sink', stack fb' = [StackEntry_Value "ret" v] /\
    forall m, run (fuel + m) fb sink = Ok (fb', sink', RunResult_Done).

Definition panics_with (fb : Fiber) (sink : string) (msg : string) : Prop :=
  exists fuel, forall m, run (fuel + m) fb sink = Panic msg.

Lemma reaches_finishes k fb sink h v :
  reaches k (stack fb) (heap fb) [StackEntry_Value "ret" v] h -> finishes_with fb sink v.
Proof.
  intros Hr. destruct (Hr (fb, sink)) as ([fb' sink'] & Hk & [Hst _]); [done|]. cbn in Hst.
  exists (k + 1)%nat, fb', sink'. split; [done|]. intros m.
  rewrite <-Nat.add_assoc. rewrite (run_nsteps _ _ _ _ Hk : run _ fb sink = _). cbn.
  unfold run_step. by rewrite Hst.
Qed.

Lemma fails_panics k fb sink msg : fails k (stack fb) (heap fb) msg -> panics_with fb sink msg.
Proof.
  intros Hf. destruct (Hf (fb, sink)) as ([fb' sink'] & Hk & Hp); [done|]. cbn in Hp.
  exists (k + 1)%nat. intros m.
  rewrite <-Nat.add_assoc. rewrite (run_nsteps _ _ _ _ Hk : run _ fb sink = _). cbn. by rewrite Hp.
Qed.
End whole_runs.

(** C18: the fiber that calls [factorial n] stops with [n!] on its stack when [n!] fits in
    a u64 and [n] is at least 1; under overflow checks it panics in the multiplication
    when [n!] does not fit, and in the subtraction when [n] is 0, which the recursion has
    no case for. *)
Theorem factorial_computes `{Profile} n fb sink :
  stack fb = fst (testFunctionsCall_prepare_factorial (Z.of_nat n)) -> (Z.of_nat n < u64_modulus)%Z ->
  ((1 <= n)%nat -> u64_ok (factorial n) -> finishes_with fb sink (Value_U64 (factorial n))) /\
  (overflow_checks = true -> (1 <= n)%nat -> ~ u64_ok (factorial n) ->
     panics_with fb sink "attempt to multiply with overflow") /\
  (overflow_checks = true -> n = 0%nat -> panics_with fb sink "attempt to subtract with overflow").
Proof.
  intros Hst Hbound.
  assert (E : stack fb = call_stack [] "ret" (Value_U64 0) [] (factorial_frame (Z.of_nat n) 0 0 0)
                           State_TestFunctionsCallFactorialEntry) by done.
  split_and!.
  - intros Hn Hok. destruct (factorial_returns n (heap fb) Hn Hok [] "ret" (Value_U64 0) [] 0%Z 0%Z 0%Z) as (k & Hk).
    rewrite <-E in Hk. by eapply reaches_finishes.
  - intros Hdev Hn Hov.
    destruct (factorial_overflows n (heap fb) Hdev Hbound Hn Hov [] "ret" (Value_U64 0) [] 0%Z 0%Z 0%Z) as (k & Hk).
    rewrite <-E in Hk. by eapply fails_panics.
  - intros Hdev ->. rewrite call_stack_base in E.
    eapply fails_panics. rewrite E. by apply factorial_zero_fails.
Qed.

(** A fiber about to run one function of [testFunctionsCall], over the given array. *)
Definition call_fiber (st : list StackEntry) (arr : list Z) : Fiber :=
  mkFiber st (set_binarySearchValues arr Heap_default) "" "testFunctionsCall" 0 [].

Definition factorial_fiber (n : Z) : Fiber := call_fiber (fst (testFunctionsCall_prepare_factorial n)) [].
Definition search_fiber (e left right : Z) (arr : list Z) : Fiber :=
  call_fiber (fst (testFunctionsCall_prepare_binarySearch e left right)) arr.

Lemma factorial_computes_witness :
  @finishes_with dev_profile (factorial_fiber 5) "" (Value_U64 120) /\
  @panics_with dev_profile (factorial_fiber 21) "" "attempt to multiply with overflow" /\
  @panics_with dev_profile (factorial_fiber 0) "" "attempt to subtract with overflow".
Proof.
  split_and!.
  - refine (proj1 (@factorial_computes dev_profile 5 (factorial_fiber 5) "" eq_refl eq_refl) _ _);
      [lia|by apply u64_in_range_spec].
  - refine (proj1 (proj2 (@factorial_computes dev_profile 21 (factorial_fiber 21) "" eq_refl eq_refl)) eq_refl _ _);
      [lia|]. rewrite <-u64_in_range_spec. vm_compute. discriminate.
  - exact (proj2 (proj2 (@factorial_computes dev_profile 0 (factorial_fiber 0) "" eq_refl eq_refl)) eq_refl eq_refl).
Defined.

(** C19: what the compiled [binary_search] does, exactly, from u64 bounds [left] and [right]
    whose sum fits in a u64, on an array shorter than 2^63 (as every [Vec] is), in every
    build: it is the leftward search [left_search]. It returns the index of the target when
    halving to the left meets it, and nothing when the interval is empty; when the middle
    is outside the array it panics with the index; when the target is below the element at
    index 0 it panics in the subtraction, or, in a build without overflow checks, with the
    index the wrapped bound leads to; and when it has to go right it calls itself with the
    same bounds, so that no fuel is enough. Bounds in order whose sum does not fit panic in
    the addition under overflow checks. The search from bound 0 never answers that the
    target is missing. *)
Theorem binary_search_exact `{Profile} fb sink e left right :
  stack fb = fst (testFunctionsCall_prepare_binarySearch e left right) ->
  (0 <= left)%Z -> (0 <= right)%Z -> vec_fits (searched (heap fb)) ->
  let outcome := left_search (S (Z.to_nat right)) (searched (heap fb)) e left right in
  (u64_ok (left + right) ->
   match outcome with
   | Found i => finishes_with fb sink (Value_OptionU64 (Some i))
   | NotFound => finishes_with fb sink (Value_OptionU64 None)
   | Outside => panics_with fb sink "index out of bounds"
   | BelowZero => panics_with fb sink below_zero_panic
   | Diverges => forall fuel, run fuel fb sink = OutOfFuel
   end) /\
  (overflow_checks = true -> (left <= right)%Z -> ~ u64_ok (left + right) ->
   panics_with fb sink "attempt to add with overflow") /\
  (left = 0%Z -> outcome <> NotFound).
Proof.
  intros Hst Hl Hr Hfits outcome.
  assert (E : stack fb = call_stack [] "ret" (Value_OptionU64 None) [] (search_frame e left right 0 0 None)
                           State_TestFunctionsCallBinarySearchEntry) by done.
  split_and!.
  - intros Hok. pose proof (search_spec e left (S (Z.to_nat right)) right (heap fb) Hl Hr Hok Hfits ltac:(lia)) as Hs.
    fold outcome in Hs.
    specialize (Hs [] "ret" (Value_OptionU64 None) [] 0%Z 0%Z None). cbn zeta in Hs. rewrite <-E in Hs.
    destruct outcome.
    + destruct Hs as (k & Hk). by eapply reaches_finishes.
    + destruct Hs as (k & Hk). by eapply reaches_finishes.
    + destruct Hs as (k & Hk). by eapply fails_panics.
    + destruct Hs as (k & Hk). by eapply fails_panics.
    + intros fuel. by apply (Hs (fb, sink)).
  - intros Hdev Hle Hbig. eapply fails_panics. rewrite E, call_stack_base. by apply search_bounds_overflow.
  - intros ->. unfold outcome. clear Hst outcome Hl E Hfits.
    generalize (searched (heap fb)) as arr. intros arr.
    generalize (S (Z.to_nat right)) as n. intros n. revert right Hr.
    induction n as [|n IH]; intros right Hr; [done|]. cbn [left_search]. cbv zeta.
    replace (0 >? right)%Z with false by lia. rewrite Z.add_0_l.
    destruct (arr !! _); [|done]. destruct (_ =? e)%Z; [done|]. destruct (_ <? e)%Z; [done|].
    destruct (Z.eqb_spec (right / 2) 0); [done|]. apply IH.
    pose proof (Z.div_pos right 2 Hr). lia.
Qed.

Lemma binary_search_exact_witness :
  @finishes_with dev_profile (search_fiber 4 0 7 [1; 2; 3; 4; 5; 6; 7; 8]%Z) "" (Value_OptionU64 (Some 3%Z)) /\
  (forall fuel, @run dev_profile fuel (search_fiber 6 0 7 [1; 2; 3; 4; 5; 6; 7; 8]%Z) "" = OutOfFuel) /\
  @panics_with release_profile (search_fiber 0 0 7 [1; 2; 3; 4; 5; 6; 7; 8]%Z) "" "index out of bounds".
Proof.
  split_and!.
  - refine (proj1 (@binary_search_exact dev_profile (search_fiber 4 0 7 [1; 2; 3; 4; 5; 6; 7; 8]%Z) "" 4 0 7
      eq_refl _ _ _) _); by vm_compute.
  - refine (proj1 (@binary_search_exact dev_profile (search_fiber 6 0 7 [1; 2; 3; 4; 5; 6; 7; 8]%Z) "" 6 0 7
      eq_refl _ _ _) _); by vm_compute.
  - refine (proj1 (@binary_search_exact release_profile (search_fiber 0 0 7 [1; 2; 3; 4; 5; 6; 7; 8]%Z) "" 0 0 7
      eq_refl _ _ _) _); by vm_compute.
Defined.
