(* ===== verification/Runtime.v ===== *)
(** * The runtime: fibers, queues, futures and timers

    Models [runtime/src/runtime.rs]. The state of [Runtime] is a record; the channel to
    the application is the list of inputs not yet received and the list of outputs sent.
    The main loop of [run] is cut at the points where it reads the clock or hands control
    to the next part of its body: [rt_step] executes the part the program counter names.
    A clock reading is an argument, so that theorems hold for every clock. The fuel is
    that of [Fiber.run], whose loop need not end. *)
From S2P Require Import Prelude Types Values Assembler Protocol Fiber Waits.
From stdpp Require Import pretty.
Local Open Scope string_scope.
Local Open Scope list_scope.

(** ** Timers *)
Record ScheduledBlob := mkScheduledBlob {
  ScheduledBlob_when : LogicalTimeAbsoluteMs;
  ScheduledBlob_what : string
}.

Section runtime.
Context `{Profile} `{BinaryHeap} `{Slab}.

(** ** State *)
Record Runtime := mkRuntime {
  receiver : list Input;                              (* inputs not yet received *)
  sent : list Output;                                 (* outputs sent, oldest first *)
  active_tasks : list Input;
  active_fibers : list Fiber;
  scheduled : list ScheduledBlob;
  next_fiber_id : Z;
  next_created_future_id : Z;
  public_futures : gmap string UniqueU64BlobId;
  queue_messages : gmap string (list Value);
  non_empty_queues : list string;
  resolved_futures : list (string * Value);
  dbg_out : string;
  wait_index : WaitRegistry;
  awaiting_fibers : gmap Z Fiber
}.

Definition runtime_new : Runtime :=
  mkRuntime [] [] [] [] [] 0 0 ∅ ∅ [] [] "" registry_default ∅.

(** One setter per field that the parts of the loop assign. *)
Definition set_active_fibers (l : list Fiber) (self : Runtime) : Runtime :=
  mkRuntime (receiver self) (sent self) (active_tasks self) l (scheduled self) (next_fiber_id self)
    (next_created_future_id self) (public_futures self) (queue_messages self) (non_empty_queues self)
    (resolved_futures self) (dbg_out self) (wait_index self) (awaiting_fibers self).
Definition set_scheduled (l : list ScheduledBlob) (self : Runtime) : Runtime :=
  mkRuntime (receiver self) (sent self) (active_tasks self) (active_fibers self) l (next_fiber_id self)
    (next_created_future_id self) (public_futures self) (queue_messages self) (non_empty_queues self)
    (resolved_futures self) (dbg_out self) (wait_index self) (awaiting_fibers self).
Definition set_next_fiber_id (n : Z) (self : Runtime) : Runtime :=
  mkRuntime (receiver self) (sent self) (active_tasks self) (active_fibers self) (scheduled self) n
    (next_created_future_id self) (public_futures self) (queue_messages self) (non_empty_queues self)
    (resolved_futures self) (dbg_out self) (wait_index self) (awaiting_fibers self).
Definition set_next_created_future_id (n : Z) (self : Runtime) : Runtime :=
  mkRuntime (receiver self) (sent self) (active_tasks self) (active_fibers self) (scheduled self)
    (next_fiber_id self) n (public_futures self) (queue_messages self) (non_empty_queues self)
    (resolved_futures self) (dbg_out self) (wait_index self) (awaiting_fibers self).
Definition set_public_futures (m : gmap string UniqueU64BlobId) (self : Runtime) : Runtime :=
  mkRuntime (receiver self) (sent self) (active_tasks self) (active_fibers self) (scheduled self)
    (next_fiber_id self) (next_created_future_id self) m (queue_messages self) (non_empty_queues self)
    (resolved_futures self) (dbg_out self) (wait_index self) (awaiting_fibers self).
Definition set_queues (m : gmap string (list Value)) (names : list string) (self : Runtime) : Runtime :=
  mkRuntime (receiver self) (sent self) (active_tasks self) (active_fibers self) (scheduled self)
    (next_fiber_id self) (next_created_future_id self) (public_futures self) m names
    (resolved_futures self) (dbg_out self) (wait_index self) (awaiting_fibers self).
Definition set_resolved_futures (l : list (string * Value)) (self : Runtime) : Runtime :=
  mkRuntime (receiver self) (sent self) (active_tasks self) (active_fibers self) (scheduled self)
    (next_fiber_id self) (next_created_future_id self) (public_futures self) (queue_messages self)
    (non_empty_queues self) l (dbg_out self) (wait_index self) (awaiting_fibers self).
Definition set_dbg_out (s : string) (self : Runtime) : Runtime :=
  mkRuntime (receiver self) (sent self) (active_tasks self) (active_fibers self) (scheduled self)
    (next_fiber_id self) (next_created_future_id self) (public_futures self) (queue_messages self)
    (non_empty_queues self) (resolved_futures self) s (wait_index self) (awaiting_fibers self).
Definition set_waiting (w : WaitRegistry) (m : gmap Z Fiber) (self : Runtime) : Runtime :=
  mkRuntime (receiver self) (sent self) (active_tasks self) (active_fibers self) (scheduled self)
    (next_fiber_id self) (next_created_future_id self) (public_futures self) (queue_messages self)
    (non_empty_queues self) (resolved_futures self) (dbg_out self) w m.
Definition set_channels (r : list Input) (s : list Output) (tasks : list Input) (self : Runtime) : Runtime :=
  mkRuntime r s tasks (active_fibers self) (scheduled self)
    (next_fiber_id self) (next_created_future_id self) (public_futures self) (queue_messages self)
    (non_empty_queues self) (resolved_futures self) (dbg_out self) (wait_index self) (awaiting_fibers self).

Definition push_front_fiber (fiber : Fiber) (self : Runtime) : Runtime :=
  set_active_fibers (fiber :: active_fibers self) self.
Definition push_back_fiber (fiber : Fiber) (self : Runtime) : Runtime :=
  set_active_fibers (active_fibers self ++ [fiber]) self.

(** The first lines of [run]. *)
Definition start (root_type : string) (self : Runtime) : result Runtime :=
  root ← fiber_new root_type 0 [];
  Ok (push_back_fiber root (set_next_fiber_id 1 self)).

(** ** Timers that are due *)
Definition take_scheduled (now : LogicalTimeAbsoluteMs) (self : Runtime) : Runtime :=
  match heap_pop ScheduledBlob_when (scheduled self) with
  | Some (blob, rest) =>
      if decide (ScheduledBlob_when blob <= now)%Z then
        set_resolved_futures ((ScheduledBlob_what blob, Value_Unit) :: resolved_futures self)
          (set_scheduled rest self)
      else self
  | None => self
  end.

(** ** What a fiber asks for *)

(** [RunResult::CreateFibers]: the loop over the new fibers. *)
Definition create_fiber (st : Runtime * string) (d : string * list Value) : result (Runtime * string) :=
  let '(self, local_dbg) := st in
  let '(f_type, init_vars) := d in
  let local_dbg := local_dbg +:+ "created: " +:+ debug_tuple "FiberType" (debug_string f_type) +:+ ":"
                     +:+ pretty (next_fiber_id self) +:+ ". init_vars:" +:+ newline in
  let local_dbg := foldl (fun s v => s +:+ "    " +:+ debug_Value v +:+ newline) local_dbg init_vars in
  nf ← fiber_new f_type (next_fiber_id self) init_vars;
  n ← u64_add (next_fiber_id self) 1;
  Ok (push_back_fiber nf (set_next_fiber_id n self), local_dbg).

(** [RunResult::SetValues]: one value. *)
Definition set_value (self : Runtime) (v : SetPrimitiveValue) : result Runtime :=
  match v with
  | SetPrimitiveValue_QueueMessage queue_name value =>
      match queue_messages self !! queue_name with
      | Some queue =>
          Ok (set_queues (<[queue_name := queue ++ [value]]> (queue_messages self))
                (if decide (queue = []) then non_empty_queues self ++ [queue_name]
                 else non_empty_queues self) self)
      | None => Panic "it means smb is trying to send value to non-existing queue"
      end
  | SetPrimitiveValue_Future id value =>
      match public_futures self !! id with
      | Some u_id =>
          Ok (set_channels (receiver self) (sent self ++ [(u_id, value)]) (active_tasks self)
                (set_public_futures (delete id (public_futures self)) self))
      | None => Ok (set_resolved_futures (resolved_futures self ++ [(id, value)]) self)
      end
  end.

(** [RunResult::Create]: the validation of all primitives. *)
Definition validate_primitive (self : Runtime) (st : gset string * list (option string) * bool)
  (primitive : CreatePrimitiveValue) : gset string * list (option string) * bool :=
  let '(candidate_queues, errors, has_error) := st in
  match primitive with
  | CreatePrimitiveValue_Queue name _ =>
      if decide (is_Some (queue_messages self !! name) \/ name ∈ candidate_queues)
      then (candidate_queues, errors ++ [Some "already_exists"], true)
      else ({[name]} ∪ candidate_queues, errors ++ [None], has_error)
  | CreatePrimitiveValue_Future | CreatePrimitiveValue_Schedule _ =>
      (candidate_queues, errors ++ [None], has_error)
  end.

Definition validate (self : Runtime) (primitives : list CreatePrimitiveValue)
  : gset string * list (option string) * bool :=
  foldl (validate_primitive self) (∅, [], false) primitives.

(** The creation of one primitive; [clock] is the reading a [Schedule] makes. *)
Definition apply_primitive (st : Runtime * list string) (p : LogicalTimeAbsoluteMs * CreatePrimitiveValue)
  : result (Runtime * list string) :=
  let '(self, ids) := st in
  let '(clock, primitive) := p in
  match primitive with
  | CreatePrimitiveValue_Queue name _ =>
      Ok (set_queues (<[name := []]> (queue_messages self)) (non_empty_queues self) self, ids ++ [name])
  | CreatePrimitiveValue_Future =>
      let id := pretty (next_created_future_id self) in
      n ← u64_add (next_created_future_id self) 1;
      Ok (set_next_created_future_id n self, ids ++ [id])
  | CreatePrimitiveValue_Schedule ms =>
      let id := pretty (next_created_future_id self) in
      n ← u64_add (next_created_future_id self) 1;
      due ← LogicalTime.add clock ms;
      Ok (set_scheduled (mkScheduledBlob due id :: scheduled self) (set_next_created_future_id n self),
          ids ++ [id])
  end.

(** The two loops that bind the outcome into the fiber's locals. *)
Definition bind_errors (errors : list (option string)) (fail_binds : list string) (fiber : Fiber)
  : result Fiber :=
  for_each (imap pair fail_binds)
    (fun fiber '(idx, var_name) =>
       assign_local var_name (Value_OptionString (default None (errors !! idx))) fiber) fiber.

Definition bind_ids (ids : list string) (success_kinds : list SuccessBindKind)
  (success_binds : list string) (fiber : Fiber) : result Fiber :=
  for_each (imap pair success_binds)
    (fun fiber '(idx, var_name) =>
       id ← expect "no way it doesn't exist" (ids !! idx);
       let v := match success_kinds !! idx with
                | Some (SuccessBindKind_Future kind) => wrap_future_id kind id
                | Some SuccessBindKind_String | None => Value_String id
                end in
       assign_local var_name v fiber) fiber.

Definition handle_create (clock : nat -> LogicalTimeAbsoluteMs) (fiber : Fiber)
  (primitives : list CreatePrimitiveValue) (success_next : State) (success_binds : list string)
  (success_kinds : list SuccessBindKind) (fail_next : State) (fail_binds : list string)
  (self : Runtime) : result Runtime :=
  let '(_, errors, has_error) := validate self primitives in
  if (has_error : bool) then
    fiber ← bind_errors errors fail_binds fiber;
    Ok (push_front_fiber (push_next fail_next fiber) self)
  else
    '(self, ids) ← for_each (imap (fun i p => (clock i, p)) primitives) apply_primitive (self, []);
    fiber ← bind_ids ids success_kinds success_binds fiber;
    Ok (push_front_fiber (push_next success_next fiber) self).

(** The body of [match res], with what it adds to the local debug output. *)
Definition handle_run_result (clock : nat -> LogicalTimeAbsoluteMs) (fiber : Fiber) (res : RunResult)
  (self : Runtime) (local_dbg : string) : result (Runtime * string) :=
  match res with
  | RunResult_Done =>
      Ok (self, local_dbg +:+ "--- exit " +:+ f_type fiber +:+ ":" +:+ pretty (unique_id fiber) +:+ " ---" +:+ newline)
  | RunResult_Select states =>
      Ok (set_waiting (fst (register_select (wait_index self) (unique_id fiber) states))
            (<[unique_id fiber := fiber]> (awaiting_fibers self)) self, local_dbg)
  | RunResult_CreateFibers details =>
      '(self, local_dbg) ← for_each details create_fiber (self, local_dbg);
      Ok (push_front_fiber fiber self, local_dbg)
  | RunResult_SetValues values =>
      self ← for_each values set_value self;
      Ok (push_front_fiber fiber self, local_dbg)
  | RunResult_Create primitives success_next success_binds success_kinds fail_next fail_binds =>
      self ← handle_create clock fiber primitives success_next success_binds success_kinds
               fail_next fail_binds self;
      Ok (self, local_dbg)
  end.

(** One round of [while let Some(fiber) = self.active_fibers.pop_front()]. *)
Definition fiber_turn (fuel : nat) (clock : nat -> LogicalTimeAbsoluteMs) (fiber : Fiber)
  (rest : list Fiber) (self : Runtime) : result Runtime :=
  let self := set_active_fibers rest self in
  let tag := f_type fiber +:+ ":" +:+ pretty (unique_id fiber) +:+ " ---" +:+ newline in
  '(fiber, local_dbg, res) ← run fuel fiber ("--- start " +:+ tag);
  let local_dbg := local_dbg +:+ "--- await " +:+ tag in
  '(self, local_dbg) ← handle_run_result clock fiber res self local_dbg;
  Ok (set_dbg_out (dbg_out self +:+ local_dbg) self).

(** ** Waking fibers *)

Definition resume (fiber : Fiber) (bind : option string) (value : Value) (next : State) : result Fiber :=
  match bind with
  | Some bind_var => assign_local_and_push_next bind_var value next fiber
  | None => Ok (push_next next fiber)
  end.

(** The block that resolves at most one future. *)
Definition resolve_future (self : Runtime) : result Runtime :=
  match resolved_futures self with
  | [] => Ok self
  | (future_id, value) :: rest =>
      let self := set_resolved_futures rest self in
      '(awaiter, w) ← wake_one (wait_index self) (WaitKey_Future future_id);
      match (awaiter : option WakeOutcome) with
      | Some awaiter =>
          w_fiber ← expect "data consistency violation" (awaiting_fibers self !! WakeOutcome_fiber_id awaiter);
          let self := set_waiting w (delete (WakeOutcome_fiber_id awaiter) (awaiting_fibers self)) self in
          w_fiber ← resume w_fiber (WakeOutcome_bind awaiter) value (WakeOutcome_next awaiter);
          Ok (push_front_fiber w_fiber self)
      | None => Ok (set_resolved_futures (rest ++ [(future_id, value)]) (set_waiting w (awaiting_fibers self) self))
      end
  end.

(** The block that hands out at most one queue message; [true] is [continue 'main_loop]. *)
Definition serve_queue (self : Runtime) : result (Runtime * bool) :=
  match non_empty_queues self with
  | [] => Ok (self, false)
  | q_name :: names =>
      let self := set_queues (queue_messages self) names self in
      '(awaiter, w) ← wake_one (wait_index self) (WaitKey_Queue q_name);
      match (awaiter : option WakeOutcome) with
      | Some awaiter =>
          fb ← expect "if fiber is in wait_index, it should be in awaiters. Otherwise data consistency is violated"
                 (awaiting_fibers self !! WakeOutcome_fiber_id awaiter);
          let self := set_waiting w (delete (WakeOutcome_fiber_id awaiter) (awaiting_fibers self)) self in
          m_queue ← expect "should be here and non empty. Otherwise it shouldn't end up in non_empty_queues"
                      (queue_messages self !! q_name);
          v ← expect "should be non empty. Otherwise it shouldn't end up in non_empty_queues" (head m_queue);
          fb ← resume fb (WakeOutcome_bind awaiter) v (WakeOutcome_next awaiter);
          let self := push_front_fiber fb self in
          let m_queue := tail m_queue in
          Ok (set_queues (<[q_name := m_queue]> (queue_messages self))
                (if decide (m_queue = []) then names else names ++ [q_name]) self, true)
      | None => Ok (set_queues (queue_messages self) (names ++ [q_name])
                      (set_waiting w (awaiting_fibers self) self), false)
      end
  end.

(** ** Intake *)

Definition take_blueprint (self : Runtime) (blueprint : TaskBlueprint) : result Runtime :=
  match queue_messages self !! TaskBlueprint_q_name blueprint with
  | Some queue =>
      let id := pretty (next_created_future_id self) in
      p_value ← pub_to_private (TaskBlueprint_value blueprint) id;
      n ← u64_add (next_created_future_id self) 1;
      let self := set_next_created_future_id n
                    (set_public_futures (<[id := TaskBlueprint_global_id blueprint]> (public_futures self)) self) in
      Ok (set_queues (<[TaskBlueprint_q_name blueprint := queue ++ [p_value]]> (queue_messages self))
            (if decide (queue = []) then non_empty_queues self ++ [TaskBlueprint_q_name blueprint]
             else non_empty_queues self) self)
  | None => Ok self
  end.

(** One iteration of the intake loop; [true] is another iteration. *)
Definition intake (now : LogicalTimeAbsoluteMs) (self : Runtime) : result (Runtime * bool) :=
  let next :=
    match active_tasks self with
    | t :: tasks => Some (t, set_channels (receiver self) (sent self) tasks self)
    | [] =>
        match receiver self with
        | [] => None
        | t :: r => Some (t, set_channels r (sent self) [] self)
        end
    end in
  match next with
  | None => Ok (self, false)
  | Some ((time_stamp, current_queue), self) =>
      if decide (now < time_stamp)%Z then
        Ok (set_channels (receiver self) (sent self) ((time_stamp, current_queue) :: active_tasks self) self, false)
      else
        self ← for_each current_queue take_blueprint self;
        Ok (self, true)
  end.

(** ** The main loop *)
Inductive Pc : Type := Pc_Scheduled | Pc_Fibers | Pc_Future | Pc_Queue | Pc_Intake.

Definition rt_step (fuel : nat) (clock : nat -> LogicalTimeAbsoluteMs) (pc : Pc) (self : Runtime)
  : result (Pc * Runtime) :=
  match pc with
  | Pc_Scheduled => Ok (Pc_Fibers, take_scheduled (clock 0%nat) self)
  | Pc_Fibers =>
      match active_fibers self with
      | [] => Ok (Pc_Future, self)
      | fiber :: rest => self ← fiber_turn fuel clock fiber rest self; Ok (Pc_Fibers, self)
      end
  | Pc_Future => self ← resolve_future self; Ok (Pc_Queue, self)
  | Pc_Queue =>
      '(self, continue) ← serve_queue self;
      Ok (if (continue : bool) then Pc_Scheduled else Pc_Intake, self)
  | Pc_Intake =>
      '(self, again) ← intake (clock 0%nat) self;
      Ok (if (again : bool) then Pc_Intake else Pc_Scheduled, self)
  end.

(** The application puts an input on the channel. *)
Definition deliver (input : Input) (self : Runtime) : Runtime :=
  set_channels (receiver self ++ [input]) (sent self) (active_tasks self) self.

(** What happens to a running runtime: one of its own steps, or an input that arrives. *)
Inductive RtEvent : Type :=
| Rt_Step (clock : nat -> LogicalTimeAbsoluteMs)
| Rt_Deliver (input : Input).

Definition rt_event (fuel : nat) (st : Pc * Runtime) (ev : RtEvent) : result (Pc * Runtime) :=
  match ev with
  | Rt_Step clock => rt_step fuel clock (fst st) (snd st)
  | Rt_Deliver input => Ok (fst st, deliver input (snd st))
  end.

Definition run_runtime (fuel : nat) (root_type : string) (evs : list RtEvent) : result (Pc * Runtime) :=
  self ← start root_type runtime_new;
  for_each evs (rt_event fuel) (Pc_Scheduled, self).
End runtime.
