(* ===== verification/RuntimeInv.v ===== *)
(** * The runtime's internal consistency

    The runtime keeps one fact in several places: a parked fiber is in [awaiting_fibers]
    and in the wait registry, a queue with messages is named in [non_empty_queues], a
    public future is keyed by a number already handed out. The code trusts this with
    [expect]. This file states it as an invariant, shows that every step of the main loop
    keeps it, and concludes that the [expect]s never fail and that a request is answered
    at most once. The identifiers are fresh as long as their u64 counters do not wrap
    around: builds with overflow checks panic instead, and in builds without them it takes
    a run of some 2^62 steps and requests, as no step takes more than three identifiers. *)
From S2P Require Import Prelude Types Values Assembler Protocol Fiber Waits WaitsSpec Runtime.
From stdpp Require Import pretty.
Local Open Scope string_scope.
Local Open Scope list_scope.

(** ** The parts of the invariant *)
Section parts.
Context `{Slab}.

Definition ids_of (active : list Fiber) (awaiting : gmap Z Fiber) : list Z :=
  map unique_id active ++ (map_to_list awaiting).*1.

(** Active and parked fibers have distinct identifiers below the counter, and the
    registry waits for exactly the parked ones. *)
Record fibers_ok (active : list Fiber) (awaiting : gmap Z Fiber) (w : WaitRegistry) (next : Z) : Prop := {
  fo_registry : exists ws, represents w ws /\ map w_fiber ws ≡ₚ (map_to_list awaiting).*1;
  fo_key : forall i f, awaiting !! i = Some f -> unique_id f = i;
  fo_nodup : NoDup (ids_of active awaiting);
  fo_bound : forall i, i ∈ ids_of active awaiting -> (0 <= i < next)%Z;
  fo_next : (0 <= next)%Z
}.

(** [non_empty_queues] names the queues with messages, each once. *)
Record queues_ok (queues : gmap string (list Value)) (names : list string) : Prop := {
  qo_nodup : NoDup names;
  qo_iff : forall q, q ∈ names <-> exists v l, queues !! q = Some (v :: l)
}.

(** Public futures are keyed by numbers below the counter. *)
Definition public_ok (public : gmap string UniqueU64BlobId) (next : Z) : Prop :=
  (0 <= next)%Z /\ forall id u, public !! id = Some u -> exists n, (0 <= n < next)%Z /\ id = pretty n.

Lemma fibers_ok_start w : represents w [] -> fibers_ok [] ∅ w 0.
Proof.
  intros Hw. split; [exists []; split; [done|by rewrite map_to_list_empty]|done| | |done].
  - unfold ids_of. rewrite map_to_list_empty. constructor.
  - unfold ids_of. rewrite map_to_list_empty. intros i Hi. by apply elem_of_nil in Hi.
Qed.

Lemma fibers_ok_perm active active' awaiting w next :
  map unique_id active ≡ₚ map unique_id active' ->
  fibers_ok active awaiting w next -> fibers_ok active' awaiting w next.
Proof.
  intros Hp [Hr Hk Hn Hb Hx]. assert (E : ids_of active awaiting ≡ₚ ids_of active' awaiting)
    by (unfold ids_of; by rewrite Hp).
  split; [done|done|by rewrite <-E| |done]. intros i Hi. apply Hb. by rewrite E.
Qed.

Lemma fibers_ok_done fiber active awaiting w next :
  fibers_ok (fiber :: active) awaiting w next -> fibers_ok active awaiting w next.
Proof.
  intros [Hr Hk Hn Hb Hx]. unfold ids_of in *. cbn in *. apply NoDup_cons in Hn as [_ Hn].
  split; [done..| |done]. intros i Hi. apply Hb. by right.
Qed.

(** A new fiber takes the counter's value. *)
Lemma fibers_ok_new fiber active awaiting w next :
  fibers_ok active awaiting w next -> unique_id fiber = next ->
  fibers_ok (active ++ [fiber]) awaiting w (next + 1).
Proof.
  intros [Hr Hk Hn Hb Hx] Hid.
  assert (E : ids_of (active ++ [fiber]) awaiting ≡ₚ next :: ids_of active awaiting).
  { unfold ids_of. rewrite map_app. cbn. rewrite Hid, <-app_assoc. symmetry. apply Permutation_middle. }
  split; [done|done| | |lia].
  - rewrite E. constructor; [|done]. intros Hin. apply Hb in Hin. lia.
  - intros i Hi. rewrite E in Hi. apply elem_of_cons in Hi as [->|Hi]; [lia|]. apply Hb in Hi. lia.
Qed.

(** Parking a fiber. *)
Lemma fibers_ok_park fiber active awaiting w next arms :
  fibers_ok (fiber :: active) awaiting w next ->
  fibers_ok active (<[unique_id fiber := fiber]> awaiting)
    (fst (register_select w (unique_id fiber) arms)) next.
Proof.
  intros [(ws & Hw & Hp) Hk Hn Hb Hx].
  assert (Hfresh : awaiting !! unique_id fiber = None).
  { destruct (awaiting !! unique_id fiber) as [f|] eqn:E; [|done]. exfalso.
    unfold ids_of in Hn. cbn in Hn. apply NoDup_cons in Hn as [Hn _]. apply Hn. apply elem_of_app. right.
    apply list_elem_of_fmap. exists (unique_id fiber, f). split; [done|]. by apply elem_of_map_to_list. }
  assert (E : ids_of active (<[unique_id fiber := fiber]> awaiting) ≡ₚ ids_of (fiber :: active) awaiting).
  { unfold ids_of. rewrite map_to_list_insert by done. cbn. symmetry. apply Permutation_middle. }
  split; [| |by rewrite E| |done].
  - destruct (register_represents w ws (unique_id fiber) arms Hw) as [Hr _].
    eexists. split; [exact Hr|]. unfold spec_register. rewrite map_app, map_to_list_insert by done. cbn.
    rewrite Hp. symmetry. apply Permutation_cons_append.
  - intros i f. destruct (decide (i = unique_id fiber)) as [->|Hne].
    + rewrite lookup_insert_eq. by intros [= <-].
    + rewrite lookup_insert_ne by done. apply Hk.
  - intros i Hi. apply Hb. by rewrite <-E.
Qed.

Lemma spec_wake_fiber k ws out ws' :
  spec_wake k ws = Some (out, ws') -> map w_fiber ws ≡ₚ WakeOutcome_fiber_id out :: map w_fiber ws'.
Proof.
  revert ws'. induction ws as [|w ws IH]; intros ws'; cbn; [done|].
  destruct (arm_for k (w_arms w)); [by intros [= <- <-]|].
  destruct (spec_wake k ws) as [[o r]|]; cbn; [|done]. intros [= -> <-].
  rewrite (IH r) by done. cbn. constructor.
Qed.

(** Waking: the registry and [awaiting_fibers] agree on who is parked. *)
Lemma fibers_ok_wake active awaiting w next k :
  fibers_ok active awaiting w next ->
  wake_one w k = Ok (None, w) \/
  exists out w' fiber, wake_one w k = Ok (Some out, w') /\
    awaiting !! WakeOutcome_fiber_id out = Some fiber /\
    fibers_ok (fiber :: active) (delete (WakeOutcome_fiber_id out) awaiting) w' next.
Proof.
  intros [(ws & Hw & Hp) Hk Hn Hb Hx]. pose proof (wake_represents w ws k Hw) as Hwake.
  destruct (spec_wake k ws) as [[out ws']|] eqn:E; [|by left]. right.
  destruct Hwake as (w' & Hrun & Hw'). apply spec_wake_fiber in E.
  set (i := WakeOutcome_fiber_id out) in *.
  assert (Hin : i ∈ (map_to_list awaiting).*1) by (rewrite <-Hp, E; left).
  apply list_elem_of_fmap in Hin as ([j fiber] & Hj & Hin). cbn in Hj. subst j.
  apply elem_of_map_to_list in Hin. exists out, w', fiber. split; [done|]. split; [done|].
  pose proof (map_to_list_delete awaiting i fiber Hin) as Hd.
  assert (Hd1 : (map_to_list awaiting).*1 ≡ₚ i :: (map_to_list (delete i awaiting)).*1) by by rewrite <-Hd.
  assert (Eids : ids_of (fiber :: active) (delete i awaiting) ≡ₚ ids_of active awaiting).
  { unfold ids_of. cbn. rewrite (Hk _ _ Hin), Hd1. apply Permutation_middle. }
  unfold i in *. split; [| |by rewrite Eids| |done].
  - exists ws'. split; [done|]. rewrite E, Hd1 in Hp. by apply Permutation_cons_inv in Hp.
  - intros j f Hj. apply lookup_delete_Some in Hj as [_ Hj]. by apply Hk.
  - intros j Hj. apply Hb. by rewrite <-Eids.
Qed.

(** A message put on an existing queue. *)
Lemma queues_ok_push queues names q l v :
  queues_ok queues names -> queues !! q = Some l ->
  queues_ok (<[q := l ++ [v]]> queues) (if decide (l = []) then names ++ [q] else names).
Proof.
  intros [Hn Hi] Hq.
  assert (Hmem : forall p, (exists x r, <[q := l ++ [v]]> queues !! p = Some (x :: r)) <->
    p = q \/ exists x r, queues !! p = Some (x :: r)).
  { intros p. destruct (decide (p = q)) as [->|Hne].
    - rewrite lookup_insert_eq. split; [by left|]. intros _. destruct l as [|x r]; cbn; eauto.
    - rewrite lookup_insert_ne by done. naive_solver. }
  case_decide as Hl; split.
  - apply NoDup_app. split_and!; [done| |repeat constructor; set_solver].
    intros p Hp Hq'. apply list_elem_of_singleton in Hq' as ->. apply Hi in Hp as (x & r & Hp).
    rewrite Hq, Hl in Hp. done.
  - intros p. rewrite elem_of_app, list_elem_of_singleton, Hi, Hmem. tauto.
  - done.
  - intros p. rewrite Hmem, Hi. split; [by right|]. intros [->|?]; [|done].
    destruct l as [|x r]; [done|]. eauto.
Qed.

(** The front queue gives its first message. *)
Lemma queues_ok_pop queues names q l v :
  queues_ok queues (q :: names) -> queues !! q = Some (v :: l) ->
  queues_ok (<[q := l]> queues) (if decide (l = []) then names else names ++ [q]).
Proof.
  intros [Hn Hi] Hq. apply NoDup_cons in Hn as [Hqn Hn].
  assert (Hmem : forall p, p ∈ names <-> p <> q /\ exists x r, queues !! p = Some (x :: r)).
  { intros p. rewrite <-Hi, elem_of_cons. split; [|naive_solver]. intros Hp. split; [by intros ->|by right]. }
  case_decide as Hl; split.
  - done.
  - intros p. rewrite Hmem. destruct (decide (p = q)) as [->|Hne].
    + rewrite lookup_insert_eq. subst l. naive_solver.
    + rewrite lookup_insert_ne by done. naive_solver.
  - apply NoDup_app. split_and!; [done| |repeat constructor; set_solver]. set_solver.
  - intros p. rewrite elem_of_app, list_elem_of_singleton, Hmem. destruct (decide (p = q)) as [->|Hne].
    + rewrite lookup_insert_eq. destruct l as [|x r]; [done|]. naive_solver.
    + rewrite lookup_insert_ne by done. naive_solver.
Qed.

Lemma queues_ok_rotate queues q names : queues_ok queues (q :: names) -> queues_ok queues (names ++ [q]).
Proof.
  intros [Hn Hi]. split; [by rewrite Permutation_app_comm|]. intros p. rewrite <-Hi.
  set_solver.
Qed.

(** A queue created empty. *)
Lemma queues_ok_create queues names q :
  queues_ok queues names -> queues !! q = None -> queues_ok (<[q := []]> queues) names.
Proof.
  intros [Hn Hi] Hq. split; [done|]. intros p. rewrite Hi. destruct (decide (p = q)) as [->|Hne].
  - rewrite lookup_insert_eq, Hq. naive_solver.
  - by rewrite lookup_insert_ne.
Qed.
End parts.

(** ** The invariant of the runtime *)
Section inv.
Context `{Profile} `{BinaryHeap} `{Slab}.

Record rt_inv (self : Runtime) : Prop := {
  rt_fibers : fibers_ok (active_fibers self) (awaiting_fibers self) (wait_index self) (next_fiber_id self);
  rt_queues : queues_ok (queue_messages self) (non_empty_queues self);
  rt_public : public_ok (public_futures self) (next_created_future_id self)
}.

(** What is known of each answered or accepted request, against what was delivered. *)
Definition requests_of (inputs : list Input) : list UniqueU64BlobId :=
  concat (map (fun i => map TaskBlueprint_global_id (snd i)) inputs).

Definition accounted (delivered : list UniqueU64BlobId) (self : Runtime) : Prop :=
  (sent self).*1 ++ (map_to_list (public_futures self)).*2 ++ requests_of (active_tasks self) ++
    requests_of (receiver self) ⊆+ delivered.

(** The invariant with the account of requests. *)
Definition rt_ok (delivered : list UniqueU64BlobId) (self : Runtime) : Prop :=
  rt_inv self /\ accounted delivered self.

(** A counter that does not wrap around in the next [k] increments. *)
Definition spare (x : Z) (k : nat) : Prop := overflow_checks = true \/ (x + Z.of_nat k < u64_modulus)%Z.

Lemma spare_add x y k : u64_add x 1 = Ok y -> (0 <= x)%Z -> spare x (S k) -> y = (x + 1)%Z /\ spare y k.
Proof.
  unfold u64_add, u64_arith, spare. destruct (u64_in_range (x + 1)) eqn:E.
  - intros [= <-] Hx [Hc|Hk]; (split; [done|]); [by left|right; lia].
  - intros Hadd Hx [Hc|Hk]; [by rewrite Hc in Hadd|]. exfalso.
    assert (u64_in_range (x + 1) = true) by (apply u64_in_range_spec; u64_solve). congruence.
Qed.

Lemma spare_weaken x y k j : (y + Z.of_nat j <= x + Z.of_nat k)%Z -> spare x k -> spare y j.
Proof. intros Hle [Hc|Hk]; [by left|right; lia]. Qed.

(** Both counters, with the requests not taken in yet, have room for [k] more identifiers. *)
Definition afford (k : nat) (self : Runtime) : Prop :=
  spare (next_fiber_id self) k /\
  spare (next_created_future_id self) (length (requests_of (active_tasks self) ++ requests_of (receiver self)) + k).

Lemma afford_same k self self' :
  next_fiber_id self' = next_fiber_id self -> next_created_future_id self' = next_created_future_id self ->
  active_tasks self' = active_tasks self -> receiver self' = receiver self ->
  afford k self -> afford k self'.
Proof. unfold afford. by intros -> -> -> ->. Qed.

Lemma afford_weaken k j self : (j <= k)%nat -> afford k self -> afford j self.
Proof. intros Hle [Hf Hc]. split; [eapply spare_weaken; [|exact Hf]|eapply spare_weaken; [|exact Hc]]; lia. Qed.

Lemma accounted_same delivered self self' :
  sent self' = sent self -> public_futures self' = public_futures self ->
  active_tasks self' = active_tasks self -> receiver self' = receiver self ->
  accounted delivered self -> accounted delivered self'.
Proof. unfold accounted. by intros -> -> -> ->. Qed.

(** Answering a public future moves its request from the pending to the sent ones. *)
Lemma accounted_answer delivered self id u v :
  public_futures self !! id = Some u -> accounted delivered self ->
  accounted delivered (set_channels (receiver self) (sent self ++ [(u, v)]) (active_tasks self)
    (set_public_futures (delete id (public_futures self)) self)).
Proof.
  unfold accounted. cbn. intros Hid Hacc. pose proof (map_to_list_delete _ _ _ Hid) as Hd.
  rewrite <-Hd in Hacc. cbn in Hacc. rewrite fmap_app. cbn. etrans; [|exact Hacc].
  rewrite <-app_assoc. reflexivity.
Qed.

Lemma set_value_ok delivered self v self' :
  set_value self v = Ok self' -> rt_ok delivered self -> rt_ok delivered self' /\
    active_fibers self' = active_fibers self /\ awaiting_fibers self' = awaiting_fibers self /\
    wait_index self' = wait_index self /\ next_fiber_id self' = next_fiber_id self.
Proof.
  intros Hs [[Hf Hq Hp] Ha]. destruct v as [q value|id value]; cbn in Hs.
  - destruct (queue_messages self !! q) as [l|] eqn:E; [|done]. injection Hs as <-. cbn. split; [|done].
    split; [|by eapply accounted_same]. split; [done| |done]. by apply queues_ok_push.
  - destruct (public_futures self !! id) as [u|] eqn:E; injection Hs as <-; cbn; (split; [|done]).
    + split; [split; [done|done|]|by apply accounted_answer]. cbn. destruct Hp as [Hn Hp]. split; [done|].
      intros i w Hi. apply lookup_delete_Some in Hi as [_ Hi]. by eapply Hp.
    + split; [|by eapply accounted_same]. by split.
Qed.

(** *** Fibers keep their identity *)
Lemma run_step_id fb sink fb' sink' r :
  run_step fb sink = Ok (fb', sink', r) -> unique_id fb' = unique_id fb /\ f_type fb' = f_type fb.
Proof.
  unfold run_step. destruct (pop (stack fb)) as [[[s|o|n v|u] st]|]; intros Hr;
    try (injection Hr as <- <- <-; done).
  case_decide; [done|]. inv_ok. destruct a as [res h]. inv_ok. destruct a as [[st' w] ret]. by inv_ok.
Qed.

Lemma run_id fuel fb sink fb' sink' r :
  run fuel fb sink = Ok (fb', sink', r) -> unique_id fb' = unique_id fb /\ f_type fb' = f_type fb.
Proof.
  revert fb sink. induction fuel as [|fuel IH]; intros fb sink Hr; [done|]. cbn in Hr. inv_ok.
  destruct a as [[fb1 sink1] ret]. apply run_step_id in Ha as [Hid Hty].
  destruct ret; [by injection Hr as <- <- <-|]. apply IH in Hr as [-> ->]. done.
Qed.

Lemma assign_local_id n v fb fb' : assign_local n v fb = Ok fb' -> unique_id fb' = unique_id fb.
Proof. unfold assign_local. intros Ha. by inv_ok. Qed.

Lemma resume_id fb bind v next fb' : resume fb bind v next = Ok fb' -> unique_id fb' = unique_id fb.
Proof.
  unfold resume, assign_local_and_push_next. destruct bind; intros Hr; inv_ok; [|done].
  by apply assign_local_id in Ha.
Qed.

Lemma fiber_new_id ty id vars fb : fiber_new ty id vars = Ok fb -> unique_id fb = id.
Proof. unfold fiber_new. intros Hf. by inv_ok. Qed.

Lemma bind_errors_id errors binds fb fb' : bind_errors errors binds fb = Ok fb' -> unique_id fb' = unique_id fb.
Proof.
  intros Hb. eapply (for_each_inv_ok (fun _ f => unique_id f = unique_id fb)); [exact Hb|done|].
  intros d [i x] f f' _ Ha Hf. cbn in Ha. by apply assign_local_id in Ha as ->.
Qed.

Lemma bind_ids_id ids kinds binds fb fb' : bind_ids ids kinds binds fb = Ok fb' -> unique_id fb' = unique_id fb.
Proof.
  intros Hb. eapply (for_each_inv_ok (fun _ f => unique_id f = unique_id fb)); [exact Hb|done|].
  intros d [i x] f f' _ Ha Hf. cbn in Ha. inv_ok. by apply assign_local_id in Ha as ->.
Qed.

(** *** What a fiber asks for *)

(** The invariant while [fiber] has been taken off [active_fibers]. *)
Definition in_hand (delivered : list UniqueU64BlobId) (fiber : Fiber) (self : Runtime) : Prop :=
  rt_ok delivered (push_front_fiber fiber self).

Lemma in_hand_same delivered fiber fiber' self :
  unique_id fiber' = unique_id fiber -> in_hand delivered fiber self -> in_hand delivered fiber' self.
Proof.
  intros Hid [[Hf Hq Hp] Ha]. split; [|done]. split; [|done..].
  eapply fibers_ok_perm; [|exact Hf]. cbn. by rewrite Hid.
Qed.

Lemma create_fiber_ok delivered fiber k self dbg d self' dbg' :
  create_fiber (self, dbg) d = Ok (self', dbg') -> in_hand delivered fiber self -> afford (S k) self ->
  in_hand delivered fiber self' /\ afford k self'.
Proof.
  destruct d as [ty vars]. cbn. intros Hc [[Hf Hq Hp] Ha] [Hsp Hsq]. inv_ok.
  apply (spare_add _ _ k) in Ha1 as [-> Hsp']; [|apply (fo_next _ _ _ _ Hf)|done]. apply fiber_new_id in Ha0. split.
  - split; [split; [|done..]|by eapply accounted_same]. cbn. rewrite app_comm_cons. by apply fibers_ok_new.
  - split; [done|]. eapply spare_weaken; [|exact Hsq]. cbn -[Z.of_nat Nat.add requests_of]. lia.
Qed.

Lemma create_fibers_ok delivered fiber details : forall k self dbg self' dbg',
  for_each details create_fiber (self, dbg) = Ok (self', dbg') -> in_hand delivered fiber self ->
  afford (length details + k) self -> in_hand delivered fiber self' /\ afford k self'.
Proof.
  induction details as [|d ds IH]; intros k self dbg self' dbg' Hc Hin Haf; [by injection Hc as <- <-|].
  cbn [for_each] in Hc. apply bind_ok in Hc as ([s1 d1] & Hone & Hc).
  destruct (create_fiber_ok _ _ _ _ _ _ _ _ Hone Hin Haf) as [Hin' Haf']. by eapply IH.
Qed.

Lemma set_value_in_hand fiber self v :
  set_value (push_front_fiber fiber self) v = (s ← set_value self v; Ok (push_front_fiber fiber s)).
Proof.
  destruct v as [q value|id value]; cbn.
  - by destruct (queue_messages self !! q).
  - by destruct (public_futures self !! id).
Qed.

Lemma set_value_afford k self v self' : set_value self v = Ok self' -> afford k self -> afford k self'.
Proof.
  destruct v as [q value|id value]; cbn; intros Hs; [destruct (queue_messages self !! q)|destruct (public_futures self !! id)];
    try done; injection Hs as <-; by apply afford_same.
Qed.

Lemma set_values_ok delivered fiber k self values self' :
  for_each values set_value self = Ok self' -> in_hand delivered fiber self -> afford k self ->
  in_hand delivered fiber self' /\ afford k self'.
Proof.
  intros Hs Hin Haf. eapply (for_each_inv_ok (fun _ s => in_hand delivered fiber s /\ afford k s)); [exact Hs|done|].
  intros _ v s s' _ Hv [Hs1 Haf1]. split; [|by eapply set_value_afford].
  pose proof (set_value_in_hand fiber s v) as E. rewrite Hv in E. eapply set_value_ok in E; [|exact Hs1]. apply E.
Qed.

(** The queues a [Create] asks for. *)
Definition queue_names (primitives : list CreatePrimitiveValue) : list string :=
  omap (fun p => match p with CreatePrimitiveValue_Queue name _ => Some name | _ => None end) primitives.

Lemma validate_fold self ps c e h :
  let '(_, e', h') := foldl (validate_primitive self) (c, e, h) ps in
  length e' = (length e + length ps)%nat /\
  (h' = false <-> h = false /\ NoDup (queue_names ps) /\
     forall q, q ∈ queue_names ps -> queue_messages self !! q = None /\ q ∉ c).
Proof.
  revert c e h. induction ps as [|p ps IH]; intros c e h; cbn.
  { split; [lia|]. split; [|tauto]. intros ->. split_and!; [done|constructor|]. intros q Hq. by apply elem_of_nil in Hq. }
  destruct p as [ |name pub|ms]; cbn; [| case_decide as Hd |].
  1,4: specialize (IH c (e ++ [None]) h); destruct (foldl _ _ ps) as [[c' e'] h'];
    rewrite length_app in IH; cbn in IH; destruct IH as [IH1 IH2]; split; [lia|exact IH2].
  - specialize (IH c (e ++ [Some "already_exists"]) true). destruct (foldl _ _ ps) as [[c' e'] h'].
    rewrite length_app in IH. cbn in IH. destruct IH as [IH1 IH2]. split; [lia|].
    rewrite IH2. split; [by intros [? _]|]. intros (_ & _ & Hq). destruct (Hq name) as [Hn Hc]; [left|].
    destruct Hd as [[? Hd]|Hd]; [congruence|done].
  - specialize (IH ({[name]} ∪ c) (e ++ [None]) h). destruct (foldl _ _ ps) as [[c' e'] h'].
    rewrite length_app in IH. cbn in IH. destruct IH as [IH1 IH2]. split; [lia|].
    rewrite IH2. assert (Hc : name ∉ c) by tauto.
    assert (Hn : queue_messages self !! name = None) by (apply eq_None_not_Some; tauto).
    split; intros (-> & Hnd & Hq); (split; [done|]).
    + split.
      * constructor; [|done]. intros Hin. apply Hq in Hin as [_ Hin]. set_solver.
      * intros q [->|Hin]%elem_of_cons; [done|]. apply Hq in Hin. set_solver.
    + apply NoDup_cons in Hnd as [Hnn Hnd]. split; [done|]. intros q Hin.
      destruct (Hq q) as [? ?]; [by right|]. split; [done|]. set_solver.
Qed.

(** All queues are new and distinct. *)
Definition creatable (self : Runtime) (primitives : list CreatePrimitiveValue) : Prop :=
  NoDup (queue_names primitives) /\ forall q, q ∈ queue_names primitives -> queue_messages self !! q = None.

Lemma validate_ok self ps :
  snd (validate self ps) = false <-> creatable self ps.
Proof.
  unfold validate. pose proof (validate_fold self ps ∅ [] false) as Hv.
  destruct (foldl _ _ ps) as [[c e] h]. destruct Hv as [_ Hv]. cbn. rewrite Hv. unfold creatable.
  split; [intros (_ & ? & Hq)|intros (? & Hq)]; split_and!; try done; intros q Hin; specialize (Hq q Hin); [tauto|].
  split; [done|set_solver].
Qed.

(** What a successful [Create] has done to the runtime, besides its fiber. *)
Record created (ps : list CreatePrimitiveValue) (self self' : Runtime) : Prop := {
  cr_queues : queue_messages self' = foldl (fun m q => <[q := []]> m) (queue_messages self) (queue_names ps);
  cr_futures : next_created_future_id self' =
    (next_created_future_id self + Z.of_nat (length ps - length (queue_names ps)))%Z;
  cr_same : receiver self' = receiver self /\ sent self' = sent self /\ active_tasks self' = active_tasks self /\
    active_fibers self' = active_fibers self /\ next_fiber_id self' = next_fiber_id self /\
    public_futures self' = public_futures self /\ non_empty_queues self' = non_empty_queues self /\
    resolved_futures self' = resolved_futures self /\ dbg_out self' = dbg_out self /\
    wait_index self' = wait_index self /\ awaiting_fibers self' = awaiting_fibers self
}.

Lemma queue_names_length ps : (length (queue_names ps) <= length ps)%nat.
Proof.
  unfold queue_names. induction ps as [|p ps IH]; cbn; [lia|].
  destruct p; cbn [omap list_omap length]; lia.
Qed.

Lemma queue_names_app ps ps' : queue_names (ps ++ ps') = queue_names ps ++ queue_names ps'.
Proof. apply omap_app. Qed.

Lemma created_refl self : created [] self self.
Proof. split; [done|cbn; lia|done]. Qed.

(** The identifiers a list of primitives takes. *)
Definition future_count (ps : list CreatePrimitiveValue) : nat := (length ps - length (queue_names ps))%nat.

Lemma future_count_app ps ps' : future_count (ps ++ ps') = (future_count ps + future_count ps')%nat.
Proof.
  unfold future_count. rewrite queue_names_app, !length_app. pose proof (queue_names_length ps). pose proof (queue_names_length ps'). lia.
Qed.

Lemma apply_primitive_created ps self self1 ids clock p self2 ids2 :
  created ps self self1 -> (0 <= next_created_future_id self)%Z ->
  spare (next_created_future_id self) (future_count (ps ++ [p])) ->
  apply_primitive (self1, ids) (clock, p) = Ok (self2, ids2) ->
  created (ps ++ [p]) self self2 /\ length ids2 = S (length ids).
Proof.
  intros [Hq Hn Hs] Hpos Hsp Ha. rewrite future_count_app in Hsp. fold (future_count ps) in Hn.
  assert (Hp : future_count [p] = match p with CreatePrimitiveValue_Queue _ _ => 0%nat | _ => 1%nat end) by by destruct p.
  rewrite Hp in Hsp. destruct p as [|name pub|ms]; cbn in Ha; inv_ok;
    repeat match goal with Hc : u64_add _ 1 = Ok _ |- _ =>
      apply (spare_add _ _ 0) in Hc as [-> _]; [|lia|eapply spare_weaken; [|exact Hsp]; lia] end;
    (split; [split; [| |exact Hs]|rewrite length_app; cbn; lia]);
    first [rewrite queue_names_app; cbn; rewrite ?foldl_app, ?app_nil_r; cbn; congruence
          |change (length ?l - length (queue_names ?l))%nat with (future_count l); rewrite future_count_app, Hp; cbn -[Z.of_nat Nat.add future_count]; lia].
Qed.

Lemma apply_primitives_from cps : forall ps self self1 ids self2 ids2,
  created ps self self1 -> (0 <= next_created_future_id self)%Z ->
  spare (next_created_future_id self) (future_count (ps ++ map snd cps)) ->
  for_each cps apply_primitive (self1, ids) = Ok (self2, ids2) ->
  created (ps ++ map snd cps) self self2 /\ length ids2 = (length ids + length cps)%nat.
Proof.
  induction cps as [|[c p] cps IH]; intros ps self self1 ids self2 ids2 Hc Hpos Hsp Hrun; cbn [for_each] in Hrun.
  { injection Hrun as <- <-. cbn. rewrite app_nil_r. split; [done|lia]. }
  apply bind_ok in Hrun as ([s l] & Hone & Hrun).
  change (map snd ((c, p) :: cps)) with ([p] ++ map snd cps) in *. rewrite app_assoc in Hsp |- *.
  destruct (apply_primitive_created ps self self1 ids c p s l Hc Hpos) as [Hc' Hl]; [|done|].
  { eapply spare_weaken; [|exact Hsp]. rewrite (future_count_app (ps ++ [p])). lia. }
  destruct (IH _ _ _ _ _ _ Hc' Hpos Hsp Hrun) as [? ?]. split; [done|cbn; lia].
Qed.

Lemma apply_primitives_created clock ps self self' ids :
  (0 <= next_created_future_id self)%Z -> spare (next_created_future_id self) (future_count ps) ->
  for_each (imap (fun i p => (clock i, p)) ps) apply_primitive (self, []) = Ok (self', ids) ->
  created ps self self' /\ length ids = length ps.
Proof.
  intros Hpos Hsp Hrun.
  assert (Hsnd : map snd (imap (fun i p => (clock i, p)) ps) = ps).
  { clear. generalize clock. induction ps as [|p ps IH]; intros c; [done|]. cbn. f_equal. apply (IH (c ∘ S)). }
  pose proof (apply_primitives_from (imap (fun i p => (clock i, p)) ps) [] self self [] self' ids (created_refl self) Hpos) as Hfrom.
  cbn [app length] in Hfrom. rewrite Hsnd, length_imap in Hfrom. by apply Hfrom.
Qed.

Lemma queues_ok_creates qs queues names :
  queues_ok queues names -> NoDup qs -> (forall q, q ∈ qs -> queues !! q = None) ->
  queues_ok (foldl (fun m q => <[q := []]> m) queues qs) names.
Proof.
  revert queues. induction qs as [|q qs IH]; intros queues Hok Hnd Hnone; [done|]. cbn.
  apply NoDup_cons in Hnd as [Hq Hnd]. apply IH; [|done|].
  - apply queues_ok_create; [done|]. apply Hnone. left.
  - intros p Hp. rewrite lookup_insert_ne by (intros ->; done). apply Hnone. by right.
Qed.

Lemma created_in_hand delivered fiber ps self self' :
  creatable self ps -> created ps self self' -> in_hand delivered fiber self -> in_hand delivered fiber self'.
Proof.
  intros [Hnd Hnone] [Hq Hn (R1 & R2 & R3 & R4 & R5 & R6 & R7 & R8 & R9 & R10 & R11)] [[Hf Hqs Hp] Ha].
  cbn in *. split; [split; cbn|by eapply accounted_same; [..|exact Ha]].
  - by rewrite R4, R5, R10, R11.
  - rewrite Hq, R7. by apply queues_ok_creates.
  - rewrite R6, Hn. destruct Hp as [Hb Hp]. split; [lia|]. intros id u Hid.
    destruct (Hp id u Hid) as (n & ? & ->). exists n. split; [lia|done].
Qed.

Lemma created_afford k ps self self' : created ps self self' -> afford (future_count ps + k) self -> afford k self'.
Proof.
  intros [_ Hn (R1 & _ & R3 & _ & R5 & _)] [Hf Hc]. unfold afford. rewrite R1, R3, R5, Hn. fold (future_count ps).
  split; [eapply spare_weaken; [|exact Hf]|eapply spare_weaken; [|exact Hc]]; lia.
Qed.

(** A [Create] succeeds when all its queues are new and distinct, and then creates all
    its primitives; otherwise it creates none. *)
Lemma handle_create_cases clock fiber ps sn sb sk fnx fb self self' :
  (0 <= next_created_future_id self)%Z -> spare (next_created_future_id self) (future_count ps) ->
  handle_create clock fiber ps sn sb sk fnx fb self = Ok self' ->
  exists fiber' mid, unique_id fiber' = unique_id fiber /\ self' = push_front_fiber fiber' mid /\
    ((creatable self ps /\ created ps self mid /\
        exists ids bound, length ids = length ps /\ bind_ids ids sk sb fiber = Ok bound /\ fiber' = push_next sn bound) \/
     (~ creatable self ps /\ mid = self /\
        exists errors bound, bind_errors errors fb fiber = Ok bound /\ fiber' = push_next fnx bound)).
Proof.
  unfold handle_create. intros Hpos Hsp Hc. pose proof (validate_ok self ps) as Hv.
  destruct (validate self ps) as [[c e] h]. cbn in Hv. destruct h; inv_ok.
  - exists (push_next fnx a), self. split; [exact (bind_errors_id _ _ _ _ Ha)|]. split; [done|]. right. rewrite <-Hv.
    split; [done|]. split; [done|]. by exists e, a.
  - destruct a as [mid ids]. inv_ok. exists (push_next sn a), mid. split; [exact (bind_ids_id _ _ _ _ _ Ha0)|].
    apply apply_primitives_created in Ha as [? ?]; [|done..]. split; [done|]. left. split; [by apply Hv|]. split; [done|].
    by exists ids, a.
Qed.

Lemma handle_create_ok delivered k clock fiber ps sn sb sk fnx fb self self' :
  handle_create clock fiber ps sn sb sk fnx fb self = Ok self' ->
  in_hand delivered fiber self -> afford (future_count ps + k) self -> rt_ok delivered self' /\ afford k self'.
Proof.
  intros Hc Hin Haf. apply handle_create_cases in Hc as (fiber' & mid & Hid & -> & Hcase).
  - eapply in_hand_same in Hin; [|exact Hid]. destruct Hcase as [(Hcr & Hmid & _)|(_ & -> & _)].
    + split; [by eapply created_in_hand|]. apply (afford_same _ mid); [done..|by eapply created_afford].
    + split; [done|]. eapply afford_weaken; [|by eapply afford_same; [..|exact Haf]]. lia.
  - apply (rt_public _ (proj1 Hin)).
  - eapply spare_weaken; [|exact (proj2 Haf)]. lia.
Qed.

(** The identifiers that what a fiber asks for takes: three at most in one turn. *)
Definition demand (res : RunResult) : nat :=
  match res with
  | RunResult_CreateFibers details => length details
  | RunResult_Create ps _ _ _ _ _ => future_count ps
  | _ => 0
  end.

Lemma handle_run_result_ok delivered k clock fiber res self dbg self' dbg' :
  handle_run_result clock fiber res self dbg = Ok (self', dbg') ->
  in_hand delivered fiber self -> afford (demand res + k) self -> rt_ok delivered self' /\ afford k self'.
Proof.
  intros Hr Hin Haf. destruct res as [|arms|values|details|ps sn sb sk fnx fb]; cbn [handle_run_result demand] in *.
  - injection Hr as <- <-. split; [|done]. destruct Hin as [[Hf Hq Hp] Ha]. split; [|done]. split; [|done..].
    exact (fibers_ok_done _ _ _ _ _ Hf).
  - injection Hr as <- <-. split; [|by eapply afford_same; [..|exact Haf]].
    destruct Hin as [[Hf Hq Hp] Ha]. split; [|by eapply accounted_same; [..|exact Ha]].
    split; [|done..]. by apply fibers_ok_park.
  - inv_ok. destruct (set_values_ok _ _ _ _ _ _ Ha Hin Haf). split; [done|]. by eapply afford_same; [..|eassumption].
  - inv_ok. destruct a as [s1 d1]. inv_ok. destruct (create_fibers_ok _ _ _ _ _ _ _ _ Ha Hin Haf).
    split; [done|]. by eapply afford_same; [..|eassumption].
  - inv_ok. by eapply handle_create_ok.
Qed.

Definition step_demand (res : StepResult) : nat :=
  match res with
  | StepResult_CreateFibers details _ => length details
  | StepResult_Create ps _ _ _ _ _ => future_count ps
  | _ => 0
  end.

Lemma global_step_demand s vars h res h' : global_step s vars h = Ok (res, h') -> (step_demand res <= 3)%nat.
Proof.
  intros Hg. destruct s; cbn in Hg; inv_ok; repeat (case_match; inv_ok); simplify_eq; cbn; unfold future_count; cbn; lia.
Qed.

Lemma run_demand fuel : forall fb sink fb' sink' r, run fuel fb sink = Ok (fb', sink', r) -> (demand r <= 3)%nat.
Proof.
  induction fuel as [|fuel IH]; intros fb sink fb' sink' r Hr; [done|]. cbn in Hr. inv_ok. destruct a as [[fb1 sink1] ret].
  destruct ret as [r1|]; [|by eapply IH]. injection Hr as <- <- <-. unfold run_step in Ha.
  destruct (pop (stack fb)) as [[[s|o|n v|u] st]|]; try (injection Ha as <- <- <-; cbn; lia).
  case_decide; [done|]. inv_ok. destruct a as [res h]. inv_ok. destruct a as [[st' w] ret]. inv_ok.
  apply global_step_demand in Ha0. destruct res; cbn [apply_result step_demand] in *; inv_ok; repeat (case_match; inv_ok); simplify_eq; cbn [demand]; lia.
Qed.

Lemma fiber_turn_ok delivered k fuel clock fiber rest self self' :
  active_fibers self = fiber :: rest ->
  fiber_turn fuel clock fiber rest self = Ok self' -> rt_ok delivered self -> afford (3 + k) self ->
  rt_ok delivered self' /\ afford k self'.
Proof.
  intros Hact Ht [[Hf Hq Hp] Ha] Haf. unfold fiber_turn in Ht. inv_ok. destruct a as [[fiber' dbg] res]. inv_ok.
  destruct a as [mid dbg']. inv_ok. pose proof (run_demand _ _ _ _ _ _ Ha0) as Hdem. apply run_id in Ha0 as [Hid _].
  assert (Hin : in_hand delivered fiber' (set_active_fibers rest self)).
  { eapply in_hand_same; [exact Hid|]. split; [|by eapply accounted_same; [..|exact Ha]].
    split; [|done..]. cbn. by rewrite <-Hact. }
  eapply (handle_run_result_ok _ k) in Ha1 as [[[Hf' Hq' Hp'] Ha'] Haf']; [|exact Hin|].
  - split; [split; [by split|]|by eapply afford_same; [..|exact Haf']]. by eapply accounted_same; [..|exact Ha'].
  - eapply afford_weaken; [|by eapply afford_same; [..|exact Haf]]. lia.
Qed.

(** *** Waking and intake *)

(** The panic of [assign_local], the only one a wake can end in. *)
Definition bind_panic : string := "didnt find the value with the right name, something is completely wrong".

Lemma resume_panics fb bind v next :
  match resume fb bind v next with
  | Ok fb' => unique_id fb' = unique_id fb
  | Panic msg => msg = bind_panic
  | OutOfFuel => False
  end.
Proof.
  unfold resume, assign_local_and_push_next, assign_local. destruct bind; [|done].
  by destruct (assign_first _ _ _).
Qed.

Lemma resolve_future_ok delivered self :
  rt_ok delivered self ->
  match resolve_future self with
  | Ok self' => rt_ok delivered self'
  | Panic msg => msg = bind_panic
  | OutOfFuel => False
  end.
Proof.
  intros Hok. pose proof Hok as [[Hf Hq Hp] Ha]. unfold resolve_future.
  destruct (resolved_futures self) as [|[id v] rest]; [done|].
  destruct (fibers_ok_wake _ _ _ _ (WaitKey_Future id) Hf) as [Hw|(out & w' & fb & Hw & Hl & Hf')]; cbn; rewrite Hw; cbn.
  - split; [|by eapply accounted_same; [..|exact Ha]]. by split.
  - rewrite Hl. cbn. pose proof (resume_panics fb (WakeOutcome_bind out) v (WakeOutcome_next out)) as Hr.
    destruct (resume _ _ _ _) as [fb'|msg|]; cbn; [|done..].
    split; [|by eapply accounted_same; [..|exact Ha]]. split; [|done..]. cbn.
    eapply fibers_ok_perm; [|exact Hf']. cbn. by rewrite Hr.
Qed.

Lemma serve_queue_ok delivered self :
  rt_ok delivered self ->
  match serve_queue self with
  | Ok (self', _) => rt_ok delivered self'
  | Panic msg => msg = bind_panic
  | OutOfFuel => False
  end.
Proof.
  intros Hok. pose proof Hok as [[Hf Hq Hp] Ha]. unfold serve_queue.
  destruct (non_empty_queues self) as [|q names] eqn:En; [done|]. 
  destruct (fibers_ok_wake _ _ _ _ (WaitKey_Queue q) Hf) as [Hw|(out & w' & fb & Hw & Hl & Hf')]; cbn; rewrite Hw; cbn.
  - split; [|by eapply accounted_same; [..|exact Ha]]. split; [done| |done]. cbn. by apply queues_ok_rotate.
  - rewrite Hl. cbn. destruct (proj1 (qo_iff _ _ Hq q)) as (v & l & Hql); [left|]. rewrite Hql. cbn.
    pose proof (resume_panics fb (WakeOutcome_bind out) v (WakeOutcome_next out)) as Hr.
    destruct (resume _ _ _ _) as [fb'|msg|]; cbn; [|done..].
    split; [|by eapply accounted_same; [..|exact Ha]]. split; [|by eapply queues_ok_pop|done]. cbn.
    eapply fibers_ok_perm; [|exact Hf']. cbn. by rewrite Hr.
Qed.

Lemma take_scheduled_ok delivered now self : rt_ok delivered self -> rt_ok delivered (take_scheduled now self).
Proof.
  intros [[Hf Hq Hp] Ha]. unfold take_scheduled.
  destruct (heap_pop ScheduledBlob_when (scheduled self)) as [[b rest]|]; [|done]. case_decide; [|done].
  split; [|by eapply accounted_same; [..|exact Ha]]. by split.
Qed.

(** One blueprint of the input that is being taken in: [rest] are the requests after it. *)
Lemma take_blueprint_ok delivered self bp self' rest :
  take_blueprint self bp = Ok self' -> rt_inv self -> spare (next_created_future_id self) 1 ->
  (sent self).*1 ++ (map_to_list (public_futures self)).*2 ++ TaskBlueprint_global_id bp :: rest ++
    requests_of (active_tasks self) ++ requests_of (receiver self) ⊆+ delivered ->
  rt_inv self' /\ active_tasks self' = active_tasks self /\ receiver self' = receiver self /\
  (sent self').*1 ++ (map_to_list (public_futures self')).*2 ++ rest ++
    requests_of (active_tasks self') ++ requests_of (receiver self') ⊆+ delivered.
Proof.
  intros Ht [Hf Hq Hp] Hsp Ha. unfold take_blueprint in Ht.
  destruct (queue_messages self !! TaskBlueprint_q_name bp) as [l|] eqn:E.
  - inv_ok. apply (spare_add _ _ 0) in Ha1 as [-> _]; [|apply Hp|done]. cbn.
    destruct Hp as [Hn Hp].
    assert (Hfresh : public_futures self !! pretty (next_created_future_id self) = None).
    { destruct (public_futures self !! _) as [u|] eqn:Eu; [|done]. apply Hp in Eu as (n & Hb & Heq).
      apply (inj pretty) in Heq. lia. }
    split_and!; [|done|done|].
    + split; cbn; [done|by apply queues_ok_push|]. split; [lia|]. intros id u Hid.
      apply lookup_insert_Some in Hid as [[<- _]|[_ Hid]].
      * exists (next_created_future_id self). split; [lia|done].
      * apply Hp in Hid as (n & ? & ->). exists n. split; [lia|done].
    + rewrite map_to_list_insert by done. cbn. etrans; [|exact Ha].
      apply submseteq_skips_l. rewrite <-Permutation_middle. reflexivity.
  - injection Ht as <-. split_and!; [by split|done|done|]. etrans; [|exact Ha].
    apply submseteq_skips_l, submseteq_skips_l. by apply submseteq_cons.
Qed.

Lemma take_blueprint_counters self bp self' k : take_blueprint self bp = Ok self' -> (0 <= next_created_future_id self)%Z ->
  spare (next_created_future_id self) (S k) ->
  spare (next_created_future_id self') k /\ next_fiber_id self' = next_fiber_id self.
Proof.
  intros Ht Hpos Hsp. unfold take_blueprint in Ht. destruct (queue_messages self !! _).
  - inv_ok. cbn. by apply (spare_add _ _ k) in Ha0 as [_ ?].
  - injection Ht as <-. split; [|done]. eapply spare_weaken; [|exact Hsp]. lia.
Qed.

Lemma take_blueprints_ok delivered k bps : forall self self',
  for_each bps take_blueprint self = Ok self' -> rt_inv self ->
  spare (next_fiber_id self) k ->
  spare (next_created_future_id self) (length bps + (length (requests_of (active_tasks self) ++ requests_of (receiver self)) + k)) ->
  (sent self).*1 ++ (map_to_list (public_futures self)).*2 ++ map TaskBlueprint_global_id bps ++
    requests_of (active_tasks self) ++ requests_of (receiver self) ⊆+ delivered ->
  rt_ok delivered self' /\ afford k self'.
Proof.
  induction bps as [|bp bps IH]; intros self self' Hrun Hinv Hfi Hsp Ha; cbn in Hrun.
  - injection Hrun as <-. split; [by split|]. by split.
  - inv_ok. pose proof (proj1 (rt_public _ Hinv)) as Hpos.
    destruct (take_blueprint_ok delivered _ _ _ (map TaskBlueprint_global_id bps) Ha0 Hinv) as (Hinv' & Hact & Hrec & Ha');
      [eapply spare_weaken; [|exact Hsp]; cbn; lia|exact Ha|].
    destruct (take_blueprint_counters _ _ _ _ Ha0 Hpos Hsp) as [Hsp' Hfi'].
    eapply IH; [exact Hrun|done|by rewrite Hfi'| |exact Ha']. by rewrite Hact, Hrec.
Qed.

Lemma intake_ok delivered k now self self' again :
  intake now self = Ok (self', again) -> rt_ok delivered self -> afford k self -> rt_ok delivered self' /\ afford k self'.
Proof.
  unfold intake. intros Hi [[Hf Hq Hp] Ha] [Hfi Hsp]. unfold accounted in Ha.
  destruct (active_tasks self) as [|[t bps] tasks] eqn:Et.
  - destruct (receiver self) as [|[t bps] r] eqn:Er.
    + injection Hi as <- <-. unfold rt_ok, accounted, afford. rewrite Et, Er. by split_and!.
    + case_decide.
      * injection Hi as <- <-. unfold rt_ok, accounted, afford, requests_of in *. cbn in *. rewrite app_nil_r. by split_and!.
      * inv_ok. eapply take_blueprints_ok; [exact Ha0|by split|exact Hfi| |exact Ha].
        eapply spare_weaken; [|exact Hsp]. unfold requests_of. cbn. rewrite length_app, length_map. lia.
  - case_decide.
    + injection Hi as <- <-. unfold rt_ok, accounted, afford in *. by split_and!.
    + inv_ok. eapply take_blueprints_ok; [exact Ha0|by split|exact Hfi| |].
      * eapply spare_weaken; [|exact Hsp]. unfold requests_of. cbn. rewrite !length_app, length_map. lia.
      * unfold requests_of in *. cbn in *. by rewrite <-app_assoc in Ha.
Qed.

(** *** Steps and runs *)
Lemma resolve_future_afford k self self' : resolve_future self = Ok self' -> afford k self -> afford k self'.
Proof.
  unfold resolve_future. destruct (resolved_futures self) as [|[id v] rest]; [by intros [= <-]|]. intros Hr. inv_ok.
  destruct a as [[out|] w]; inv_ok; by apply afford_same.
Qed.

Lemma serve_queue_afford k self self' again : serve_queue self = Ok (self', again) -> afford k self -> afford k self'.
Proof.
  unfold serve_queue. destruct (non_empty_queues self) as [|q names]; [by intros [= <- _]|]. intros Hr. inv_ok.
  destruct a as [[out|] w]; inv_ok; by apply afford_same.
Qed.

Lemma take_scheduled_afford k now self : afford k self -> afford k (take_scheduled now self).
Proof.
  unfold take_scheduled. destruct (heap_pop ScheduledBlob_when (scheduled self)) as [[b rest]|]; [|done]. case_decide; [|done].
  by apply afford_same.
Qed.

Lemma rt_step_ok delivered k fuel clock pc self pc' self' :
  rt_step fuel clock pc self = Ok (pc', self') -> rt_ok delivered self -> afford (3 + k) self ->
  rt_ok delivered self' /\ afford k self'.
Proof.
  intros Hs Hok Haf. assert (Haf' : afford k self) by (eapply afford_weaken; [|exact Haf]; lia). destruct pc; cbn in Hs; inv_ok.
  - split; [by apply take_scheduled_ok|by apply take_scheduled_afford].
  - destruct (active_fibers self) as [|fb rest] eqn:E; inv_ok; [done|]. by eapply fiber_turn_ok.
  - pose proof (resolve_future_ok _ _ Hok) as Hr. rewrite Ha in Hr. split; [done|by eapply resolve_future_afford].
  - destruct a as [s c]. injection Hs as <- <-. pose proof (serve_queue_ok _ _ Hok) as Hr. rewrite Ha in Hr.
    split; [done|by eapply serve_queue_afford].
  - destruct a as [s c]. injection Hs as <- <-. by eapply intake_ok.
Qed.

Lemma deliver_ok delivered input self :
  rt_ok delivered self -> rt_ok (delivered ++ map TaskBlueprint_global_id (snd input)) (deliver input self).
Proof.
  intros [[Hf Hq Hp] Ha]. split; [by split|]. unfold accounted, requests_of in *. cbn.
  rewrite map_app, concat_app. cbn. rewrite app_nil_r.
  replace (_ ++ _ ++ _ ++ _ ++ map TaskBlueprint_global_id (snd input))
    with (((sent self).*1 ++ (map_to_list (public_futures self)).*2 ++
            concat (map (fun i => map TaskBlueprint_global_id (snd i)) (active_tasks self)) ++
            concat (map (fun i => map TaskBlueprint_global_id (snd i)) (receiver self))) ++
          map TaskBlueprint_global_id (snd input)) by by rewrite <-!app_assoc.
  by apply submseteq_skips_r.
Qed.

Definition delivered_by (evs : list RtEvent) : list UniqueU64BlobId :=
  requests_of (omap (fun ev => match ev with Rt_Deliver i => Some i | _ => None end) evs).

Lemma delivered_by_snoc evs ev :
  delivered_by (evs ++ [ev]) = delivered_by evs ++
    match ev with Rt_Deliver i => map TaskBlueprint_global_id (snd i) | Rt_Step _ => [] end.
Proof.
  unfold delivered_by, requests_of. rewrite omap_app, map_app, concat_app.
  destruct ev; cbn; by rewrite ?app_nil_r.
Qed.

Lemma deliver_afford k input self : afford (length (snd input) + k) self -> afford k (deliver input self).
Proof.
  intros [Hf Hc]. unfold afford, deliver. cbn [next_fiber_id next_created_future_id active_tasks receiver set_channels].
  assert (E : requests_of (receiver self ++ [input : Input]) = requests_of (receiver self) ++ map TaskBlueprint_global_id (snd input)).
  { unfold requests_of. rewrite map_app, concat_app. cbn. by rewrite app_nil_r. }
  rewrite E. split; [eapply spare_weaken; [|exact Hf]; lia|]. eapply spare_weaken; [|exact Hc]. rewrite !length_app, length_map. lia.
Qed.

Lemma start_ok root self : start root runtime_new = Ok self -> rt_ok [] self /\
  next_fiber_id self = 1%Z /\ next_created_future_id self = 0%Z /\ active_tasks self = [] /\ receiver self = [].
Proof.
  unfold start. intros Hs. inv_ok. apply fiber_new_id in Ha. split; [|done]. split.
  - split; cbn.
    + change (fibers_ok ([] ++ [a]) ∅ registry_default (0 + 1)).
      apply fibers_ok_new; [|done]. apply fibers_ok_start, default_represents.
    + split; [constructor|]. intros q. split; [by intros ?%elem_of_nil|]. intros (v & l & Hq). by rewrite lookup_empty in Hq.
    + split; [done|]. intros id u Hid. by rewrite lookup_empty in Hid.
  - unfold accounted. cbn. by rewrite map_to_list_empty.
Qed.

(** The identifiers a run can take: three for a step, one for a request. *)
Definition cost (ev : RtEvent) : nat :=
  match ev with Rt_Step _ => 3 | Rt_Deliver i => length (snd i) end.
Definition run_cost (evs : list RtEvent) : nat := sum_list (map cost evs).

(** The identifiers do not run out: an overflow is a panic, or the run is too short for one. *)
Definition ids_suffice (evs : list RtEvent) : Prop :=
  overflow_checks = true \/ (Z.of_nat (run_cost evs) + 1 < u64_modulus)%Z.

Lemma rt_events_ok fuel evs : forall delivered pc self pc' self',
  for_each evs (rt_event fuel) (pc, self) = Ok (pc', self') -> rt_ok delivered self -> afford (run_cost evs) self ->
  rt_ok (delivered ++ delivered_by evs) self'.
Proof.
  induction evs as [|ev evs IH]; intros delivered pc self pc' self' Hrun Hok Haf; cbn [for_each] in Hrun.
  { injection Hrun as <- <-. unfold delivered_by, requests_of. cbn. by rewrite app_nil_r. }
  apply bind_ok in Hrun as ([pc1 s1] & Hone & Hrun). destruct ev as [clock|i]; cbn [rt_event fst snd] in Hone.
  - destruct (rt_step_ok _ _ _ _ _ _ _ _ Hone Hok Haf) as [Hok' Haf']. change (delivered_by (Rt_Step clock :: evs)) with (delivered_by evs).
    by eapply IH.
  - injection Hone as <- <-. unfold delivered_by in *. cbn [omap list_omap]. unfold requests_of at 1. cbn [map concat].
    rewrite app_assoc. eapply IH; [exact Hrun|by apply deliver_ok|by apply deliver_afford].
Qed.

Lemma run_runtime_ok fuel root evs pc self : ids_suffice evs ->
  run_runtime fuel root evs = Ok (pc, self) -> rt_ok (delivered_by evs) self.
Proof.
  unfold run_runtime. intros Hids Hrun. inv_ok. apply start_ok in Ha as (Hok & Hf & Hc & Ht & Hr).
  eapply (rt_events_ok _ _ []) in Hrun; [done|done|]. unfold afford. rewrite Hf, Hc, Ht, Hr. cbn [requests_of map concat app length].
  destruct Hids as [Hids|Hids]; (split; first [by left|right; lia]).
Qed.
(** *** Requests, whatever the counters do

    Even where a counter has wrapped around, the runtime holds and answers no request that
    was not delivered to it. *)
Definition held (self : Runtime) : list UniqueU64BlobId :=
  (sent self).*1 ++ (map_to_list (public_futures self)).*2 ++ requests_of (active_tasks self) ++ requests_of (receiver self).

Lemma held_same self self' :
  sent self' = sent self -> public_futures self' = public_futures self ->
  active_tasks self' = active_tasks self -> receiver self' = receiver self -> held self' ⊆ held self.
Proof. unfold held. by intros -> -> -> ->. Qed.

Lemma elem_of_held self id : id ∈ held self <->
  id ∈ (sent self).*1 \/ (exists n, public_futures self !! n = Some id) \/
  id ∈ requests_of (active_tasks self) \/ id ∈ requests_of (receiver self).
Proof.
  unfold held. rewrite !elem_of_app. assert (E : id ∈ (map_to_list (public_futures self)).*2 <-> exists n, public_futures self !! n = Some id).
  { rewrite list_elem_of_fmap. split; [intros ([n u] & -> & Hn)|intros (n & Hn)].
    - exists n. by apply elem_of_map_to_list in Hn.
    - exists (n, id). split; [done|]. by apply elem_of_map_to_list. }
  by rewrite E.
Qed.

Lemma set_value_held self v self' : set_value self v = Ok self' -> held self' ⊆ held self.
Proof.
  destruct v as [q value|n value]; cbn; intros Hs.
  - destruct (queue_messages self !! q); [|done]. injection Hs as <-. by apply held_same.
  - destruct (public_futures self !! n) as [u|] eqn:E; injection Hs as <-; [|by apply held_same].
    intros id. rewrite !elem_of_held. cbn. rewrite fmap_app, elem_of_app. cbn. rewrite list_elem_of_singleton.
    intros [[Hid|Hid]|[(m & Hm)|Hid]]; [by left|right; left; exists n; by subst id| |by right; right].
    apply lookup_delete_Some in Hm as [_ Hm]. right. left. by exists m.
Qed.

Lemma handle_create_held clock fiber ps sn sb sk fnx fb self self' :
  handle_create clock fiber ps sn sb sk fnx fb self = Ok self' -> held self' ⊆ held self.
Proof.
  unfold handle_create. destruct (validate self ps) as [[c e] h]. destruct h; intros Hc; inv_ok; [by apply held_same|].
  destruct a as [mid ids]. inv_ok. change (held mid ⊆ held self).
  eapply (for_each_inv_ok (fun _ st => held (fst st) ⊆ held self)) in Ha; [exact Ha|done|].
  intros _ [ck p] [s l] [s' l'] _ Hone Hin. cbn [fst] in *. etrans; [|exact Hin].
  destruct p; cbn in Hone; inv_ok; by apply held_same.
Qed.

Lemma fiber_turn_held fuel clock fiber rest self self' :
  fiber_turn fuel clock fiber rest self = Ok self' -> held self' ⊆ held self.
Proof.
  unfold fiber_turn. intros Ht. inv_ok. destruct a as [[fiber' dbg] res]. inv_ok. destruct a as [mid dbg']. inv_ok.
  change (held mid ⊆ held (set_active_fibers rest self)). revert Ha0. generalize (set_active_fibers rest self). clear Ha. intros s0 Hr.
  destruct res as [|arms|values|details|ps sn sb sk fnx fb]; cbn [handle_run_result] in Hr; inv_ok; [done|by apply held_same| | |].
  - change (held a ⊆ held s0). eapply (for_each_inv_ok (fun _ s => held s ⊆ held s0)) in Ha; [exact Ha|done|].
    intros _ v s s' _ Hone Hin. etrans; [by eapply set_value_held|exact Hin].
  - destruct a as [s1 d1]. inv_ok. change (held s1 ⊆ held s0).
    eapply (for_each_inv_ok (fun _ st => held (fst st) ⊆ held s0)) in Ha; [exact Ha|done|].
    intros _ [ty vs] [s d] [s' d'] _ Hone Hin. cbn in Hone. inv_ok. etrans; [|exact Hin]. by apply held_same.
  - by eapply handle_create_held.
Qed.

Lemma take_blueprint_held self bp self' : take_blueprint self bp = Ok self' -> held self' ⊆ TaskBlueprint_global_id bp :: held self.
Proof.
  unfold take_blueprint. intros Ht. destruct (queue_messages self !! _); inv_ok; [|set_solver].
  intros id. rewrite elem_of_cons, !elem_of_held. cbn. intros [?|[(n & Hn)|?]]; [by right; left| |by right; right; right].
  apply lookup_insert_Some in Hn as [[_ Hn]|[_ Hn]]; [by left|]. right. right. left. by exists n.
Qed.

Lemma take_blueprints_held bps : forall self self', for_each bps take_blueprint self = Ok self' ->
  held self' ⊆ map TaskBlueprint_global_id bps ++ held self.
Proof.
  induction bps as [|bp bps IH]; intros self self' Hrun; cbn [for_each] in Hrun; [by injection Hrun as <-|].
  apply bind_ok in Hrun as (s1 & Hone%take_blueprint_held & Hrun%IH).
  intros id Hid%Hrun. rewrite elem_of_app in Hid |- *. cbn [map]. rewrite elem_of_cons.
  destruct Hid as [?|Hid%Hone]; [by left; right|]. apply elem_of_cons in Hid as [?|?]; [by left; left|by right].
Qed.

Lemma intake_held now self self' again : intake now self = Ok (self', again) -> held self' ⊆ held self.
Proof.
  unfold intake. intros Hi. destruct (active_tasks self) as [|[t bps] tasks] eqn:Et; [destruct (receiver self) as [|[t bps] r] eqn:Er|].
  - by injection Hi as <- <-.
  - case_decide; inv_ok; [|apply take_blueprints_held in Ha];
      intros id; [|intros Hid%Ha; revert Hid]; rewrite ?elem_of_app, !elem_of_held; cbn; rewrite ?Et, ?Er; unfold requests_of; cbn;
      rewrite ?app_nil_r, ?elem_of_app; naive_solver.
  - case_decide; inv_ok; [|apply take_blueprints_held in Ha];
      intros id; [|intros Hid%Ha; revert Hid]; rewrite ?elem_of_app, !elem_of_held; cbn; rewrite ?Et; unfold requests_of; cbn;
      rewrite ?app_nil_r, ?elem_of_app; naive_solver.
Qed.

Lemma resolve_future_held self self' : resolve_future self = Ok self' -> held self' ⊆ held self.
Proof.
  unfold resolve_future. destruct (resolved_futures self) as [|[n v] rest]; [by intros [= <-]|]. intros Hr. inv_ok.
  destruct a as [[out|] w]; inv_ok; by apply held_same.
Qed.

Lemma serve_queue_held self self' again : serve_queue self = Ok (self', again) -> held self' ⊆ held self.
Proof.
  unfold serve_queue. destruct (non_empty_queues self) as [|q names]; [by intros [= <- _]|]. intros Hr. inv_ok.
  destruct a as [[out|] w]; inv_ok; by apply held_same.
Qed.

Lemma rt_step_held fuel clock pc self pc' self' : rt_step fuel clock pc self = Ok (pc', self') -> held self' ⊆ held self.
Proof.
  intros Hs. destruct pc; cbn in Hs; inv_ok.
  - unfold take_scheduled. destruct (heap_pop ScheduledBlob_when (scheduled self)) as [[b rest]|]; [|done]. case_decide; [|done]. by apply held_same.
  - destruct (active_fibers self) as [|fb rest]; inv_ok; [done|]. by eapply fiber_turn_held.
  - by apply resolve_future_held.
  - destruct a as [s c]. injection Hs as <- <-. by eapply serve_queue_held.
  - destruct a as [s c]. injection Hs as <- <-. by eapply intake_held.
Qed.

Lemma deliver_held (input : Input) self : held (deliver input self) ⊆ held self ++ map TaskBlueprint_global_id (snd input).
Proof.
  intros id. rewrite elem_of_app, !elem_of_held. unfold deliver, requests_of. cbn. rewrite map_app, concat_app, elem_of_app. cbn.
  rewrite app_nil_r. tauto.
Qed.

Lemma start_held root self : start root runtime_new = Ok self -> held self = [].
Proof. unfold start. intros Hs. inv_ok. unfold held. cbn. by rewrite map_to_list_empty. Qed.
End inv.

(** ** Properties *)

(** C13: the runtime's own bookkeeping never fails it: in every state it reaches, whatever
    the root fiber, the clock and the inputs, in a build with overflow checks, or in one
    without them after a run whose steps, counted three times, and delivered requests
    together are fewer than 2^64 - 1 ([ids_suffice]: no u64 counter has wrapped around), a wake finds the fiber it names among the
    parked ones, a queue taken from [non_empty_queues] has a message, identifiers are not
    used twice, and the only panic the two wake blocks can end in is that of a fiber
    without the variable to bind; none of the seven [expect]s on the shared bookkeeping
    (three in the wait registry, two for parked fibers, two for queues) can fire. *)
Theorem runtime_consistent `{Profile} `{BinaryHeap} `{Slab} fuel root evs pc self :
  ids_suffice evs -> run_runtime fuel root evs = Ok (pc, self) ->
  NoDup (map unique_id (active_fibers self) ++ (map_to_list (awaiting_fibers self)).*1) /\
  (forall key, exists woken w', wake_one (wait_index self) key = Ok (woken, w') /\
     forall out, woken = Some out -> is_Some (awaiting_fibers self !! WakeOutcome_fiber_id out)) /\
  NoDup (non_empty_queues self) /\
  (forall q, q ∈ non_empty_queues self <-> exists v l, queue_messages self !! q = Some (v :: l)) /\
  (forall msg, resolve_future self = Panic msg \/ serve_queue self = Panic msg -> msg = bind_panic).
Proof.
  intros Hc Hrun. apply run_runtime_ok in Hrun as Hok; [|done]. destruct Hok as [[Hf Hq Hp] Ha].
  split_and!; [apply Hf| |apply Hq|apply Hq|].
  - intros key. destruct (fibers_ok_wake _ _ _ _ key Hf) as [->|(out & w' & fb & -> & Hl & _)].
    + by exists None, (wait_index self).
    + exists (Some out), w'. split; [done|]. intros o [= <-]. by rewrite Hl.
  - intros msg Hm. assert (Hok : rt_ok (delivered_by evs) self) by done.
    pose proof (resolve_future_ok _ _ Hok) as Hr. pose proof (serve_queue_ok _ _ Hok) as Hs.
    destruct Hm as [Hm|Hm]; [by rewrite Hm in Hr|by rewrite Hm in Hs].
Qed.

(** The runtime of the repository's own tests, on a clock that stands still. *)
Definition test_steps (n : nat) : list RtEvent := repeat (Rt_Step (fun _ => 5%Z)) n.
Definition create_queue_input (ids : list UniqueU64BlobId) : Input :=
  (0%Z, map (fun id => mkTaskBlueprint id "randomQueueName"
     (Value_TestCreateQueueMessagePub (mkTestCreateQueueMessagePub 10))) ids).

Definition test_run (root : string) (evs : list RtEvent) : result (Pc * @Runtime gmap_slab) :=
  @run_runtime dev_profile list_heap gmap_slab 100 root evs.

(** The state after the first steps of a run. *)
Definition test_state (root : string) (evs : list RtEvent) : Pc * @Runtime gmap_slab :=
  value_of (Pc_Scheduled, @runtime_new gmap_slab) (test_run root evs).

Lemma test_run_state root evs : succeeds (test_run root evs) = true ->
  @run_runtime dev_profile list_heap gmap_slab 100 root evs = Ok (fst (test_state root evs), snd (test_state root evs)).
Proof. intros Hs. rewrite <-surjective_pairing. by apply succeeds_value. Qed.

(** The runtime with the two requests on its queue, before it serves the first. *)
Definition witness_events : list RtEvent := Rt_Deliver (create_queue_input [9%Z; 11%Z]) :: test_steps 9.
Definition witness_state : Pc * @Runtime gmap_slab := test_state "testCreateQueue" witness_events.

Lemma runtime_consistent_witness :
  non_empty_queues (snd witness_state) = ["randomQueueName"] /\
  map unique_id (map snd (map_to_list (awaiting_fibers (snd witness_state)))) = [0%Z] /\
  (forall msg, @resolve_future _ (snd witness_state) = Panic msg \/ @serve_queue _ (snd witness_state) = Panic msg ->
     msg = bind_panic).
Proof.
  split; [by vm_compute|]. split; [by vm_compute|].
  pose proof (@runtime_consistent dev_profile list_heap gmap_slab 100 "testCreateQueue" witness_events
    (fst witness_state) (snd witness_state) (or_introl eq_refl)) as Ht.
  assert (Hs : succeeds (test_run "testCreateQueue" witness_events) = true) by by vm_compute.
  exact (proj2 (proj2 (proj2 (proj2 (Ht (test_run_state _ _ Hs)))))).
Defined.

(** C14: a request is answered at most once, and only if it was made: the identifiers of
    the answers the runtime has sent, those of its pending public futures, and those of
    the tasks it has not taken in, together, are among the identifiers delivered to it,
    each no more often than it was delivered. Claimed of every run of a build with overflow
    checks, and of every run of a build without them whose steps, counted three times, and
    delivered requests together are fewer than 2^64 - 1 ([ids_suffice]), so that the u64
    counters that number futures and fibers have not wrapped around. *)
Theorem answered_at_most_once `{Profile} `{BinaryHeap} `{Slab} fuel root evs pc self :
  ids_suffice evs -> run_runtime fuel root evs = Ok (pc, self) ->
  (sent self).*1 ++ (map_to_list (public_futures self)).*2 ++ requests_of (active_tasks self) ++
    requests_of (receiver self) ⊆+ delivered_by evs /\
  (NoDup (delivered_by evs) -> NoDup (sent self).*1 /\ forall id, id ∈ (sent self).*1 -> id ∈ delivered_by evs).
Proof.
  intros Hc Hrun. apply run_runtime_ok in Hrun as [_ Ha]; [|done]. split; [done|]. intros Hnd.
  assert (Hs : (sent self).*1 ⊆+ delivered_by evs) by (etrans; [|exact Ha]; apply submseteq_inserts_r; done).
  split; [|intros id Hid; by eapply elem_of_submseteq].
  apply submseteq_Permutation in Hs as (k & Hk). rewrite Hk in Hnd. by apply NoDup_app in Hnd as [? _].
Qed.

Definition answered_events : list RtEvent := Rt_Deliver (create_queue_input [9%Z; 11%Z]) :: test_steps 30.
Definition answered_state : Pc * @Runtime gmap_slab :=
  value_of (Pc_Scheduled, @runtime_new gmap_slab) (@run_runtime release_profile list_heap gmap_slab 100 "testCreateQueue" answered_events).

Lemma answered_at_most_once_witness :
  sent (snd answered_state) = [(9%Z, Value_U64 12)] /\ delivered_by answered_events = [9%Z; 11%Z] /\
  NoDup (sent (snd answered_state)).*1.
Proof.
  split; [by vm_compute|]. split; [by vm_compute|].
  assert (Hs : succeeds (@run_runtime release_profile list_heap gmap_slab 100 "testCreateQueue" answered_events) = true) by by vm_compute.
  assert (Hrun := succeeds_value (Pc_Scheduled, @runtime_new gmap_slab) _ Hs).
  rewrite (surjective_pairing (value_of _ _)) in Hrun.
  refine (proj1 (proj2 (@answered_at_most_once release_profile list_heap gmap_slab 100 "testCreateQueue" answered_events
    (fst answered_state) (snd answered_state) (or_intror _) Hrun) _)).
  - by vm_compute.
  - replace (delivered_by answered_events) with [9%Z; 11%Z] by by vm_compute. apply (bool_decide_unpack _). by vm_compute.
Defined.


Definition creating_fiber : Fiber :=
  mkFiber (removelast (fst testCreateQueue_prepare_main)) Heap_default "testCreateQueue.main" "testCreateQueue" 0 [].
Definition create_run (names : list string) : result (@Runtime gmap_slab) :=
  @handle_create release_profile gmap_slab (fun _ => 0%Z) creating_fiber
    (map (fun n => CreatePrimitiveValue_Queue n true) names) State_TestCreateQueueMainDebugVars2
    ["created_queue_name"] [SuccessBindKind_String] State_TestCreateQueueMainReturn ["f_queueCreationError"] runtime_new.

