(* ===== verification/Deployed.v ===== *)
(** * The deployed program, end to end

    [maroon/src/stack.rs] starts the runtime with the fiber ["root"], which starts
    ["testInfiniteSummator"]: the program behind the gateway's [/summarize] route. This
    file follows that program through the whole runtime, for every clock and every
    arrival of inputs: it answers each request for its queue with the product of its two
    numbers, in the order of the log, and a request of the wrong kind stops it. *)
From S2P Require Import Prelude Types Values Assembler Protocol Fiber FiberTypes FiberRuns Waits WaitsSpec Runtime RuntimeInv.
From stdpp Require Import pretty.
Local Open Scope string_scope.
Local Open Scope list_scope.

(** ** Requests and answers *)
Definition summator_queue : string := "testInfiniteCalculatorQueue".

(** A request as the program sees it: its identifier and the two numbers. *)
Record Req := mkReq { Req_id : UniqueU64BlobId; Req_a : Z; Req_b : Z }.

Definition request_of (bp : TaskBlueprint) : option Req :=
  if decide (TaskBlueprint_q_name bp = summator_queue) then
    match TaskBlueprint_value bp with
    | Value_TestInfiniteSummatorQueueMessagePub m =>
        Some (mkReq (TaskBlueprint_global_id bp) (TestInfiniteSummatorQueueMessagePub_a m)
                (TestInfiniteSummatorQueueMessagePub_b m))
    | _ => None
    end
  else None.

Definition requests_in (inputs : list Input) : list Req :=
  concat (map (fun i => omap request_of (snd i)) inputs).

Definition answer (r : Req) : Output := (Req_id r, Value_U64 (Req_a r * Req_b r)).

(** What the queue expects: a public message whose product fits. *)
Definition blueprint_ok (bp : TaskBlueprint) : Prop :=
  TaskBlueprint_q_name bp = summator_queue ->
  exists a b, TaskBlueprint_value bp =
    Value_TestInfiniteSummatorQueueMessagePub (mkTestInfiniteSummatorQueueMessagePub a b) /\ u64_ok (a * b).

Definition inputs_ok (inputs : list Input) : Prop := Forall (fun i => Forall blueprint_ok (snd i)) inputs.

(** The [i]-th accepted request as a message of the queue: its public future is number [i]. *)
Definition message (i : nat) (r : Req) : Value :=
  Value_TestInfiniteSummatorQueueMessage
    (mkTestInfiniteSummatorQueueMessage (Req_a r) (Req_b r) (pretty (Z.of_nat i))).
Definition messages (accepted : list Req) : list Value := imap message accepted.

(** ** The fibers of the program *)
Definition summator_frame (req : Value) (res : Z) (err : option string) (fut : string) : list StackEntry :=
  [StackEntry_Value "infiniteCalculatorQueue" (Value_String summator_queue);
   StackEntry_Value "request" req; StackEntry_Value "result" (Value_U64 res);
   StackEntry_Value "createQueueError" (Value_OptionString err);
   StackEntry_Value "respFutureId" (Value_FutureU64 fut)].

(** A summator fiber with its frame and what is on top of it. *)
Definition summator (fb : Fiber) (req : option Value) (top : list StackEntry) : Prop :=
  unique_id fb = 1%Z /\
  exists req' res err fut,
    stack fb = StackEntry_Retrn (Some 1%nat) :: summator_frame req' res err fut ++ top /\
    match req with Some r => req' = r | None => True end.

Section turns.
Context `{Profile}.

Ltac run_it :=
  repeat match goal with
  | H : exists _, _ |- _ => destruct H
  | H : _ /\ _ |- _ => destruct H
  end;
  match goal with fb : Fiber |- _ => destruct fb end; cbn in *; subst.

(** One iteration of the fiber's loop. *)
Ltac run_once :=
  match goal with
  | H : (S _ <= ?fuel)%nat |- context [run ?fuel] => destruct fuel; [lia|apply le_S_n in H]
  end;
  cbn; rewrite decide_False by lia; cbn; rewrite ?u64_mul_ok by done; cbn.

Lemma turn_calculate fb a b key sink fuel :
  summator fb (Some (Value_TestInfiniteSummatorQueueMessage (mkTestInfiniteSummatorQueueMessage a b key)))
    [StackEntry_State State_TestInfiniteSummatorMainCalculate] ->
  u64_ok (a * b) -> (4 <= fuel)%nat ->
  exists fb' sink', run fuel fb sink =
      Ok (fb', sink', RunResult_SetValues [SetPrimitiveValue_Future key (Value_U64 (a * b))]) /\
    summator fb' None [StackEntry_State State_TestInfiniteSummatorMainSelectQueue].
Proof.
  intros (Hid & req & res & err & fut & Hst & ->) Hab Hf. run_it. do 2 run_once.
  do 2 eexists. split; [reflexivity|]. split; [done|]. do 4 eexists. by split.
Qed.

Lemma turn_select fb sink fuel :
  summator fb None [StackEntry_State State_TestInfiniteSummatorMainSelectQueue] -> (1 <= fuel)%nat ->
  exists fb' sink', run fuel fb sink =
      Ok (fb', sink', RunResult_Select [SelectArm_Queue summator_queue "request" State_TestInfiniteSummatorMainCalculate]) /\
    summator fb' None [].
Proof.
  intros (Hid & req & res & err & fut & Hst & _) Hf. run_it. run_once.
  do 2 eexists. split; [reflexivity|]. split; [done|]. do 4 eexists. by split.
Qed.

(** The root fiber, before and after it has created the summator. *)
Definition root_at (fb : Fiber) (s : State) : Prop :=
  unique_id fb = 0%Z /\ stack fb = [StackEntry_Retrn (Some 1%nat); StackEntry_State s].

Lemma turn_root_creates fb sink fuel :
  root_at fb State_RootMainEntry -> (1 <= fuel)%nat ->
  exists fb' sink', run fuel fb sink = Ok (fb', sink', RunResult_CreateFibers [("testInfiniteSummator", [])]) /\
    root_at fb' State_RootMainReturn.
Proof. intros [Hid Hst] Hf. run_it. run_once. do 2 eexists. split; [reflexivity|]. by split. Qed.

Lemma turn_root_returns fb sink fuel :
  root_at fb State_RootMainReturn -> (2 <= fuel)%nat ->
  exists fb' sink', run fuel fb sink = Ok (fb', sink', RunResult_Done).
Proof.
  intros [Hid Hst] Hf. run_it. run_once. destruct fuel as [|fuel]; [lia|]. cbn. by do 2 eexists.
Qed.

Definition fresh_summator (fb : Fiber) : Prop :=
  unique_id fb = 1%Z /\ stack fb = fst testInfiniteSummator_prepare_main.

Lemma turn_summator_creates fb sink fuel :
  fresh_summator fb -> (2 <= fuel)%nat ->
  exists fb' sink', run fuel fb sink =
      Ok (fb', sink', RunResult_Create [CreatePrimitiveValue_Queue summator_queue true]
        State_TestInfiniteSummatorMainSelectQueue ["infiniteCalculatorQueue"] [SuccessBindKind_String]
        State_TestInfiniteSummatorMainReturn ["createQueueError"]) /\
    summator fb' None [].
Proof.
  intros [Hid Hst] Hf. run_it. do 2 run_once. do 2 eexists. split; [reflexivity|]. split; [done|].
  do 4 eexists. by split.
Qed.

(** Binding the message the queue hands out. *)
Lemma bind_request fb v next :
  summator fb None [] ->
  exists fb', resume fb (Some "request") v next = Ok fb' /\ summator fb' (Some v) [StackEntry_State next].
Proof.
  intros (Hid & req & res & err & fut & Hst & _). unfold resume, assign_local_and_push_next, assign_local.
  rewrite Hst. eexists. split; [reflexivity|]. split; [done|]. do 4 eexists. by split.
Qed.

(** Binding the name of the queue that was created: the name the variable has already. *)
Lemma bind_queue_name fb :
  summator fb None [] ->
  exists fb', bind_ids [summator_queue] [SuccessBindKind_String] ["infiniteCalculatorQueue"] fb = Ok fb' /\
    summator fb' None [].
Proof.
  intros (Hid & req & res & err & fut & Hst & _). unfold bind_ids. cbn. unfold assign_local. rewrite Hst.
  eexists. split; [reflexivity|]. split; [done|]. do 4 eexists. by split.
Qed.
End turns.

(** ** The states of the runtime that runs the program *)
Section states.
Context `{Profile} `{BinaryHeap} `{Slab}.

(** What the runtime holds when the queue exists, [accepted] requests have been taken in,
    [taken] of them have left the queue and [answered] have been answered. *)
Record holds_requests (accepted : list Req) (taken answered : nat) (self : Runtime) : Prop := {
  hr_scheduled : scheduled self = [];
  hr_resolved : resolved_futures self = [];
  hr_next : next_created_future_id self = Z.of_nat (length accepted);
  hr_queue : queue_messages self = {[summator_queue := drop taken (messages accepted)]};
  hr_names : non_empty_queues self = if decide (drop taken (messages accepted) = []) then [] else [summator_queue];
  hr_public : forall k u, public_futures self !! k = Some u <->
    exists i r, (answered <= i)%nat /\ accepted !! i = Some r /\ u = Req_id r /\ k = pretty (Z.of_nat i);
  hr_sent : sent self = map answer (take answered accepted);
  hr_taken : (taken <= length accepted)%nat
}.

Definition waiting_for_request (w : WaitRegistry) : Prop :=
  exists id, represents w [mkWaiter id 1 [(WaitKey_Queue summator_queue,
    mkArmResume (Some "request") State_TestInfiniteSummatorMainCalculate)]].

(** The summator is parked and nothing runs. *)
Definition idle (accepted : list Req) (answered : nat) (self : Runtime) : Prop :=
  holds_requests accepted answered answered self /\ active_fibers self = [] /\
  waiting_for_request (wait_index self) /\
  exists fb, awaiting_fibers self = {[1%Z := fb]} /\ summator fb None [].

(** The summator is about to wait for its queue. *)
Definition selecting (accepted : list Req) (answered : nat) (self : Runtime) : Prop :=
  holds_requests accepted answered answered self /\ represents (wait_index self) [] /\
  awaiting_fibers self = ∅ /\
  exists fb, active_fibers self = [fb] /\ summator fb None [StackEntry_State State_TestInfiniteSummatorMainSelectQueue].

(** The summator has been given request number [answered]. *)
Definition calculating (accepted : list Req) (answered : nat) (self : Runtime) : Prop :=
  holds_requests accepted (S answered) answered self /\ represents (wait_index self) [] /\
  awaiting_fibers self = ∅ /\
  exists fb r, active_fibers self = [fb] /\ accepted !! answered = Some r /\
    summator fb (Some (message answered r)) [StackEntry_State State_TestInfiniteSummatorMainCalculate].

(** Before the queue exists. *)
Record booting (fibers : list Fiber) (next : Z) (self : Runtime) : Prop := {
  bo_fibers : active_fibers self = fibers;
  bo_next_fiber : next_fiber_id self = next;
  bo_scheduled : scheduled self = [];
  bo_resolved : resolved_futures self = [];
  bo_next : next_created_future_id self = 0%Z;
  bo_queue : queue_messages self = ∅;
  bo_names : non_empty_queues self = [];
  bo_public : public_futures self = ∅;
  bo_sent : sent self = [];
  bo_registry : represents (wait_index self) [];
  bo_awaiting : awaiting_fibers self = ∅;
  bo_tasks : active_tasks self = []
}.

(** Where the program can be, with the requests accepted and answered so far and a bound on
    the steps to the next answer. *)
Inductive stage : Pc -> Runtime -> list Req -> nat -> nat -> Prop :=
| stage_root pc self fb : pc = Pc_Scheduled \/ pc = Pc_Fibers ->
    booting [fb] 1 self -> root_at fb State_RootMainEntry ->
    stage pc self [] 0 (match pc with Pc_Scheduled => 13 | _ => 12 end)
| stage_created self fb sm : booting [fb; sm] 2 self -> root_at fb State_RootMainReturn -> fresh_summator sm ->
    stage Pc_Fibers self [] 0 11
| stage_fresh self sm : booting [sm] 2 self -> fresh_summator sm -> stage Pc_Fibers self [] 0 10
| stage_selecting self accepted answered :
    selecting accepted answered self -> stage Pc_Fibers self accepted answered 9
| stage_calculating pc self accepted answered : pc = Pc_Scheduled \/ pc = Pc_Fibers ->
    calculating accepted answered self ->
    stage pc self accepted answered (match pc with Pc_Scheduled => 2 | _ => 1 end)
| stage_idle pc self accepted answered : idle accepted answered self ->
    stage pc self accepted answered
      (match pc with
       | Pc_Scheduled => 6 | Pc_Fibers => 5 | Pc_Future => 4 | Pc_Queue => 3
       | Pc_Intake => if decide (non_empty_queues self = []) then 2 else 7
       end).

Definition inputs_left (self : Runtime) : list Input := active_tasks self ++ receiver self.

Definition unanswered (self : Runtime) (accepted : list Req) (answered : nat) : nat :=
  (length accepted - answered) + length (requests_in (inputs_left self)).

Definition work (self : Runtime) (accepted : list Req) (answered rank : nat) : nat :=
  30 * unanswered self accepted answered + 10 * length (inputs_left self) + rank.

(** ** Taking requests in *)
Lemma messages_snoc accepted r :
  messages (accepted ++ [r]) = messages accepted ++ [message (length accepted) r].
Proof. unfold messages. rewrite imap_app. cbn. by rewrite Nat.add_0_r. Qed.

Lemma messages_length accepted : length (messages accepted) = length accepted.
Proof. apply length_imap. Qed.

Lemma messages_lookup accepted i r : accepted !! i = Some r -> messages accepted !! i = Some (message i r).
Proof. intros Hi. unfold messages. by rewrite list_lookup_imap, Hi. Qed.

(** [self'] differs from [self] in nothing a blueprint does not touch. *)
Record same_fibers (self self' : Runtime) : Prop := {
  sf_active : active_fibers self' = active_fibers self;
  sf_wait : wait_index self' = wait_index self;
  sf_awaiting : awaiting_fibers self' = awaiting_fibers self;
  sf_tasks : active_tasks self' = active_tasks self;
  sf_receiver : receiver self' = receiver self
}.

Lemma take_request accepted answered self bp :
  holds_requests accepted answered answered self -> blueprint_ok bp ->
  (Z.of_nat (length accepted + length (option_list (request_of bp))) < u64_modulus)%Z ->
  exists self', take_blueprint self bp = Ok self' /\ same_fibers self self' /\
    holds_requests (accepted ++ option_list (request_of bp)) answered answered self'.
Proof.
  intros Hr Hok Hb. unfold take_blueprint, request_of in *. rewrite (hr_queue _ _ _ _ Hr).
  destruct (decide (TaskBlueprint_q_name bp = summator_queue)) as [Hq|Hq].
  2: { rewrite lookup_singleton_ne by done. rewrite app_nil_r. by exists self. }
  destruct (Hok Hq) as (a & b & Hv & _). rewrite Hv in *. rewrite Hq, lookup_singleton_eq. cbn in *.
  rewrite (hr_next _ _ _ _ Hr). rewrite u64_add_ok by (unfold u64_ok; lia). cbn.
  eexists. split; [reflexivity|]. split; [done|].
  set (r := mkReq (TaskBlueprint_global_id bp) a b).
  pose proof (hr_taken _ _ _ _ Hr) as Ht.
  assert (Hdrop : drop answered (messages (accepted ++ [r])) =
    drop answered (messages accepted) ++ [message (length accepted) r])
    by (rewrite messages_snoc, drop_app_le by (rewrite messages_length; lia); done).
  split; cbn; try apply Hr.
  - rewrite length_app. cbn. lia.
  - rewrite (hr_queue _ _ _ _ Hr), Hdrop. etrans; [apply insert_singleton_eq|done].
  - rewrite Hdrop, (hr_names _ _ _ _ Hr). rewrite (decide_False (P := drop answered (messages accepted) ++ [_] = []))
      by (by destruct (drop answered (messages accepted))).
    by case_decide.
  - intros k u. rewrite lookup_insert_Some, (hr_public _ _ _ _ Hr). split.
    + intros [[<- <-]|[Hne (i & r' & Hi & Hl & -> & ->)]].
      * exists (length accepted), r. split_and!; try done. by rewrite list_lookup_middle.
      * exists i, r'. split_and!; try done. by apply lookup_app_l_Some.
    + intros (i & r' & Hi & Hl & -> & ->). destruct (decide (i = length accepted)) as [->|Hne].
      * left. rewrite list_lookup_middle in Hl by done. by injection Hl as <-.
      * right. split; [intros Heq; apply (inj pretty) in Heq; lia|].
        exists i, r'. apply lookup_lt_Some in Hl as Hlt. rewrite length_app in Hlt. cbn in Hlt.
        rewrite lookup_app_l in Hl by lia. done.
  - rewrite take_app_le by done. apply Hr.
  - rewrite length_app. lia.
Qed.

Lemma take_requests bps accepted answered self :
  holds_requests accepted answered answered self -> Forall blueprint_ok bps ->
  (Z.of_nat (length accepted + length (omap request_of bps)) < u64_modulus)%Z ->
  exists self', for_each bps take_blueprint self = Ok self' /\ same_fibers self self' /\
    holds_requests (accepted ++ omap request_of bps) answered answered self'.
Proof.
  revert accepted self. induction bps as [|bp bps IH]; intros accepted self Hr Hok Hb.
  - exists self. cbn. rewrite app_nil_r. done.
  - apply Forall_cons in Hok as [Hbp Hok].
    assert (E : omap request_of (bp :: bps) = option_list (request_of bp) ++ omap request_of bps)
      by (cbn; by destruct (request_of bp)).
    rewrite E in Hb |- *. rewrite length_app in Hb.
    destruct (take_request accepted answered self bp Hr Hbp ltac:(lia)) as (self1 & E1 & Hs1 & Hr1).
    destruct (IH _ self1 Hr1 Hok) as (self2 & E2 & Hs2 & Hr2); [rewrite length_app; lia|].
    exists self2. cbn. rewrite E1. cbn. rewrite E2, app_assoc. split; [done|]. split; [|done].
    destruct Hs1, Hs2. split; congruence.
Qed.

(** ** Steps *)

(** The step succeeds, stays within the program's stages, and works towards an answer. *)
Definition goes_on (fuel : nat) (clock : nat -> LogicalTimeAbsoluteMs) (pc : Pc) (self : Runtime)
  (accepted : list Req) (answered rank : nat) : Prop :=
  exists pc' self' accepted' answered' rank' before,
    rt_step fuel clock pc self = Ok (pc', self') /\ stage pc' self' accepted' answered' rank' /\
    accepted' ++ requests_in (inputs_left self') = accepted ++ requests_in (inputs_left self) /\
    inputs_left self = before ++ inputs_left self' /\
    ((length before <= match pc with Pc_Intake => 1 | _ => 0 end)%nat /\ Forall (fun i => fst i <= clock 0%nat)%Z before) /\
    (answered <= answered')%nat /\
    (Forall (fun i => fst i <= clock 0%nat)%Z (inputs_left self) ->
     (0 < unanswered self accepted answered)%nat \/ inputs_left self <> [] ->
     (work self' accepted' answered' rank' < work self accepted answered rank)%nat).

(** A step that only moves between stages. *)
Lemma goes_on_same fuel clock pc self accepted answered rank pc' self' rank' :
  rt_step fuel clock pc self = Ok (pc', self') -> stage pc' self' accepted answered rank' ->
  inputs_left self' = inputs_left self ->
  (rank' < rank)%nat \/ (unanswered self accepted answered = 0%nat /\ inputs_left self = []) ->
  goes_on fuel clock pc self accepted answered rank.
Proof.
  intros Hs Hst Hi Hr. exists pc', self', accepted, answered, rank', []. rewrite Hi.
  split_and!; [done..|cbn; lia|constructor|done|]. intros _ Hu. unfold work, unanswered in *. rewrite Hi.
  destruct Hr as [Hr|[Hz Hnil]]; [lia|]. destruct Hu as [Hu|Hu]; [lia|done].
Qed.

Lemma holds_requests_same accepted taken answered self self' :
  scheduled self' = scheduled self -> resolved_futures self' = resolved_futures self ->
  next_created_future_id self' = next_created_future_id self -> queue_messages self' = queue_messages self ->
  non_empty_queues self' = non_empty_queues self -> public_futures self' = public_futures self ->
  sent self' = sent self -> holds_requests accepted taken answered self ->
  holds_requests accepted taken answered self'.
Proof. intros E1 E2 E3 E4 E5 E6 E7 []. split; rewrite ?E1, ?E2, ?E3, ?E4, ?E5, ?E6, ?E7; done. Qed.

Lemma take_scheduled_nothing now self : scheduled self = [] -> take_scheduled now self = self.
Proof. intros E. unfold take_scheduled. by rewrite E, heap_pop_nil. Qed.

(** The line a turn writes first. *)
Definition start_line (fb : Fiber) : string :=
  "--- start " +:+ (f_type fb +:+ ":" +:+ pretty (unique_id fb) +:+ " ---" +:+ newline).

(** Turns of the fibers, with what the runtime makes of them. *)
Lemma step_root fuel clock self fb :
  booting [fb] 1 self -> root_at fb State_RootMainEntry -> (10 <= fuel)%nat ->
  goes_on fuel clock Pc_Fibers self [] 0 12.
Proof.
  intros Hb Hroot Hf. destruct (turn_root_creates fb (start_line fb) fuel Hroot ltac:(lia))
    as (fb' & sink' & Hrun & Hroot').
  assert (Hstep : exists self' sm, rt_step fuel clock Pc_Fibers self = Ok (Pc_Fibers, self') /\
    booting [fb'; sm] 2 self' /\ fresh_summator sm /\ inputs_left self' = inputs_left self).
  { unfold rt_step. rewrite (bo_fibers _ _ _ Hb). unfold fiber_turn. cbn zeta. fold (start_line fb). rewrite Hrun.
    cbn [mbind result_bind handle_run_result for_each create_fiber set_active_fibers next_fiber_id].
    rewrite (bo_next_fiber _ _ _ Hb). cbn.
    do 2 eexists. split; [reflexivity|]. split; [destruct Hb; by split|].
    split; [split|]; done. }
  destruct Hstep as (self' & sm & Hs & Hb' & Hsm & Hi).
  eapply goes_on_same; [exact Hs|by eapply stage_created|done|left; lia].
Qed.

Lemma step_created fuel clock self fb sm :
  booting [fb; sm] 2 self -> root_at fb State_RootMainReturn -> fresh_summator sm -> (10 <= fuel)%nat ->
  goes_on fuel clock Pc_Fibers self [] 0 11.
Proof.
  intros Hb Hroot Hsm Hf. destruct (turn_root_returns fb (start_line fb) fuel Hroot ltac:(lia)) as (fb' & sink' & Hrun).
  assert (Hstep : exists self', rt_step fuel clock Pc_Fibers self = Ok (Pc_Fibers, self') /\
    booting [sm] 2 self' /\ inputs_left self' = inputs_left self).
  { unfold rt_step. rewrite (bo_fibers _ _ _ Hb). unfold fiber_turn. cbn zeta. fold (start_line fb). rewrite Hrun. cbn.
    eexists. split; [reflexivity|]. split; [|done]. destruct Hb. by split. }
  destruct Hstep as (self' & Hs & Hb' & Hi).
  eapply goes_on_same; [exact Hs|by eapply stage_fresh|done|left; lia].
Qed.

(** The creation of the queue. *)
Lemma create_queue clock fb self :
  booting [] 2 self -> summator fb None [] ->
  exists self', handle_create clock fb [CreatePrimitiveValue_Queue summator_queue true]
      State_TestInfiniteSummatorMainSelectQueue ["infiniteCalculatorQueue"] [SuccessBindKind_String]
      State_TestInfiniteSummatorMainReturn ["createQueueError"] self = Ok self' /\
    selecting [] 0 self' /\ inputs_left self' = inputs_left self.
Proof.
  intros Hb Hsm. destruct (bind_queue_name fb Hsm) as (fb' & Hbind & Hsm'). unfold handle_create, validate.
  cbn [foldl validate_primitive]. rewrite decide_False.
  2: { rewrite (bo_queue _ _ _ Hb), lookup_empty. intros [[? ?]|?]; [done|set_solver]. }
  cbn -[bind_ids summator_queue]. rewrite Hbind. cbn. eexists. split; [reflexivity|]. split; [|done].
  destruct Hb. split; [|split; [done|split; [done|]]].
  - split; cbn; try done.
    + by rewrite bo_queue0.
    + intros k u. rewrite bo_public0, lookup_empty. split; [done|]. by intros (i & r & _ & ? & _).
  - cbn. rewrite bo_fibers0. exists (push_next State_TestInfiniteSummatorMainSelectQueue fb'). split; [done|].
    destruct Hsm' as (Hid & req & res & err & fut & Hst & _). split; [done|].
    exists req, res, err, fut. split; [|done]. cbn. by rewrite Hst.
Qed.

Lemma step_fresh fuel clock self sm :
  booting [sm] 2 self -> fresh_summator sm -> (10 <= fuel)%nat -> goes_on fuel clock Pc_Fibers self [] 0 10.
Proof.
  intros Hb Hsm Hf. destruct (turn_summator_creates sm (start_line sm) fuel Hsm ltac:(lia)) as (fb' & sink' & Hrun & Hfb).
  assert (Hb0 : booting [] 2 (set_active_fibers [] self)) by (destruct Hb; by split).
  destruct (create_queue clock fb' _ Hb0 Hfb) as (self' & Hc & Hsel & Hi).
  assert (Hstep : exists self', rt_step fuel clock Pc_Fibers self = Ok (Pc_Fibers, self') /\
    selecting [] 0 self' /\ inputs_left self' = inputs_left self).
  { unfold rt_step. rewrite (bo_fibers _ _ _ Hb). unfold fiber_turn. cbn zeta. fold (start_line sm). rewrite Hrun.
    cbn [mbind result_bind handle_run_result]. rewrite Hc. cbn. eexists. split; [reflexivity|]. split; [|done].
    destruct Hsel as (Hh & ?). split; [by eapply holds_requests_same; [..|exact Hh]|done]. }
  destruct Hstep as (self1 & Hs & Hsel1 & Hi1).
  eapply goes_on_same; [exact Hs|by eapply stage_selecting|done|left; lia].
Qed.

Lemma step_selecting fuel clock self accepted answered :
  selecting accepted answered self -> (10 <= fuel)%nat -> goes_on fuel clock Pc_Fibers self accepted answered 9.
Proof.
  intros (Hh & Hw & Haw & fb & Hact & Hsm) Hf.
  destruct (turn_select fb (start_line fb) fuel Hsm ltac:(lia)) as (fb' & sink' & Hrun & Hfb).
  assert (Hid : unique_id fb' = 1%Z) by apply Hfb.
  assert (Hstep : exists self', rt_step fuel clock Pc_Fibers self = Ok (Pc_Fibers, self') /\
    idle accepted answered self' /\ inputs_left self' = inputs_left self).
  { unfold rt_step. rewrite Hact. unfold fiber_turn. cbn zeta. fold (start_line fb). rewrite Hrun. cbn. eexists. split; [reflexivity|].
    split; [|done]. split; [by eapply holds_requests_same; [..|exact Hh]|]. split; [done|]. cbn. split.
    - destruct (register_represents (wait_index self) [] 1 [SelectArm_Queue summator_queue "request"
        State_TestInfiniteSummatorMainCalculate] Hw) as [Hr _]. rewrite Hid. eexists. exact Hr.
    - exists fb'. by rewrite Haw, Hid. }
  destruct Hstep as (self' & Hs & Hidle & Hi).
  eapply goes_on_same; [exact Hs|by eapply stage_idle|done|left; cbn; lia].
Qed.

(** The answer to the request in hand. *)
Lemma answer_request accepted answered self r :
  holds_requests accepted (S answered) answered self -> accepted !! answered = Some r ->
  exists self', set_value self (SetPrimitiveValue_Future (pretty (Z.of_nat answered)) (Value_U64 (Req_a r * Req_b r))) = Ok self' /\
    holds_requests accepted (S answered) (S answered) self' /\ same_fibers self self'.
Proof.
  intros Hh Hr. unfold set_value.
  assert (Hp : public_futures self !! pretty (Z.of_nat answered) = Some (Req_id r)).
  { apply (hr_public _ _ _ _ Hh). by exists answered, r. }
  rewrite Hp. eexists. split; [reflexivity|]. split; [|done]. split; cbn; try apply Hh.
  - intros k u. rewrite lookup_delete_Some, (hr_public _ _ _ _ Hh). split.
    + intros [Hne (i & r' & Hi & Hl & -> & ->)]. exists i, r'. split_and!; try done.
      destruct (decide (i = answered)) as [->|]; [done|lia].
    + intros (i & r' & Hi & Hl & -> & ->). split; [intros Heq; apply (inj pretty) in Heq; lia|].
      exists i, r'. split_and!; try done. lia.
  - rewrite (hr_sent _ _ _ _ Hh), (take_S_r _ _ r), map_app by done. done.
Qed.

Lemma step_calculating fuel clock self accepted answered :
  calculating accepted answered self -> (10 <= fuel)%nat ->
  (forall r, accepted !! answered = Some r -> u64_ok (Req_a r * Req_b r)) ->
  goes_on fuel clock Pc_Fibers self accepted answered 1.
Proof.
  intros (Hh & Hw & Haw & fb & r & Hact & Hr & Hsm) Hf Hok.
  destruct (turn_calculate fb _ _ _ (start_line fb) fuel Hsm (Hok r Hr) ltac:(lia)) as (fb' & sink' & Hrun & Hfb).
  assert (Hh0 : holds_requests accepted (S answered) answered (set_active_fibers [] self))
    by by eapply holds_requests_same; [..|exact Hh].
  destruct (answer_request accepted answered _ r Hh0 Hr) as (mid & Hset & Hmid & Hsame).
  assert (Hstep : exists self', rt_step fuel clock Pc_Fibers self = Ok (Pc_Fibers, self') /\
    selecting accepted (S answered) self' /\ inputs_left self' = inputs_left self).
  { unfold rt_step. rewrite Hact. unfold fiber_turn. cbn zeta. fold (start_line fb). rewrite Hrun.
    cbn [mbind result_bind handle_run_result for_each]. rewrite Hset. cbn. eexists. split; [reflexivity|].
    destruct Hsame as [S1 S2 S3 S4 S5]. cbn in *. split.
    - split; [by eapply holds_requests_same; [..|exact Hmid]|]. cbn. rewrite S1, S2, S3.
      split; [done|]. split; [done|]. by exists fb'.
    - unfold inputs_left. cbn. by rewrite S4, S5. }
  destruct Hstep as (self' & Hs & Hsel & Hi). apply lookup_lt_Some in Hr as Hlt.
  exists Pc_Fibers, self', accepted, (S answered), 9, []. rewrite Hi.
  split_and!; [done|by apply stage_selecting|done|done|cbn; lia|constructor|lia|].
  intros _ _. unfold work, unanswered. rewrite Hi. lia.
Qed.

(** The queue hands its first message to the summator. *)
Lemma step_queue fuel clock self accepted answered :
  idle accepted answered self -> goes_on fuel clock Pc_Queue self accepted answered 3.
Proof.
  intros Hidle. pose proof Hidle as (Hh & Hact & (id & Hw) & fb & Haw & Hsm).
  pose proof (hr_names _ _ _ _ Hh) as Hn. case_decide as Hd.
  - eapply (goes_on_same _ _ _ _ _ _ _ Pc_Intake self); [|by apply stage_idle|done|rewrite Hn, decide_True by done; left; lia].
    cbn. unfold serve_queue. by rewrite Hn.
  - assert (Hlt : (answered < length accepted)%nat).
    { destruct (decide (answered < length accepted)%nat); [done|]. destruct Hd.
      apply drop_ge. rewrite messages_length. lia. }
    destruct (lookup_lt_is_Some_2 accepted answered Hlt) as (r & Hr).
    pose proof (drop_S _ _ _ (messages_lookup _ _ _ Hr)) as Hdrop.
    pose proof (wake_represents _ _ (WaitKey_Queue summator_queue) Hw) as Hwake. cbn in Hwake.
    destruct Hwake as (w' & Hwake & Hw').
    destruct (bind_request fb (message answered r) State_TestInfiniteSummatorMainCalculate Hsm) as (fb' & Hres & Hsm').
    assert (Hstep : exists self', rt_step fuel clock Pc_Queue self = Ok (Pc_Scheduled, self') /\
      calculating accepted answered self' /\ inputs_left self' = inputs_left self).
    { unfold rt_step, serve_queue. rewrite Hn. cbn [wait_index set_queues]. fold summator_queue. rewrite Hwake.
      cbn [set_queues mbind result_bind awaiting_fibers WakeOutcome_fiber_id]. rewrite Haw, lookup_singleton_eq.
      cbn [set_queues set_waiting expect mbind result_bind queue_messages].
      rewrite (hr_queue _ _ _ _ Hh), lookup_singleton_eq. cbn [expect mbind result_bind]. rewrite Hdrop.
      cbn [head expect mbind result_bind WakeOutcome_bind WakeOutcome_next ArmResume_bind ArmResume_next]. rewrite Hres.
      cbn [mbind result_bind tail]. eexists. split; [reflexivity|]. split; [|done].
      split; [|split; [done|split]].
      - split; cbn; try apply Hh.
        + apply insert_insert_eq.
        + by case_decide.
        + lia.
      - cbn. etrans; [apply delete_insert_eq|apply delete_empty].
      - cbn. rewrite Hact. by exists fb', r. }
    destruct Hstep as (self' & Hs & Hcalc & Hi).
    eapply goes_on_same; [exact Hs|eapply stage_calculating; [by left|exact Hcalc]|done|left; cbn; lia].
Qed.

(** Changing only the channels keeps the program idle. *)
Lemma idle_channels accepted answered self r tasks :
  idle accepted answered self -> idle accepted answered (set_channels r (sent self) tasks self).
Proof. intros (Hh & ?). split; [by eapply holds_requests_same; [..|exact Hh]|done]. Qed.

Lemma requests_in_cons i inputs : requests_in (i :: inputs) = omap request_of (snd i) ++ requests_in inputs.
Proof. done. Qed.

(** One input is taken in. *)
Lemma intake_input now accepted answered self t bps :
  idle accepted answered self -> Forall blueprint_ok bps ->
  (Z.of_nat (length accepted + length (omap request_of bps)) < u64_modulus)%Z -> (t <= now)%Z ->
  exists self', for_each bps take_blueprint self = Ok self' /\
    idle (accepted ++ omap request_of bps) answered self' /\ inputs_left self' = inputs_left self.
Proof.
  intros (Hh & Hact & Hw & Haw) Hok Hb Ht.
  destruct (take_requests bps accepted answered self Hh Hok Hb) as (self' & Hrun & [S1 S2 S3 S4 S5] & Hh').
  exists self'. split; [done|]. unfold idle, inputs_left. by rewrite S1, S2, S3, S4, S5.
Qed.

(** The input that is taken in next is well-formed, and the identifiers suffice for it. *)
Definition head_ok (accepted : list Req) (self : Runtime) : Prop :=
  forall t bps rest, inputs_left self = (t, bps) :: rest ->
    Forall blueprint_ok bps /\ (Z.of_nat (length accepted + length (omap request_of bps)) < u64_modulus)%Z.

Lemma step_intake fuel clock self accepted answered :
  idle accepted answered self -> head_ok accepted self ->
  goes_on fuel clock Pc_Intake self accepted answered
    (if decide (non_empty_queues self = []) then 2 else 7).
Proof.
  intros Hidle Hok.
  assert (Htake : forall t bps rest base,
    inputs_left self = (t, bps) :: rest -> idle accepted answered base -> inputs_left base = rest ->
    (if decide (clock 0%nat < t)%Z
     then Ok (set_channels (receiver base) (sent base) ((t, bps) :: active_tasks base) base, false)
     else s ← for_each bps take_blueprint base; Ok (s, true)) = intake (clock 0%nat) self ->
    goes_on fuel clock Pc_Intake self accepted answered (if decide (non_empty_queues self = []) then 2 else 7)).
  { intros t bps rest base Hi Hbase Hrest Hin. destruct (Hok t bps rest Hi) as [Hbps Hb].
    case_decide as Ht.
    - eexists Pc_Scheduled, _, accepted, answered, 6, []. split_and!.
      + cbn [rt_step]. rewrite <-Hin. reflexivity.
      + apply (stage_idle Pc_Scheduled). by apply idle_channels.
      + unfold inputs_left at 1. cbn. change (active_tasks base ++ receiver base) with (inputs_left base).
        by rewrite Hrest, Hi.
      + unfold inputs_left at 2. cbn. change (active_tasks base ++ receiver base) with (inputs_left base).
        by rewrite Hrest, Hi.
      + cbn. lia.
      + constructor.
      + done.
      + rewrite Hi. intros Hdue _. apply Forall_cons in Hdue as [Hdue _]. cbn in Hdue. lia.
    - destruct (intake_input (clock 0%nat) accepted answered base t bps Hbase Hbps ltac:(lia) ltac:(lia))
        as (self' & Hrun & Hidle' & Hleft).
      rewrite Hrun in Hin. cbn in Hin.
      eexists Pc_Intake, self', _, answered, _, [(t, bps)]. split_and!.
      + cbn [rt_step]. rewrite <-Hin. reflexivity.
      + apply (stage_idle Pc_Intake). exact Hidle'.
      + rewrite Hleft, Hrest, Hi, requests_in_cons. by rewrite <-app_assoc.
      + by rewrite Hleft, Hrest, Hi.
      + done.
      + constructor; [cbn; lia|constructor].
      + done.
      + intros _ _. unfold work, unanswered. rewrite Hleft, Hrest, Hi, requests_in_cons, !length_app. cbn [length snd].
        pose proof (hr_taken _ _ _ _ (proj1 Hidle)) as Hle.
        repeat case_decide; lia. }
  unfold intake, inputs_left in Htake. destruct (active_tasks self) as [|[t bps] tasks] eqn:Et.
  - destruct (receiver self) as [|[t bps] r] eqn:Er.
    + eapply (goes_on_same _ _ _ _ _ _ _ Pc_Scheduled self); [|by apply stage_idle|done|].
      * cbn. unfold intake. by rewrite Et, Er.
      * case_decide as Hd; [|left; cbn; lia]. right. split; [|unfold inputs_left; by rewrite Et, Er]. unfold unanswered, inputs_left. rewrite Et, Er. cbn.
        pose proof (hr_names _ _ _ _ (proj1 Hidle)) as Hn. rewrite Hd in Hn. case_decide as Hdrop; [|done].
        apply (f_equal length) in Hdrop. rewrite length_drop, messages_length in Hdrop. cbn in Hdrop. lia.
    + apply (Htake t bps r (set_channels r (sent self) [] self)); [done|by apply idle_channels|done|done].
  - apply (Htake t bps (tasks ++ receiver self) (set_channels (receiver self) (sent self) tasks self));
      [done|by apply idle_channels|done|done].
Qed.

(** ** Every step *)
Lemma deployed_step fuel clock pc self accepted answered rank :
  stage pc self accepted answered rank -> (10 <= fuel)%nat ->
  (forall r, r ∈ accepted -> u64_ok (Req_a r * Req_b r)) -> (pc = Pc_Intake -> head_ok accepted self) ->
  goes_on fuel clock pc self accepted answered rank.
Proof.
  intros Hst Hf Hacc Hok. destruct Hst as [pc self fb Hpc Hbo Hr|self fb sm Hbo Hr Hsm|self sm Hbo Hsm
    |self accepted answered Hsel|pc self accepted answered Hpc Hcalc|pc self accepted answered Hidle].
  - destruct Hpc as [-> | ->]; [|by apply step_root with fb].
    eapply (goes_on_same _ _ _ _ _ _ _ Pc_Fibers self); [|eapply stage_root; [by right|exact Hbo|exact Hr]|done|left; lia].
    cbn. by rewrite take_scheduled_nothing by apply Hbo.
  - by eapply step_created.
  - by eapply step_fresh.
  - by apply step_selecting.
  - destruct Hpc as [-> | ->].
    + eapply (goes_on_same _ _ _ _ _ _ _ Pc_Fibers self);
        [|eapply stage_calculating; [by right|exact Hcalc]|done|left; lia].
      cbn. rewrite take_scheduled_nothing; [done|apply Hcalc].
    + apply step_calculating; [done|done|]. intros r Hr. apply Hacc. by eapply list_elem_of_lookup_2.
  - pose proof Hidle as (Hh & Hact & _). destruct pc.
    + eapply (goes_on_same _ _ _ _ _ _ _ Pc_Fibers self); [|by apply stage_idle|done|left; cbn; lia].
      cbn. rewrite take_scheduled_nothing; [done|apply Hh].
    + eapply (goes_on_same _ _ _ _ _ _ _ Pc_Future self); [|by apply stage_idle|done|left; cbn; lia].
      cbn. by rewrite Hact.
    + eapply (goes_on_same _ _ _ _ _ _ _ Pc_Queue self); [|by apply stage_idle|done|left; cbn; lia].
      cbn. unfold resolve_future. by rewrite (hr_resolved _ _ _ _ Hh).
    + by apply step_queue.
    + apply step_intake; [done|by apply Hok].
Qed.
End states.
