(* ===== verification/DeployedSpec.v ===== *)
(** * The deployed program: what its users may rely on

    The properties of whole runs of the program of [Deployed], from the start of the
    runtime, for every sequence of inputs and every clock: the answers, their order, that
    they come, and what a malformed request does. *)
From S2P Require Import Prelude Types Values Assembler Protocol Fiber FiberTypes FiberRuns Waits WaitsSpec Runtime RuntimeInv Deployed.
From stdpp Require Import pretty.
Local Open Scope string_scope.
Local Open Scope list_scope.

(** The inputs a sequence of events delivers. *)
Definition delivered_inputs (evs : list RtEvent) : list Input :=
  omap (fun ev => match ev with Rt_Deliver input => Some input | Rt_Step _ => None end) evs.

Section runs.
Context `{Profile} `{BinaryHeap} `{Slab}.

(** ** Invariant of a run *)

(** The program is at one of its stages, [inputs] having been delivered. *)
Definition deployed_at (inputs : list Input) (pc : Pc) (self : Runtime) (accepted : list Req)
  (answered rank : nat) : Prop :=
  stage pc self accepted answered rank /\
  accepted ++ requests_in (inputs_left self) = requests_in inputs /\
  exists before, inputs = before ++ inputs_left self.

Lemma stage_sent pc self accepted answered rank :
  stage pc self accepted answered rank ->
  (answered <= length accepted)%nat /\ sent self = map answer (take answered accepted) /\ (rank <= 13)%nat.
Proof.
  intros Hst. destruct Hst as [pc self fb Hpc Hb _|self fb sm Hb _ _|self sm Hb _|self accepted answered [Hh _]
    |pc self accepted answered Hpc [Hh _]|pc self accepted answered [Hh _]].
  1-3: split; [done|]; split; [by rewrite (bo_sent _ _ _ Hb)|]; destruct pc || idtac; lia.
  - split; [exact (hr_taken _ _ _ _ Hh)|]. split; [exact (hr_sent _ _ _ _ Hh)|lia].
  - pose proof (hr_taken _ _ _ _ Hh). split; [lia|]. split; [exact (hr_sent _ _ _ _ Hh)|]. destruct pc; lia.
  - split; [exact (hr_taken _ _ _ _ Hh)|]. split; [exact (hr_sent _ _ _ _ Hh)|].
    destruct pc; [..|case_decide]; lia.
Qed.

Lemma requests_in_app l1 l2 : requests_in (l1 ++ l2) = requests_in l1 ++ requests_in l2.
Proof. unfold requests_in. by rewrite map_app, concat_app. Qed.

(** An accepted request comes from a well-formed blueprint. *)
Lemma requests_ok inputs r : inputs_ok inputs -> r ∈ requests_in inputs -> u64_ok (Req_a r * Req_b r).
Proof.
  intros Hok (i & Hi & Hr)%elem_of_concat_map. apply list_elem_of_omap in Hr as (bp & Hbp & Hr).
  unfold inputs_ok in Hok. rewrite Forall_forall in Hok. specialize (Hok i Hi). rewrite Forall_forall in Hok.
  specialize (Hok bp Hbp). unfold request_of in Hr. case_decide as Hq; [|done].
  destruct (Hok Hq) as (a & b & Hv & Hab). rewrite Hv in Hr. by injection Hr as <-.
Qed.

Lemma stage_deliver input pc self accepted answered rank :
  stage pc self accepted answered rank -> stage pc (deliver input self) accepted answered rank.
Proof.
  intros Hst. destruct Hst as [pc self fb Hpc Hb Hr|self fb sm Hb Hr Hsm|self sm Hb Hsm|self accepted answered [Hh Hx]
    |pc self accepted answered Hpc [Hh Hx]|pc self accepted answered Hidle].
  - apply (stage_root pc _ fb); [done| |done]. destruct Hb. by split.
  - apply (stage_created _ fb sm); [|done|done]. destruct Hb. by split.
  - apply (stage_fresh _ sm); [|done]. destruct Hb. by split.
  - apply stage_selecting. split; [by eapply holds_requests_same; [..|exact Hh]|done].
  - apply stage_calculating; [done|]. split; [by eapply holds_requests_same; [..|exact Hh]|done].
  - apply (stage_idle pc (deliver input self)). by apply idle_channels.
Qed.

Lemma deployed_deliver inputs input pc self accepted answered rank :
  deployed_at inputs pc self accepted answered rank ->
  deployed_at (inputs ++ [input]) pc (deliver input self) accepted answered rank.
Proof.
  intros (Hst & Hreq & before & Hb). split; [by apply stage_deliver|].
  assert (Hl : inputs_left (deliver input self) = inputs_left self ++ [input])
    by (unfold inputs_left; cbn; by rewrite app_assoc).
  rewrite Hl. split; [by rewrite !requests_in_app, app_assoc, Hreq|].
  exists before. by rewrite Hb, <-app_assoc.
Qed.

Lemma deployed_goes_on fuel clock inputs pc self accepted answered rank :
  deployed_at inputs pc self accepted answered rank -> (10 <= fuel)%nat -> inputs_ok inputs ->
  (Z.of_nat (length (requests_in inputs)) < u64_modulus)%Z ->
  goes_on fuel clock pc self accepted answered rank.
Proof.
  intros (Hst & Hreq & before & Hb) Hf Hok Hlen. apply deployed_step; [done|done|..].
  - intros r Hr. apply (requests_ok inputs); [done|]. rewrite <-Hreq. by apply elem_of_app; left.
  - intros _ t bps rest Hl. rewrite Hb, Hl in Hok. apply Forall_app in Hok as [_ Hok].
    apply Forall_cons in Hok as [Hbps _]. split; [done|].
    rewrite <-Hreq, Hl, requests_in_cons, !length_app in Hlen. cbn [snd] in Hlen. lia.
Qed.

Lemma deployed_start :
  exists self, start "root" runtime_new = Ok self /\ deployed_at [] Pc_Scheduled self [] 0 13.
Proof.
  eexists. split; [reflexivity|]. split; [|split; [done|by exists []]].
  eapply (stage_root Pc_Scheduled); [by left|split; try done|done]. apply default_represents.
Qed.

Lemma delivered_inputs_app evs evs' :
  delivered_inputs (evs ++ evs') = delivered_inputs evs ++ delivered_inputs evs'.
Proof. apply omap_app. Qed.

Lemma inputs_ok_app l1 l2 : inputs_ok (l1 ++ l2) -> inputs_ok l1 /\ inputs_ok l2.
Proof. apply Forall_app. Qed.

(** A run never fails, and stays at the program's stages. *)
Lemma deployed_run fuel evs inputs pc self accepted answered rank :
  deployed_at inputs pc self accepted answered rank -> (10 <= fuel)%nat ->
  inputs_ok (inputs ++ delivered_inputs evs) ->
  (Z.of_nat (length (requests_in (inputs ++ delivered_inputs evs))) < u64_modulus)%Z ->
  exists pc' self' accepted' answered' rank', for_each evs (rt_event fuel) (pc, self) = Ok (pc', self') /\
    deployed_at (inputs ++ delivered_inputs evs) pc' self' accepted' answered' rank'.
Proof.
  revert inputs pc self accepted answered rank.
  induction evs as [|ev evs IH]; intros inputs pc self accepted answered rank Hat Hf Hok Hlen.
  { cbn in *. rewrite app_nil_r. by do 5 eexists. }
  destruct ev as [clock|input].
  - assert (Hok' := proj1 (inputs_ok_app _ _ Hok)).
    assert (Hlen' : (Z.of_nat (length (requests_in inputs)) < u64_modulus)%Z)
      by (rewrite requests_in_app, length_app in Hlen; lia).
    pose proof Hat as (_ & Hreq & before0 & Hb0).
    destruct (deployed_goes_on fuel clock _ _ _ _ _ _ Hat Hf Hok' Hlen')
      as (pc' & self' & accepted' & answered' & rank' & before & Hs & Hst & Hacc & Hb & _).
    cbn [for_each rt_event fst snd]. rewrite Hs. cbn [mbind result_bind]. eapply (IH inputs); [|done|done|done].
    split; [done|]. split; [by rewrite Hacc|]. exists (before0 ++ before). by rewrite <-app_assoc, <-Hb.
  - cbn in *. destruct (IH (inputs ++ [input]) pc (deliver input self) accepted answered rank)
      as (pc' & self' & a' & n' & k' & Hrun & Hat'); [by apply deployed_deliver|done|by rewrite <-app_assoc..|].
    rewrite <-app_assoc in Hat'. by exists pc', self', a', n', k'.
Qed.

(** ** Progress *)

(** Steps whose clocks have passed every timestamp exhaust the work. *)
Lemma deployed_drain fuel inputs clocks pc self accepted answered rank :
  deployed_at inputs pc self accepted answered rank -> (10 <= fuel)%nat -> inputs_ok inputs ->
  (Z.of_nat (length (requests_in inputs)) < u64_modulus)%Z ->
  Forall (fun clock : nat -> LogicalTimeAbsoluteMs => Forall (fun i => fst i <= clock 0%nat)%Z inputs) clocks ->
  (work self accepted answered rank <= length clocks)%nat ->
  exists pc' self' accepted' answered' rank',
    for_each (map Rt_Step clocks) (rt_event fuel) (pc, self) = Ok (pc', self') /\
    deployed_at inputs pc' self' accepted' answered' rank' /\ unanswered self' accepted' answered' = 0%nat.
Proof.
  revert pc self accepted answered rank.
  assert (Hgen : forall clocks pc self accepted answered rank,
    deployed_at inputs pc self accepted answered rank -> (10 <= fuel)%nat -> inputs_ok inputs ->
    (Z.of_nat (length (requests_in inputs)) < u64_modulus)%Z ->
    Forall (fun clock : nat -> LogicalTimeAbsoluteMs => Forall (fun i => fst i <= clock 0%nat)%Z inputs) clocks ->
    (unanswered self accepted answered = 0 \/ work self accepted answered rank <= length clocks)%nat ->
    exists pc' self' accepted' answered' rank',
      for_each (map Rt_Step clocks) (rt_event fuel) (pc, self) = Ok (pc', self') /\
      deployed_at inputs pc' self' accepted' answered' rank' /\ unanswered self' accepted' answered' = 0%nat).
  2: { intros. by apply (Hgen clocks pc self accepted answered rank); [..|right]. }
  clear clocks. intros clocks. induction clocks as [|clock clocks IH];
    intros pc self accepted answered rank Hat Hf Hok Hlen Hcl Hw.
  { exists pc, self, accepted, answered, rank. split; [done|]. split; [done|].
    destruct Hw as [|Hw]; [done|]. unfold work in Hw. cbn in Hw. lia. }
  apply Forall_cons in Hcl as [Hnow Hcl]. pose proof Hat as (Hst & Hreq & before0 & Hb0).
  destruct (deployed_goes_on fuel clock _ _ _ _ _ _ Hat Hf Hok Hlen)
    as (pc' & self' & accepted' & answered' & rank' & before & Hs & Hst' & Hacc & Hb & _ & Hmono & Hwork).
  destruct (IH pc' self' accepted' answered' rank') as (pc2 & self2 & a2 & n2 & k2 & Hrun & Hat2 & Hu); try done.
  - split; [done|]. split; [by rewrite Hacc|]. exists (before0 ++ before). by rewrite <-app_assoc, <-Hb.
  - apply stage_sent in Hst as [Hle _], Hst' as [Hle' _]. apply (f_equal length) in Hacc. rewrite !length_app in Hacc.
    destruct (decide (unanswered self accepted answered = 0%nat)) as [Hz|Hnz].
    { left. unfold unanswered in *. lia. }
    destruct Hw as [|Hw]; [done|]. right. cbn [length] in Hw. rewrite Hb0 in Hnow. apply Forall_app in Hnow as [_ Hnow].
    assert (Hpos : (0 < unanswered self accepted answered)%nat) by (clear -Hnz; lia).
    specialize (Hwork Hnow (or_introl Hpos)). lia.
  - exists pc2, self2, a2, n2, k2. split; [|done]. cbn [map for_each rt_event fst snd]. rewrite Hs. exact Hrun.
Qed.

Lemma deployed_all_sent inputs pc self accepted answered rank :
  deployed_at inputs pc self accepted answered rank -> unanswered self accepted answered = 0%nat ->
  sent self = map answer (requests_in inputs) /\ answered = length accepted /\
  requests_in (inputs_left self) = [].
Proof.
  intros (Hst & Hreq & _) Hu. apply stage_sent in Hst as (Hle & Hs & _). unfold unanswered in Hu.
  assert (Hnil : requests_in (inputs_left self) = []) by (apply nil_length_inv; lia).
  rewrite Hnil, app_nil_r in Hreq. split; [|split; [lia|done]]. by rewrite Hs, take_ge, Hreq by lia.
Qed.

(** The work left is bounded by what was delivered. *)
Lemma work_bound inputs pc self accepted answered rank :
  deployed_at inputs pc self accepted answered rank ->
  (work self accepted answered rank <= 30 * length (requests_in inputs) + 10 * length inputs + 13)%nat.
Proof.
  intros (Hst & Hreq & before & Hb). apply stage_sent in Hst as (Hle & _ & Hk). unfold work, unanswered.
  apply (f_equal length) in Hreq, Hb. rewrite length_app in Hreq, Hb. lia.
Qed.

(** ** A malformed request *)

(** A request for the program's queue that is not a pair of numbers or, in a build with
    overflow checks, whose product does not fit. *)
Definition malformed (bp : TaskBlueprint) : Prop :=
  TaskBlueprint_q_name bp = summator_queue /\
  match TaskBlueprint_value bp with
  | Value_TestInfiniteSummatorQueueMessagePub m =>
      overflow_checks = true /\
      ~ u64_ok (TestInfiniteSummatorQueueMessagePub_a m * TestInfiniteSummatorQueueMessagePub_b m)
  | _ => True
  end.

(** The panic it ends in. *)
Definition malformed_panic (bp : TaskBlueprint) : string :=
  match TaskBlueprint_value bp with
  | Value_TestInfiniteSummatorQueueMessagePub _ => "attempt to multiply with overflow"
  | Value_TestCreateQueueMessagePub _ => "internal error: entered unreachable code"
  | _ => "pub_to_private is only for PubQueueMessage values"
  end.

(** A message the calculation cannot be run on. *)
Definition stops (v : Value) (msg : string) : Prop :=
  forall fb sink fuel, summator fb (Some v) [StackEntry_State State_TestInfiniteSummatorMainCalculate] ->
    (1 <= fuel)%nat -> run fuel fb sink = Panic msg.

(** What becomes of a malformed blueprint: it cannot be taken in, or it is put on the queue
    as a message that stops the fiber. *)
Lemma malformed_value bp id : malformed bp ->
  pub_to_private (TaskBlueprint_value bp) id = Panic (malformed_panic bp) \/
  (exists v, pub_to_private (TaskBlueprint_value bp) id = Ok v /\ stops v (malformed_panic bp)).
Proof.
  intros [_ Hbad]. unfold malformed_panic.
  destruct (TaskBlueprint_value bp) as [ | | | | | | | | | |[n]| | |[a b]| |]; try (by left); right; cbn in *.
  - eexists. split; [reflexivity|]. intros fb sink fuel (Hid & req & res & err & fut & Hst & ->) Hf.
    destruct fb, fuel as [|fuel]; [lia|]. cbn in *. subst. cbn. rewrite decide_False by lia. by cbn.
  - destruct Hbad as [Hc Hab].
    eexists. split; [reflexivity|]. intros fb sink fuel (Hid & req & res & err & fut & Hst & ->) Hf.
    destruct fb, fuel as [|fuel]; [lia|]. cbn in *. subst. cbn. rewrite decide_False by lia. cbn.
    unfold u64_mul. rewrite (u64_arith_overflow _ _ Hc Hab). by cbn.
Qed.

(** The summator is parked, and the only message for it is one that stops it. *)
Definition poisoned (v : Value) (msg : string) (self : Runtime) : Prop :=
  stops v msg /\ scheduled self = [] /\ resolved_futures self = [] /\ active_fibers self = [] /\
  queue_messages self = {[summator_queue := [v]]} /\ non_empty_queues self = [summator_queue] /\
  inputs_left self = [] /\ waiting_for_request (wait_index self) /\
  exists fb, awaiting_fibers self = {[1%Z := fb]} /\ summator fb None [].

Lemma poisoned_queue fuel clock v msg self :
  poisoned v msg self -> exists self' fb, rt_step fuel clock Pc_Queue self = Ok (Pc_Scheduled, self') /\
    scheduled self' = [] /\ active_fibers self' = [fb] /\
    summator fb (Some v) [StackEntry_State State_TestInfiniteSummatorMainCalculate].
Proof.
  intros (_ & Hsc & _ & Hact & Hq & Hn & _ & (id & Hw) & fb & Haw & Hsm).
  pose proof (wake_represents _ _ (WaitKey_Queue summator_queue) Hw) as Hwake. cbn in Hwake.
  destruct Hwake as (w' & Hwake & _).
  destruct (bind_request fb v State_TestInfiniteSummatorMainCalculate Hsm) as (fb' & Hres & Hsm').
  unfold rt_step, serve_queue. rewrite Hn. cbn [wait_index set_queues]. fold summator_queue. rewrite Hwake.
  cbn [set_queues mbind result_bind awaiting_fibers WakeOutcome_fiber_id]. rewrite Haw, lookup_singleton_eq.
  cbn [set_queues set_waiting expect mbind result_bind queue_messages].
  rewrite Hq, lookup_singleton_eq. cbn [expect mbind result_bind].
  cbn [head expect mbind result_bind WakeOutcome_bind WakeOutcome_next ArmResume_bind ArmResume_next]. rewrite Hres.
  do 2 eexists. split; [reflexivity|]. split; [done|]. split; [cbn; by rewrite Hact|done].
Qed.

(** The loop takes the message off the queue and runs the fiber: the runtime is gone. *)
Lemma poisoned_stops fuel clocks v msg self :
  poisoned v msg self -> (1 <= fuel)%nat -> (7 <= length clocks)%nat ->
  for_each (map Rt_Step clocks) (rt_event fuel) (Pc_Intake, self) = Panic msg.
Proof.
  intros Hp Hf Hc. pose proof Hp as (Hstop & Hsc & Hres & Hact & _ & _ & Hin & _).
  destruct clocks as [|c1 [|c2 [|c3 [|c4 [|c5 [|c6 [|c7 clocks]]]]]]]; cbn in Hc; try lia.
  unfold inputs_left in Hin. apply app_eq_nil in Hin as [Htasks Hrecv].
  destruct (poisoned_queue fuel c5 v msg self Hp) as (self' & fb & Hq & Hsc' & Hact' & Hsm).
  pose proof (Hstop fb (start_line fb) fuel Hsm Hf) as Hrun.
  cbn [map for_each rt_event fst snd].
  assert (E1 : rt_step fuel c1 Pc_Intake self = Ok (Pc_Scheduled, self))
    by (cbn; unfold intake; by rewrite Htasks, Hrecv).
  assert (E2 : rt_step fuel c2 Pc_Scheduled self = Ok (Pc_Fibers, self))
    by (cbn; by rewrite take_scheduled_nothing).
  assert (E3 : rt_step fuel c3 Pc_Fibers self = Ok (Pc_Future, self)) by (cbn; by rewrite Hact).
  assert (E4 : rt_step fuel c4 Pc_Future self = Ok (Pc_Queue, self))
    by (cbn; unfold resolve_future; by rewrite Hres).
  rewrite E1. cbn [mbind result_bind fst snd]. rewrite E2. cbn [mbind result_bind fst snd]. rewrite E3.
  cbn [mbind result_bind fst snd]. rewrite E4. cbn [mbind result_bind fst snd]. rewrite Hq.
  cbn [mbind result_bind fst snd]. cbn [rt_step]. rewrite take_scheduled_nothing by done.
  cbn [mbind result_bind fst snd rt_step]. rewrite Hact'. unfold fiber_turn. cbn zeta. fold (start_line fb). by rewrite Hrun.
Qed.

(** Taking a malformed blueprint in. *)
Lemma intake_malformed clock self accepted t bp :
  malformed bp ->
  idle accepted (length accepted) self -> inputs_left self = [(t, [bp])] -> (t <= clock 0%nat)%Z ->
  (Z.of_nat (S (length accepted)) < u64_modulus)%Z ->
  intake (clock 0%nat) self = Panic (malformed_panic bp) \/
  (exists v self', intake (clock 0%nat) self = Ok (self', true) /\ poisoned v (malformed_panic bp) self').
Proof.
  intros Hbad (Hh & Hact & Hw & fb & Haw & Hsm) Hin Ht Hb.
  assert (Htake : exists base, intake (clock 0%nat) self = (s ← take_blueprint base bp; Ok (s, true)) /\
    holds_requests accepted (length accepted) (length accepted) base /\ inputs_left base = [] /\
    active_fibers base = active_fibers self /\ wait_index base = wait_index self /\
    awaiting_fibers base = awaiting_fibers self).
  { unfold inputs_left in Hin. unfold intake. destruct (active_tasks self) as [|i tasks] eqn:Et; cbn in Hin.
    - rewrite Hin. rewrite decide_False by lia.
      rewrite for_each_singleton. eexists. split; [reflexivity|]. by split; [by eapply holds_requests_same; [..|exact Hh]|].
    - injection Hin as -> Hin. apply app_eq_nil in Hin as [-> Hr]. rewrite decide_False by lia.
      rewrite for_each_singleton. eexists. split; [reflexivity|].
      split; [by eapply holds_requests_same; [..|exact Hh]|]. by rewrite Hr. }
  destruct Htake as (base & Hrun & Hhb & Hleft & Ea & Ew & Eaw). rewrite Hrun. unfold take_blueprint.
  rewrite (hr_queue _ _ _ _ Hhb), (proj1 Hbad), lookup_singleton_eq.
  rewrite drop_ge by (by rewrite messages_length).
  destruct (malformed_value bp (pretty (next_created_future_id base)) Hbad) as [Hpub|(v & Hpub & Hstop)];
    rewrite Hpub; cbn [mbind result_bind]; [by left|right].
  rewrite (hr_next _ _ _ _ Hhb), u64_add_ok by (unfold u64_ok; lia). cbn [mbind result_bind].
  exists v. eexists. split; [reflexivity|]. pose proof (hr_names _ _ _ _ Hhb) as Hn.
  rewrite decide_True in Hn by (apply drop_ge; by rewrite messages_length).
  split; [done|]. cbn. rewrite Ea, Ew, Eaw, (hr_scheduled _ _ _ _ Hhb), (hr_resolved _ _ _ _ Hhb), Hact, Hn.
  repeat split; try done.
  - rewrite (hr_queue _ _ _ _ Hhb). etrans; [apply insert_insert_eq|done].
  - by exists fb.
Qed.

(** ** The runs of the program *)

Lemma at_intake_or_not pc (good : list Input) : (pc = Pc_Intake /\ good = []) \/ ~ (pc = Pc_Intake /\ good = []).
Proof. destruct pc, good; naive_solver. Qed.

(** Where a run that has answered everything goes when only a malformed blueprint is left. *)
Lemma malformed_reached fuel good t bp clocks pc self accepted rank :
  malformed bp ->
  stage pc self accepted (length accepted) rank -> (10 <= fuel)%nat ->
  (forall r, r ∈ accepted -> u64_ok (Req_a r * Req_b r)) -> inputs_ok good -> requests_in good = [] ->
  inputs_left self = good ++ [(t, [bp])] -> (Z.of_nat (S (length accepted)) < u64_modulus)%Z ->
  Forall (fun clock : nat -> LogicalTimeAbsoluteMs => Forall (fun i => fst i <= clock 0%nat)%Z (inputs_left self)) clocks ->
  (work self accepted (length accepted) rank + 8 <= length clocks)%nat ->
  for_each (map Rt_Step clocks) (rt_event fuel) (pc, self) = Panic (malformed_panic bp).
Proof.
  intros Hbad. revert good pc self rank.
  induction clocks as [|clock clocks IH]; intros good pc self rank Hst Hf Hacc Hgood Hnone Hin Hb Hcl Hw;
    [cbn in Hw; lia|].
  apply Forall_cons in Hcl as [Hnow Hcl]. cbn [length] in Hw. cbn [map for_each rt_event fst snd].
  destruct (at_intake_or_not pc good) as [[-> ->]|Hstep].
  - assert (Hidle : idle accepted (length accepted) self).
    { inversion Hst as [? ? ? Hpc| | | |? ? ? ? Hpc|]; subst; try done; by destruct Hpc. }
    rewrite Hin in Hnow. apply Forall_cons in Hnow as [Hnow _].
    destruct (intake_malformed clock self accepted t bp Hbad Hidle Hin Hnow Hb)
      as [Hp|(v & self' & Hp & Hpo)]; cbn [rt_step]; rewrite Hp; cbn [mbind result_bind]; [done|].
    apply (poisoned_stops _ _ v); [done|lia|lia].
  - assert (Hhead : pc = Pc_Intake -> head_ok accepted self).
    { intros -> t' bps rest Hl. destruct good as [|i good]; [by destruct Hstep|]. rewrite Hin in Hl.
      injection Hl as -> _. apply Forall_cons in Hgood as [Hbps _]. split; [done|].
      rewrite requests_in_cons in Hnone. apply app_eq_nil in Hnone as [Hnone _]. cbn [snd] in Hnone.
      rewrite Hnone. cbn. lia. }
    destruct (deployed_step fuel clock _ _ _ _ _ Hst Hf Hacc Hhead)
      as (pc' & self' & accepted' & answered' & rank' & before & Hs & Hst' & Heq & Hleft & [Hlen _] & Hmono & Hwork).
    assert (Hgood' : exists good', good = before ++ good' /\ inputs_left self' = good' ++ [(t, [bp])]).
    { destruct before as [|i [|j before]]; cbn in Hlen.
      - exists good. by rewrite <-Hin, Hleft.
      - destruct good as [|j good]; [destruct pc; try (cbn in Hlen; lia); by destruct Hstep|].
        rewrite Hin in Hleft. injection Hleft as <- Hleft. by exists good.
      - destruct pc; lia. }
    destruct Hgood' as (good' & -> & Hin'). apply inputs_ok_app in Hgood as [_ Hgood'].
    rewrite requests_in_app in Hnone. apply app_eq_nil in Hnone as [Hnone Hnone'].
    rewrite Hleft, requests_in_app, Hnone in Heq. cbn in Heq. apply app_inv_tail in Heq as ->.
    apply stage_sent in Hst' as Hle. destruct Hle as [Hle _]. replace answered' with (length accepted) in * by lia.
    rewrite Hs. cbn [mbind result_bind]. apply (IH good' pc' self' rank'); try done.
    + eapply Forall_impl; [exact Hcl|]. intros c Hf'. rewrite Hleft in Hf'. by apply Forall_app in Hf' as [_ ?].
    + assert (Hne : inputs_left self <> []) by (rewrite Hin; by destruct before, good').
      specialize (Hwork Hnow (or_intror Hne)). lia.
Qed.
(** ** Timestamps *)

(** The clock of every step stays below [t]. *)
Definition clocks_below (t : LogicalTimeAbsoluteMs) (evs : list RtEvent) : Prop :=
  Forall (fun ev => match ev with Rt_Step clock => clock 0%nat < t | Rt_Deliver _ => True end)%Z evs.

(** Only inputs whose time has come are taken in. *)
Lemma deployed_run_waits fuel t evs : forall inputs pc self accepted answered rank taken,
  deployed_at inputs pc self accepted answered rank -> (10 <= fuel)%nat ->
  inputs_ok (inputs ++ delivered_inputs evs) ->
  (Z.of_nat (length (requests_in (inputs ++ delivered_inputs evs))) < u64_modulus)%Z ->
  clocks_below t evs -> inputs = taken ++ inputs_left self -> Forall (fun i => fst i < t)%Z taken ->
  exists pc' self' accepted' answered' rank' taken', for_each evs (rt_event fuel) (pc, self) = Ok (pc', self') /\
    deployed_at (inputs ++ delivered_inputs evs) pc' self' accepted' answered' rank' /\
    inputs ++ delivered_inputs evs = taken' ++ inputs_left self' /\ Forall (fun i => fst i < t)%Z taken'.
Proof.
  induction evs as [|ev evs IH]; intros inputs pc self accepted answered rank taken Hat Hf Hok Hlen Hcl Ht Hdue.
  { cbn in *. rewrite app_nil_r. by do 6 eexists. }
  apply Forall_cons in Hcl as [Hnow Hcl]. destruct ev as [clock|input].
  - assert (Hok' := proj1 (inputs_ok_app _ _ Hok)).
    assert (Hlen' : (Z.of_nat (length (requests_in inputs)) < u64_modulus)%Z)
      by (rewrite requests_in_app, length_app in Hlen; lia).
    pose proof Hat as (_ & Hreq & before0 & Hb0).
    destruct (deployed_goes_on fuel clock _ _ _ _ _ _ Hat Hf Hok' Hlen')
      as (pc' & self' & accepted' & answered' & rank' & before & Hs & Hst & Hacc & Hb & [_ Hd] & _).
    cbn [for_each rt_event fst snd]. rewrite Hs. cbn [mbind result_bind].
    eapply (IH inputs pc' self' _ _ _ (taken ++ before)); [|done|done|done|done|by rewrite <-app_assoc, <-Hb|].
    + split; [done|]. split; [by rewrite Hacc|]. exists (before0 ++ before). by rewrite <-app_assoc, <-Hb.
    + apply Forall_app. split; [done|]. eapply Forall_impl; [exact Hd|]. cbn. lia.
  - cbn in *. destruct (IH (inputs ++ [input]) pc (deliver input self) accepted answered rank taken)
      as (pc' & self' & a' & n' & k' & taken' & Hrun & Hat' & Ht' & Hd'); try done; [by apply deployed_deliver|by rewrite <-app_assoc..| |].
    + rewrite Ht, <-app_assoc. unfold inputs_left. cbn. by rewrite <-app_assoc.
    + rewrite <-app_assoc in Hat', Ht'. by exists pc', self', a', n', k', taken'.
Qed.

(** As long as the runtime's own clock has not reached the timestamp of an input, which is
    the creation time of the epoch on the clock of the node that proposed it, no request of
    that input or of a later one is answered. *)
Lemma answers_wait_for_clock fuel evs before t bps after :
  (10 <= fuel)%nat -> inputs_ok (delivered_inputs evs) ->
  (Z.of_nat (length (requests_in (delivered_inputs evs))) < u64_modulus)%Z ->
  delivered_inputs evs = before ++ (t, bps) :: after -> clocks_below t evs ->
  exists pc self n, run_runtime fuel "root" evs = Ok (pc, self) /\ sent self = map answer (take n (requests_in before)).
Proof.
  intros Hf Hok Hlen Hd Hcl. destruct deployed_start as (self0 & Hs & Hat).
  destruct (deployed_run_waits fuel t evs [] _ _ _ _ _ [] Hat Hf Hok Hlen Hcl) as (pc & self & acc & n & k & taken & Hrun & Hat' & Ht & Hdue).
  { by destruct Hat as (_ & _ & l & E%eq_sym%app_eq_nil); destruct E as [_ ->]. }
  { constructor. }
  exists pc, self, n. unfold run_runtime. rewrite Hs. cbn [mbind result_bind]. split; [done|].
  destruct Hat' as (Hst & Hreq & _). apply stage_sent in Hst as (Hle & -> & _). cbn [app] in Hreq, Ht.
  rewrite Ht, requests_in_app in Hreq. apply app_inv_tail in Hreq as ->. f_equal.
  assert (Hpre : taken `prefix_of` before).
  { rewrite Hd in Ht. assert (Htb : (length taken <= length before)%nat).
    { destruct (Nat.le_gt_cases (length taken) (length before)) as [|Hgt]; [done|]. exfalso.
      rewrite Forall_lookup in Hdue. assert (Hl : taken !! length before = Some (t, bps)).
      { rewrite <-(lookup_app_l taken (inputs_left self)), <-Ht by done. by apply list_lookup_middle. }
      apply Hdue in Hl. cbn in Hl. lia. }
    exists (drop (length taken) before). rewrite <-(take_drop (length taken) before) at 1. f_equal.
    rewrite <-(take_app_le before ((t, bps) :: after)), Ht by done. by rewrite take_app_length. }
  destruct Hpre as [rest ->]. rewrite requests_in_app, take_app_le by done. done.
Qed.
End runs.

(** C12: the deployed program never fails on well-formed requests, and answers them in order:
    for every sequence of runtime steps, clock readings and arrivals of well-formed inputs,
    the runtime started with the fiber ["root"] keeps running, and the answers it has sent
    are, one for one and in the order of the log, the products asked for by the first
    requests delivered. *)
Theorem deployed_answers_in_order `{Profile} `{BinaryHeap} `{Slab} fuel evs :
  (10 <= fuel)%nat -> inputs_ok (delivered_inputs evs) ->
  (Z.of_nat (length (requests_in (delivered_inputs evs))) < u64_modulus)%Z ->
  exists pc self n, run_runtime fuel "root" evs = Ok (pc, self) /\
    sent self = map answer (take n (requests_in (delivered_inputs evs))).
Proof.
  intros Hf Hok Hlen. destruct deployed_start as (self0 & Hs & Hat).
  destruct (deployed_run fuel evs [] _ _ _ _ _ Hat Hf Hok Hlen) as (pc & self & acc & n & k & Hrun & Hst & Hreq & _).
  exists pc, self, n. unfold run_runtime. rewrite Hs. cbn [mbind result_bind]. split; [done|].
  apply stage_sent in Hst as (Hle & Hsent & _). cbn [app] in Hreq. rewrite <-Hreq, take_app_le by done. done.
Qed.

Definition multiply_input (t : Z) (pairs : list (UniqueU64BlobId * Z * Z)) : Input :=
  (t, map (fun '(id, a, b) => mkTaskBlueprint id summator_queue
     (Value_TestInfiniteSummatorQueueMessagePub (mkTestInfiniteSummatorQueueMessagePub a b))) pairs).
Definition two_inputs : list RtEvent :=
  [Rt_Deliver (multiply_input 3 [(7%Z, 2%Z, 5%Z); (8%Z, 6%Z, 7%Z)]); Rt_Deliver (multiply_input 4 [(9%Z, 1%Z, 1%Z)])].

Lemma two_inputs_ok : inputs_ok (delivered_inputs two_inputs).
Proof.
  repeat constructor; intros _; do 2 eexists; (split; [reflexivity|u64_solve]).
Qed.

Lemma deployed_answers_in_order_witness :
  sent (snd (test_state "root" (two_inputs ++ test_steps 22))) = [(7%Z, Value_U64 10)] /\
  exists pc self n, test_run "root" (two_inputs ++ test_steps 22) = Ok (pc, self) /\
    sent self = map answer (take n (requests_in (delivered_inputs (two_inputs ++ test_steps 22)))).
Proof.
  split; [by vm_compute|].
  apply (@deployed_answers_in_order dev_profile list_heap gmap_slab 100); [lia|exact two_inputs_ok|by vm_compute].
Defined.

(** C7: every request is answered: after any such run, a further [30] steps per request,
    [10] per input and [13], at clock readings that have reached the timestamps of the
    inputs, leave the runtime with exactly the answers to all requests sent, in order. *)
Theorem deployed_answers_all `{Profile} `{BinaryHeap} `{Slab} fuel evs clocks :
  (10 <= fuel)%nat -> inputs_ok (delivered_inputs evs) ->
  (Z.of_nat (length (requests_in (delivered_inputs evs))) < u64_modulus)%Z ->
  Forall (fun clock : nat -> LogicalTimeAbsoluteMs =>
    Forall (fun i => fst i <= clock 0%nat)%Z (delivered_inputs evs)) clocks ->
  (30 * length (requests_in (delivered_inputs evs)) + 10 * length (delivered_inputs evs) + 13
     <= length clocks)%nat ->
  exists pc self, run_runtime fuel "root" (evs ++ map Rt_Step clocks) = Ok (pc, self) /\
    sent self = map answer (requests_in (delivered_inputs evs)).
Proof.
  intros Hf Hok Hlen Hcl Hn. destruct deployed_start as (self0 & Hs & Hat).
  destruct (deployed_run fuel evs [] _ _ _ _ _ Hat Hf Hok Hlen) as (pc & self & acc & n & k & Hrun & Hat').
  destruct (deployed_drain fuel _ clocks _ _ _ _ _ Hat' Hf Hok Hlen Hcl) as (pc2 & self2 & acc2 & n2 & k2 & Hrun2 & Hat2 & Hu).
  { apply work_bound in Hat'. cbn [app] in Hat'. lia. }
  exists pc2, self2. unfold run_runtime. rewrite Hs. cbn [mbind result_bind].
  rewrite for_each_app, Hrun. cbn [mbind result_bind]. split; [done|]. by apply deployed_all_sent in Hat2 as [? _].
Qed.

Lemma deployed_answers_all_witness :
  exists pc self, @run_runtime dev_profile list_heap gmap_slab 100 "root"
      (two_inputs ++ map Rt_Step (replicate 123 (fun _ => 5%Z))) = Ok (pc, self) /\
    sent self = [(7%Z, Value_U64 10); (8%Z, Value_U64 42); (9%Z, Value_U64 1)].
Proof.
  apply (@deployed_answers_all dev_profile list_heap gmap_slab 100 two_inputs); [lia|exact two_inputs_ok|by vm_compute| |].
  - apply Forall_replicate. apply (bool_decide_unpack _). by vm_compute.
  - apply Nat.leb_le. by vm_compute.
Defined.

(** C17: one malformed request stops the runtime for good. Let the deployed runtime have
    been given time to answer everything delivered so far (as in the claim on answering
    all), and let it then be delivered an input with one blueprint for the program's queue
    that is [malformed]: a value that is not public, the public message of another queue,
    or, in a build with overflow checks, a pair of numbers whose product does not fit. Then
    it panics, with the message that goes with the kind of the blueprint, within the next
    10 steps for each input delivered before and 61 more, at clock readings that have
    reached the timestamps of the inputs. The first two kinds do so in every build; in a
    build without overflow checks the third kind is not claimed to stop it. *)
Theorem malformed_request_stops_runtime `{Profile} `{BinaryHeap} `{Slab} fuel evs before t bp after :
  (10 <= fuel)%nat -> inputs_ok (delivered_inputs evs) ->
  (Z.of_nat (S (length (requests_in (delivered_inputs evs)))) < u64_modulus)%Z ->
  malformed bp ->
  Forall (fun clock : nat -> LogicalTimeAbsoluteMs =>
    Forall (fun i => fst i <= clock 0%nat)%Z (delivered_inputs evs)) before ->
  (30 * length (requests_in (delivered_inputs evs)) + 10 * length (delivered_inputs evs) + 13
     <= length before)%nat ->
  Forall (fun clock : nat -> LogicalTimeAbsoluteMs =>
    Forall (fun i => fst i <= clock 0%nat)%Z (delivered_inputs evs ++ [(t, [bp])])) after ->
  (10 * length (delivered_inputs evs) + 61 <= length after)%nat ->
  run_runtime fuel "root"
    (evs ++ map Rt_Step before ++ [Rt_Deliver (t, [bp])] ++ map Rt_Step after) = Panic (malformed_panic bp).
Proof.
  intros Hf Hok Hlen Hbad Hcl Hn Hcl' Hn'. destruct deployed_start as (self0 & Hs & Hat).
  destruct (deployed_run fuel evs [] _ _ _ _ _ Hat Hf Hok ltac:(cbn [app]; lia)) as (pc & self & acc & n & k & Hrun & Hat').
  cbn [app] in Hat'.
  destruct (deployed_drain fuel _ before _ _ _ _ _ Hat' Hf Hok ltac:(lia) Hcl)
    as (pc2 & self2 & acc2 & n2 & k2 & Hrun2 & Hat2 & Hu); [apply work_bound in Hat'; lia|].
  pose proof (deployed_all_sent _ _ _ _ _ _ Hat2 Hu) as (_ & -> & Hnil).
  pose proof Hat2 as (Hst2 & Hreq & earlier & Hin). rewrite Hnil, app_nil_r in Hreq.
  assert (Hl : inputs_left (deliver (t, [bp]) self2) = inputs_left self2 ++ [(t, [bp])])
    by (unfold inputs_left; cbn; by rewrite app_assoc).
  unfold run_runtime. rewrite Hs. cbn [mbind result_bind].
  rewrite (for_each_then _ _ _ _ _ Hrun), (for_each_then _ _ _ _ _ Hrun2).
  apply (malformed_reached fuel (inputs_left self2) t bp after pc2 (deliver (t, [bp]) self2) acc2 k2); try done.
  - by apply stage_deliver.
  - intros r Hr. apply (requests_ok (delivered_inputs evs)); [done|by rewrite <-Hreq].
  - rewrite Hin in Hok. by apply inputs_ok_app in Hok as [_ ?].
  - by rewrite Hreq.
  - rewrite Hl. eapply Forall_impl; [exact Hcl'|]. intros clock Hf'. rewrite Hin, <-app_assoc in Hf'.
    by apply Forall_app in Hf' as [_ ?].
  - apply stage_sent in Hst2 as (_ & _ & Hk). unfold work, unanswered.
    rewrite Hl, requests_in_app, Hnil, !length_app. apply (f_equal length) in Hin. rewrite length_app in Hin.
    cbn [app length]. assert ((length (requests_in [(t, [bp])]) <= 1)%nat).
    { cbn. destruct (request_of bp); cbn; lia. }
    lia.
Qed.

(** A request of the kind of another queue. *)
Definition foreign_blueprint : TaskBlueprint :=
  mkTaskBlueprint 12 summator_queue (Value_TestCreateQueueMessagePub (mkTestCreateQueueMessagePub 1)).

Lemma malformed_request_stops_runtime_witness :
  @run_runtime release_profile list_heap gmap_slab 100 "root"
    (two_inputs ++ map Rt_Step (replicate 123 (fun _ => 5%Z)) ++ [Rt_Deliver (5%Z, [foreign_blueprint])] ++
     map Rt_Step (replicate 81 (fun _ => 6%Z))) = Panic "internal error: entered unreachable code".
Proof.
  apply (@malformed_request_stops_runtime release_profile list_heap gmap_slab); try reflexivity.
  - lia.
  - exact two_inputs_ok.
  - by split.
  - apply Forall_replicate. apply (bool_decide_unpack _). by vm_compute.
  - apply Forall_replicate. apply (bool_decide_unpack _). by vm_compute.
Defined.
