(* ===== verification/Fsm.v ===== *)
(** * The state machine demo: tasks on a timeline

    Models [state/src/maroon.rs] and the handlers of [state/src/main.rs]. A task is a stack
    of states, return markers and values, with a heap; the executor takes the task that is
    due first, runs one step of it and schedules it again. The writer of a task is an
    element of a type [W]; what was written to whom, and at which logical time, is the
    [written] component of the state; a writer has room for it (see [FsmHttp]). The lock is
    held during one iteration of the executor's loop and during one call of a handler, so
    that a run is a sequence of these. A [Vec] is a list whose end is the top of the stack. *)
From S2P Require Import Prelude.
From stdpp Require Import pretty.
Local Open Scope string_scope.
Local Open Scope list_scope.

(** ** Time and identifiers *)
Definition LogicalTimeAbsoluteMs : Type := Z.
Definition LogicalTimeDeltaMs : Type := Z.
Definition MaroonTaskId : Type := Z.

Definition NextTaskIdGenerator_new : Z := 1.

Definition next_task_id `{Profile} (next : Z) : result (MaroonTaskId * Z) :=
  next' ← u64_add next 1;
  Ok (next, next').

(** ** Tasks *)
Record User := mkUser { User_id : string; User_email : string; User_age : Z }.

Inductive MaroonTaskState : Type :=
| Completed
| DelayedMessageTaskBegin
| DelayedMessageTaskExecute
| DivisorsTaskBegin
| DivisorsTaskIteration
| DivisorsPrintAndMoveOn
| FibonacciTaskBegin
| FibonacciTaskCalculate
| FibonacciTaskResult
| FibonacciTaskStep
| FactorialEntry
| FactorialRecursiveCall
| FactorialRecursionPostWrite
| FactorialRecursionPostSleep
| FactorialRecursionPostRecursiveCall
| FactorialDone
| SenderSendMessage
| WaiterWaitMessageAwaiting
| Idle
| UsersStorageGetUserRequest
| RequesterGetUserRequest
| RequesterGetUserGot.

Inductive MaroonTaskStackEntryValue : Type :=
| DelayInputMs (ms : Z)
| DelayInputMessage (msg : string)
| FactorialInput (n : Z)
| FactorialArgument (n : Z)
| FactorialReturnValue (r : Z)
| SenderInputMessage (msg : string)
| AwaiterInputMessage (msg : string)
| UserStorageGetUserRequestUserId (id : string)
| UserStorageGetUserRequestRetTask (task : MaroonTaskId)
| RequesterGetUserInput (id : string)
| RequesterGotUserResponse (user : option User).

Definition maroon_task_state_local_vars_count (e : MaroonTaskState) : nat :=
  match e with
  | FactorialEntry | FactorialRecursiveCall | FactorialRecursionPostWrite | FactorialRecursionPostSleep => 1
  | FactorialRecursionPostRecursiveCall | FactorialDone => 2
  | DelayedMessageTaskBegin | DelayedMessageTaskExecute => 2
  | SenderSendMessage | WaiterWaitMessageAwaiting => 1
  | Idle => 0
  | RequesterGetUserRequest | RequesterGetUserGot => 1
  | _ => 0
  end.

Definition maroon_task_state_return_local_vars_count (e : MaroonTaskState) : nat :=
  match e with
  | FactorialDone | FactorialRecursionPostRecursiveCall => 1
  | _ => 0
  end.

Inductive MaroonTaskStackEntry : Type :=
| State (s : MaroonTaskState)
| Retrn (s : MaroonTaskState)
| Val (v : MaroonTaskStackEntryValue).

Definition MaroonTaskStack : Type := list MaroonTaskStackEntry.

Record MaroonTaskHeapDivisors := mkDivisors { dn : Z; di : Z }.
Record MaroonTaskHeapFibonacci := mkFibonacci {
  fn : Z; findex : Z; fa : Z; fb : Z; fdelay_ms : LogicalTimeDeltaMs
}.

Inductive MaroonTaskHeap : Type :=
| Empty
| Divisors (data : MaroonTaskHeapDivisors)
| Fibonacci (data : MaroonTaskHeapFibonacci)
| UsersStorage (store : gmap string User).

Inductive MaroonStepResult : Type :=
| Done
| Next (new_states : list MaroonTaskStackEntry)
| Sleep (ms : LogicalTimeDeltaMs) (s : MaroonTaskState)
| Write (text : string) (s : MaroonTaskState)
| Return (retval : MaroonTaskStackEntryValue)
| Send (message : string) (s : MaroonTaskState)
| SendGetUserRequestIM (u_id : string)
| UserStorageSendResponse (u_id : string) (awaiter : MaroonTaskId).

Inductive MaroonInputMessageTask : Type := GetUser (u_id : string) (awaiter : MaroonTaskId).

(** ** One step of a task *)
Section step.
Context `{Profile}.

(** The [while] loop that looks for the next divisor. *)
Fixpoint next_divisor (fuel : nat) (n i : Z) : result Z :=
  match fuel with
  | O => OutOfFuel
  | S fuel' => if decide (0 < i /\ n mod i <> 0)%Z then next_divisor fuel' n (i - 1) else Ok i
  end.

Definition divisors_step (state : MaroonTaskState) (data : MaroonTaskHeapDivisors)
  : result (MaroonStepResult * MaroonTaskHeap) :=
  match state with
  | DivisorsTaskBegin => Ok (Next [State DivisorsTaskIteration], Divisors (mkDivisors (dn data) (dn data)))
  | DivisorsTaskIteration =>
      i ← next_divisor (S (Z.to_nat (di data))) (dn data) (di data);
      if decide (i = 0)%Z then Ok (Write (pretty (dn data) +:+ "!") Completed, Divisors data)
      else
        delay ← u64_mul i 10;
        Ok (Sleep delay DivisorsPrintAndMoveOn, Divisors (mkDivisors (dn data) i))
  | _ => (* DivisorsPrintAndMoveOn *)
      let result := Write (pretty (dn data) +:+ "%" +:+ pretty (di data) +:+ "==0") DivisorsTaskIteration in
      i ← u64_sub (di data) 1;
      Ok (result, Divisors (mkDivisors (dn data) i))
  end.

Definition fibonacci_step (state : MaroonTaskState) (data : MaroonTaskHeapFibonacci)
  : result (MaroonStepResult * MaroonTaskHeap) :=
  match state with
  | FibonacciTaskBegin =>
      if decide (fn data <= 1)%Z then
        Ok (Write ("fib" +:+ pretty (fn data) +:+ "=" +:+ pretty (fn data)) Completed, Fibonacci data)
      else
        Ok (Next [State FibonacciTaskCalculate], Fibonacci (mkFibonacci (fn data) 1 0 1 (fdelay_ms data)))
  | FibonacciTaskCalculate =>
      if decide (fn data <= findex data)%Z then Ok (Next [State FibonacciTaskResult], Fibonacci data)
      else
        delay ← u64_mul 5 (findex data);
        Ok (Write ("fib" +:+ pretty (findex data) +:+ "[" +:+ pretty (fn data) +:+ "]=" +:+ pretty (fb data))
              FibonacciTaskStep,
            Fibonacci (mkFibonacci (fn data) (findex data) (fa data) (fb data) delay))
  | FibonacciTaskStep =>
      next_index ← u64_add (findex data) 1;
      let next_a := fb data in
      next_b ← u64_add (fa data) (fb data);
      Ok (Sleep (fdelay_ms data) FibonacciTaskCalculate,
          Fibonacci (mkFibonacci (fn data) next_index next_a next_b (fdelay_ms data)))
  | _ => (* FibonacciTaskResult *)
      Ok (Write ("fib" +:+ pretty (fn data) +:+ "=" +:+ pretty (fb data)) Completed, Fibonacci data)
  end.

(** The states of the factorial; [vars] holds the values above the state, the top first. *)
Definition factorial_step (state : MaroonTaskState) (vars : list MaroonTaskStackEntryValue)
  : result MaroonStepResult :=
  match state, vars with
  | FactorialEntry, FactorialInput n :: _ =>
      Ok (Next [Val (FactorialInput n); Retrn FactorialDone; Val (FactorialArgument n); State FactorialRecursiveCall])
  | FactorialRecursiveCall, FactorialArgument n :: _ =>
      Ok (Write ("f(" +:+ pretty n +:+ ")") FactorialRecursionPostWrite)
  | FactorialRecursionPostWrite, FactorialArgument n :: _ =>
      delay ← u64_mul n 50;
      Ok (Sleep delay FactorialRecursionPostSleep)
  | FactorialRecursionPostSleep, FactorialArgument n :: _ =>
      if decide (1 < n)%Z then
        Ok (Next [Val (FactorialArgument n); Retrn FactorialRecursionPostRecursiveCall;
                  Val (FactorialArgument (n - 1)); State FactorialRecursiveCall])
      else Ok (Return (FactorialReturnValue 1))
  | FactorialRecursionPostRecursiveCall, FactorialReturnValue a :: FactorialArgument n :: _ =>
      r ← u64_mul a n;
      Ok (Return (FactorialReturnValue r))
  | FactorialDone, FactorialReturnValue r :: FactorialInput n :: _ =>
      Ok (Write (pretty n +:+ "!=" +:+ pretty r) Completed)
  | _, _ => Panic "Unexpected arguments"
  end.

(** The states of the tasks that exchange messages. *)
Definition message_step (state : MaroonTaskState) (vars : list MaroonTaskStackEntryValue)
  : result MaroonStepResult :=
  match state, vars with
  | RequesterGetUserRequest, RequesterGetUserInput u_id :: _ => Ok (SendGetUserRequestIM u_id)
  | RequesterGetUserGot, RequesterGotUserResponse (Some u) :: _ =>
      Ok (Write ("got user: " +:+ User_id u +:+ ":" +:+ pretty (User_age u) +:+ ":" +:+ User_email u) Completed)
  | RequesterGetUserGot, RequesterGotUserResponse None :: _ => Ok (Write "Not found user" Completed)
  | UsersStorageGetUserRequest, UserStorageGetUserRequestUserId u_id :: UserStorageGetUserRequestRetTask await_task_id :: _ =>
      Ok (UserStorageSendResponse u_id await_task_id)
  | SenderSendMessage, SenderInputMessage msg :: _ => Ok (Send ("[" +:+ msg +:+ "] went through state") Completed)
  | WaiterWaitMessageAwaiting, AwaiterInputMessage msg :: _ => Ok (Write ("got: " +:+ msg) Completed)
  | DelayedMessageTaskBegin, _ :: DelayInputMs delay_ms :: _ => Ok (Sleep delay_ms DelayedMessageTaskExecute)
  | DelayedMessageTaskExecute, DelayInputMessage msg :: DelayInputMs delay_ms :: _ =>
      Ok (Write (msg +:+ " after " +:+ pretty delay_ms +:+ "ms") Completed)
  | _, _ => Panic "Unexpected arguments"
  end.

Definition global_step (state : MaroonTaskState) (vars : list MaroonTaskStackEntryValue) (heap : MaroonTaskHeap)
  : result (MaroonStepResult * MaroonTaskHeap) :=
  match state with
  | Idle => Panic "shoudnt be here"
  | Completed => Ok (Done, heap)
  | DivisorsTaskBegin | DivisorsTaskIteration | DivisorsPrintAndMoveOn =>
      match heap with
      | Divisors data => divisors_step state data
      | _ => Panic "Heap type mismatch"
      end
  | FibonacciTaskBegin | FibonacciTaskCalculate | FibonacciTaskStep | FibonacciTaskResult =>
      match heap with
      | Fibonacci data => fibonacci_step state data
      | _ => Panic "Heap type mismatch"
      end
  | FactorialEntry | FactorialRecursiveCall | FactorialRecursionPostWrite | FactorialRecursionPostSleep
  | FactorialRecursionPostRecursiveCall | FactorialDone =>
      r ← factorial_step state vars; Ok (r, heap)
  | _ => r ← message_step state vars; Ok (r, heap)
  end.
End step.

(** ** The runtime *)
Record TimestampedMaroonTask := mkTimestamped {
  scheduled_timestamp : LogicalTimeAbsoluteMs;
  timestamped_task_id : MaroonTaskId
}.

(** The build with [cfg(test)] validates every stack the executor touches. *)
Class TestCfg := { cfg_test : bool }.

Definition plain_build : TestCfg := {| cfg_test := false |}.
Definition unit_test_build : TestCfg := {| cfg_test := true |}.

(** The [while i > 0] loop: [below] is what is beneath the entry [e], the nearest first. *)
Fixpoint validate_below (fuel : nat) (e : MaroonTaskStackEntry) (below : list MaroonTaskStackEntry) : result unit :=
  match fuel with
  | O => OutOfFuel
  | S fuel' =>
      match below with
      | [] => Ok tt
      | _ :: _ =>
          n ← match e with
              | State s => Ok (maroon_task_state_local_vars_count s)
              | Retrn s => Ok (maroon_task_state_return_local_vars_count s)
              | Val _ => Panic "the `stk[0]` should be a state"
              end;
          if decide (length below < n)%nat then Panic "expecting more arguments"
          else if forallb (fun x => match x with Val _ => true | _ => false end) (take n below) then
            match drop n below with
            | [] => Ok tt
            | e' :: below' => validate_below fuel' e' below'
            end
          else Panic "expecting value, for non-value"
      end
  end.

Definition debug_validate_maroon_stack `{TestCfg} (stk : MaroonTaskStack) : result unit :=
  if cfg_test then
    match reverse stk with
    | [] => Panic "the `stk` should not be empty"
    | e :: below => validate_below (S (length below)) e below
    end
  else Ok tt.

Section runtime.
Context `{Profile} `{BinaryHeap} `{TestCfg} {W : Type}.

Record MaroonTask := mkTask {
  description : string;
  writer : W;
  maroon_stack : MaroonTaskStack;
  maroon_heap : MaroonTaskHeap;
  in_queue : list MaroonInputMessageTask
}.

Record MaroonRuntime := mkRuntime {
  task_id_generator : Z;
  active_tasks : gmap MaroonTaskId MaroonTask;
  pending_operations : list TimestampedMaroonTask;
  awaiter : option MaroonTaskId;
  daemon_user_storage : option MaroonTaskId;
  written : list (W * LogicalTimeAbsoluteMs * string)   (* what the writers were given *)
}.

Definition runtime_default : MaroonRuntime := mkRuntime NextTaskIdGenerator_new ∅ [] None None [].

Definition set_stack (stk : MaroonTaskStack) (task : MaroonTask) : MaroonTask :=
  mkTask (description task) (writer task) stk (maroon_heap task) (in_queue task).
Definition set_heap (h : MaroonTaskHeap) (task : MaroonTask) : MaroonTask :=
  mkTask (description task) (writer task) (maroon_stack task) h (in_queue task).
Definition set_in_queue (q : list MaroonInputMessageTask) (task : MaroonTask) : MaroonTask :=
  mkTask (description task) (writer task) (maroon_stack task) (maroon_heap task) q.
Definition push (es : list MaroonTaskStackEntry) (task : MaroonTask) : MaroonTask :=
  set_stack (maroon_stack task ++ es) task.

Definition set_active (m : gmap MaroonTaskId MaroonTask) (fsm : MaroonRuntime) : MaroonRuntime :=
  mkRuntime (task_id_generator fsm) m (pending_operations fsm) (awaiter fsm) (daemon_user_storage fsm) (written fsm).
Definition set_pending (l : list TimestampedMaroonTask) (fsm : MaroonRuntime) : MaroonRuntime :=
  mkRuntime (task_id_generator fsm) (active_tasks fsm) l (awaiter fsm) (daemon_user_storage fsm) (written fsm).
Definition set_awaiter (a : option MaroonTaskId) (fsm : MaroonRuntime) : MaroonRuntime :=
  mkRuntime (task_id_generator fsm) (active_tasks fsm) (pending_operations fsm) a (daemon_user_storage fsm) (written fsm).

Definition activate (id : MaroonTaskId) (task : MaroonTask) (fsm : MaroonRuntime) : MaroonRuntime :=
  set_active (<[id := task]> (active_tasks fsm)) fsm.
Definition pend (ts : LogicalTimeAbsoluteMs) (id : MaroonTaskId) (fsm : MaroonRuntime) : MaroonRuntime :=
  set_pending (mkTimestamped ts id :: pending_operations fsm) fsm.
Definition write_text (w : W) (ts : LogicalTimeAbsoluteMs) (text : string) (fsm : MaroonRuntime) : MaroonRuntime :=
  mkRuntime (task_id_generator fsm) (active_tasks fsm) (pending_operations fsm) (awaiter fsm)
    (daemon_user_storage fsm) (written fsm ++ [(w, ts, text)]).

(** *** The methods of [AppState] *)
Definition schedule (w : W) (stk : MaroonTaskStack) (h : MaroonTaskHeap) (ts : LogicalTimeAbsoluteMs)
  (task_description : string) (fsm : MaroonRuntime) : result MaroonRuntime :=
  '(task_id, next) ← next_task_id (task_id_generator fsm);
  Ok (mkRuntime next (<[task_id := mkTask task_description w stk h []]> (active_tasks fsm))
        (mkTimestamped ts task_id :: pending_operations fsm) (awaiter fsm) (daemon_user_storage fsm) (written fsm)).

Definition park_awaiter (w : W) (stk : MaroonTaskStack) (h : MaroonTaskHeap) (task_description : string)
  (fsm : MaroonRuntime) : result MaroonRuntime :=
  match awaiter fsm with
  | Some _ => Panic "only one awaiter at once"
  | None =>
      '(task_id, next) ← next_task_id (task_id_generator fsm);
      Ok (mkRuntime next (<[task_id := mkTask task_description w stk h []]> (active_tasks fsm))
            (pending_operations fsm) (Some task_id) (daemon_user_storage fsm) (written fsm))
  end.

Definition create_user_storage (w : W) (fsm : MaroonRuntime) : result MaroonRuntime :=
  match daemon_user_storage fsm with
  | Some _ => Panic "already created"
  | None =>
      '(task_id, next) ← next_task_id (task_id_generator fsm);
      let store := {["id1" := mkUser "id1" "aha@uhu.com" 42]} in
      Ok (mkRuntime next
            (<[task_id := mkTask "Users storage" w [State Idle] (UsersStorage store) []]> (active_tasks fsm))
            (pending_operations fsm) (awaiter fsm) (Some task_id) (written fsm))
  end.

(** *** The executor *)

(** The values above the state, the top first, and the stack beneath them. *)
Fixpoint pop_vars (n : nat) (stk : MaroonTaskStack) : result (list MaroonTaskStackEntryValue * MaroonTaskStack) :=
  match n with
  | O => Ok ([], stk)
  | S n' =>
      match vec_pop stk with
      | Some (Val v, stk) => '(vars, stk) ← pop_vars n' stk; Ok (v :: vars, stk)
      | _ => Panic "The value on the stack appears to be a 'function', not a `value`, aborting."
      end
  end.

Definition push_back_vars (vars : list MaroonTaskStackEntryValue) (task : MaroonTask) : MaroonTask :=
  push (map Val (reverse vars)) task.

(** The body of [match step_result]. [task] has the values of [vars] removed. *)
Definition apply_step_result (ts : LogicalTimeAbsoluteMs) (task_id : MaroonTaskId) (task : MaroonTask)
  (vars : list MaroonTaskStackEntryValue) (step_result : MaroonStepResult) (fsm : MaroonRuntime)
  : result MaroonRuntime :=
  match step_result with
  | Done => Ok fsm
  | Sleep sleep_ms new_state =>
      let task := push [State new_state] (push_back_vars vars task) in
      _ ← debug_validate_maroon_stack (maroon_stack task);
      ts ← u64_add ts sleep_ms;
      Ok (pend ts task_id (activate task_id task fsm))
  | Write text new_state =>
      let fsm := write_text (writer task) ts text fsm in
      let task := push [State new_state] (push_back_vars vars task) in
      _ ← debug_validate_maroon_stack (maroon_stack task);
      Ok (pend ts task_id (activate task_id task fsm))
  | Send message new_state =>
      match awaiter fsm with
      | Some a =>
          let fsm := set_awaiter None fsm in
          match active_tasks fsm !! a with
          | None => Ok (write_text (writer task) ts "internal error. Awaiter is not running" fsm)
          | Some awaiting_task =>
              let fsm := set_active (delete a (active_tasks fsm)) fsm in
              let fsm := write_text (writer task) ts "message has been sent" fsm in
              let task := push [State new_state] task in
              _ ← debug_validate_maroon_stack (maroon_stack task);
              let fsm := pend ts task_id (activate task_id task fsm) in
              let awaiting_task := push [Val (AwaiterInputMessage message); State WaiterWaitMessageAwaiting] awaiting_task in
              Ok (pend ts a (activate a awaiting_task fsm))
          end
      | None => Ok (write_text (writer task) ts "no awaiter. closing" fsm)
      end
  | Next new_states_vec =>
      let task := push new_states_vec task in
      _ ← debug_validate_maroon_stack (maroon_stack task);
      Ok (pend ts task_id (activate task_id task fsm))
  | Return retval =>
      '(popped, stk) ← expect "Nowhere to `Return` to!" (vec_pop (maroon_stack task));
      match popped with
      | Retrn next_state =>
          Ok (pend ts task_id (activate task_id (set_stack (stk ++ [Val retval; State next_state]) task) fsm))
      | _ => Panic "Should be `Return`-ing to a state"
      end
  | SendGetUserRequestIM u_id =>
      u_storage_id ← expect "should be here, since it's 'static'" (daemon_user_storage fsm);
      u_storage_task ← expect "should be here, since it's 'static'" (active_tasks fsm !! u_storage_id);
      let u_storage_task := set_in_queue (in_queue u_storage_task ++ [GetUser u_id task_id]) u_storage_task in
      Ok (activate task_id task (pend ts u_storage_id (activate u_storage_id u_storage_task fsm)))
  | UserStorageSendResponse u_id awaiter_id =>
      awaiter ← expect "state is corrupted, drink a tea" (active_tasks fsm !! awaiter_id);
      let fsm := set_active (delete awaiter_id (active_tasks fsm)) fsm in
      user ← match maroon_heap task with
             | UsersStorage store => Ok (store !! u_id)
             | _ => Panic "non-userstorage fiber should never end up in this state"
             end;
      let awaiter := push [Val (RequesterGotUserResponse user); State RequesterGetUserGot] awaiter in
      let task := push [State Idle] task in
      let fsm := pend ts awaiter_id (activate awaiter_id awaiter fsm) in
      Ok (pend ts task_id (activate task_id task fsm))
  end.

(** The step of a task taken off the heap, from the [if let Idle] on. *)
Definition step_task (ts : LogicalTimeAbsoluteMs) (task_id : MaroonTaskId) (task : MaroonTask)
  (state : MaroonTaskState) (vars : list MaroonTaskStackEntryValue) (fsm : MaroonRuntime) : result MaroonRuntime :=
  '(step_result, h) ← global_step state vars (maroon_heap task);
  apply_step_result ts task_id (set_heap h task) vars step_result fsm.

Definition run_task (ts : LogicalTimeAbsoluteMs) (task_id : MaroonTaskId) (task : MaroonTask)
  (fsm : MaroonRuntime) : result MaroonRuntime :=
  _ ← debug_validate_maroon_stack (maroon_stack task);
  '(e, stk) ← expect "The active task should have at least one state in call stack." (vec_pop (maroon_stack task));
  match e with
  | State current_state =>
      '(vars, stk) ← pop_vars (maroon_task_state_local_vars_count current_state) stk;
      let task := set_stack stk task in
      match current_state with
      | Idle =>
          match in_queue task with
          | [] =>
              match maroon_stack task with
              | [] => Ok (activate task_id (push [State Idle] task) fsm)
              | _ => Panic "assertion failed: maroon_task.maroon_stack.maroon_stack_entries.len() == 0"
              end
          | GetUser u_id awaiter_task_id :: q =>
              step_task ts task_id (set_in_queue q task) UsersStorageGetUserRequest
                (vars ++ [UserStorageGetUserRequestUserId u_id; UserStorageGetUserRequestRetTask awaiter_task_id]) fsm
          end
      | _ => step_task ts task_id task current_state vars fsm
      end
  | _ => Panic "Expected a state at the top of the stack, found a value."
  end.

(** One iteration of the loop of [execute_pending_operations_inner]; [None] is [break]. *)
Definition execute_one (cutoff : LogicalTimeAbsoluteMs) (fsm : MaroonRuntime) : result (option MaroonRuntime) :=
  match heap_pop scheduled_timestamp (pending_operations fsm) with
  | Some (t, rest) =>
      if decide (scheduled_timestamp t <= cutoff)%Z then
        let fsm := set_pending rest fsm in
        task ← expect "The task just retrieved from `fsm.pending_operations` should exist."
                 (active_tasks fsm !! timestamped_task_id t);
        let fsm := set_active (delete (timestamped_task_id t) (active_tasks fsm)) fsm in
        fsm ← run_task (scheduled_timestamp t) (timestamped_task_id t) task fsm;
        Ok (Some fsm)
      else Ok None
  | None => Ok None
  end.

(** The loop, with the timer's reading in each iteration; [true] when it has reached [break]. *)
Fixpoint execute_pending_operations_inner (fuel : nat) (clock : nat -> LogicalTimeAbsoluteMs) (fsm : MaroonRuntime)
  : result MaroonRuntime :=
  match fuel with
  | O => OutOfFuel
  | S fuel' =>
      r ← execute_one (clock 0%nat) fsm;
      match r with
      | None => Ok fsm
      | Some fsm => execute_pending_operations_inner fuel' (fun k => clock (S k)) fsm
      end
  end.

(** ** The handlers of the server *)
Inductive Request : Type :=
| Req_delay (t : Z) (s : string)
| Req_send (s : string)
| Req_receive
| Req_divisors (n : Z)
| Req_fibonacci (n : Z)
| Req_factorial (n : Z)
| Req_get_user (id : string).

Definition delay_handler_ws (socket : W) (ts : LogicalTimeAbsoluteMs) (t : Z) (s : string) :=
  schedule socket [Val (DelayInputMs t); Val (DelayInputMessage s); State DelayedMessageTaskBegin] Empty ts
    ("Delayed by " +:+ pretty t +:+ "ms: `" +:+ s +:+ "`.").
Definition send_handler_ws (socket : W) (ts : LogicalTimeAbsoluteMs) (s : string) :=
  schedule socket [Val (SenderInputMessage s); State SenderSendMessage] Empty ts ("Sent: `" +:+ s +:+ "`.").
Definition receive_handler_ws (socket : W) := park_awaiter socket [] Empty "Receive sending message.".
Definition divisors_handler_ws (socket : W) (ts : LogicalTimeAbsoluteMs) (n : Z) :=
  schedule socket [State DivisorsTaskBegin] (Divisors (mkDivisors n n)) ts ("Divisors of " +:+ pretty n).
Definition fibonacci_handler_ws (socket : W) (ts : LogicalTimeAbsoluteMs) (n : Z) :=
  schedule socket [State FibonacciTaskBegin] (Fibonacci (mkFibonacci n 0 0 0 0%Z)) ts ("Fibonacci number " +:+ pretty n).
Definition factorial_handler_ws (socket : W) (ts : LogicalTimeAbsoluteMs) (n : Z) :=
  schedule socket [Val (FactorialInput n); State FactorialEntry] Empty ts ("Factorial of " +:+ pretty n).
Definition get_user_handler_ws (socket : W) (ts : LogicalTimeAbsoluteMs) (id : string) :=
  schedule socket [Val (RequesterGetUserInput id); State RequesterGetUserRequest] Empty ts ("Get user " +:+ id).

Definition handle (socket : W) (ts : LogicalTimeAbsoluteMs) (r : Request) : MaroonRuntime -> result MaroonRuntime :=
  match r with
  | Req_delay t s => delay_handler_ws socket ts t s
  | Req_send s => send_handler_ws socket ts s
  | Req_receive => receive_handler_ws socket
  | Req_divisors n => divisors_handler_ws socket ts n
  | Req_fibonacci n => fibonacci_handler_ws socket ts n
  | Req_factorial n => factorial_handler_ws socket ts n
  | Req_get_user id => get_user_handler_ws socket ts id
  end.

(** ** Runs of the server *)

(** What can happen under the lock: a request, or an iteration of the executor. *)
Inductive Event : Type :=
| Ev_request (socket : W) (ts : LogicalTimeAbsoluteMs) (r : Request)
| Ev_execute (now : LogicalTimeAbsoluteMs).

(** A handler that panics ends its own task only, before it has changed anything; the
    executor is part of [main], so that its panic ends the server. *)
Definition on_event (fsm : MaroonRuntime) (ev : Event) : result MaroonRuntime :=
  match ev with
  | Ev_request socket ts r => match handle socket ts r fsm with Ok fsm => Ok fsm | _ => Ok fsm end
  | Ev_execute now => r ← execute_one now fsm; Ok (default fsm r)
  end.

(** [main]: the storage is created first. *)
Definition run_server (printer : W) (evs : list Event) : result MaroonRuntime :=
  fsm ← create_user_storage printer runtime_default;
  for_each evs on_event fsm.
End runtime.
