(* ===== verification/FsmSpec.v ===== *)
(** * The state machine demo: what its tasks do

    The tasks the handlers of [Fsm] create go through the phases below. This file states
    what each request is answered with, as a list of timed lines in closed form, and the
    step of each phase; [FsmInv] lifts it to every interleaving. Times and numbers are
    modulo [2 ^ 64]: the executor either computes them exactly or, without overflow checks,
    wraps around. *)
From S2P Require Import Prelude Fsm.
From stdpp Require Import pretty.
Local Open Scope string_scope.
Local Open Scope list_scope.
Local Open Scope Z_scope.

(** ** Expected answers *)
Definition wrap (x : Z) : Z := x mod u64_modulus.
Definition tick (ts d : Z) : Z := wrap (ts + d).

Definition Line : Type := LogicalTimeAbsoluteMs * string.

(** The divisors of [n] up to [k], downwards, each after a delay of ten times itself. *)
Fixpoint divisors_lines (k : nat) (n ts : Z) : list Line :=
  match k with
  | O => [(ts, pretty n +:+ "!")]
  | S k' =>
      let d := Z.of_nat k in
      if decide (n mod d = 0) then
        let ts := tick ts (wrap (d * 10)) in
        (ts, pretty n +:+ "%" +:+ pretty d +:+ "==0") :: divisors_lines k' n ts
      else divisors_lines k' n ts
  end.

Fixpoint fib2 (n : nat) : Z * Z :=
  match n with
  | O => (0, 1)
  | S n' => let '(a, b) := fib2 n' in (b, a + b)
  end.
Definition fib (n : nat) : Z := fst (fib2 n).

(** The numbers from index [n - k] to [n], each after five times the index before it. *)
Fixpoint fibonacci_lines (k : nat) (n ts : Z) : list Line :=
  match k with
  | O => [(ts, "fib" +:+ pretty n +:+ "=" +:+ pretty (wrap (fib (Z.to_nat n))))]
  | S k' =>
      let index := n - Z.of_nat k in
      (ts, "fib" +:+ pretty index +:+ "[" +:+ pretty n +:+ "]=" +:+ pretty (wrap (fib (Z.to_nat index))))
        :: fibonacci_lines k' n (tick ts (wrap (5 * index)))
  end.

Fixpoint factorial (n : nat) : Z :=
  match n with
  | O => 1
  | S n' => factorial n' * Z.of_nat n
  end.

(** The descent from [m], one line per level, then the result. *)
Fixpoint factorial_lines (m : nat) (n ts : Z) : list Line :=
  (ts, "f(" +:+ pretty (Z.of_nat m) +:+ ")") ::
  let ts := tick ts (wrap (Z.of_nat m * 50)) in
  match m with
  | S (S _ as m') => factorial_lines m' n ts
  | _ => [(ts, pretty n +:+ "!=" +:+ pretty (wrap (factorial (Z.to_nat n))))]
  end.

Definition initial_store : gmap string User := {["id1" := mkUser "id1" "aha@uhu.com" 42]}.

Definition user_line (u : option User) : string :=
  match u with
  | Some u => "got user: " +:+ User_id u +:+ ":" +:+ pretty (User_age u) +:+ ":" +:+ User_email u
  | None => "Not found user"
  end.

Definition received_line (msg : string) : string := "got: [" +:+ msg +:+ "] went through state".

(** The complete answers a request may be given. *)
Definition expected (r : Request) (ts : Z) (out : list Line) : Prop :=
  match r with
  | Req_delay t s => out = [(tick ts t, s +:+ " after " +:+ pretty t +:+ "ms")]
  | Req_divisors n => out = divisors_lines (Z.to_nat n) n ts
  | Req_fibonacci n =>
      out = if decide (n <= 1) then [(ts, "fib" +:+ pretty n +:+ "=" +:+ pretty n)]
            else fibonacci_lines (Z.to_nat (n - 1)) n ts
  | Req_factorial n => out = factorial_lines (Z.to_nat n) n ts
  | Req_get_user id => exists t, out = [(t, user_line (initial_store !! id))]
  | Req_send _ => exists line, out = [(ts, line)] /\ (line = "message has been sent" \/ line = "no awaiter. closing")
  | Req_receive => out = [] \/ exists t msg, out = [(t, received_line msg)]
  end.

(** The numbers in a request are those of its path, parsed as [u64]. *)
Definition request_ok (r : Request) : Prop :=
  match r with
  | Req_delay t _ => u64_ok t
  | Req_divisors n | Req_fibonacci n | Req_factorial n => u64_ok n
  | _ => True
  end.

(** ** Phases of the tasks *)
Inductive Phase : Type :=
| Ph_completed (junk : list MaroonTaskStackEntryValue) (h : MaroonTaskHeap)
| Ph_delay_begin (t : Z) (s : string)
| Ph_delay_execute (t : Z) (s : string)
| Ph_divisors_begin (n i : Z)
| Ph_divisors_iteration (n i : Z)
| Ph_divisors_print (n i : Z)
| Ph_fibonacci_begin (n : Z)
| Ph_fibonacci_calculate (n index delay : Z)
| Ph_fibonacci_step (n index : Z)
| Ph_fibonacci_result (n delay : Z)
| Ph_factorial_entry (n : Z)
| Ph_factorial_call (n m : Z)
| Ph_factorial_written (n m : Z)
| Ph_factorial_slept (n m : Z)
| Ph_factorial_returned (n m : Z)      (* the level below [m] has returned *)
| Ph_factorial_done (n : Z)
| Ph_send (s : string)
| Ph_request (id : string)
| Ph_received (msg : string)
| Ph_got (u : option User).

(** The frames of the levels from [n] down to the one above [n - k]. *)
Fixpoint factorial_frames (n : Z) (k : nat) : MaroonTaskStack :=
  match k with
  | O => [Val (FactorialInput n); Retrn FactorialDone]
  | S k' => factorial_frames n k' ++
      [Val (FactorialArgument (n - Z.of_nat k')); Retrn FactorialRecursionPostRecursiveCall]
  end.

Definition factorial_stack (n m : Z) (top : MaroonTaskStack) : MaroonTaskStack :=
  factorial_frames n (Z.to_nat (n - m)) ++ Val (FactorialArgument m) :: top.

Definition stack_of (p : Phase) : MaroonTaskStack :=
  match p with
  | Ph_completed junk _ => map Val junk ++ [State Completed]
  | Ph_delay_begin t s => [Val (DelayInputMs t); Val (DelayInputMessage s); State DelayedMessageTaskBegin]
  | Ph_delay_execute t s => [Val (DelayInputMs t); Val (DelayInputMessage s); State DelayedMessageTaskExecute]
  | Ph_divisors_begin _ _ => [State DivisorsTaskBegin]
  | Ph_divisors_iteration _ _ => [State DivisorsTaskIteration]
  | Ph_divisors_print _ _ => [State DivisorsPrintAndMoveOn]
  | Ph_fibonacci_begin _ => [State FibonacciTaskBegin]
  | Ph_fibonacci_calculate _ _ _ => [State FibonacciTaskCalculate]
  | Ph_fibonacci_step _ _ => [State FibonacciTaskStep]
  | Ph_fibonacci_result _ _ => [State FibonacciTaskResult]
  | Ph_factorial_entry n => [Val (FactorialInput n); State FactorialEntry]
  | Ph_factorial_call n m => factorial_stack n m [State FactorialRecursiveCall]
  | Ph_factorial_written n m => factorial_stack n m [State FactorialRecursionPostWrite]
  | Ph_factorial_slept n m => factorial_stack n m [State FactorialRecursionPostSleep]
  | Ph_factorial_returned n m => factorial_stack n m
      [Val (FactorialReturnValue (wrap (factorial (Z.to_nat (m - 1))))); State FactorialRecursionPostRecursiveCall]
  | Ph_factorial_done n =>
      [Val (FactorialInput n); Val (FactorialReturnValue (wrap (factorial (Z.to_nat n)))); State FactorialDone]
  | Ph_send s => [Val (SenderInputMessage s); State SenderSendMessage]
  | Ph_request id => [Val (RequesterGetUserInput id); State RequesterGetUserRequest]
  | Ph_received msg => [Val (AwaiterInputMessage msg); State WaiterWaitMessageAwaiting]
  | Ph_got u => [Val (RequesterGotUserResponse u); State RequesterGetUserGot]
  end.

Definition heap_of (p : Phase) : MaroonTaskHeap :=
  match p with
  | Ph_completed _ h => h
  | Ph_divisors_begin n i | Ph_divisors_iteration n i | Ph_divisors_print n i => Divisors (mkDivisors n i)
  | Ph_fibonacci_begin n => Fibonacci (mkFibonacci n 0 0 0 0)
  | Ph_fibonacci_calculate n index delay => Fibonacci (mkFibonacci n index
      (wrap (fib (Z.to_nat (index - 1)))) (wrap (fib (Z.to_nat index))) delay)
  | Ph_fibonacci_step n index => Fibonacci (mkFibonacci n index
      (wrap (fib (Z.to_nat (index - 1)))) (wrap (fib (Z.to_nat index))) (wrap (5 * index)))
  | Ph_fibonacci_result n delay => Fibonacci (mkFibonacci n n
      (wrap (fib (Z.to_nat (n - 1)))) (wrap (fib (Z.to_nat n))) delay)
  | _ => Fsm.Empty
  end.

Definition phase_ok (p : Phase) : Prop :=
  match p with
  | Ph_delay_begin t _ => u64_ok t
  | Ph_divisors_begin n i | Ph_divisors_iteration n i => u64_ok n /\ 0 <= i <= n
  | Ph_divisors_print n i => u64_ok n /\ 0 < i <= n
  | Ph_fibonacci_begin n => u64_ok n
  | Ph_fibonacci_calculate n index _ => u64_ok n /\ 1 <= index <= n
  | Ph_fibonacci_step n index => u64_ok n /\ 1 <= index < n
  | Ph_factorial_entry n => u64_ok n
  | Ph_factorial_call n m | Ph_factorial_written n m | Ph_factorial_slept n m =>
      u64_ok n /\ 0 <= m <= n /\ (m = 0 -> n = 0)
  | Ph_factorial_returned n m => u64_ok n /\ 1 < m <= n
  | Ph_fibonacci_result n _ => u64_ok n
  | Ph_factorial_done n => u64_ok n
  | _ => True
  end.

(** What a phase still writes when it is run at [ts]. *)
Definition phase_writes (p : Phase) (ts : Z) (out : list Line) : Prop :=
  match p with
  | Ph_completed _ _ => out = []
  | Ph_delay_begin t s => out = [(tick ts t, s +:+ " after " +:+ pretty t +:+ "ms")]
  | Ph_delay_execute t s => out = [(ts, s +:+ " after " +:+ pretty t +:+ "ms")]
  | Ph_divisors_begin n _ => out = divisors_lines (Z.to_nat n) n ts
  | Ph_divisors_iteration n i => out = divisors_lines (Z.to_nat i) n ts
  | Ph_divisors_print n i =>
      out = (ts, pretty n +:+ "%" +:+ pretty i +:+ "==0") :: divisors_lines (Z.to_nat (i - 1)) n ts
  | Ph_fibonacci_begin n =>
      out = if decide (n <= 1) then [(ts, "fib" +:+ pretty n +:+ "=" +:+ pretty n)]
            else fibonacci_lines (Z.to_nat (n - 1)) n ts
  | Ph_fibonacci_calculate n index _ => out = fibonacci_lines (Z.to_nat (n - index)) n ts
  | Ph_fibonacci_step n index => out = fibonacci_lines (Z.to_nat (n - index - 1)) n (tick ts (wrap (5 * index)))
  | Ph_fibonacci_result n _ => out = fibonacci_lines 0 n ts
  | Ph_factorial_entry n => out = factorial_lines (Z.to_nat n) n ts
  | Ph_factorial_call n m => out = factorial_lines (Z.to_nat m) n ts
  | Ph_factorial_written n m => out = tail (factorial_lines (Z.to_nat m) n ts)
  | Ph_factorial_slept n m =>
      out = if decide (1 < m) then factorial_lines (Z.to_nat (m - 1)) n ts
            else [(ts, pretty n +:+ "!=" +:+ pretty (wrap (factorial (Z.to_nat n))))]
  | Ph_factorial_returned n _ | Ph_factorial_done n =>
      out = [(ts, pretty n +:+ "!=" +:+ pretty (wrap (factorial (Z.to_nat n))))]
  | Ph_send _ => exists line, out = [(ts, line)] /\ (line = "message has been sent" \/ line = "no awaiter. closing")
  | Ph_request id => exists t, out = [(t, user_line (initial_store !! id))]
  | Ph_received msg => out = [(ts, "got: " +:+ msg)]
  | Ph_got u => out = [(ts, user_line u)]
  end.

(** A bound on the steps a phase takes, with those it causes others to take. *)
Definition phase_work (p : Phase) : nat :=
  Z.to_nat match p with
  | Ph_completed _ _ => 1
  | Ph_delay_begin _ _ => 3
  | Ph_delay_execute _ _ => 2
  | Ph_divisors_begin n _ => 2 * n + 3
  | Ph_divisors_iteration _ i => 2 * i + 2
  | Ph_divisors_print _ i => 2 * i + 1
  | Ph_fibonacci_begin n => 2 * n + 4
  | Ph_fibonacci_calculate n index _ => 2 * (n - index) + 3
  | Ph_fibonacci_step n index => 2 * (n - index) + 2
  | Ph_fibonacci_result _ _ => 2
  | Ph_factorial_entry n => 4 * n + 9
  | Ph_factorial_call n m => 4 * m + (n - m) + 8
  | Ph_factorial_written n m => 4 * m + (n - m) + 7
  | Ph_factorial_slept n m => 4 * m + (n - m) + 6
  | Ph_factorial_returned n m => (n - m) + 3
  | Ph_factorial_done _ => 2
  | Ph_send _ => 2
  | Ph_request _ => 5
  | Ph_received _ => 2
  | Ph_got _ => 2
  end.

(** ** Arithmetic *)
Definition overflow_message (msg : string) : Prop :=
  msg = "attempt to add with overflow" \/ msg = "attempt to subtract with overflow" \/
  msg = "attempt to multiply with overflow".

Lemma wrap_small x : u64_ok x -> wrap x = x.
Proof. intros Hx. apply Z.mod_small. exact Hx. Qed.

Lemma wrap_range x : u64_ok (wrap x).
Proof. apply Z.mod_pos_bound, u64_modulus_pos. Qed.

Lemma wrap_add x y : wrap (wrap x + wrap y) = wrap (x + y).
Proof. unfold wrap. symmetry. apply Z.add_mod. unfold u64_modulus. lia. Qed.

Lemma wrap_mul_l x y : wrap (wrap x * y) = wrap (x * y).
Proof. unfold wrap. apply Z.mul_mod_idemp_l. unfold u64_modulus. lia. Qed.

(** An operation yields the value modulo [2 ^ 64], or panics where overflow is checked. *)
Lemma u64_arith_wraps `{Profile} msg x :
  u64_arith msg x = Ok (wrap x) \/ (overflow_checks = true /\ u64_arith msg x = Panic msg).
Proof.
  unfold u64_arith. destruct (u64_in_range x) eqn:E.
  - left. apply u64_in_range_spec in E. by rewrite wrap_small.
  - destruct overflow_checks; [right|left]; done.
Qed.

Lemma factorial_S m : 0 < m -> factorial (Z.to_nat m) = factorial (Z.to_nat (m - 1)) * m.
Proof.
  intros Hm. replace (Z.to_nat m) with (S (Z.to_nat (m - 1))) by lia. cbn [factorial].
  by replace (Z.of_nat (S (Z.to_nat (m - 1)))) with m by lia.
Qed.

Lemma fib_SS n : fib (S (S n)) = fib n + fib (S n).
Proof. unfold fib. cbn. by destruct (fib2 n). Qed.

Lemma factorial_frames_snoc n m :
  0 <= m < n -> factorial_frames n (Z.to_nat (n - m)) = factorial_frames n (Z.to_nat (n - (m + 1))) ++
    [Val (FactorialArgument (m + 1)); Retrn FactorialRecursionPostRecursiveCall].
Proof.
  intros Hm. replace (Z.to_nat (n - m)) with (S (Z.to_nat (n - (m + 1)))) by lia. cbn [factorial_frames].
  do 4 f_equal. lia.
Qed.

(** ** Expected answers, unfolded *)
Lemma divisors_lines_hit n ts j : 0 < j -> n mod j = 0 ->
  divisors_lines (Z.to_nat j) n ts =
    (tick ts (wrap (j * 10)), pretty n +:+ "%" +:+ pretty j +:+ "==0") ::
      divisors_lines (Z.to_nat (j - 1)) n (tick ts (wrap (j * 10))).
Proof.
  intros Hj Hm. replace (Z.to_nat j) with (S (Z.to_nat (j - 1))) at 1 by lia. cbn [divisors_lines]. cbn zeta.
  replace (Z.of_nat (S (Z.to_nat (j - 1)))) with j by lia. by rewrite decide_True.
Qed.

Lemma fibonacci_lines_step n ts index : index < n ->
  fibonacci_lines (Z.to_nat (n - index)) n ts =
    (ts, "fib" +:+ pretty index +:+ "[" +:+ pretty n +:+ "]=" +:+ pretty (wrap (fib (Z.to_nat index))))
      :: fibonacci_lines (Z.to_nat (n - index - 1)) n (tick ts (wrap (5 * index))).
Proof.
  intros Hi. replace (Z.to_nat (n - index)) with (S (Z.to_nat (n - index - 1))) by lia. cbn [fibonacci_lines]. cbn zeta.
  by replace (n - Z.of_nat (S (Z.to_nat (n - index - 1)))) with index by lia.
Qed.

Lemma factorial_lines_step m n ts : 0 <= m ->
  factorial_lines (Z.to_nat m) n ts = (ts, "f(" +:+ pretty m +:+ ")") ::
    (let ts := tick ts (wrap (m * 50)) in
     if decide (1 < m) then factorial_lines (Z.to_nat (m - 1)) n ts
     else [(ts, pretty n +:+ "!=" +:+ pretty (wrap (factorial (Z.to_nat n))))]).
Proof.
  intros Hm. destruct (Z_of_nat_complete m Hm) as [k ->]. rewrite Nat2Z.id.
  destruct k as [|[|k]]; [done|done|]. cbn zeta. rewrite decide_True by lia.
  replace (Z.to_nat (Z.of_nat (S (S k)) - 1)) with (S k) by lia. done.
Qed.

(** ** The step of a phase *)
Inductive PhaseStep : Type :=
| Goes (out : option string) (delay : option Z) (p : Phase)
| Ends
| Sends (msg : string)
| Asks (id : string).

(** The largest divisor of [n] that is at most [i], or 0. *)
Fixpoint divisor_below (i : nat) (n : Z) : Z :=
  match i with
  | O => 0
  | S i' => if decide (n mod Z.of_nat i = 0) then Z.of_nat i else divisor_below i' n
  end.

Lemma next_divisor_below fuel n i :
  0 <= i -> (Z.to_nat i < fuel)%nat -> next_divisor fuel n i = Ok (divisor_below (Z.to_nat i) n).
Proof.
  revert i. induction fuel as [|fuel IH]; intros i Hi Hf; [lia|]. cbn. destruct (decide (i = 0)) as [->|Hne].
  { by rewrite decide_False by lia. }
  replace (Z.to_nat i) with (S (Z.to_nat (i - 1))) by lia. cbn [divisor_below].
  replace (Z.of_nat (S (Z.to_nat (i - 1)))) with i by lia. case_decide as Hd.
  - destruct Hd as [_ Hm]. rewrite decide_False by done. apply IH; lia.
  - rewrite decide_True; [done|]. destruct (decide (n mod i = 0)); [done|]. destruct Hd. split; [lia|done].
Qed.

Lemma divisors_lines_below i n ts :
  divisors_lines i n ts = divisors_lines (Z.to_nat (divisor_below i n)) n ts.
Proof.
  induction i as [|i IH]; [done|]. cbn [divisor_below]. case_decide as Hd.
  - by rewrite Nat2Z.id.
  - rewrite <-IH. cbn [divisors_lines]. cbn zeta. by rewrite decide_False.
Qed.

Definition phase_next (p : Phase) : PhaseStep :=
  match p with
  | Ph_completed _ _ => Ends
  | Ph_delay_begin t s => Goes None (Some t) (Ph_delay_execute t s)
  | Ph_delay_execute t s => Goes (Some (s +:+ " after " +:+ pretty t +:+ "ms")) None
      (Ph_completed [DelayInputMs t; DelayInputMessage s] Fsm.Empty)
  | Ph_divisors_begin n _ => Goes None None (Ph_divisors_iteration n n)
  | Ph_divisors_iteration n i =>
      let j := divisor_below (Z.to_nat i) n in
      if decide (j = 0) then Goes (Some (pretty n +:+ "!")) None (Ph_completed [] (Divisors (mkDivisors n i)))
      else Goes None (Some (wrap (j * 10))) (Ph_divisors_print n j)
  | Ph_divisors_print n i => Goes (Some (pretty n +:+ "%" +:+ pretty i +:+ "==0")) None (Ph_divisors_iteration n (i - 1))
  | Ph_fibonacci_begin n =>
      if decide (n <= 1) then Goes (Some ("fib" +:+ pretty n +:+ "=" +:+ pretty n)) None
                               (Ph_completed [] (heap_of (Ph_fibonacci_begin n)))
      else Goes None None (Ph_fibonacci_calculate n 1 0)
  | Ph_fibonacci_calculate n index delay =>
      if decide (n <= index) then Goes None None (Ph_fibonacci_result n delay)
      else Goes (Some ("fib" +:+ pretty index +:+ "[" +:+ pretty n +:+ "]=" +:+ pretty (wrap (fib (Z.to_nat index)))))
             None (Ph_fibonacci_step n index)
  | Ph_fibonacci_step n index => Goes None (Some (wrap (5 * index))) (Ph_fibonacci_calculate n (index + 1) (wrap (5 * index)))
  | Ph_fibonacci_result n delay => Goes (Some ("fib" +:+ pretty n +:+ "=" +:+ pretty (wrap (fib (Z.to_nat n))))) None
      (Ph_completed [] (heap_of (Ph_fibonacci_result n delay)))
  | Ph_factorial_entry n => Goes None None (Ph_factorial_call n n)
  | Ph_factorial_call n m => Goes (Some ("f(" +:+ pretty m +:+ ")")) None (Ph_factorial_written n m)
  | Ph_factorial_written n m => Goes None (Some (wrap (m * 50))) (Ph_factorial_slept n m)
  | Ph_factorial_slept n m =>
      if decide (1 < m) then Goes None None (Ph_factorial_call n (m - 1))
      else if decide (m = n) then Goes None None (Ph_factorial_done n)
      else Goes None None (Ph_factorial_returned n (m + 1))
  | Ph_factorial_returned n m =>
      if decide (m = n) then Goes None None (Ph_factorial_done n) else Goes None None (Ph_factorial_returned n (m + 1))
  | Ph_factorial_done n => Goes (Some (pretty n +:+ "!=" +:+ pretty (wrap (factorial (Z.to_nat n))))) None
      (Ph_completed [FactorialInput n; FactorialReturnValue (wrap (factorial (Z.to_nat n)))] Fsm.Empty)
  | Ph_send s => Sends ("[" +:+ s +:+ "] went through state")
  | Ph_request id => Asks id
  | Ph_received msg => Goes (Some ("got: " +:+ msg)) None (Ph_completed [AwaiterInputMessage msg] Fsm.Empty)
  | Ph_got u => Goes (Some (user_line u)) None (Ph_completed [RequesterGotUserResponse u] Fsm.Empty)
  end.

Definition later (ts : Z) (delay : option Z) : Z :=
  match delay with Some d => tick ts d | None => ts end.

(** Phases lead to well-formed phases, with less work left. *)
Lemma divisor_below_range i n : 0 <= divisor_below i n <= Z.of_nat i /\
  (0 < divisor_below i n -> n mod divisor_below i n = 0).
Proof.
  induction i as [|i IH]; cbn [divisor_below]; [lia|]. case_decide; [by split; [lia|]|]. lia.
Qed.

Lemma phase_next_ok p out delay p' :
  phase_ok p -> phase_next p = Goes out delay p' -> phase_ok p' /\ (phase_work p' < phase_work p)%nat.
Proof.
  assert (Hs : forall a b : Z, 0 <= a < b -> (Z.to_nat a < Z.to_nat b)%nat) by lia.
  intros Hok Hn. destruct p; cbn in Hok, Hn; repeat case_decide; try discriminate Hn; injection Hn as <- <- <-;
    unfold u64_ok in *; cbn [phase_ok];
    repeat match goal with |- context [divisor_below ?i ?n] =>
      pose proof (divisor_below_range i n); generalize dependent (divisor_below i n); intros end;
    unfold u64_ok in *; (split; [try done; lia|unfold phase_work; apply Hs; lia]).
Qed.

(** What it writes now, followed by what the next phase may write, is what it may write. *)
Lemma phase_next_writes p ts out delay p' l :
  phase_ok p -> phase_next p = Goes out delay p' -> phase_writes p' (later ts delay) l ->
  phase_writes p ts (option_list ((ts,.) <$> out) ++ l).
Proof.
  intros Hok Hn Hl. destruct p as [| | | |n i| |n|n index delay'|n index| | |n m|n m|n m| | | | | |]; cbn in Hok, Hn;
    try discriminate Hn.
  all: repeat case_decide; injection Hn as <- <- <-; cbn in Hl |- *; subst; try done.
  - rewrite (divisors_lines_below (Z.to_nat i)). by replace (divisor_below (Z.to_nat i) n) with 0 by done.
  - rewrite (divisors_lines_below (Z.to_nat i)). destruct (divisor_below_range (Z.to_nat i) n) as [Hr Hm].
    rewrite (divisors_lines_hit n ts (divisor_below (Z.to_nat i) n)); [done|lia|apply Hm; lia].
  - by rewrite decide_True by lia.
  - by rewrite decide_False by lia.
  - by replace (n - index) with 0 by lia.
  - by rewrite (fibonacci_lines_step n ts index) by lia.
  - do 2 f_equal. lia.
  - by rewrite (factorial_lines_step m) by lia.
  - by rewrite (factorial_lines_step m) by lia.
  - by rewrite decide_True by lia.
  - by rewrite decide_False by lia.
  - by rewrite decide_False by lia.
Qed.

(** ** The executor runs the phases *)
Section executor.
Context `{Profile} `{BinaryHeap} `{TestCfg} {W : Type}.
Implicit Types (task : @MaroonTask W) (fsm : @MaroonRuntime W).

Lemma pop_vars_app base vars : pop_vars (length vars) (base ++ map Val (reverse vars)) = Ok (vars, base).
Proof.
  induction vars as [|v vars IH]; [cbn; by rewrite app_nil_r|].
  rewrite reverse_cons, map_app, app_assoc. cbn [length pop_vars map]. rewrite vec_pop_snoc. by rewrite IH.
Qed.

(** A task whose stack ends in a state and the values it uses. *)
Lemma run_task_state ts id task fsm base vars s :
  cfg_test = false -> maroon_stack task = base ++ map Val (reverse vars) ++ [State s] ->
  length vars = maroon_task_state_local_vars_count s -> s <> Idle ->
  run_task ts id task fsm = step_task ts id (set_stack base task) s vars fsm.
Proof.
  intros Hc Hst Hlen Hs. unfold run_task, debug_validate_maroon_stack. rewrite Hc, Hst, app_assoc, vec_pop_snoc.
  cbn [mbind result_bind expect]. rewrite <-Hlen, pop_vars_app. cbn [mbind result_bind]. by destruct s.
Qed.

(** A task in phase [p]. *)
Definition in_phase (p : Phase) (task : @MaroonTask W) : Prop :=
  maroon_stack task = stack_of p /\ maroon_heap task = heap_of p /\ in_queue task = [].

Definition as_phase (p : Phase) (task : @MaroonTask W) : @MaroonTask W := set_stack (stack_of p) (set_heap (heap_of p) task).

Definition write_option (w : W) (ts : Z) (out : option string) (fsm : @MaroonRuntime W) : MaroonRuntime :=
  match out with Some text => write_text w ts text fsm | None => fsm end.

(** What running phase [p] does to the runtime; under overflow checks it may panic instead. *)
Definition phase_run (ts : Z) (id : MaroonTaskId) (task : @MaroonTask W) (p : Phase) (fsm : @MaroonRuntime W)
  : result MaroonRuntime :=
  match phase_next p with
  | Goes out delay p' =>
      Ok (pend (later ts delay) id (activate id (as_phase p' task) (write_option (writer task) ts out fsm)))
  | Ends => Ok fsm
  | Sends msg => apply_step_result ts id (set_stack [] task) [] (Send msg Completed) fsm
  | Asks u_id => apply_step_result ts id (set_stack [] task) [] (SendGetUserRequestIM u_id) fsm
  end.

Definition overflows (r : result (@MaroonRuntime W)) : Prop :=
  overflow_checks = true /\ exists msg, r = Panic msg /\ overflow_message msg.

Section steps.
Variables (ts : Z) (id : MaroonTaskId) (base : MaroonTaskStack) (vars : list MaroonTaskStackEntryValue)
  (s : MaroonTaskState) (p' : Phase).
Hypothesis (Hc : cfg_test = false).

(** The four results that keep a task running, by the stack they leave. *)
Lemma step_next task fsm es :
  global_step s vars (maroon_heap task) = Ok (Next es, heap_of p') -> base ++ es = stack_of p' ->
  step_task ts id (set_stack base task) s vars fsm = Ok (pend ts id (activate id (as_phase p' task) fsm)).
Proof.
  intros Hg Hst. unfold step_task. cbn [maroon_heap set_stack]. rewrite Hg. cbn [mbind result_bind apply_step_result].
  unfold debug_validate_maroon_stack. rewrite Hc. cbn [mbind result_bind]. unfold as_phase. by rewrite <-Hst.
Qed.

Lemma step_write task fsm text s' :
  global_step s vars (maroon_heap task) = Ok (Write text s', heap_of p') ->
  base ++ map Val (reverse vars) ++ [State s'] = stack_of p' ->
  step_task ts id (set_stack base task) s vars fsm =
    Ok (pend ts id (activate id (as_phase p' task) (write_text (writer task) ts text fsm))).
Proof.
  intros Hg Hst. unfold step_task. cbn [maroon_heap set_stack]. rewrite Hg. cbn [mbind result_bind apply_step_result].
  unfold debug_validate_maroon_stack. rewrite Hc. cbn [mbind result_bind]. unfold as_phase, push_back_vars, push.
  cbn. by rewrite <-Hst, app_assoc.
Qed.

Lemma step_sleep task fsm d s' :
  global_step s vars (maroon_heap task) = Ok (Sleep d s', heap_of p') ->
  base ++ map Val (reverse vars) ++ [State s'] = stack_of p' ->
  overflows (step_task ts id (set_stack base task) s vars fsm) \/
  step_task ts id (set_stack base task) s vars fsm = Ok (pend (tick ts d) id (activate id (as_phase p' task) fsm)).
Proof.
  intros Hg Hst. unfold step_task. cbn [maroon_heap set_stack]. rewrite Hg. cbn [mbind result_bind apply_step_result].
  unfold debug_validate_maroon_stack. rewrite Hc. cbn [mbind result_bind]. unfold u64_add.
  destruct (u64_arith_wraps "attempt to add with overflow" (ts + d)) as [E|[Ho E]]; rewrite E; cbn [mbind result_bind].
  - right. unfold as_phase, push_back_vars, push. cbn. by rewrite <-Hst, app_assoc.
  - left. split; [done|]. eexists. split; [done|]. by left.
Qed.

Lemma step_return task fsm base' v s' :
  global_step s vars (maroon_heap task) = Ok (Return v, heap_of p') -> base = base' ++ [Retrn s'] ->
  base' ++ [Val v; State s'] = stack_of p' ->
  step_task ts id (set_stack base task) s vars fsm = Ok (pend ts id (activate id (as_phase p' task) fsm)).
Proof.
  intros Hg -> Hst. unfold step_task. cbn [maroon_heap set_stack]. rewrite Hg. cbn [mbind result_bind apply_step_result].
  cbn [maroon_stack set_heap set_stack]. rewrite vec_pop_snoc. cbn [expect mbind result_bind]. unfold as_phase.
  by rewrite <-Hst.
Qed.

Lemma step_overflows task fsm msg :
  overflow_checks = true -> global_step s vars (maroon_heap task) = Panic msg -> overflow_message msg ->
  overflows (step_task ts id (set_stack base task) s vars fsm).
Proof.
  intros Ho Hg Hm. split; [done|]. exists msg. unfold step_task. cbn [maroon_heap set_stack]. by rewrite Hg.
Qed.
End steps.

(** *** The phases, by kind of task *)
Section phases.
Variables (ts : Z) (id : MaroonTaskId) (task : @MaroonTask W) (fsm : @MaroonRuntime W).
Hypothesis (Hc : cfg_test = false).

Definition runs (p : Phase) : Prop :=
  overflows (run_task ts id task fsm) \/ run_task ts id task fsm = phase_run ts id task p fsm.

Ltac at_state base vars :=
  rewrite (run_task_state _ _ _ _ base vars _) by
    (done || (match goal with H : maroon_stack _ = _ |- _ => rewrite H end; cbn; rewrite <-?app_assoc; done)).

Ltac start_phase base vars :=
  let Hst := fresh "Hst" in let Hh := fresh "Hh" in
  intros (Hst & Hh & _) Hok; cbn in Hst, Hh, Hok; unfold runs, phase_run; cbn [phase_next]; at_state base vars.

(** [Hg]: the step of state [s], evaluated on the heap of the task. *)
Ltac step_of s vars :=
  match goal with
  | Hh : maroon_heap task = ?h |- _ =>
      let r := eval cbn [global_step divisors_step fibonacci_step factorial_step dn di fn findex fa fb fdelay_ms]
        in (global_step s vars h) in
      assert (Hg : global_step s vars (maroon_heap task) = r) by (rewrite Hh; done)
  end.

Lemma run_completed junk h : in_phase (Ph_completed junk h) task -> phase_ok (Ph_completed junk h) ->
  runs (Ph_completed junk h).
Proof. start_phase (map Val junk) (@nil MaroonTaskStackEntryValue). by right. Qed.

Lemma run_delay_begin t s : in_phase (Ph_delay_begin t s) task -> phase_ok (Ph_delay_begin t s) ->
  runs (Ph_delay_begin t s).
Proof. start_phase (@nil MaroonTaskStackEntry) [DelayInputMessage s; DelayInputMs t]. eapply step_sleep; [done|by rewrite Hh|done]. Qed.

Lemma run_delay_execute t s : in_phase (Ph_delay_execute t s) task -> phase_ok (Ph_delay_execute t s) ->
  runs (Ph_delay_execute t s).
Proof.
  start_phase (@nil MaroonTaskStackEntry) [DelayInputMessage s; DelayInputMs t]. right. apply step_write with Completed; [done|by rewrite Hh|done].
Qed.

Lemma run_received msg : in_phase (Ph_received msg) task -> phase_ok (Ph_received msg) -> runs (Ph_received msg).
Proof. start_phase (@nil MaroonTaskStackEntry) [AwaiterInputMessage msg]. right. apply step_write with Completed; [done|by rewrite Hh|done]. Qed.

Lemma run_got u : in_phase (Ph_got u) task -> phase_ok (Ph_got u) -> runs (Ph_got u).
Proof.
  start_phase (@nil MaroonTaskStackEntry) [RequesterGotUserResponse u]. right. apply step_write with Completed; [done|rewrite Hh; by destruct u|done].
Qed.

Lemma message_task stk h : maroon_heap task = h -> set_heap h (set_stack stk task) = set_stack stk task.
Proof. intros <-. by destruct task. Qed.

Lemma run_send s : in_phase (Ph_send s) task -> phase_ok (Ph_send s) -> runs (Ph_send s).
Proof.
  start_phase (@nil MaroonTaskStackEntry) [SenderInputMessage s]. right. unfold step_task. cbn [maroon_heap set_stack]. rewrite Hh.
  cbn -[apply_step_result]. by rewrite (message_task _ _ Hh).
Qed.

Lemma run_request u_id : in_phase (Ph_request u_id) task -> phase_ok (Ph_request u_id) -> runs (Ph_request u_id).
Proof.
  start_phase (@nil MaroonTaskStackEntry) [RequesterGetUserInput u_id]. right. unfold step_task. cbn [maroon_heap set_stack]. rewrite Hh.
  cbn -[apply_step_result]. by rewrite (message_task _ _ Hh).
Qed.

(** Divisors. *)
Lemma run_divisors_begin n i : in_phase (Ph_divisors_begin n i) task -> phase_ok (Ph_divisors_begin n i) ->
  runs (Ph_divisors_begin n i).
Proof. start_phase (@nil MaroonTaskStackEntry) (@nil MaroonTaskStackEntryValue). right. eapply step_next; [done|by rewrite Hh|done]. Qed.

Lemma run_divisors_print n i : in_phase (Ph_divisors_print n i) task -> phase_ok (Ph_divisors_print n i) ->
  runs (Ph_divisors_print n i).
Proof.
  start_phase (@nil MaroonTaskStackEntry) (@nil MaroonTaskStackEntryValue). right. eapply step_write; [done| |done]. rewrite Hh. cbn [global_step divisors_step di dn].
  by rewrite u64_sub_ok by (unfold u64_ok in *; lia).
Qed.

Lemma run_divisors_iteration n i : in_phase (Ph_divisors_iteration n i) task -> phase_ok (Ph_divisors_iteration n i) ->
  runs (Ph_divisors_iteration n i).
Proof.
  start_phase (@nil MaroonTaskStackEntry) (@nil MaroonTaskStackEntryValue).
  assert (Hn : next_divisor (S (Z.to_nat i)) n i = Ok (divisor_below (Z.to_nat i) n)) by (apply next_divisor_below; lia).
  assert (Hg : global_step DivisorsTaskIteration [] (maroon_heap task) =
    (if decide (divisor_below (Z.to_nat i) n = 0)
     then Ok (Write (pretty n +:+ "!") Completed, Divisors (mkDivisors n i))
     else delay ← u64_mul (divisor_below (Z.to_nat i) n) 10;
          Ok (Sleep delay DivisorsPrintAndMoveOn, Divisors (mkDivisors n (divisor_below (Z.to_nat i) n))))).
  { rewrite Hh. cbn [global_step divisors_step di dn]. by rewrite Hn. }
  case_decide as Hd.
  - right. eapply step_write; [done|exact Hg|done].
  - unfold u64_mul in Hg. destruct (u64_arith_wraps "attempt to multiply with overflow" (divisor_below (Z.to_nat i) n * 10))
      as [E|[Ho E]]; rewrite E in Hg; cbn [mbind result_bind] in Hg.
    + eapply step_sleep; [done|exact Hg|done].
    + left. by eapply step_overflows; [|exact Hg|unfold overflow_message; tauto].
Qed.

(** Fibonacci numbers. *)
Lemma run_fibonacci_begin n : in_phase (Ph_fibonacci_begin n) task -> phase_ok (Ph_fibonacci_begin n) ->
  runs (Ph_fibonacci_begin n).
Proof.
  start_phase (@nil MaroonTaskStackEntry) (@nil MaroonTaskStackEntryValue). right.
  step_of FibonacciTaskBegin ([] : list MaroonTaskStackEntryValue). cbn in Hg. case_decide.
  - eapply step_write; [done|exact Hg|done].
  - eapply step_next; [done|exact Hg|done].
Qed.

Lemma run_fibonacci_calculate n index delay :
  in_phase (Ph_fibonacci_calculate n index delay) task -> phase_ok (Ph_fibonacci_calculate n index delay) ->
  runs (Ph_fibonacci_calculate n index delay).
Proof.
  start_phase (@nil MaroonTaskStackEntry) (@nil MaroonTaskStackEntryValue).
  step_of FibonacciTaskCalculate ([] : list MaroonTaskStackEntryValue). case_decide.
  - right. replace n with index in * by lia. eapply step_next; [done|exact Hg|done].
  - unfold u64_mul in Hg. destruct (u64_arith_wraps "attempt to multiply with overflow" (5 * index)) as [E|[Ho E]];
      rewrite E in Hg; cbn [mbind result_bind] in Hg.
    + right. eapply step_write; [done|exact Hg|done].
    + left. by eapply step_overflows; [|exact Hg|unfold overflow_message; tauto].
Qed.

Lemma fib_next index : 1 <= index ->
  wrap (wrap (fib (Z.to_nat (index - 1))) + wrap (fib (Z.to_nat index))) = wrap (fib (Z.to_nat (index + 1))).
Proof.
  intros Hi. rewrite wrap_add. replace (Z.to_nat (index + 1)) with (S (S (Z.to_nat (index - 1)))) by lia.
  rewrite fib_SS. by replace (S (Z.to_nat (index - 1))) with (Z.to_nat index) by lia.
Qed.

Lemma run_fibonacci_step n index : in_phase (Ph_fibonacci_step n index) task -> phase_ok (Ph_fibonacci_step n index) ->
  runs (Ph_fibonacci_step n index).
Proof.
  start_phase (@nil MaroonTaskStackEntry) (@nil MaroonTaskStackEntryValue).
  step_of FibonacciTaskStep ([] : list MaroonTaskStackEntryValue).
  rewrite (u64_add_ok index 1) in Hg by (unfold u64_ok in *; lia). cbn [mbind result_bind] in Hg. unfold u64_add in Hg.
  destruct (u64_arith_wraps "attempt to add with overflow"
    (wrap (fib (Z.to_nat (index - 1))) + wrap (fib (Z.to_nat index)))) as [E|[Ho E]];
    rewrite E in Hg; cbn [mbind result_bind] in Hg.
  - rewrite fib_next in Hg by lia. eapply step_sleep; [done| |done]. etrans; [exact Hg|]. cbn [heap_of].
    by replace (index + 1 - 1) with index by lia.
  - left. by eapply step_overflows; [|exact Hg|unfold overflow_message; tauto].
Qed.

Lemma run_fibonacci_result n delay : in_phase (Ph_fibonacci_result n delay) task -> phase_ok (Ph_fibonacci_result n delay) ->
  runs (Ph_fibonacci_result n delay).
Proof.
  start_phase (@nil MaroonTaskStackEntry) (@nil MaroonTaskStackEntryValue). right.
  eapply step_write; [done|by rewrite Hh|done].
Qed.

(** Factorials. *)
Lemma run_factorial_entry n : in_phase (Ph_factorial_entry n) task -> phase_ok (Ph_factorial_entry n) ->
  runs (Ph_factorial_entry n).
Proof.
  start_phase (@nil MaroonTaskStackEntry) [FactorialInput n]. right. eapply step_next; [done|by rewrite Hh|].
  unfold stack_of, factorial_stack. by rewrite Z.sub_diag.
Qed.

Lemma run_factorial_call n m : in_phase (Ph_factorial_call n m) task -> phase_ok (Ph_factorial_call n m) ->
  runs (Ph_factorial_call n m).
Proof.
  start_phase (factorial_frames n (Z.to_nat (n - m))) [FactorialArgument m]. right.
  eapply step_write; [done|by rewrite Hh|done].
Qed.

Lemma run_factorial_written n m : in_phase (Ph_factorial_written n m) task -> phase_ok (Ph_factorial_written n m) ->
  runs (Ph_factorial_written n m).
Proof.
  start_phase (factorial_frames n (Z.to_nat (n - m))) [FactorialArgument m].
  step_of FactorialRecursionPostWrite ([FactorialArgument m] : list MaroonTaskStackEntryValue). unfold u64_mul in Hg.
  destruct (u64_arith_wraps "attempt to multiply with overflow" (m * 50)) as [E|[Ho E]];
    rewrite E in Hg; cbn [mbind result_bind] in Hg.
  - eapply step_sleep; [done|exact Hg|done].
  - left. by eapply step_overflows; [|exact Hg|unfold overflow_message; tauto].
Qed.

(** Where the level of [m] returns to, with the value [factorial m]. *)
Lemma factorial_return n m s vars :
  u64_ok n -> 0 <= m <= n -> (m = 0 -> n = 0) ->
  global_step s vars (maroon_heap task) = Ok (Return (FactorialReturnValue (wrap (factorial (Z.to_nat m)))), Fsm.Empty) ->
  step_task ts id (set_stack (factorial_frames n (Z.to_nat (n - m))) task) s vars fsm =
    Ok (pend ts id (activate id (as_phase (if decide (m = n) then Ph_factorial_done n else Ph_factorial_returned n (m + 1))
      task) fsm)).
Proof.
  intros Hn Hm Hz Hg. case_decide as Hmn.
  - subst. apply (step_return _ _ _ _ _ (Ph_factorial_done n) task fsm [Val (FactorialInput n)] _ FactorialDone Hg); [by rewrite Z.sub_diag|done].
  - apply (step_return _ _ _ _ _ (Ph_factorial_returned n (m + 1)) task fsm (factorial_frames n (Z.to_nat (n - (m + 1))) ++ [Val (FactorialArgument (m + 1))])
      _ FactorialRecursionPostRecursiveCall Hg).
    { rewrite factorial_frames_snoc by lia. by rewrite <-app_assoc. }
    cbn [stack_of]. unfold factorial_stack. replace (m + 1 - 1) with m by lia. by rewrite <-app_assoc.
Qed.

Lemma run_factorial_slept n m : in_phase (Ph_factorial_slept n m) task -> phase_ok (Ph_factorial_slept n m) ->
  runs (Ph_factorial_slept n m).
Proof.
  start_phase (factorial_frames n (Z.to_nat (n - m))) [FactorialArgument m]. right.
  step_of FactorialRecursionPostSleep ([FactorialArgument m] : list MaroonTaskStackEntryValue). destruct (decide (1 < m)) as [Hm|Hm]; cbn [mbind result_bind] in Hg.
  - eapply step_next; [done|exact Hg|]. cbn [stack_of]. unfold factorial_stack.
    rewrite (factorial_frames_snoc n (m - 1)) by lia. replace (m - 1 + 1) with m by lia. by rewrite <-app_assoc.
  - rewrite (factorial_return n m); [|tauto..|].
    + by case_decide.
    + etrans; [exact Hg|]. by replace (wrap (factorial (Z.to_nat m))) with 1 by
        (assert (m = 0 \/ m = 1) as [-> | ->] by lia; done).
Qed.

Lemma run_factorial_returned n m : in_phase (Ph_factorial_returned n m) task -> phase_ok (Ph_factorial_returned n m) ->
  runs (Ph_factorial_returned n m).
Proof.
  start_phase (factorial_frames n (Z.to_nat (n - m)))
    [FactorialReturnValue (wrap (factorial (Z.to_nat (m - 1)))); FactorialArgument m].
  step_of FactorialRecursionPostRecursiveCall ([FactorialReturnValue (wrap (factorial (Z.to_nat (m - 1)))); FactorialArgument m] : list MaroonTaskStackEntryValue). unfold u64_mul in Hg.
  destruct (u64_arith_wraps "attempt to multiply with overflow" (wrap (factorial (Z.to_nat (m - 1))) * m)) as [E|[Ho E]];
    rewrite E in Hg; cbn [mbind result_bind] in Hg.
  - right. rewrite wrap_mul_l, <-factorial_S in Hg by lia. rewrite (factorial_return n m); [|tauto|lia|lia|exact Hg].
    by case_decide.
  - left. by eapply step_overflows; [|exact Hg|unfold overflow_message; tauto].
Qed.

Lemma run_factorial_done n : in_phase (Ph_factorial_done n) task -> phase_ok (Ph_factorial_done n) ->
  runs (Ph_factorial_done n).
Proof.
  start_phase (@nil MaroonTaskStackEntry) [FactorialReturnValue (wrap (factorial (Z.to_nat n))); FactorialInput n].
  right. eapply step_write; [done|by rewrite Hh|done].
Qed.

Lemma run_phase p : in_phase p task -> phase_ok p -> runs p.
Proof.
  destruct p; [apply run_completed|apply run_delay_begin|apply run_delay_execute|apply run_divisors_begin
    |apply run_divisors_iteration|apply run_divisors_print|apply run_fibonacci_begin|apply run_fibonacci_calculate
    |apply run_fibonacci_step|apply run_fibonacci_result|apply run_factorial_entry|apply run_factorial_call
    |apply run_factorial_written|apply run_factorial_slept|apply run_factorial_returned|apply run_factorial_done
    |apply run_send|apply run_request|apply run_received|apply run_got].
Qed.
End phases.
End executor.
