(* ===== verification/FsmInv.v ===== *)
(** * The state machine demo: every interleaving

    The server of [Fsm], as it is built outside unit tests. A ghost map of roles says what
    each task is doing: it runs in a phase and is due at some time, it is the parked
    receiver, or it waits for the users' storage. The invariant relates the roles to the
    tasks, the heap of pending operations, the queue of the storage and what was written. *)
From S2P Require Import Prelude Fsm FsmSpec.
From stdpp Require Import pretty.
Local Open Scope string_scope.
Local Open Scope list_scope.
Local Open Scope Z_scope.
#[local] Existing Instance plain_build.

(** ** Roles *)
Inductive Role : Type :=
| Role_runs (p : Phase) (due : Z)
| Role_waits
| Role_asked (u_id : string).

Notation Roles := (gmap MaroonTaskId Role).

(** The storage is the first task that is created. *)
Definition storage_id : MaroonTaskId := 1.

Definition role_writes (role : option Role) (out : list Line) : Prop :=
  match role with
  | None => out = []
  | Some (Role_runs p due) => phase_writes p due out
  | Some Role_waits => out = [] \/ exists t msg, out = [(t, received_line msg)]
  | Some (Role_asked u_id) => exists t, out = [(t, user_line (initial_store !! u_id))]
  end.

Definition role_work (role : Role) : nat :=
  match role with Role_runs p _ => phase_work p | Role_waits => 2 | Role_asked _ => 3 end.

(** ** Changing a role *)
Definition set_role (id : MaroonTaskId) (role : option Role) (roles : Roles) : Roles :=
  partial_alter (fun _ => role) id roles.

Lemma set_role_eq id role roles : set_role id role roles !! id = role.
Proof. apply lookup_partial_alter_eq. Qed.
Lemma set_role_ne id id' role roles : id <> id' -> set_role id role roles !! id' = roles !! id'.
Proof. apply lookup_partial_alter_ne. Qed.

(** Case analysis on the role that changed. *)
Ltac role_cases id' id :=
  destruct (decide (id = id')) as [<-|?Hne];
  [rewrite ?set_role_eq in *|rewrite ?(set_role_ne id id') in * by done].

Section invariant.
Context `{Profile} `{BinaryHeap} {W : Type} `{EqDecision W}.

Definition role_matches (role : Role) (task : @MaroonTask W) : Prop :=
  match role with
  | Role_runs p _ => in_phase p task /\ phase_ok p
  | Role_waits | Role_asked _ => maroon_stack task = [] /\ maroon_heap task = Fsm.Empty /\ in_queue task = []
  end.

(** ** The parts of the invariant *)
Definition tasks_ok (active : gmap MaroonTaskId (@MaroonTask W)) (roles : Roles) : Prop :=
  forall id, id <> storage_id -> option_Forall2 role_matches (roles !! id) (active !! id).

Definition others (pending : list TimestampedMaroonTask) : list MaroonTaskId :=
  filter (fun id => id <> storage_id) (map timestamped_task_id pending).

Definition pending_ok (pending : list TimestampedMaroonTask) (roles : Roles) : Prop :=
  NoDup (others pending) /\
  forall ts id, id <> storage_id ->
    (mkTimestamped ts id ∈ pending <-> exists p, roles !! id = Some (Role_runs p ts)).

Definition who (m : MaroonInputMessageTask) : MaroonTaskId := match m with GetUser _ id => id end.

Definition queue_ok (q : list MaroonInputMessageTask) (roles : Roles) : Prop :=
  NoDup (map who q) /\
  forall u id, GetUser u id ∈ q <-> roles !! id = Some (Role_asked u).

Definition awaiter_ok (a : option MaroonTaskId) (roles : Roles) : Prop :=
  forall id, a = Some id <-> roles !! id = Some Role_waits.

(** The requests that were accepted, by the identifiers of their tasks. *)
Notation Jobs := (gmap MaroonTaskId (W * Z * Request)).

Definition outs (l : list (W * Z * string)) (w : W) : list Line :=
  omap (fun '(w', ts, text) => if decide (w' = w) then Some (ts, text) else None) l.

Definition answers_ok (out : list (W * Z * string)) (roles : Roles) (jobs : Jobs) : Prop :=
  forall id w ts r, jobs !! id = Some (w, ts, r) ->
    forall l, role_writes (roles !! id) l -> expected r ts (outs out w ++ l).

Definition writers_ok (active : gmap MaroonTaskId (@MaroonTask W)) (out : list (W * Z * string)) (jobs : Jobs) : Prop :=
  (forall id task, id <> storage_id -> active !! id = Some task ->
     exists ts r, jobs !! id = Some (writer task, ts, r)) /\
  (forall id id' w ts r ts' r', jobs !! id = Some (w, ts, r) -> jobs !! id' = Some (w, ts', r') -> id = id') /\
  (forall w ts text, (w, ts, text) ∈ out -> exists id ts' r, jobs !! id = Some (w, ts', r)).

Record storage_ok (active : gmap MaroonTaskId (@MaroonTask W)) (task : @MaroonTask W) : Prop := {
  so_active : active !! storage_id = Some task;
  so_stack : maroon_stack task = [State Idle];
  so_heap : maroon_heap task = UsersStorage initial_store
}.

Record server_inv (fsm : @MaroonRuntime W) (roles : Roles) (jobs : Jobs) : Prop := {
  si_tasks : tasks_ok (active_tasks fsm) roles;
  si_pending : pending_ok (pending_operations fsm) roles;
  si_awaiter : awaiter_ok (awaiter fsm) roles;
  si_daemon : daemon_user_storage fsm = Some storage_id;
  si_no_role : roles !! storage_id = None;
  si_storage : exists task, storage_ok (active_tasks fsm) task /\ queue_ok (in_queue task) roles /\
    (in_queue task <> [] -> storage_id ∈ map timestamped_task_id (pending_operations fsm));
  si_answers : answers_ok (written fsm) roles jobs;
  si_writers : writers_ok (active_tasks fsm) (written fsm) jobs;
  si_ids : storage_id < task_id_generator fsm /\
    forall id, is_Some (jobs !! id) -> storage_id < id < task_id_generator fsm
}.

(** ** Changes of the parts *)
Lemma tasks_ok_insert active roles id role task :
  tasks_ok active roles -> role_matches role task -> tasks_ok (<[id := task]> active) (set_role id (Some role) roles).
Proof.
  intros Hok Hm id' Hid'. destruct (decide (id = id')) as [<-|Hne].
  - rewrite lookup_insert_eq, set_role_eq. by constructor.
  - rewrite lookup_insert_ne, set_role_ne by done. by apply Hok.
Qed.

Lemma tasks_ok_delete active roles id : tasks_ok active roles -> tasks_ok (delete id active) (set_role id None roles).
Proof.
  intros Hok id' Hid'. destruct (decide (id = id')) as [<-|Hne].
  - rewrite lookup_delete_eq, set_role_eq. constructor.
  - rewrite lookup_delete_ne, set_role_ne by done. by apply Hok.
Qed.

Lemma tasks_ok_storage active roles task :
  tasks_ok active roles -> tasks_ok (<[storage_id := task]> active) roles.
Proof. intros Hok id Hid. rewrite lookup_insert_ne by done. by apply Hok. Qed.

Lemma tasks_ok_storage_delete active roles : tasks_ok active roles -> tasks_ok (delete storage_id active) roles.
Proof. intros Hok id Hid. rewrite lookup_delete_ne by done. by apply Hok. Qed.

Definition not_running (role : option Role) : Prop := match role with Some (Role_runs _ _) => False | _ => True end.

Lemma pending_ok_perm l l' roles : l ≡ₚ l' -> pending_ok l roles -> pending_ok l' roles.
Proof.
  intros Hp [Hnd Hin]. split.
  - unfold others in *. by rewrite <-Hp.
  - intros ts id Hid. rewrite <-Hp. by apply Hin.
Qed.

Lemma pending_ok_storage ts l roles : pending_ok (mkTimestamped ts storage_id :: l) roles <-> pending_ok l roles.
Proof.
  unfold pending_ok, others. cbn [map timestamped_task_id]. rewrite filter_cons_False by (intros Hn; by apply Hn).
  split; intros [Hnd Hin]; (split; [done|]); intros ts' id Hid; rewrite <-Hin by done; rewrite elem_of_cons.
  - split; [tauto|]. intros [[= -> ->]|?]; [done|done].
  - split; [|tauto]. intros [[= -> ->]|?]; [done|done].
Qed.

(** Taking an entry off the heap. *)
Lemma pending_ok_pop ts id l roles role :
  pending_ok (mkTimestamped ts id :: l) roles -> id <> storage_id -> not_running role ->
  pending_ok l (set_role id role roles).
Proof.
  unfold pending_ok, others. cbn [map timestamped_task_id]. intros [Hnd Hin] Hid Hr.
  rewrite filter_cons_True in Hnd by done. apply NoDup_cons in Hnd as [Hn Hnd]. split; [done|].
  intros ts' id' Hid'. destruct (decide (id' = id)) as [->|Hne].
  - rewrite set_role_eq. split; [|intros [p Hp]; by rewrite Hp in Hr]. intros Hel. destruct Hn.
    apply list_elem_of_filter. split; [done|]. apply list_elem_of_fmap. by eexists (mkTimestamped ts' id).
  - rewrite set_role_ne by done. rewrite <-Hin by done. rewrite elem_of_cons.
    split; [tauto|]. intros [[= -> ->]|?]; done.
Qed.

Lemma pending_ok_push ts id l roles p :
  pending_ok l roles -> id <> storage_id -> not_running (roles !! id) ->
  pending_ok (mkTimestamped ts id :: l) (set_role id (Some (Role_runs p ts)) roles).
Proof.
  unfold pending_ok, others. cbn [map timestamped_task_id]. intros [Hnd Hin] Hid Hr.
  assert (Hno : forall t, mkTimestamped t id ∉ l).
  { intros t Hel. apply Hin in Hel as [p' Hp']; [|done]. by rewrite Hp' in Hr. }
  split.
  - rewrite filter_cons_True by done. apply NoDup_cons. split; [|done]. intros (_ & Hel)%list_elem_of_filter.
    apply list_elem_of_fmap in Hel as ([t id'] & E & Hel). cbn in E. subst id'. by apply (Hno t).
  - intros ts' id' Hid'. rewrite elem_of_cons. destruct (decide (id' = id)) as [->|Hne].
    + rewrite set_role_eq. split.
      * intros [[= ->]|Hel]; [by eexists|by apply Hno in Hel].
      * intros [p' [= _ ->]]. by left.
    + rewrite set_role_ne by done. rewrite <-Hin by done. split; [|tauto].
      intros [[= -> ->]|?]; done.
Qed.

Definition not_asked (role : option Role) : Prop := match role with Some (Role_asked _) => False | _ => True end.
Definition not_waiting (role : option Role) : Prop := match role with Some Role_waits => False | _ => True end.

Lemma queue_ok_same q roles id role :
  queue_ok q roles -> not_asked (roles !! id) -> not_asked role -> queue_ok q (set_role id role roles).
Proof.
  intros [Hnd Hq] Ho Hn. split; [done|]. intros u id'. rewrite Hq. role_cases id' id; [|done].
  split; intros E; by rewrite E in *.
Qed.

Lemma queue_ok_push q roles u id :
  queue_ok q roles -> not_asked (roles !! id) -> queue_ok (q ++ [GetUser u id]) (set_role id (Some (Role_asked u)) roles).
Proof.
  intros [Hnd Hq] Ho. assert (Hno : forall u', GetUser u' id ∉ q).
  { intros u' Hel. apply Hq in Hel. by rewrite Hel in Ho. }
  split.
  - rewrite map_app. apply NoDup_app. split; [done|]. split; [|apply NoDup_singleton].
    intros id' Hel Hid%list_elem_of_singleton. apply list_elem_of_fmap in Hel as ([u' id2] & E & Hel). cbn in *. subst.
    by apply (Hno u').
  - intros u' id'. rewrite elem_of_app, list_elem_of_singleton. role_cases id' id.
    + split; [intros [Hel|[= ->]]; [by apply Hno in Hel|done]|intros [= ->]; by right].
    + rewrite <-Hq. split; [intros [?|[= -> ->]]; done|by left].
Qed.

Lemma queue_ok_pop q roles u id role :
  queue_ok (GetUser u id :: q) roles -> not_asked role -> queue_ok q (set_role id role roles).
Proof.
  intros [Hnd Hq] Hn. cbn in Hnd. apply NoDup_cons in Hnd as [Hno Hnd]. split; [done|].
  intros u' id'. role_cases id' id.
  - split; [|intros E; by rewrite E in Hn]. intros Hel. destruct Hno. apply list_elem_of_fmap. exists (GetUser u' id). done.
  - rewrite <-Hq, elem_of_cons. split; [by right|]. intros [[= -> ->]|?]; done.
Qed.

Lemma awaiter_ok_same a roles id role :
  awaiter_ok a roles -> not_waiting (roles !! id) -> not_waiting role -> awaiter_ok a (set_role id role roles).
Proof.
  intros Ha Ho Hn id'. etrans; [exact (Ha id')|]. role_cases id' id; [|done]. split; intros E; by rewrite E in *.
Qed.

Lemma awaiter_ok_take a roles role :
  awaiter_ok (Some a) roles -> not_waiting role -> awaiter_ok None (set_role a role roles).
Proof.
  intros Ha Hn id. role_cases id a; [split; [done|]; intros E; by rewrite E in Hn|].
  split; [done|]. intros Hw. apply Ha in Hw. congruence.
Qed.

Lemma awaiter_ok_park roles id : awaiter_ok None roles -> awaiter_ok (Some id) (set_role id (Some Role_waits) roles).
Proof.
  intros Ha id'. role_cases id' id; [done|]. etrans; [|exact (Ha id')]. split; congruence.
Qed.

(** What is written by one task is seen by its socket only. *)
Lemma outs_app l l' w : outs (l ++ l') w = outs l w ++ outs l' w.
Proof. apply omap_app. Qed.

Lemma answers_step out roles jobs id role w ts r new :
  answers_ok out roles jobs -> jobs !! id = Some (w, ts, r) ->
  (forall id' w' ts' r', jobs !! id' = Some (w', ts', r') -> w' = w -> id' = id) ->
  (forall l, role_writes role l -> role_writes (roles !! id) (new ++ l)) ->
  answers_ok (out ++ map (fun '(t, text) => (w, t, text)) new) (set_role id role roles) jobs.
Proof.
  intros Ha Hj Hdist Hw id' w' ts' r' Hj' l Hl. rewrite outs_app.
  assert (Hnew : outs (map (fun '(t, text) => (w, t, text)) new) w' = if decide (w' = w) then new else []).
  { unfold outs. clear Hw. induction new as [|[t text] new IH]; cbn; [by case_decide|]. rewrite IH.
    destruct (decide (w' = w)) as [->|]; [by rewrite decide_True|by rewrite decide_False by congruence]. }
  rewrite Hnew, <-app_assoc. case_decide as Hww.
  - pose proof (Hdist _ _ _ _ Hj' Hww) as ->. rewrite set_role_eq in Hl. rewrite Hj in Hj'. injection Hj' as -> -> ->.
    apply (Ha _ _ _ _ Hj). by apply Hw.
  - rewrite set_role_ne in Hl by (intros ->; rewrite Hj in Hj'; congruence). by apply (Ha _ _ _ _ Hj').
Qed.

Lemma writers_step active out jobs id task w ts r new :
  writers_ok active out jobs -> jobs !! id = Some (w, ts, r) -> (id <> storage_id -> writer task = w) ->
  writers_ok (<[id := task]> active) (out ++ map (fun '(t, text) => (w, t, text)) new) jobs.
Proof.
  intros (Ht & Hd & Ho) Hj Hw. split; [|split; [done|]].
  - intros id' task' Hid' Hl. destruct (decide (id = id')) as [<-|Hne].
    + rewrite lookup_insert_eq in Hl. injection Hl as <-. rewrite Hw by done. by do 2 eexists.
    + rewrite lookup_insert_ne in Hl by done. by apply (Ht id').
  - intros w' t text [Hel|Hel]%elem_of_app; [by eapply Ho|].
    apply list_elem_of_fmap in Hel as ([t' text'] & [= -> -> ->] & _). by do 3 eexists.
Qed.

Lemma writers_delete active out jobs id : writers_ok active out jobs -> writers_ok (delete id active) out jobs.
Proof.
  intros (Ht & ?). split; [|done]. intros id' task' Hid' Hl. apply lookup_delete_Some in Hl as [_ Hl]. by apply (Ht id').
Qed.

Lemma writers_storage active out jobs task : writers_ok active out jobs -> writers_ok (<[storage_id := task]> active) out jobs.
Proof.
  intros (Ht & ?). split; [|done]. intros id' task' Hid' Hl. rewrite lookup_insert_ne in Hl by done. by apply (Ht id').
Qed.

Lemma set_role_twice id role role' roles : set_role id role (set_role id role' roles) = set_role id role roles.
Proof. unfold set_role. by rewrite partial_alter_partial_alter_eq. Qed.

(** ** One iteration of the executor *)

(** The runtime with the entry [t] and its task taken out. *)
Definition taken (id : MaroonTaskId) (rest : list TimestampedMaroonTask) (fsm : @MaroonRuntime W) : MaroonRuntime :=
  set_active (delete id (active_tasks fsm)) (set_pending rest fsm).

Section iteration.
Variables (fsm : @MaroonRuntime W) (roles : Roles) (jobs : Jobs).
Hypothesis (Hinv : server_inv fsm roles jobs).
Variables (ts : Z) (id : MaroonTaskId) (rest : list TimestampedMaroonTask).
Hypothesis (Hpop : pending_operations fsm ≡ₚ mkTimestamped ts id :: rest).

Lemma popped_pending : pending_ok (mkTimestamped ts id :: rest) roles.
Proof. eapply pending_ok_perm; [exact Hpop|apply Hinv]. Qed.

Lemma storage_stays_pending :
  id <> storage_id -> storage_id ∈ map timestamped_task_id (pending_operations fsm) ->
  storage_id ∈ map timestamped_task_id rest.
Proof.
  intros Hid Hel. rewrite Hpop in Hel. cbn in Hel. apply elem_of_cons in Hel as [E|Hel]; [by destruct Hid|done].
Qed.

(** The task of an identifier other than the storage's. *)
Lemma popped_task : id <> storage_id -> exists p task w ts0 r,
  roles !! id = Some (Role_runs p ts) /\ active_tasks fsm !! id = Some task /\ in_phase p task /\ phase_ok p /\
  jobs !! id = Some (w, ts0, r) /\ writer task = w.
Proof.
  intros Hid. destruct popped_pending as [_ Hin]. destruct (proj1 (Hin ts id Hid)) as [p Hp]; [left|].
  pose proof (si_tasks _ _ _ Hinv id Hid) as Ht. rewrite Hp in Ht. inversion Ht as [? task Hm Heq1 Heq2|]. subst.
  destruct (proj1 (si_writers _ _ _ Hinv) id task Hid) as (ts0 & r & Hj); [by symmetry|].
  destruct Hm. by exists p, task, (writer task), ts0, r.
Qed.

(** The storage when another task is changed. *)
Lemma storage_kept (active : gmap MaroonTaskId (@MaroonTask W)) pending role :
  id <> storage_id -> active !! storage_id = active_tasks fsm !! storage_id ->
  not_asked (roles !! id) -> not_asked role ->
  (storage_id ∈ map timestamped_task_id rest -> storage_id ∈ map timestamped_task_id pending) ->
  exists task, storage_ok active task /\ queue_ok (in_queue task) (set_role id role roles) /\
    (in_queue task <> [] -> storage_id ∈ map timestamped_task_id pending).
Proof.
  intros Hid Ha Ho Hn Hp. destruct (si_storage _ _ _ Hinv) as (task & [Hs Hst Hh] & Hq & Hw). exists task.
  split; [split; [by rewrite Ha|done|done]|]. split; [by apply queue_ok_same|].
  intros Hne. by apply Hp, storage_stays_pending, Hw.
Qed.

(** Only the task of [id] changes: it goes on in another phase, or ends. *)
Lemma inv_goes p task w ts0 r out delay p' :
  id <> storage_id -> roles !! id = Some (Role_runs p ts) -> in_phase p task -> phase_ok p ->
  jobs !! id = Some (w, ts0, r) -> writer task = w -> phase_ok p' ->
  (forall l, phase_writes p' (later ts delay) l -> phase_writes p ts (option_list ((ts,.) <$> out) ++ l)) ->
  server_inv (pend (later ts delay) id (activate id (as_phase p' task) (write_option w ts out (taken id rest fsm))))
    (set_role id (Some (Role_runs p' (later ts delay))) roles) jobs.
Proof.
  intros Hid Hr Hph Hok Hj Hw Hok' Hn.
  assert (Hwr : written (write_option w ts out (taken id rest fsm)) =
    written fsm ++ map (fun '(t, text) => (w, t, text)) (option_list ((ts,.) <$> out)))
    by (destruct out; cbn; [done|by rewrite app_nil_r]).
  assert (Hrest : active_tasks (write_option w ts out (taken id rest fsm)) = delete id (active_tasks fsm) /\
    pending_operations (write_option w ts out (taken id rest fsm)) = rest /\
    awaiter (write_option w ts out (taken id rest fsm)) = awaiter fsm /\
    daemon_user_storage (write_option w ts out (taken id rest fsm)) = daemon_user_storage fsm /\
    task_id_generator (write_option w ts out (taken id rest fsm)) = task_id_generator fsm) by by destruct out.
  destruct Hrest as (Ea & Ep & Ew & Ed & Eg).
  assert (Hm : role_matches (Role_runs p' (later ts delay)) (as_phase p' task)) by (split; [split; [done|split; [done|apply Hph]]|done]).
  split; cbn; rewrite ?Hwr, ?Ea, ?Ep, ?Ew, ?Ed, ?Eg; try apply Hinv.
  - rewrite <-(set_role_twice _ _ None). apply tasks_ok_insert; [apply tasks_ok_delete, Hinv|done].
  - rewrite <-(set_role_twice _ _ None). apply pending_ok_push; [|done|by rewrite set_role_eq].
    by eapply pending_ok_pop; [exact popped_pending|..].
  - apply awaiter_ok_same; [apply Hinv|by rewrite Hr|done].
  - rewrite set_role_ne by done. apply Hinv.
  - apply (storage_kept _ (mkTimestamped (later ts delay) id :: rest)); [done| |by rewrite Hr|done|by right].
    by rewrite lookup_insert_ne, lookup_delete_ne by done.
  - eapply answers_step; [apply Hinv|exact Hj| |].
    + intros id' w' ts' r' Hj' ->. destruct (si_writers _ _ _ Hinv) as (_ & Hd & _). by eapply Hd.
    + intros l Hl. rewrite Hr. by apply Hn.
  - eapply writers_step; [apply writers_delete, Hinv|exact Hj|done].
Qed.

(** The task ends, having written [new]. *)
Lemma inv_ends p w ts0 r new fsm' :
  id <> storage_id -> roles !! id = Some (Role_runs p ts) ->
  jobs !! id = Some (w, ts0, r) -> phase_writes p ts new ->
  active_tasks fsm' = delete id (active_tasks fsm) -> pending_operations fsm' = rest -> awaiter fsm' = awaiter fsm ->
  daemon_user_storage fsm' = daemon_user_storage fsm -> task_id_generator fsm' = task_id_generator fsm ->
  written fsm' = written fsm ++ map (fun '(t, text) => (w, t, text)) new ->
  server_inv fsm' (set_role id None roles) jobs.
Proof.
  intros Hid Hr Hj Hnew Ea Ep Ew Ed Eg Ewr. split; rewrite ?Ea, ?Ep, ?Ew, ?Ed, ?Eg, ?Ewr; try apply Hinv.
  - apply tasks_ok_delete, Hinv.
  - by eapply pending_ok_pop; [exact popped_pending|..].
  - apply awaiter_ok_same; [apply Hinv|by rewrite Hr|done].
  - rewrite set_role_ne by done. apply Hinv.
  - apply storage_kept; [done|by rewrite lookup_delete_ne|by rewrite Hr|done|done].
  - eapply answers_step; [apply Hinv|exact Hj| |].
    + intros id' w' ts' r' Hj' ->. destruct (si_writers _ _ _ Hinv) as (_ & Hd & _). by eapply Hd.
    + intros l ->. rewrite Hr. cbn. by rewrite app_nil_r.
  - destruct (writers_delete _ _ _ id (si_writers _ _ _ Hinv)) as (Ht & Hd & Ho). split; [done|split; [done|]].
    intros w' t text [Hel|Hel]%elem_of_app; [by eapply Ho|].
    apply list_elem_of_fmap in Hel as ([t' text'] & [= -> -> ->] & _). by do 3 eexists.
Qed.

(** The requester hands its request to the storage. *)
Lemma inv_asks u task w ts0 r st :
  id <> storage_id -> roles !! id = Some (Role_runs (Ph_request u) ts) -> in_phase (Ph_request u) task ->
  jobs !! id = Some (w, ts0, r) -> writer task = w -> storage_ok (active_tasks fsm) st ->
  queue_ok (in_queue st) roles ->
  server_inv (activate id (set_stack [] task) (pend ts storage_id
      (activate storage_id (set_in_queue (in_queue st ++ [GetUser u id]) st) (taken id rest fsm))))
    (set_role id (Some (Role_asked u)) roles) jobs.
Proof.
  intros Hid Hr Hph Hj Hw [Hs Hst Hh] Hq. split; cbn; try apply Hinv.
  - rewrite <-(set_role_twice _ _ None). apply tasks_ok_insert; [|split; [done|split; apply Hph]].
    apply tasks_ok_storage, tasks_ok_delete, Hinv.
  - apply pending_ok_storage. by eapply pending_ok_pop; [exact popped_pending|..].
  - apply awaiter_ok_same; [apply Hinv|by rewrite Hr|done].
  - rewrite set_role_ne by done. apply Hinv.
  - exists (set_in_queue (in_queue st ++ [GetUser u id]) st).
    split; [split; [|done|done]|split; [apply queue_ok_push; [done|by rewrite Hr]|by left]].
    rewrite lookup_insert_ne by done. apply lookup_insert_eq.
  - pose proof (answers_step (written fsm) roles jobs id (Some (Role_asked u)) w ts0 r []) as Ha.
    rewrite app_nil_r in Ha. apply Ha; [apply Hinv|done| |].
    + intros id' w' ts' r' Hj' ->. destruct (si_writers _ _ _ Hinv) as (_ & Hd & _). by eapply Hd.
    + intros l Hl. rewrite Hr. exact Hl.
  - pose proof (writers_step (<[storage_id := set_in_queue (in_queue st ++ [GetUser u id]) st]> (delete id (active_tasks fsm)))
      (written fsm) jobs id (set_stack [] task) w ts0 r []) as Hws. rewrite app_nil_r in Hws. apply Hws; [|done|done].
    apply writers_storage, writers_delete, Hinv.
Qed.

End iteration.

(** The storage finds its queue empty. *)
Lemma inv_storage_idle fsm roles jobs ts rest st :
  server_inv fsm roles jobs -> pending_operations fsm ≡ₚ mkTimestamped ts storage_id :: rest -> storage_ok (active_tasks fsm) st -> in_queue st = [] ->
  server_inv (activate storage_id (push [State Idle] (set_stack [] st)) (taken storage_id rest fsm)) roles jobs.
Proof.
  intros Hinv Hpop [Hs Hst Hh] Hq. assert (Est : push [State Idle] (set_stack [] st) = st)
    by (destruct st; cbn in *; by rewrite Hst).
  assert (Eq : forall t, storage_ok (active_tasks fsm) t -> t = st) by (intros t [Ht _ _]; congruence).
  split; cbn; rewrite ?Est; try apply Hinv.
  - apply tasks_ok_storage, tasks_ok_storage_delete, Hinv.
  - eapply pending_ok_storage, popped_pending; [exact Hinv|exact Hpop].
  - destruct (si_storage _ _ _ Hinv) as (t & Ht & Hqo & _). rewrite (Eq t Ht) in Hqo.
    exists st. split; [split; [apply lookup_insert_eq|done..]|]. split; [done|]. by rewrite Hq.
  - apply writers_storage, writers_delete, Hinv.
Qed.

(** The storage answers the first request of its queue. *)
Lemma inv_storage_answers fsm roles jobs ts rest st u asker asker_task q :
  server_inv fsm roles jobs -> pending_operations fsm ≡ₚ mkTimestamped ts storage_id :: rest -> storage_ok (active_tasks fsm) st -> in_queue st = GetUser u asker :: q ->
  active_tasks fsm !! asker = Some asker_task ->
  server_inv (pend ts storage_id (activate storage_id (push [State Idle] (set_in_queue q (set_stack [] st)))
    (pend ts asker (activate asker (as_phase (Ph_got (initial_store !! u)) asker_task)
      (set_active (delete asker (delete storage_id (active_tasks fsm))) (taken storage_id rest fsm)))))) 
    (set_role asker (Some (Role_runs (Ph_got (initial_store !! u)) ts)) roles) jobs.
Proof.
  intros Hinv Hpop [Hs Hst Hh] Hq Hat.
  destruct (si_storage _ _ _ Hinv) as (t & [Ht _ _] & Hqo & _). replace t with st in * by congruence. clear t Ht.
  assert (Hr : roles !! asker = Some (Role_asked u)) by (apply Hqo; rewrite Hq; left).
  assert (Hne : asker <> storage_id) by (intros ->; by rewrite (si_no_role _ _ _ Hinv) in Hr).
  pose proof (si_tasks _ _ _ Hinv asker Hne) as Hm. rewrite Hr, Hat in Hm. inversion Hm as [? ? Hrm|]. subst. destruct Hrm as (_ & _ & Hiq).
  destruct (proj1 (si_writers _ _ _ Hinv) asker asker_task Hne Hat) as (ts0 & r & Hj).
  split; cbn; try apply Hinv.
  - apply tasks_ok_storage. rewrite <-(set_role_twice _ _ None).
    apply tasks_ok_insert; [|by split; [split; [done|split; [done|done]]|done]].
    apply tasks_ok_delete, tasks_ok_storage_delete, Hinv.
  - apply pending_ok_storage, pending_ok_push; [|done|by rewrite Hr]. eapply pending_ok_storage, popped_pending; [exact Hinv|exact Hpop].
  - apply awaiter_ok_same; [apply Hinv|by rewrite Hr|done].
  - rewrite set_role_ne by done. apply Hinv.
  - exists (push [State Idle] (set_in_queue q (set_stack [] st))). split; [|split; [|by left]].
    + split; [apply lookup_insert_eq|done|done].
    + apply (queue_ok_pop _ _ u); [|done]. cbn. by rewrite <-Hq.
  - pose proof (answers_step (written fsm) roles jobs asker (Some (Role_runs (Ph_got (initial_store !! u)) ts))
      (writer asker_task) ts0 r []) as Ha.
    rewrite app_nil_r in Ha. apply Ha; [apply Hinv|done| |].
    + intros id' w' ts' r' Hj' ->. destruct (si_writers _ _ _ Hinv) as (_ & Hd & _). by eapply Hd.
    + intros l Hl. rewrite Hr. cbn in *. by exists ts.
  - apply writers_storage. pose proof (writers_step (delete asker (delete storage_id (active_tasks fsm)))
      (written fsm) jobs asker (as_phase (Ph_got (initial_store !! u)) asker_task) (writer asker_task) ts0 r []) as Hws.
    rewrite app_nil_r in Hws. apply Hws; [|done|done]. apply writers_delete, writers_delete, Hinv.
Qed.

(** The parked receiver is given a message. *)
Lemma inv_wake fsm roles jobs ts a msg wt :
  server_inv fsm roles jobs -> awaiter fsm = Some a -> active_tasks fsm !! a = Some wt ->
  server_inv (pend ts a (activate a (as_phase (Ph_received ("[" +:+ msg +:+ "] went through state")) wt) (set_awaiter None fsm)))
    (set_role a (Some (Role_runs (Ph_received ("[" +:+ msg +:+ "] went through state")) ts)) roles) jobs.
Proof.
  intros Hinv Ha Hw. pose proof (proj1 (si_awaiter _ _ _ Hinv a) Ha) as Hr.
  assert (Hne : a <> storage_id) by (intros ->; by rewrite (si_no_role _ _ _ Hinv) in Hr).
  pose proof (si_tasks _ _ _ Hinv a Hne) as Hm. rewrite Hr, Hw in Hm. inversion Hm as [? ? Hrm|]. subst. destruct Hrm as (_ & _ & Hiq).
  destruct (proj1 (si_writers _ _ _ Hinv) a wt Hne Hw) as (ts0 & r & Hj).
  split; cbn; try apply Hinv.
  - apply tasks_ok_insert; [apply Hinv|]. by split; [split; [done|split; [done|done]]|done].
  - apply pending_ok_push; [apply Hinv|done|by rewrite Hr].
  - apply awaiter_ok_take; [|done]. rewrite <-Ha. apply Hinv.
  - rewrite set_role_ne by done. apply Hinv.
  - destruct (si_storage _ _ _ Hinv) as (t & [Hs Hst Hh] & Hq & Hp). exists t.
    split; [split; [by rewrite lookup_insert_ne|done|done]|].
    split; [apply queue_ok_same; [done|by rewrite Hr|done]|]. intros Hqn. right. by apply Hp.
  - pose proof (answers_step (written fsm) roles jobs a
      (Some (Role_runs (Ph_received ("[" +:+ msg +:+ "] went through state")) ts)) (writer wt) ts0 r []) as Hans.
    rewrite app_nil_r in Hans. apply Hans; [apply Hinv|done| |].
    + intros id' w' ts' r' Hj' ->. destruct (si_writers _ _ _ Hinv) as (_ & Hd & _). by eapply Hd.
    + intros l Hl. rewrite Hr. right. by exists ts, msg.
  - pose proof (writers_step (active_tasks fsm) (written fsm) jobs a
      (as_phase (Ph_received ("[" +:+ msg +:+ "] went through state")) wt) (writer wt) ts0 r []) as Hws.
    rewrite app_nil_r in Hws. apply Hws; [apply Hinv|done|done].
Qed.

(** *** The work left *)
Definition roles_work (roles : Roles) : nat := sum_list_with (fun e => role_work (snd e)) (map_to_list roles).

Definition storage_entries (pending : list TimestampedMaroonTask) : nat :=
  length (filter (fun id => id = storage_id) (map timestamped_task_id pending)).

#[local] Arguments roles_work : simpl never.
#[local] Arguments storage_entries : simpl never.

Definition server_work (fsm : @MaroonRuntime W) (roles : Roles) : nat :=
  roles_work roles + storage_entries (pending_operations fsm).

Lemma roles_work_delete roles id role :
  roles !! id = Some role -> roles_work roles = (role_work role + roles_work (set_role id None roles))%nat.
Proof.
  intros Hr. unfold roles_work. change (set_role id None roles) with (delete id roles).
  rewrite <-(map_to_list_delete roles id role Hr) at 1. done.
Qed.

Lemma roles_work_set roles id role role' :
  roles !! id = Some role ->
  (roles_work (set_role id (Some role') roles) + role_work role = roles_work roles + role_work role')%nat.
Proof.
  intros Hr. rewrite (roles_work_delete roles id role Hr).
  rewrite (roles_work_delete (set_role id (Some role') roles) id role') by apply set_role_eq.
  rewrite set_role_twice. lia.
Qed.

Lemma storage_entries_perm l l' : l ≡ₚ l' -> storage_entries l = storage_entries l'.
Proof. intros Hp. unfold storage_entries. by rewrite Hp. Qed.

Lemma storage_entries_cons ts id l :
  storage_entries (mkTimestamped ts id :: l) = ((if decide (id = storage_id) then 1 else 0) + storage_entries l)%nat.
Proof. unfold storage_entries. cbn [map timestamped_task_id]. rewrite filter_cons. by case_decide. Qed.

(** ** What one iteration does *)
Definition iterates (now : Z) (fsm : @MaroonRuntime W) (roles : Roles) (jobs : Jobs) : Prop :=
  (execute_one now fsm = Ok None /\ forall t, t ∈ pending_operations fsm -> now < scheduled_timestamp t) \/
  (exists fsm' roles', execute_one now fsm = Ok (Some fsm') /\ server_inv fsm' roles' jobs /\
     task_id_generator fsm' = task_id_generator fsm /\ (server_work fsm' roles' < server_work fsm roles)%nat) \/
  (overflow_checks = true /\ exists msg, execute_one now fsm = Panic msg /\ overflow_message msg).

(** The step of a task that is in a phase. *)
Definition phase_steps (ts : Z) (id : MaroonTaskId) (task : @MaroonTask W) (p : Phase) (rest : list TimestampedMaroonTask)
  (fsm : @MaroonRuntime W) (roles : Roles) (jobs : Jobs) : Prop :=
  exists fsm' roles', phase_run ts id task p (taken id rest fsm) = Ok fsm' /\ server_inv fsm' roles' jobs /\
    task_id_generator fsm' = task_id_generator fsm /\ (server_work fsm' roles' < server_work fsm roles)%nat.

Lemma same_heap (t : @MaroonTask W) : maroon_heap t = Fsm.Empty -> set_heap Fsm.Empty t = t.
Proof. intros <-. by destruct t. Qed.

Section cases.
Variables (fsm : @MaroonRuntime W) (roles : Roles) (jobs : Jobs).
Hypothesis (Hinv : server_inv fsm roles jobs).
Variables (ts : Z) (id : MaroonTaskId) (rest : list TimestampedMaroonTask).
Hypothesis (Hpop : pending_operations fsm ≡ₚ mkTimestamped ts id :: rest) (Hid : id <> storage_id).
Variables (p : Phase) (task : @MaroonTask W) (w : W) (ts0 : Z) (r : Request).
Hypothesis (Hr : roles !! id = Some (Role_runs p ts)) (Hph : in_phase p task) (Hok : phase_ok p)
  (Hj : jobs !! id = Some (w, ts0, r)) (Hw : writer task = w).

Lemma entries_popped : storage_entries (pending_operations fsm) = storage_entries rest.
Proof. rewrite (storage_entries_perm _ _ Hpop), storage_entries_cons. by rewrite decide_False. Qed.

Lemma case_goes out delay p' :
  phase_next p = Goes out delay p' -> phase_steps ts id task p rest fsm roles jobs.
Proof.
  intros Hn. destruct (phase_next_ok _ _ _ _ Hok Hn) as [Hok' Hlt].
  unfold phase_steps, phase_run. rewrite Hn. rewrite Hw. do 2 eexists. split; [reflexivity|].
  split; [eapply inv_goes; try done; intros l Hl; by eapply phase_next_writes|].
  split; [by destruct out|]. unfold server_work.
  pose proof (roles_work_set roles id _ (Role_runs p' (later ts delay)) Hr) as Hs. cbn [role_work] in Hs.
  assert (E : pending_operations (pend (later ts delay) id (activate id (as_phase p' task)
    (write_option w ts out (taken id rest fsm)))) = mkTimestamped (later ts delay) id :: rest) by by destruct out.
  rewrite E, storage_entries_cons, decide_False by done. rewrite entries_popped. lia.
Qed.

Lemma case_ends : phase_next p = Ends -> phase_steps ts id task p rest fsm roles jobs.
Proof.
  intros Hn. unfold phase_steps, phase_run. rewrite Hn. do 2 eexists. split; [reflexivity|].
  split; [|split; [done|]].
  - eapply (inv_ends _ _ _ Hinv ts id rest Hpop p w ts0 r []); try done; [|cbn; by rewrite app_nil_r].
    destruct p; cbn in Hn |- *; repeat case_decide; done.
  - unfold server_work. rewrite (roles_work_delete roles id _ Hr). cbn. rewrite entries_popped.
    destruct p; cbn in Hn; repeat case_decide; try done. unfold phase_work. lia.
Qed.

Lemma case_sends msg : phase_next p = Sends msg -> phase_steps ts id task p rest fsm roles jobs.
Proof.
  intros Hn. assert (exists s, p = Ph_send s /\ msg = "[" +:+ s +:+ "] went through state") as (s & -> & ->)
    by (destruct p; cbn in Hn; repeat case_decide; try done; injection Hn as <-; by eexists).
  unfold phase_steps, phase_run. rewrite Hn. cbn [apply_step_result]. change (awaiter (taken id rest fsm)) with (awaiter fsm).
  destruct (awaiter fsm) as [a|] eqn:Ea.
  2: { do 2 eexists. split; [reflexivity|]. split; [|split; [done|]].
    - eapply (inv_ends _ _ _ Hinv ts id rest Hpop (Ph_send s) w ts0 r [(ts, "no awaiter. closing")]); try done.
      + cbn. exists "no awaiter. closing". split; [done|by right].
      + cbn. by rewrite Hw.
    - unfold server_work. rewrite (roles_work_delete roles id _ Hr). cbn. rewrite entries_popped. unfold phase_work. lia. }
  pose proof (proj1 (si_awaiter _ _ _ Hinv a) Ea) as Hra.
  assert (Hne : a <> id) by (intros ->; rewrite Hr in Hra; done).
  assert (Has : a <> storage_id) by (intros ->; by rewrite (si_no_role _ _ _ Hinv) in Hra).
  pose proof (si_tasks _ _ _ Hinv a Has) as Hm. rewrite Hra in Hm. inversion Hm as [? wt Hrm Heq1 Heq2|]. subst.
  destruct Hrm as (Hws & Hwh & _).
  assert (Hmid := inv_goes _ _ _ Hinv ts id rest Hpop (Ph_send s) task (writer task) ts0 r (Some "message has been sent") None
    (Ph_completed [] Fsm.Empty) Hid Hr Hph Hok Hj eq_refl I).
  assert (Hmid' : server_inv (pend ts id (activate id (as_phase (Ph_completed [] Fsm.Empty) task)
    (write_text (writer task) ts "message has been sent" (taken id rest fsm))))
    (set_role id (Some (Role_runs (Ph_completed [] Fsm.Empty) ts)) roles) jobs).
  { apply Hmid. intros l ->. cbn. exists "message has been sent". split; [done|by left]. }
  clear Hmid. cbn [active_tasks taken set_awaiter set_active set_pending]. rewrite lookup_delete_ne by done.
  rewrite <-Heq2. cbn [mbind result_bind]. unfold debug_validate_maroon_stack. cbn [cfg_test plain_build mbind result_bind].
  assert (Hlook : active_tasks (pend ts id (activate id (as_phase (Ph_completed [] Fsm.Empty) task)
    (write_text (writer task) ts "message has been sent" (taken id rest fsm)))) !! a = Some wt)
    by (cbn; by rewrite lookup_insert_ne, lookup_delete_ne by done).
  pose proof (inv_wake _ _ _ ts a s wt Hmid' Ea Hlook) as Hfin.
  do 2 eexists. split; [reflexivity|]. split; [|split; [done|]].
  - match goal with |- server_inv ?x _ _ => match type of Hfin with server_inv ?y _ _ => replace x with y; [exact Hfin|] end end.
    unfold pend, activate, set_pending, set_active, as_phase, push. cbn. rewrite Hws.
    rewrite (same_heap wt) by done. rewrite (same_heap task) by apply Hph. f_equal.
    rewrite (insert_insert_ne _ a id) by done. rewrite (insert_insert_ne (delete a _) a id) by done.
    by rewrite insert_delete_eq.
  - unfold server_work.
    assert (Hra' : set_role id (Some (Role_runs (Ph_completed [] Fsm.Empty) ts)) roles !! a = Some Role_waits)
      by by rewrite set_role_ne.
    pose proof (roles_work_set roles id _ (Role_runs (Ph_completed [] Fsm.Empty) ts) Hr) as H1.
    pose proof (roles_work_set _ a _ (Role_runs (Ph_received ("[" +:+ s +:+ "] went through state")) ts) Hra') as H2.
    cbn [role_work] in H1, H2. unfold phase_work in H1, H2. rewrite entries_popped. cbn [pending_operations pend set_pending].
    rewrite storage_entries_cons, decide_False by done. cbn. rewrite storage_entries_cons, decide_False by done. cbn. lia.
Qed.

Lemma case_asks u : phase_next p = Asks u -> phase_steps ts id task p rest fsm roles jobs.
Proof.
  intros Hn. assert (p = Ph_request u) as -> by (destruct p; cbn in Hn; repeat case_decide; try done; by injection Hn as ->).
  unfold phase_steps, phase_run. rewrite Hn. cbn [apply_step_result].
  destruct (si_storage _ _ _ Hinv) as (st & Hst & Hq & _).
  change (daemon_user_storage (taken id rest fsm)) with (daemon_user_storage fsm). rewrite (si_daemon _ _ _ Hinv).
  cbn [expect mbind result_bind active_tasks taken set_active set_pending].
  rewrite lookup_delete_ne, (so_active _ _ Hst) by done. cbn [expect mbind result_bind].
  do 2 eexists. split; [reflexivity|]. split; [by eapply inv_asks|]. split; [done|]. unfold server_work.
  pose proof (roles_work_set roles id _ (Role_asked u) Hr) as Hs. cbn [role_work] in Hs. unfold phase_work in Hs.
  rewrite entries_popped. cbn. rewrite storage_entries_cons, decide_True by done. lia.
Qed.

Lemma case_phase : phase_steps ts id task p rest fsm roles jobs.
Proof.
  destruct (phase_next p) as [out delay p'| |msg|u] eqn:Hn;
    [by eapply case_goes|by apply case_ends|by eapply case_sends|by eapply case_asks].
Qed.
End cases.

(** The two cases of the storage. *)
Lemma case_storage fsm roles jobs ts rest st :
  server_inv fsm roles jobs -> pending_operations fsm ≡ₚ mkTimestamped ts storage_id :: rest ->
  storage_ok (active_tasks fsm) st -> queue_ok (in_queue st) roles ->
  exists fsm' roles', run_task ts storage_id st (taken storage_id rest fsm) = Ok fsm' /\ server_inv fsm' roles' jobs /\
    task_id_generator fsm' = task_id_generator fsm /\ (server_work fsm' roles' < server_work fsm roles)%nat.
Proof.
  intros Hinv Hpop Hst Hq. unfold run_task, debug_validate_maroon_stack. cbn [cfg_test plain_build mbind result_bind].
  rewrite (so_stack _ _ Hst). change [State Idle] with ([] ++ [State Idle]). rewrite vec_pop_snoc.
  cbn [app expect mbind result_bind maroon_task_state_local_vars_count pop_vars in_queue set_stack].
  assert (He : storage_entries (pending_operations fsm) = S (storage_entries rest))
    by (rewrite (storage_entries_perm _ _ Hpop), storage_entries_cons; by rewrite decide_True).
  destruct (in_queue st) as [|[u asker] q] eqn:Eq.
  - cbn [maroon_stack set_stack]. do 2 eexists. split; [reflexivity|].
    split; [by eapply inv_storage_idle|]. split; [done|]. unfold server_work. rewrite He. cbn. lia.
  - pose proof (proj1 (proj2 Hq u asker)) as Hr. rewrite <-Eq in Hq. specialize (Hr ltac:(left)).
    assert (Hne : asker <> storage_id) by (intros ->; by rewrite (si_no_role _ _ _ Hinv) in Hr).
    pose proof (si_tasks _ _ _ Hinv asker Hne) as Hm. rewrite Hr in Hm. inversion Hm as [? at_ Hrm Heq1 Heq2|]. subst.
    destruct Hrm as (Has & Hah & _).
    unfold step_task. cbn [global_step message_step app mbind result_bind maroon_heap set_in_queue set_stack].
    cbn [apply_step_result active_tasks taken set_active set_pending]. rewrite lookup_delete_ne, <-Heq2 by done.
    cbn [expect mbind result_bind maroon_heap set_heap]. rewrite (so_heap _ _ Hst). cbn [mbind result_bind].
    pose proof (inv_storage_answers fsm roles jobs ts rest st u asker at_ q Hinv Hpop Hst Eq (eq_sym Heq2)) as Hfin.
    do 2 eexists. split; [reflexivity|]. split; [|split; [done|]].
    + match goal with |- server_inv ?x _ _ => match type of Hfin with server_inv ?y _ _ => replace x with y; [exact Hfin|] end end.
      unfold pend, activate, set_pending, set_active, as_phase, push. cbn. rewrite (same_heap at_), Has by done.
      do 3 f_equal. destruct st. cbn. by rewrite (so_heap _ _ Hst : maroon_heap = _).
    + unfold server_work. rewrite He. pose proof (roles_work_set roles asker _ (Role_runs (Ph_got (initial_store !! u)) ts) Hr) as Hs.
      cbn [role_work] in Hs. unfold phase_work in Hs. cbn. rewrite storage_entries_cons, decide_True by done.
      cbn. rewrite storage_entries_cons, decide_False by done. cbn. lia.
Qed.
End invariant.
