(* ===== verification/FsmServer.v ===== *)
(** * The state machine demo: the server's promises

    Every run of the server of [Fsm], from [main]: no iteration panics but with an overflow
    that the build checks for, each socket is sent the answer to its request and nothing else,
    and the executor comes to rest. [FsmHttp] has the server around it. *)
From S2P Require Import Prelude Fsm FsmSpec FsmInv.
From stdpp Require Import pretty.
Local Open Scope string_scope.
Local Open Scope list_scope.
Local Open Scope Z_scope.
#[local] Existing Instance plain_build.

Section server.
Context `{Profile} `{BinaryHeap} {W : Type} `{EqDecision W}.

(** ** The executor *)
Lemma execute_iterates now (fsm : @MaroonRuntime W) roles jobs :
  server_inv fsm roles jobs -> iterates now fsm roles jobs.
Proof.
  intros Hinv. unfold iterates, execute_one. destruct (decide (pending_operations fsm = [])) as [E|Hne].
  { left. rewrite E, heap_pop_nil. split; [done|]. by intros t ?%elem_of_nil. }
  destruct (heap_pop_some scheduled_timestamp _ Hne) as ([ts id] & rest & E & Hpop & Hmin). rewrite E. cbn [scheduled_timestamp] in *.
  destruct (decide (ts <= now)) as [Hdue|Hdue].
  2: { left. split; [done|]. intros t Ht. specialize (Hmin t Ht). lia. }
  right. cbn [timestamped_task_id active_tasks set_pending]. fold (taken id rest fsm).
  destruct (decide (id = storage_id)) as [->|Hid].
  - destruct (si_storage _ _ _ Hinv) as (st & Hst & Hq & _). rewrite (so_active _ _ Hst). cbn [expect mbind result_bind].
    destruct (case_storage _ _ _ _ _ _ Hinv Hpop Hst Hq) as (fsm' & roles' & Hrun & ? & ? & ?).
    change (set_active _ _) with (taken storage_id rest fsm). rewrite Hrun. left. by exists fsm', roles'.
  - destruct (popped_task _ _ _ Hinv ts id rest Hpop Hid) as (p & task & w & ts0 & r & Hr & Ha & Hph & Hok & Hj & Hw).
    rewrite Ha. cbn [expect mbind result_bind]. change (set_active _ _) with (taken id rest fsm).
    assert (Hphase : runs ts id task (taken id rest fsm) p) by (apply run_phase; done).
    destruct Hphase as [(Ho & msg & Hp & Hm)|Hrun].
    + right. split; [done|]. exists msg. by rewrite Hp.
    + destruct (case_phase _ _ _ Hinv ts id rest Hpop Hid p task w ts0 r Hr Hph Hok Hj Hw) as (fsm' & roles' & Hs & ? & ? & ?).
      rewrite Hrun, Hs. left. by exists fsm', roles'.
Qed.

(** ** The handlers *)
Definition initial_phase (r : Request) : option Phase :=
  match r with
  | Req_delay t s => Some (Ph_delay_begin t s)
  | Req_send s => Some (Ph_send s)
  | Req_receive => None
  | Req_divisors n => Some (Ph_divisors_begin n n)
  | Req_fibonacci n => Some (Ph_fibonacci_begin n)
  | Req_factorial n => Some (Ph_factorial_entry n)
  | Req_get_user id => Some (Ph_request id)
  end.

Lemma initial_phase_ok r p : request_ok r -> initial_phase r = Some p -> phase_ok p.
Proof. destruct r; intros Hr [= <-]; cbn in *; unfold u64_ok in *; try done; lia. Qed.

Lemma initial_phase_writes r p ts l : initial_phase r = Some p -> phase_writes p ts l -> expected r ts l.
Proof. by destruct r; intros [= <-]. Qed.

(** The role of a new task. *)
Definition initial_role (r : Request) (ts : Z) : Role :=
  match initial_phase r with Some p => Role_runs p ts | None => Role_waits end.

Lemma no_output out jobs (active : gmap MaroonTaskId (@MaroonTask W)) w :
  writers_ok active out jobs -> (forall id ts r, jobs !! id <> Some (w, ts, r)) -> outs out w = [].
Proof.
  intros (_ & _ & Ho) Hn. destruct (outs out w) as [|[t text] l] eqn:E; [done|exfalso].
  assert (Hel : (t, text) ∈ outs out w) by (rewrite E; left).
  apply list_elem_of_omap in Hel as ([[w' t'] text'] & Hel & Hd). case_decide; [|done]. injection Hd as -> ->. subst.
  destruct (Ho _ _ _ Hel) as (id & ts & r & Hj). by eapply Hn.
Qed.

(** The invariant with a new task. *)
Lemma inv_new (fsm fsm' : @MaroonRuntime W) roles jobs socket ts r task :
  server_inv fsm roles jobs -> request_ok r -> (forall id ts' r', jobs !! id <> Some (socket, ts', r')) ->
  writer task = socket -> role_matches (initial_role r ts) task -> written fsm' = written fsm ->
  active_tasks fsm' = <[task_id_generator fsm := task]> (active_tasks fsm) ->
  daemon_user_storage fsm' = daemon_user_storage fsm -> task_id_generator fsm' = task_id_generator fsm + 1 ->
  match initial_phase r with
  | Some _ => pending_operations fsm' = mkTimestamped ts (task_id_generator fsm) :: pending_operations fsm /\
      awaiter fsm' = awaiter fsm
  | None => pending_operations fsm' = pending_operations fsm /\ awaiter fsm = None /\
      awaiter fsm' = Some (task_id_generator fsm)
  end ->
  server_inv fsm' (set_role (task_id_generator fsm) (Some (initial_role r ts)) roles)
    (<[task_id_generator fsm := (socket, ts, r)]> jobs).
Proof.
  intros Hinv Hok Hfresh Hw Hm Ewr Ea Ed Eg Hcase. set (id := task_id_generator fsm : MaroonTaskId) in *.
  destruct (si_ids _ _ _ Hinv) as [Hgen Hids]. fold id in Hgen, Hids.
  assert (Hid : id <> storage_id) by lia.
  assert (Hnj : jobs !! id = None).
  { destruct (jobs !! id) eqn:E; [|done]. exfalso. specialize (Hids id ltac:(by eexists)). lia. }
  assert (Hna : active_tasks fsm !! id = None).
  { destruct (active_tasks fsm !! id) as [t|] eqn:E; [|done].
    destruct (proj1 (si_writers _ _ _ Hinv) id t Hid E) as (? & ? & Hj). by rewrite Hnj in Hj. }
  assert (Hnr : roles !! id = None).
  { pose proof (si_tasks _ _ _ Hinv id Hid) as Ht. rewrite Hna in Ht. by inversion Ht. }
  assert (Hstor : forall pending, (storage_id ∈ map timestamped_task_id (pending_operations fsm) ->
      storage_id ∈ map timestamped_task_id pending) -> not_asked (Some (initial_role r ts)) ->
    exists st, storage_ok (<[id := task]> (active_tasks fsm)) st /\
      queue_ok (in_queue st) (set_role id (Some (initial_role r ts)) roles) /\
      (in_queue st <> [] -> storage_id ∈ map timestamped_task_id pending)).
  { intros pending Hp Hna'. destruct (si_storage _ _ _ Hinv) as (st & [Hs Hst Hh] & Hq & Hwk). exists st.
    split; [split; [by rewrite lookup_insert_ne|done|done]|].
    split; [apply queue_ok_same; [done|by rewrite Hnr|done]|]. intros Hqn. by apply Hp, Hwk. }
  assert (Hask : not_asked (Some (initial_role r ts))) by by destruct r.
  split; rewrite ?Ewr, ?Ea, ?Ed, ?Eg; try apply Hinv.
  - apply tasks_ok_insert; [apply Hinv|done].
  - unfold initial_role in *. destruct (initial_phase r) as [p|]; destruct Hcase as [Ep Hcase]; rewrite Ep.
    + apply pending_ok_push; [apply Hinv|done|by rewrite Hnr].
    + pose proof (si_pending _ _ _ Hinv) as [Hnd Hin]. split; [done|]. intros ts' id' Hid'. rewrite Hin by done.
      role_cases id' id; [|done]. rewrite Hnr. split; intros [? ?]; done.
  - unfold initial_role in *. destruct (initial_phase r) as [p|].
    + destruct Hcase as [_ ->]. apply awaiter_ok_same; [apply Hinv|by rewrite Hnr|done].
    + destruct Hcase as (_ & Ew & ->). apply awaiter_ok_park. rewrite <-Ew. apply Hinv.
  - rewrite set_role_ne by done. apply Hinv.
  - destruct (initial_phase r) as [p|]; destruct Hcase as [Ep _]; rewrite Ep; apply Hstor; try done. by right.
  - intros id' w' ts' r' Hj l Hl. destruct (decide (id = id')) as [<-|Hne].
    + rewrite lookup_insert_eq in Hj. injection Hj as <- <- <-. rewrite set_role_eq in Hl.
      rewrite (no_output _ _ _ _ (si_writers _ _ _ Hinv) Hfresh). cbn [app]. unfold initial_role in Hl.
      destruct (initial_phase r) as [p|] eqn:Ep; [by eapply initial_phase_writes|]. destruct r; try done.
    + rewrite lookup_insert_ne in Hj by done. rewrite set_role_ne in Hl by done.
      by apply (si_answers _ _ _ Hinv id' w' ts' r').
  - destruct (si_writers _ _ _ Hinv) as (Ht & Hd & Ho). split; [|split].
    + intros id' t Hid' Hl. destruct (decide (id = id')) as [<-|Hne].
      * rewrite lookup_insert_eq in Hl. injection Hl as <-. rewrite lookup_insert_eq, Hw. by do 2 eexists.
      * rewrite lookup_insert_ne in Hl by done. destruct (Ht id' t Hid' Hl) as (t' & r' & Hj). exists t', r'.
        by rewrite lookup_insert_ne.
    + intros i i' w' t1 r1 t2 r2 H1 H2. apply lookup_insert_Some in H1, H2.
      destruct H1 as [[<- E1]|[? H1]], H2 as [[<- E2]|[? H2]]; [done| | |by eapply Hd]; exfalso.
      * injection E1 as <- <- <-. by eapply Hfresh.
      * injection E2 as <- <- <-. by eapply Hfresh.
    + intros w' t text Hel. destruct (Ho _ _ _ Hel) as (i & t' & r' & Hj). exists i, t', r'.
      rewrite lookup_insert_ne; [done|]. intros <-. by rewrite Hnj in Hj.
  - split; [lia|]. intros i [x Hx]. apply lookup_insert_Some in Hx as [[<- _]|[_ Hx]]; [lia|].
    specialize (Hids i ltac:(by eexists)). lia.
Qed.

(** A handler adds its task, unless a receiver is parked already. *)
Lemma handle_ok (fsm : @MaroonRuntime W) roles jobs socket ts r :
  server_inv fsm roles jobs -> request_ok r -> (forall id ts' r', jobs !! id <> Some (socket, ts', r')) ->
  u64_ok (task_id_generator fsm + 1) ->
  (exists fsm', handle socket ts r fsm = Ok fsm' /\ task_id_generator fsm' = task_id_generator fsm + 1 /\
     server_inv fsm' (set_role (task_id_generator fsm) (Some (initial_role r ts)) roles)
       (<[task_id_generator fsm := (socket, ts, r)]> jobs)) \/
  (r = Req_receive /\ exists msg, handle socket ts r fsm = Panic msg).
Proof.
  intros Hinv Hok Hfresh Hgen.
  assert (Hm : forall p, initial_phase r = Some p -> forall task : @MaroonTask W, in_phase p task -> role_matches (initial_role r ts) task).
  { intros p Hp task Ht. unfold initial_role. rewrite Hp. split; [done|by eapply initial_phase_ok]. }
  destruct (initial_phase r) as [p|] eqn:Hp; [|destruct r; try done].
  - left. destruct r; try done; cbn [handle]; unfold delay_handler_ws, send_handler_ws, divisors_handler_ws,
      fibonacci_handler_ws, factorial_handler_ws, get_user_handler_ws, schedule, next_task_id;
      rewrite u64_add_ok by done; cbn [mbind result_bind]; (eexists; split; [reflexivity|]; split; [done|]);
      (eapply inv_new; [done|done|done| | |reflexivity|reflexivity|reflexivity|reflexivity|done]; [done|]);
      injection Hp as <-; by eapply Hm.
  - cbn [handle]. unfold receive_handler_ws, park_awaiter, next_task_id. destruct (awaiter fsm) eqn:Ea; [right; by eauto|left].
    rewrite u64_add_ok by done. cbn [mbind result_bind]. eexists. split; [reflexivity|]. split; [done|].
    eapply inv_new; [done|done|done| | |reflexivity|reflexivity|reflexivity|reflexivity|done]; done.
Qed.

(** ** Runs *)
Definition sockets (evs : list (@Event W)) : list W :=
  omap (fun ev => match ev with Ev_request w _ _ => Some w | Ev_execute _ => None end) evs.

Definition events_ok (evs : list (@Event W)) : Prop :=
  Forall (fun ev => match ev with Ev_request _ _ r => request_ok r | Ev_execute _ => True end) evs /\
  NoDup (sockets evs) /\ Z.of_nat (length evs) + 3 < u64_modulus.

(** What the events so far have left behind. *)
Definition server_at (evs : list (@Event W)) (fsm : @MaroonRuntime W) : Prop :=
  exists roles jobs, server_inv fsm roles jobs /\
    task_id_generator fsm <= Z.of_nat (length evs) + 2 /\
    (forall w ts r, Ev_request w ts r ∈ evs ->
       (exists id, jobs !! id = Some (w, ts, r)) \/
       (r = Req_receive /\ forall id ts' r', jobs !! id <> Some (w, ts', r'))) /\
    (forall id w ts r, jobs !! id = Some (w, ts, r) -> w ∈ sockets evs).

Lemma sockets_snoc evs w ts r : sockets (evs ++ [Ev_request w ts r]) = sockets evs ++ [w].
Proof. unfold sockets. by rewrite omap_app. Qed.

Lemma server_request evs fsm w ts r :
  server_at evs fsm -> request_ok r -> w ∉ sockets evs -> Z.of_nat (length evs) + 4 < u64_modulus ->
  exists fsm', on_event fsm (Ev_request w ts r) = Ok fsm' /\ server_at (evs ++ [Ev_request w ts r]) fsm'.
Proof.
  intros (roles & jobs & Hinv & Hgen & Hacc & Hsock) Hok Hw Hlen.
  assert (Hfresh : forall id ts' r', jobs !! id <> Some (w, ts', r')) by (intros id ts' r' Hj; by apply Hsock in Hj).
  destruct (si_ids _ _ _ Hinv) as [Hpos Hids]. unfold storage_id in *.
  destruct (handle_ok fsm roles jobs w ts r Hinv Hok Hfresh) as [(fsm' & Hh & Hg & Hinv')|(-> & msg & Hh)];
    [unfold u64_ok; lia| |]; unfold on_event; rewrite Hh.
  - exists fsm'. split; [done|]. do 2 eexists. split; [exact Hinv'|]. split; [rewrite length_app; cbn; lia|].
    assert (Hfree : forall x, jobs !! (task_id_generator fsm : MaroonTaskId) <> Some x).
    { intros x Hx. specialize (Hids (task_id_generator fsm) ltac:(by exists x)). lia. }
    split.
    + intros w' ts' r' [Hel|Hel]%elem_of_app.
      * destruct (Hacc _ _ _ Hel) as [[id Hj]|[-> Hn]].
        -- left. exists id. rewrite lookup_insert_ne; [done|]. intros <-. by apply Hfree in Hj.
        -- right. split; [done|]. intros id t x Hj. apply lookup_insert_Some in Hj as [[_ [= -> -> ->]]|[_ Hj]]; [|by apply Hn in Hj].
           apply Hw, list_elem_of_omap. by eexists.
      * apply list_elem_of_singleton in Hel as [= -> -> ->]. left. eexists. apply lookup_insert_eq.
    + intros id w' t x Hj. rewrite sockets_snoc, elem_of_app, list_elem_of_singleton.
      apply lookup_insert_Some in Hj as [[_ [= -> -> ->]]|[_ Hj]]; [by right|left; by eapply Hsock].
  - exists fsm. split; [done|]. exists roles, jobs. split; [done|]. split; [rewrite length_app; cbn; lia|]. split.
    + intros w' ts' r' [Hel|Hel]%elem_of_app; [by apply Hacc|].
      apply list_elem_of_singleton in Hel as [= -> -> ->]. by right.
    + intros id w' t x Hj. rewrite sockets_snoc, elem_of_app. left. by eapply Hsock.
Qed.

Lemma server_iteration evs fsm now :
  server_at evs fsm ->
  (exists fsm', on_event fsm (Ev_execute now) = Ok fsm' /\ server_at (evs ++ [Ev_execute now]) fsm') \/
  (overflow_checks = true /\ exists msg, on_event fsm (Ev_execute now) = Panic msg /\ overflow_message msg).
Proof.
  intros (roles & jobs & Hinv & Hgen & Hacc & Hsock).
  assert (Hs : sockets (evs ++ [Ev_execute now]) = sockets evs) by (unfold sockets; rewrite omap_app; cbn; by rewrite app_nil_r).
  assert (Ha : forall w ts r, Ev_request w ts r ∈ evs ++ [Ev_execute now] -> Ev_request w ts r ∈ evs).
  { intros w ts r [Hel|Hel]%elem_of_app; [done|]. by apply list_elem_of_singleton in Hel. }
  unfold on_event. destruct (execute_iterates now fsm roles jobs Hinv)
    as [[E _]|[(fsm' & roles' & E & Hinv' & Hg & _)|(Ho & msg & E & Hm)]]; rewrite E; cbn [mbind result_bind].
  - left. exists fsm. split; [done|]. exists roles, jobs. rewrite Hs, length_app. cbn. split; [done|]. split; [lia|].
    split; [|done]. intros w ts r Hel. by apply Hacc, Ha.
  - left. exists fsm'. split; [done|]. exists roles', jobs. rewrite Hs, length_app. cbn. split; [done|]. split; [lia|].
    split; [|done]. intros w ts r Hel. by apply Hacc, Ha.
  - right. split; [done|]. by exists msg.
Qed.

Lemma server_start printer : exists fsm, create_user_storage printer runtime_default = Ok fsm /\ server_at [] fsm.
Proof.
  unfold create_user_storage, next_task_id. cbn [daemon_user_storage runtime_default task_id_generator].
  rewrite u64_add_ok by (unfold NextTaskIdGenerator_new; u64_solve). cbn [mbind result_bind]. eexists. split; [reflexivity|].
  exists ∅, ∅. split; [|split; [done|split; [by intros w ts r ?%elem_of_nil|done]]].
  split; cbn.
  - intros id Hid. rewrite lookup_insert_ne by done. rewrite !lookup_empty. constructor.
  - split; [constructor|]. intros ts id Hid. rewrite lookup_empty. split; [by intros ?%elem_of_nil|by intros [? ?]].
  - intros id. by rewrite lookup_empty.
  - done.
  - done.
  - eexists. split; [split; [apply lookup_insert_eq|done|done]|]. split; [|done]. split; [constructor|].
    intros u id. rewrite lookup_empty. split; [by intros ?%elem_of_nil|done].
  - intros id w ts r Hj. by rewrite lookup_empty in Hj.
  - split; [|split; [done|by intros w ts text ?%elem_of_nil]].
    intros id task Hid Hl. by rewrite lookup_insert_ne in Hl.
  - split; [done|]. intros id [x Hx]. by rewrite lookup_empty in Hx.
Qed.

(** A whole run keeps the invariant, or ends in an overflow that is checked. *)
Lemma server_run printer evs :
  events_ok evs ->
  (exists fsm, run_server printer evs = Ok fsm /\ server_at evs fsm) \/
  (overflow_checks = true /\ exists msg, run_server printer evs = Panic msg /\ overflow_message msg).
Proof.
  intros (Hok & Hnd & Hlen). destruct (server_start printer) as (fsm0 & Hs & Hat). unfold run_server. rewrite Hs.
  cbn [mbind result_bind]. clear Hs.
  enough (Hgen : forall earlier fsm, server_at earlier fsm -> NoDup (sockets (earlier ++ evs)) ->
    Z.of_nat (length (earlier ++ evs)) + 3 < u64_modulus ->
    (exists fsm', for_each evs on_event fsm = Ok fsm' /\ server_at (earlier ++ evs) fsm') \/
    (overflow_checks = true /\ exists msg, for_each evs on_event fsm = Panic msg /\ overflow_message msg))
    by by apply (Hgen []).
  clear fsm0 Hat Hnd Hlen. induction evs as [|ev evs IH]; intros earlier fsm Hat Hnd Hlen.
  { left. exists fsm. by rewrite app_nil_r. }
  apply Forall_cons in Hok as [Hev Hok].
  assert (Hcons : earlier ++ ev :: evs = (earlier ++ [ev]) ++ evs) by by rewrite <-app_assoc.
  cbn [for_each]. destruct ev as [w ts r|now].
  - destruct (server_request earlier fsm w ts r Hat Hev) as (fsm' & E & Hat').
    + intros Hel. unfold sockets in Hnd. rewrite omap_app in Hnd. cbn in Hnd.
      apply NoDup_app in Hnd as (_ & Hd & _). apply (Hd w Hel). left.
    + rewrite length_app in Hlen. cbn in Hlen. lia.
    + rewrite E. cbn [mbind result_bind]. rewrite Hcons in *. by apply IH.
  - destruct (server_iteration earlier fsm now Hat) as [(fsm' & E & Hat')|(Ho & msg & E & Hm)].
    + rewrite E. cbn [mbind result_bind]. rewrite Hcons in *. by apply IH.
    + right. split; [done|]. exists msg. by rewrite E.
Qed.

(** ** Answers *)
Lemma role_writes_exist role : exists l, role_writes role l.
Proof.
  destruct role as [[p due| |u]|]; cbn.
  - destruct p as [| | | | | | | | | | | | | | | |s|u_id| |]; cbn; try (eexists; reflexivity).
    + exists [(due, "message has been sent")], "message has been sent". split; [done|by left].
    + by exists [(due, user_line (initial_store !! u_id))], due.
  - exists []. by left.
  - by exists [(0, user_line (initial_store !! u))], 0.
  - by exists [].
Qed.

Lemma answers_begun evs fsm w ts r :
  server_at evs fsm -> Ev_request w ts r ∈ evs -> exists rest, expected r ts (outs (written fsm) w ++ rest).
Proof.
  intros (roles & jobs & Hinv & _ & Hacc & _) Hel. destruct (Hacc _ _ _ Hel) as [[id Hj]|[-> Hn]].
  - destruct (role_writes_exist (roles !! id)) as [l Hl]. exists l. by eapply (si_answers _ _ _ Hinv).
  - exists []. rewrite (no_output _ _ _ _ (si_writers _ _ _ Hinv)) by (intros id ts' r'; apply Hn). by left.
Qed.

Lemma answers_complete evs fsm w ts r :
  server_at evs fsm -> Ev_request w ts r ∈ evs ->
  (forall id task, id <> storage_id -> active_tasks fsm !! id = Some task -> writer task <> w) ->
  expected r ts (outs (written fsm) w).
Proof.
  intros (roles & jobs & Hinv & _ & Hacc & _) Hel Hno. destruct (Hacc _ _ _ Hel) as [[id Hj]|[-> Hn]].
  - destruct (si_ids _ _ _ Hinv) as [_ Hids]. specialize (Hids id ltac:(by eexists)).
    assert (Hid : id <> storage_id) by lia. pose proof (si_tasks _ _ _ Hinv id Hid) as Ht.
    rewrite <-(app_nil_r (outs _ _)). eapply (si_answers _ _ _ Hinv); [exact Hj|].
    inversion Ht as [role task Hm Er Ea|Er Ea]; [|done].
    destruct (proj1 (si_writers _ _ _ Hinv) id task Hid) as (t' & r' & Hj'); [by symmetry|].
    assert (Hjj := eq_trans (eq_sym Hj) Hj'). injection Hjj as -> _ _. by destruct (Hno id task Hid).
  - rewrite (no_output _ _ _ _ (si_writers _ _ _ Hinv)) by (intros id ts' r'; apply Hn). by left.
Qed.

Lemma nothing_pending (fsm : @MaroonRuntime W) roles jobs id role :
  server_inv fsm roles jobs -> pending_operations fsm = [] -> id <> storage_id -> roles !! id = Some role -> role = Role_waits.
Proof.
  intros Hinv Hp Hid Hr. destruct role as [p due| |u]; [exfalso|done|exfalso].
  - destruct (si_pending _ _ _ Hinv) as [_ Hin]. rewrite Hp in Hin.
    assert (Hel : mkTimestamped due id ∈ @nil TimestampedMaroonTask) by (apply Hin; [done|by exists p]).
    by apply elem_of_nil in Hel.
  - destruct (si_storage _ _ _ Hinv) as (st & _ & [_ Hq] & Hw). apply Hq in Hr. rewrite Hp in Hw.
    destruct (in_queue st); [by apply elem_of_nil in Hr|]. by specialize (Hw ltac:(done)) as ?%elem_of_nil.
Qed.

Lemma answers_at_rest evs fsm w ts r :
  server_at evs fsm -> pending_operations fsm = [] -> Ev_request w ts r ∈ evs -> r <> Req_receive ->
  expected r ts (outs (written fsm) w).
Proof.
  intros (roles & jobs & Hinv & _ & Hacc & _) Hp Hel Hne. destruct (Hacc _ _ _ Hel) as [[id Hj]|[-> Hn]]; [|done].
  destruct (si_ids _ _ _ Hinv) as [_ Hids]. specialize (Hids id ltac:(by eexists)).
  rewrite <-(app_nil_r (outs _ _)). eapply (si_answers _ _ _ Hinv); [exact Hj|].
  destruct (roles !! id) as [role|] eqn:Er; [|done].
  rewrite (nothing_pending fsm roles jobs id role Hinv Hp) by (done || lia). by left.
Qed.

(** ** The executor comes to rest

    [executes clock k fsm fsm']: the first [k] turns of the executor's loop, with the first
    [k] readings of the timer, run a task each and lead from [fsm] to [fsm']. *)
Inductive executes : (nat -> LogicalTimeAbsoluteMs) -> nat -> @MaroonRuntime W -> @MaroonRuntime W -> Prop :=
| executes_none clock fsm : executes clock 0 fsm fsm
| executes_turn clock k fsm fsm1 fsm2 :
    execute_one (clock O) fsm = Ok (Some fsm1) -> executes (fun j => clock (S j)) k fsm1 fsm2 ->
    executes clock (S k) fsm fsm2.

(** The loop has left [fsm] at [fsm'] by its [break], at the reading [clock k]: every earlier
    reading let it run a task, and at this one nothing is due. *)
Definition came_to_rest (clock : nat -> LogicalTimeAbsoluteMs) (k : nat) (fsm fsm' : @MaroonRuntime W) : Prop :=
  executes clock k fsm fsm' /\ execute_one (clock k) fsm' = Ok None /\
  forall t, t ∈ pending_operations fsm' -> clock k < scheduled_timestamp t.

Lemma executor_rests n : forall clock fsm roles jobs fuel,
  server_inv fsm roles jobs -> (server_work fsm roles <= n < fuel)%nat ->
  (exists fsm' roles' k, execute_pending_operations_inner fuel clock fsm = Ok fsm' /\ server_inv fsm' roles' jobs /\
     task_id_generator fsm' = task_id_generator fsm /\ (k <= n)%nat /\ came_to_rest clock k fsm fsm') \/
  (overflow_checks = true /\ exists msg, execute_pending_operations_inner fuel clock fsm = Panic msg /\ overflow_message msg).
Proof.
  induction n as [n IH] using lt_wf_ind. intros clock fsm roles jobs fuel Hinv Hf. destruct fuel as [|fuel]; [lia|].
  cbn [execute_pending_operations_inner]. destruct (execute_iterates (clock O) fsm roles jobs Hinv)
    as [[E Hrest]|[(fsm1 & roles1 & E & Hinv1 & Hg & Hlt)|(Ho & msg & E & Hm)]]; rewrite E; cbn [mbind result_bind].
  - left. exists fsm, roles, O. repeat (split; [done || lia|]). split; [constructor|done].
  - destruct (IH (server_work fsm1 roles1) ltac:(lia) (fun k => clock (S k)) fsm1 roles1 jobs fuel Hinv1 ltac:(lia))
      as [(fsm' & roles' & k & E' & Hinv' & Hg' & Hk & Hex & Hend)|(Ho & msg & E' & Hm)].
    + left. exists fsm', roles', (S k). repeat (split; [done || congruence || lia|]).
      split; [by econstructor|done].
    + right. split; [done|]. by exists msg.
  - right. split; [done|]. by exists msg.
Qed.

(** ** What the server promises *)

(** C31: every socket is sent what its own request asks for and nothing else, whatever the
    other tasks do meanwhile: what it was sent is the beginning of an expected answer, the
    whole of it once no task writes to the socket, and only sockets of requests are sent
    anything. *)
Theorem sockets_get_their_answers (printer : W) evs fsm :
  events_ok evs -> run_server printer evs = Ok fsm ->
  (forall w ts r, Ev_request w ts r ∈ evs ->
     (exists rest, expected r ts (outs (written fsm) w ++ rest)) /\
     ((forall id task, id <> storage_id -> active_tasks fsm !! id = Some task -> writer task <> w) ->
      expected r ts (outs (written fsm) w))) /\
  (forall w ts text, (w, ts, text) ∈ written fsm -> w ∈ sockets evs).
Proof.
  intros Hev Hrun. destruct (server_run printer evs Hev) as [(fsm' & E & Hat)|(_ & msg & E & _)]; [|congruence].
  replace fsm' with fsm in * by congruence. split.
  - intros w ts r Hel. split; [by eapply answers_begun|by eapply answers_complete].
  - intros w ts text Hel. destruct Hat as (roles & jobs & Hinv & _ & _ & Hs).
    destruct (proj2 (proj2 (si_writers _ _ _ Hinv)) w ts text Hel) as (id & ts' & r & Hj). by eapply Hs.
Qed.

End server.

(** ** A server with three requests *)
Definition sample_events : list (@Event string) :=
  [Ev_request "a" 0 (Req_factorial 2); Ev_request "b" 5 (Req_get_user "id1"); Ev_request "c" 7 (Req_delay 20 "hi")] ++
  replicate 14 (Ev_execute 60).

Lemma sample_events_ok : events_ok sample_events.
Proof. split; [repeat constructor; done|]. split; [apply (bool_decide_unpack _); by vm_compute|done]. Qed.

Lemma sockets_get_their_answers_witness :
  exists fsm, @run_server release_profile list_heap plain_build string "main" sample_events = Ok fsm /\
    outs (written fsm) "c" = [(27, "hi after 20ms")] /\ "c" ∈ sockets sample_events.
Proof.
  eexists. split; [vm_compute; reflexivity|]. split; [vm_compute; reflexivity|].
  eapply (proj2 (@sockets_get_their_answers release_profile list_heap string _ "main" sample_events _ sample_events_ok
    ltac:(vm_compute; reflexivity)) "c" 27 "hi after 20ms").
  apply (bool_decide_unpack _). by vm_compute.
Defined.


(** A build with [cfg(test)], whose validator expects a state wherever no argument is
    expected, stops at the values a finished task leaves on its stack. *)
Lemma validator_rejects_finished_delay :
  @run_server dev_profile list_heap unit_test_build string "main"
    ([Ev_request "c" 0 (Req_delay 20 "hi")] ++ replicate 2 (Ev_execute 60)) =
  Panic "the `stk[0]` should be a state".
Proof. vm_compute. reflexivity. Qed.
