(* ===== verification/FsmHttp.v ===== *)
(** * The server of the task machine

    [main] and the HTTP handlers of state/src/main.rs around the runtime of [Fsm]: the
    router, the upgrades to web sockets and their writers, the report of the tasks, and the
    shutdown. How
    axum parses a parameter of a path, and how a stack is printed for debugging, are
    arguments. The server goes on until it is told to quit, and then drains; as in [Fsm], a
    writer has room when it is written to, and what happens otherwise is [full_writer_waits]. *)
From S2P Require Import Prelude Fsm FsmSpec FsmInv FsmServer.
From stdpp Require Import pretty.
Local Open Scope string_scope.

(** What axum makes of a parameter of type [u64], and [{:?}] of a stack. *)
Class HttpServer := {
  path_u64 : string -> option Z;
  debug_stack : MaroonTaskStack -> string
}.

(** ** The writer of a web socket

    [MaroonWriter::new_websocket]: a channel of bounded size to a task that sends to the
    socket; [write_text] waits for room in it. [Fsm] takes a writer to have room. *)
Definition channel_capacity : nat := 100.

Record SocketWriter := mkSocketWriter { queued : list string; delivered : list string }.
Definition new_websocket : SocketWriter := mkSocketWriter [] [].

(** [sender.send(text).await]: [None] while it waits. *)
Definition writer_send (text : string) (w : SocketWriter) : option SocketWriter :=
  if decide (length (queued w) < channel_capacity)%nat
  then Some (mkSocketWriter (queued w ++ [text])%list (delivered w)) else None.

(** The spawned task: it takes a text from the channel and sends it. *)
Definition writer_pump (w : SocketWriter) : option SocketWriter :=
  match queued w with
  | [] => None
  | text :: rest => Some (mkSocketWriter rest (delivered w ++ [text])%list)
  end.

Inductive writes : list string -> SocketWriter -> Prop :=
| writes_new : writes [] new_websocket
| writes_send texts w text w' : writes texts w -> writer_send text w = Some w' -> writes (texts ++ [text])%list w'
| writes_pump texts w w' : writes texts w -> writer_pump w = Some w' -> writes texts w'.

(** A socket receives the texts written to it, in order, and at most [channel_capacity] are
    under way. *)
Lemma writer_in_order texts w : writes texts w ->
  texts = (delivered w ++ queued w)%list /\ (length (queued w) <= channel_capacity)%nat.
Proof.
  induction 1 as [|texts w text w' _ [-> Hle] Hs|texts w w' _ [-> Hle] Hp]; [split; [done|cbn; lia]|..].
  - unfold writer_send in Hs. case_decide; [|done]. injection Hs as <-. cbn. rewrite app_assoc, length_app. cbn. split; [done|lia].
  - unfold writer_pump in Hp. destruct (queued w) as [|t rest] eqn:E; [done|]. injection Hp as <-. cbn in *. rewrite <-app_assoc.
    split; [done|lia].
Qed.

(** When the client does not read, the writer waits after that many texts; the executor
    waits with it, and holds the lock. *)
Lemma full_writer_waits texts w text : writes texts w -> (length texts = length (delivered w) + channel_capacity)%nat ->
  writer_send text w = None.
Proof.
  intros Hw Hlen. destruct (writer_in_order _ _ Hw) as [-> _]. rewrite length_app in Hlen. unfold writer_send.
  rewrite decide_False; [done|lia].
Qed.

Section server.
Context `{Profile} `{BinaryHeap} `{TestCfg} `{HashOrder} `{HttpServer} {W : Type}.

(** The answer to an HTTP request: an upgrade to a web socket with its callback, or a text. *)
Inductive Answer : Type :=
| Answer_Upgrade (r : Request)
| Answer_State | Answer_Quit
| Answer_Text (text : string)
| Answer_BadRequest
| Answer_NotFound.

Definition with_u64 (segment : string) (k : Z -> Request) : Answer :=
  match path_u64 segment with Some n => Answer_Upgrade (k n) | None => Answer_BadRequest end.

(** The handlers, on the parameters of the path; an upgraded socket goes to the function of
    [Fsm] with the same name and [_ws]. *)
Definition delay_handler (t s : string) : Answer := with_u64 t (fun t => Req_delay t s).
Definition send_handler (s : string) : Answer := Answer_Upgrade (Req_send s).
Definition receive_handler : Answer := Answer_Upgrade Req_receive.
Definition divisors_handler (a : string) : Answer := with_u64 a Req_divisors.
Definition fibonacci_handler (n : string) : Answer := with_u64 n Req_fibonacci.
Definition factorial_handler (n : string) : Answer := with_u64 n Req_factorial.
Definition get_user_handler (id : string) : Answer := Answer_Upgrade (Req_get_user id).
Definition root_handler : Answer := Answer_Text "magic".

(** [Router::new().route(...)], on the segments of the path. *)
Definition route (path : list string) : Answer :=
  match path with
  | [] => root_handler
  | ["delay"; t; s] => delay_handler t s
  | ["send"; s] => send_handler s
  | ["receive"] => receive_handler
  | ["getUser"; id] => get_user_handler id
  | ["divisors"; n] => divisors_handler n
  | ["fibonacci"; n] => fibonacci_handler n
  | ["factorial"; n] => factorial_handler n
  | ["state"] => Answer_State
  | ["quit"] => Answer_Quit
  | _ => Answer_NotFound
  end.

Definition newline : string := String (Ascii.ascii_of_nat 10) "".

Definition task_line (entry : MaroonTaskId * MaroonTask (W := W)) : string :=
  "Task ID: " +:+ pretty (fst entry) +:+ ", Description: " +:+ description (snd entry) +:+ ", Stack: " +:+
  debug_stack (maroon_stack (snd entry)) +:+ newline.

Definition state_handler (fsm : MaroonRuntime (W := W)) : string :=
  let tasks := hash_iter (active_tasks fsm) in
  if decide (tasks = []) then "No active tasks" +:+ newline
  else "Active tasks:" +:+ newline +:+ foldr (fun entry rest => task_line entry +:+ rest) "" tasks.

(** [quit_tx.send(())] on a channel that holds one message, and the answer. *)
Definition quit_handler (quit : nat) : nat * string := (Nat.min 1 (S quit), "TY" +:+ newline).

(** ** [main]

    After the message of the shutdown has been received the server only finishes the
    connections it has. *)
Inductive Stage : Type := Serving | Draining | Down.
#[local] Instance Stage_eq_dec : EqDecision Stage.
Proof. solve_decision. Defined.

Record Server := mkServer { sv_fsm : MaroonRuntime (W := W); sv_quit : nat; sv_stage : Stage }.

Inductive ServerEvent : Type :=
| Sv_Request (path : list string) (socket : W) (now : LogicalTimeAbsoluteMs)   (* a connection, with what becomes its socket *)
| Sv_Execute (now : LogicalTimeAbsoluteMs)
| Sv_Shutdown                                       (* [quit_rx.recv()] *)
| Sv_Closed.                                        (* the last connection is closed *)

(** What is sent back, but for an upgrade. *)
Definition reply (fsm : MaroonRuntime (W := W)) (path : list string) : option string :=
  match route path with
  | Answer_Text t => Some t
  | Answer_State => Some (state_handler fsm)
  | Answer_Quit => Some (snd (quit_handler 0))
  | _ => None
  end.

Definition main_step (self : Server) (ev : ServerEvent) : result Server :=
  match ev with
  | Sv_Request path socket now =>
      if decide (sv_stage self = Serving) then
        match route path with
        | Answer_Upgrade r =>
            fsm ← on_event (sv_fsm self) (Ev_request socket now r);
            Ok (mkServer fsm (sv_quit self) (sv_stage self))
        | Answer_Quit => Ok (mkServer (sv_fsm self) (fst (quit_handler (sv_quit self))) (sv_stage self))
        | _ => Ok self
        end
      else Ok self
  | Sv_Execute now =>
      if decide (sv_stage self = Down) then Ok self
      else
        fsm ← on_event (sv_fsm self) (Ev_execute now);
        Ok (mkServer fsm (sv_quit self) (sv_stage self))
  | Sv_Shutdown =>
      match sv_quit self, sv_stage self with
      | S n, Serving => Ok (mkServer (sv_fsm self) n Draining)
      | _, _ => Ok self
      end
  | Sv_Closed =>
      match sv_stage self with
      | Draining => Ok (mkServer (sv_fsm self) (sv_quit self) Down)
      | _ => Ok self
      end
  end.

Definition main (printer : W) (evs : list ServerEvent) : result Server :=
  fsm ← create_user_storage printer runtime_default;
  for_each evs main_step (mkServer fsm 0 Serving).

(** ** Lemmas *)

(** The events of [Fsm] that a step of the server amounts to. *)
Definition fsm_event (stage : Stage) (ev : ServerEvent) : list (Event (W := W)) :=
  match ev with
  | Sv_Request path socket now =>
      if decide (stage = Serving) then match route path with Answer_Upgrade r => [Ev_request socket now r] | _ => [] end else []
  | Sv_Execute now => if decide (stage = Down) then [] else [Ev_execute now]
  | _ => []
  end.

Lemma main_step_fsm self ev self' : main_step self ev = Ok self' ->
  for_each (fsm_event (sv_stage self) ev) on_event (sv_fsm self) = Ok (sv_fsm self').
Proof.
  intros Hrun. destruct ev as [path socket now|now| |]; cbn [main_step fsm_event] in *.
  - destruct (decide _); [|by injection Hrun as <-]. destruct (route path); try by injection Hrun as <-.
    apply bind_ok in Hrun as (fsm & Hone & Hrun). injection Hrun as <-. by rewrite for_each_singleton.
  - destruct (decide _); [by injection Hrun as <-|]. apply bind_ok in Hrun as (fsm & Hone & Hrun). injection Hrun as <-.
    by rewrite for_each_singleton.
  - destruct (sv_quit self), (sv_stage self); by injection Hrun as <-.
  - destruct (sv_stage self); by injection Hrun as <-.
Qed.

(** Whatever comes over HTTP, the runtime's state is that of a run of [Fsm.run_server]. *)
Lemma main_runs_server printer evs self : main printer evs = Ok self ->
  exists fsm_evs, run_server printer fsm_evs = Ok (sv_fsm self).
Proof.
  unfold main, run_server. intros Hrun. apply bind_ok in Hrun as (fsm0 & Hs & Hrun). rewrite Hs. cbn [mbind result_bind].
  assert (Hgen : forall evs s s', for_each evs main_step s = Ok s' ->
    exists l, for_each l on_event (sv_fsm s) = Ok (sv_fsm s')).
  { clear. intros evs. induction evs as [|ev evs IH]; intros s s' Hrun; [injection Hrun as <-; by exists []|].
    cbn [for_each] in Hrun. apply bind_ok in Hrun as (s1 & Hone & Hrun). apply main_step_fsm in Hone.
    destruct (IH _ _ Hrun) as [l Hl]. exists (fsm_event (sv_stage s) ev ++ l)%list. rewrite for_each_app, Hone. exact Hl. }
  exact (Hgen _ _ _ Hrun).
Qed.

(** Once it drains, requests no longer reach the tasks. *)
Lemma draining_refuses self path socket now : sv_stage self <> Serving -> main_step self (Sv_Request path socket now) = Ok self.
Proof. intros Hs. cbn. by rewrite decide_False. Qed.

Lemma quit_shuts_down self socket now : sv_stage self = Serving ->
  exists self1 self2, main_step self (Sv_Request ["quit"] socket now) = Ok self1 /\ main_step self1 Sv_Shutdown = Ok self2 /\
    sv_stage self2 = Draining /\ sv_fsm self2 = sv_fsm self.
Proof.
  intros Hs. cbn. rewrite decide_True by done. do 2 eexists. split; [reflexivity|]. cbn. rewrite Hs. split; [reflexivity|]. done.
Qed.

Lemma no_tasks_reported fsm : active_tasks fsm = ∅ -> state_handler fsm = "No active tasks" +:+ newline.
Proof.
  intros E. unfold state_handler. rewrite decide_True; [done|].
  apply Permutation_nil. symmetry. rewrite <-(map_to_list_empty (K := MaroonTaskId) (M := gmap MaroonTaskId)), E. apply hash_iter_perm.
Qed.
End server.

(** ** Until it is told to quit *)
Section stages.
Context `{HttpServer} {W : Type}.

(** [ev] has happened, at a time when [P] held of what had happened before. *)
Definition after (P : list (ServerEvent (W := W)) -> Prop) (ev : ServerEvent (W := W)) (evs : list (ServerEvent (W := W))) : Prop :=
  exists before later, evs = (before ++ ev :: later)%list /\ P before.

Definition is_quit (ev : ServerEvent (W := W)) : Prop :=
  match ev with Sv_Request path _ _ => route path = Answer_Quit | _ => False end.

(** A [GET /quit] was made; [main] has taken its message since; and the last connection was
    closed after that. *)
Definition quit_asked (evs : list (ServerEvent (W := W))) : Prop := Exists is_quit evs.
Definition shut : list (ServerEvent (W := W)) -> Prop := after quit_asked Sv_Shutdown.
Definition down : list (ServerEvent (W := W)) -> Prop := after shut Sv_Closed.

Lemma after_snoc P ev evs last : after P ev (evs ++ [last]) <-> after P ev evs \/ (last = ev /\ P evs).
Proof.
  split.
  - intros (before & later & E & HP). destruct later as [|x later] using rev_ind.
    + apply app_inj_tail in E as [-> ->]. by right.
    + rewrite app_comm_cons, app_assoc in E. apply app_inj_tail in E as [-> ->]. left. by exists before, later.
  - intros [(before & later & -> & HP)|[-> HP]]; [exists before, (later ++ [last])%list|by exists evs, []].
    split; [by rewrite <-app_assoc|done].
Qed.

Lemma quit_snoc evs last : quit_asked (evs ++ [last]) <-> quit_asked evs \/ is_quit last.
Proof. unfold quit_asked. rewrite Exists_app, Exists_cons, Exists_nil. tauto. Qed.

Lemma down_shut evs : down evs -> shut evs.
Proof.
  intros (before & later & -> & (b & l & -> & Hq)). exists b, (l ++ Sv_Closed :: later)%list. split; [|done].
  by rewrite <-app_assoc.
Qed.

Lemma nothing_after P ev : ~ after P ev [].
Proof. intros (before & later & E & _). by destruct before. Qed.
End stages.

Section until_quit.
Context `{Profile} `{BinaryHeap} `{HashOrder} `{HttpServer} {W : Type} `{EqDecision W}.
#[local] Existing Instance plain_build.

(** The events of [Fsm] while the server serves; and those that a server may have to deal with. *)
Definition fsm_events (evs : list (ServerEvent (W := W))) : list (Event (W := W)) := flat_map (fsm_event Serving) evs.
Definition http_ok (evs : list (ServerEvent (W := W))) : Prop := events_ok (fsm_events evs).

(** How the stage is related to what has happened. *)
Definition stage_ok (evs : list (ServerEvent (W := W))) (self : Server (W := W)) : Prop :=
  match sv_stage self with
  | Serving => ~ shut evs /\ (quit_asked evs <-> sv_quit self <> 0%nat)
  | Draining => shut evs /\ ~ down evs
  | Down => down evs
  end.

Lemma main_step_stage evs (self : Server (W := W)) ev self' : stage_ok evs self -> main_step self ev = Ok self' -> stage_ok (evs ++ [ev]) self'.
Proof.
  intros Hs Hrun.
  assert (Hsame : sv_stage self' = sv_stage self -> sv_quit self' = sv_quit self -> ~ is_quit ev \/ sv_stage self <> Serving ->
    (ev = Sv_Shutdown -> sv_quit self = 0%nat \/ sv_stage self <> Serving) -> (ev = Sv_Closed -> sv_stage self <> Draining) ->
    stage_ok (evs ++ [ev]) self').
  { unfold stage_ok in *. intros -> -> Hq Hd Hc. unfold down, shut in *. destruct (sv_stage self).
    - destruct Hs as [Hn Hi]. destruct Hq as [Hq|Hq]; [|done]. split; [|rewrite quit_snoc; tauto].
      intros [?|[-> Ha]]%after_snoc; [done|]. destruct (Hd eq_refl) as [Hz|?]; [|done]. by apply Hi in Ha.
    - destruct Hs as [Hsh Hdn]. split; [apply after_snoc; by left|]. intros [?|[-> _]]%after_snoc; [done|]. by apply Hc.
    - apply after_snoc. by left. }
  destruct ev as [path socket now|now| |]; cbn [main_step] in Hrun.
  - destruct (decide (sv_stage self = Serving)) as [Hsv|Hsv]; [|injection Hrun as <-; apply Hsame; (done || by auto)].
    destruct (route path) as [r| | |t| |] eqn:Er; try (injection Hrun as <-; apply Hsame; [done|done| |done|done]; left; cbn; by rewrite Er).
    + apply bind_ok in Hrun as (fsm & _ & Hrun). injection Hrun as <-. apply Hsame; [done|done| |done|done]. left. cbn. by rewrite Er.
    + injection Hrun as <-. unfold stage_ok in *. cbn. rewrite Hsv in *. destruct Hs as [Hn Hi]. unfold shut in *.
      rewrite quit_snoc. split; [by intros [?|[? _]]%after_snoc|]. split; [lia|]. intros _. right. exact Er.
  - destruct (decide (sv_stage self = Down)) as [Hd|Hd]; [injection Hrun as <-; apply Hsame; (done || by auto || (left; by intros []))|].
    apply bind_ok in Hrun as (fsm & _ & Hrun). injection Hrun as <-. apply Hsame; [done|done| |done|done]. left. by intros [].
  - destruct (sv_quit self) as [|n] eqn:Eq; [injection Hrun as <-; apply Hsame; (done || by auto || (left; by intros []))|].
    destruct (sv_stage self) eqn:Est; injection Hrun as <-; try (apply Hsame; rewrite ?Est; (done || by auto || (left; by intros []))).
    unfold stage_ok in *. rewrite Est in Hs. cbn. destruct Hs as [Hn Hi]. unfold down, shut in *.
    split; [apply after_snoc; right; split; [done|by apply Hi; rewrite Eq]|]. intros Hd.
    apply after_snoc in Hd as [Hd|[? _]]; [|done]. by apply Hn, down_shut.
  - destruct (sv_stage self) eqn:Est; injection Hrun as <-; try (apply Hsame; rewrite ?Est; (done || by auto || (left; by intros []))).
    unfold stage_ok in *. rewrite Est in Hs. cbn. apply after_snoc. right. split; [done|apply Hs].
Qed.

Lemma events_drop (l : list (Event (W := W))) dropped rest : events_ok (l ++ dropped ++ rest) -> events_ok (l ++ rest).
Proof.
  unfold events_ok, sockets. rewrite !length_app, !Forall_app, !omap_app. intros ((Hl & _ & Hr) & Hnd & Hlen).
  split; [done|]. split; [|lia]. apply NoDup_app in Hnd as (Hn1 & Hn2 & Hn3). apply NoDup_app in Hn3 as (_ & _ & Hn3).
  apply NoDup_app. split; [done|]. split; [|done]. intros x Hx Hy. apply (Hn2 x Hx). rewrite elem_of_app. by right.
Qed.

(** What an event is for the runtime, while nothing more comes than is allowed. *)
Lemma server_event (l : list (Event (W := W))) fsm ev : server_at l fsm -> events_ok (l ++ [ev]) ->
  (exists fsm', on_event fsm ev = Ok fsm' /\ server_at (l ++ [ev]) fsm') \/
  (overflow_checks = true /\ exists msg, on_event fsm ev = Panic msg /\ overflow_message msg).
Proof.
  intros Hat (Hf & Hnd & Hlen). apply Forall_app in Hf as [_ Hf]. apply Forall_cons in Hf as [Hev _]. rewrite length_app in Hlen. cbn in Hlen.
  destruct ev as [w ts r|now]; [left|by apply server_iteration].
  apply server_request; [done|done| |lia]. rewrite sockets_snoc in Hnd. apply NoDup_app in Hnd as (_ & Hd & _).
  intros Hel. apply (Hd w Hel). left.
Qed.

(** The server's state after [evs], of which the runtime has seen [l]. *)
Record serves (printer : W) (evs : list (ServerEvent (W := W))) (l : list (Event (W := W))) (self : Server (W := W)) : Prop := {
  sv_run : run_server printer l = Ok (sv_fsm self);
  sv_at : server_at l (sv_fsm self);
  sv_stage_ok : stage_ok evs self;
  sv_seen : sv_stage self = Serving -> l = fsm_events evs
}.

Lemma stage_back (self : Server (W := W)) ev self' : main_step self ev = Ok self' -> sv_stage self' = Serving -> sv_stage self = Serving.
Proof.
  destruct ev as [path socket now|now| |]; cbn [main_step]; intros Hrun.
  - destruct (decide _); [done|]. by injection Hrun as <-.
  - destruct (decide _); [by injection Hrun as <-|]. apply bind_ok in Hrun as (fsm & _ & Hrun). by injection Hrun as <-.
  - destruct (sv_quit self), (sv_stage self) eqn:E; injection Hrun as <-; cbn; congruence.
  - destruct (sv_stage self) eqn:E; injection Hrun as <-; cbn; congruence.
Qed.

(** A step returns when the runtime's event does, and panics only as it does. *)
Lemma main_step_returns (self : Server (W := W)) ev :
  match for_each (fsm_event (sv_stage self) ev) on_event (sv_fsm self) with
  | Ok _ => exists self', main_step self ev = Ok self'
  | Panic msg => main_step self ev = Panic msg
  | OutOfFuel => True
  end.
Proof.
  destruct ev as [path socket now|now| |]; cbn [main_step fsm_event].
  - destruct (decide _); [|cbn; by eexists]. destruct (route path); try (cbn; by eexists).
    rewrite for_each_singleton. destruct (on_event _ _); [by eexists|done|done].
  - destruct (decide _); [cbn; by eexists|]. rewrite for_each_singleton. destruct (on_event _ _); [by eexists|done|done].
  - cbn. destruct (sv_quit self), (sv_stage self); by eexists.
  - cbn. destruct (sv_stage self); by eexists.
Qed.

(** A stage lets an event through to the runtime or drops it. *)
Lemma let_through stage ev : fsm_event (W := W) stage ev = [] \/ fsm_event stage ev = fsm_event Serving ev /\ exists e, fsm_event Serving ev = [e].
Proof. destruct ev as [path socket now|now| |]; cbn; [|destruct stage; cbn; by eauto|by left|by left]. destruct stage; cbn; [destruct (route path)|..]; by eauto. Qed.

Lemma serves_step printer evs l self ev :
  serves printer evs l self -> events_ok (l ++ fsm_event Serving ev) ->
  (exists self', main_step self ev = Ok self' /\ serves printer (evs ++ [ev]) (l ++ fsm_event (sv_stage self) ev) self') \/
  (overflow_checks = true /\ exists msg, main_step self ev = Panic msg /\ overflow_message msg).
Proof.
  intros [Hrun Hat Hst Hseen] Hok. pose proof (main_step_returns self ev) as Hret.
  assert (Hnext : forall fsm', for_each (fsm_event (sv_stage self) ev) on_event (sv_fsm self) = Ok fsm' ->
    server_at (l ++ fsm_event (sv_stage self) ev) fsm' ->
    exists self', main_step self ev = Ok self' /\ serves printer (evs ++ [ev]) (l ++ fsm_event (sv_stage self) ev) self').
  { intros fsm' E Hat'. rewrite E in Hret. destruct Hret as [self' Es]. exists self'. split; [done|].
    pose proof (main_step_fsm _ _ _ Es) as Ef. assert (fsm' = sv_fsm self') as -> by congruence. split; [|done| |].
    - unfold run_server in *. apply bind_ok in Hrun as (fsm0 & E0 & Hrun). rewrite E0. cbn [mbind result_bind].
      by rewrite for_each_app, Hrun.
    - by eapply main_step_stage.
    - intros Hs. pose proof (stage_back _ _ _ Es Hs) as Hs0. rewrite Hs0, (Hseen Hs0). unfold fsm_events.
      rewrite flat_map_app. cbn. by rewrite app_nil_r. }
  destruct (let_through (sv_stage self) ev) as [E|[E [e Ee]]].
  - left. rewrite E in *. apply (Hnext (sv_fsm self)); [done|]. by rewrite app_nil_r.
  - rewrite E, Ee in *. rewrite for_each_singleton in Hret, Hnext.
    destruct (server_event l (sv_fsm self) e Hat Hok) as [(fsm' & Ev & Hat')|(Ho & msg & Ev & Hm)].
    + left. by apply (Hnext fsm').
    + right. split; [done|]. exists msg. rewrite Ev in Hret. done.
Qed.

Lemma serves_run printer evs : forall earlier l self,
  serves printer earlier l self -> events_ok (l ++ fsm_events evs) ->
  (exists self' l', for_each evs main_step self = Ok self' /\ serves printer (earlier ++ evs) l' self' /\ events_ok l') \/
  (overflow_checks = true /\ exists msg, for_each evs main_step self = Panic msg /\ overflow_message msg).
Proof.
  induction evs as [|ev evs IH]; intros earlier l self Hs Hok.
  { left. exists self, l. cbn in Hok. rewrite !app_nil_r in *. done. }
  cbn [fsm_events flat_map] in Hok. fold (fsm_events evs) in Hok. cbn [for_each].
  assert (Hok1 : events_ok (l ++ fsm_event Serving ev)).
  { rewrite <-(app_nil_r (l ++ _)). apply (events_drop _ (fsm_events evs)). rewrite app_nil_r, <-app_assoc. exact Hok. }
  destruct (serves_step printer earlier l self ev Hs Hok1) as [(self' & E & Hs')|(Ho & msg & E & Hm)]; rewrite E; cbn [mbind result_bind].
  - replace (earlier ++ ev :: evs)%list with ((earlier ++ [ev]) ++ evs)%list by by rewrite <-app_assoc. apply (IH _ _ _ Hs').
    destruct (let_through (sv_stage self) ev) as [Ee|[Ee _]]; rewrite Ee.
    + rewrite app_nil_r. by eapply events_drop.
    + by rewrite <-app_assoc.
  - right. split; [done|]. by exists msg.
Qed.

Lemma stage_serving evs (self : Server (W := W)) : stage_ok evs self -> sv_stage self = Serving <-> ~ shut evs.
Proof. unfold stage_ok. destruct (sv_stage self); intros Hs; [tauto|split; [done|tauto]|]. apply down_shut in Hs. split; [done|tauto]. Qed.

Lemma stage_down evs (self : Server (W := W)) : stage_ok evs self -> sv_stage self = Down <-> down evs.
Proof. unfold stage_ok. destruct (sv_stage self); intros Hs; [|split; [done|tauto]|tauto].
  split; [done|]. intros Hd. destruct Hs as [Hn _]. by destruct (Hn (down_shut _ Hd)).
Qed.

(** C32: whatever comes to the server and in whatever order its handlers and the iterations
    of its executor take the lock (in the plain build, without the stack checks of
    [cfg(test)]; parameters of their types, a socket of its own for every upgrade, fewer
    than 2^64 events, and writers that have room when they are written to, since a client
    that does not read can fill its channel and have the executor wait under the lock), the
    server does not fail (a second [receive] panics in its own task only): the executor
    never finds a task missing, a stack malformed, a heap of the wrong kind or a storage
    gone. It serves until a [GET /quit] has been made and [main] has taken its message, and
    no longer; then it drains, and is down exactly when the last connection has been closed
    as well. Until then every upgrade reaches the tasks: the runtime's state is that of all
    the upgrades and iterations so far. The one other way to stop it is an arithmetic
    overflow, in a build that checks for it. *)
Theorem serves_until_quit (printer : W) evs :
  http_ok evs ->
  (exists self l, main printer evs = Ok self /\
     (sv_stage self = Serving <-> ~ shut evs) /\ (sv_stage self = Down <-> down evs) /\
     run_server printer l = Ok (sv_fsm self) /\ events_ok l /\ (~ shut evs -> l = fsm_events evs)) \/
  (overflow_checks = true /\ exists msg, main printer evs = Panic msg /\ overflow_message msg).
Proof.
  intros Hok. destruct (server_start printer) as (fsm0 & E0 & Hat). unfold main. rewrite E0. cbn [mbind result_bind].
  assert (Hs0 : serves printer [] [] (mkServer fsm0 0 Serving)).
  { split; [unfold run_server; by rewrite E0|done| |done]. split; [apply nothing_after|]. unfold quit_asked. by rewrite Exists_nil. }
  destruct (serves_run printer evs [] [] _ Hs0 Hok) as [(self & l & E & [Hrun _ Hst Hseen] & Hl)|Ho]; [left|by right].
  exists self, l. split; [done|]. pose proof (stage_serving _ _ Hst) as Hserving. split; [done|]. split; [by apply stage_down|].
  split; [done|]. split; [done|]. intros Hn. by apply Hseen, Hserving.
Qed.
End until_quit.

(** A server with two requests, told to quit. *)
Definition no_http : HttpServer := {| path_u64 s := if decide (s = "2") then Some 2%Z else None; debug_stack _ := "" |}.

Definition sample_http : list (ServerEvent (W := string)) :=
  ([Sv_Request ["factorial"; "2"] "a" 0%Z; Sv_Request ["getUser"; "id1"] "b" 5%Z; Sv_Execute 60%Z; Sv_Execute 60%Z; Sv_Execute 60%Z]
   ++ [Sv_Request ["quit"] "c" 61%Z; Sv_Shutdown; Sv_Request ["receive"] "d" 70%Z; Sv_Execute 80%Z; Sv_Closed])%list.

Lemma serves_until_quit_witness : exists self,
  @main release_profile list_heap plain_build no_http string "main" sample_http = Ok self /\ sv_stage self = Down.
Proof.
  assert (Hok : @http_ok no_http string sample_http).
  { split; [repeat constructor; done|]. split; [apply (bool_decide_unpack _); by vm_compute|done]. }
  destruct (@serves_until_quit release_profile list_heap no_http string _ "main" _ Hok) as [(self & l & E & _ & Hd & _)|[H _]];
    [|discriminate H].
  exists self. split; [exact E|]. apply Hd. exists (take 9 sample_http), []. split; [done|].
  exists (take 6 sample_http), (drop 7 (take 9 sample_http)). split; [done|].
  do 5 (apply Exists_cons_tl). apply Exists_cons_hd. vm_compute. reflexivity.
Defined.
