(* ===== verification/Ir.v ===== *)
(** * The intermediate representation and its validation

    Models [dsl/src/ir.rs]. A variant [V] of an enum [E] is the constructor [E_V]. The
    validator pushes messages on a string: here it returns the list of the messages, which
    are values of a type with one constructor per format string, and [render] prints them. *)
From S2P Require Import Prelude.
From Stdlib Require Import Ascii.
From stdpp Require Import pretty.
Local Open Scope string_scope.
Local Open Scope list_scope.

(** ** Programs *)
Inductive Type_ : Type :=
| Type_UInt64
| Type_String
| Type_Bool
| Type_Void
| Type_Map (k v : Type_)
| Type_Array (t : Type_)
| Type_Struct (name : string) (fields : list (string * Type_)) (impl_block : string)
| Type_MaxQueue (t : Type_)
| Type_MinQueue (t : Type_)
| Type_Option (t : Type_)
| Type_Future (t : Type_)
| Type_Custom (name : string)
| Type_PubQueueMessage (name : string) (fields : list (string * Type_)) (rust_additions : string).

Notation StructField := (string * Type_)%type (only parsing).
Notation StepId := string (only parsing).
Notation FiberType := string (only parsing).
Notation LocalVarRef := string (only parsing).
Notation InVar := (string * Type_)%type (only parsing).
Notation LocalVar := (string * Type_)%type (only parsing).

Inductive Expr : Type :=
| Expr_UInt64 (n : Z)
| Expr_Str (s : string)
| Expr_Bool (b : bool)
| Expr_Var (x : LocalVarRef)
| Expr_Equal (l r : Expr)
| Expr_Greater (l r : Expr)
| Expr_Less (l r : Expr)
| Expr_IsSome (e : Expr)
| Expr_Unwrap (e : Expr)
| Expr_GetField (e : Expr) (field : string)
| Expr_StructUpdate (base : Expr) (updates : list (string * Expr)).

Inductive RetValue : Type :=
| RetValue_Var (x : LocalVarRef)
| RetValue_UInt64 (n : Z)
| RetValue_Str (s : string)
| RetValue_Bool (b : bool)
| RetValue_Some (v : RetValue)
| RetValue_None.

Record FuncRef := mkFuncRef { target_fiber : string; target_func : string }.

Inductive AwaitSpec : Type :=
| AwaitSpec_Future (bind : option LocalVarRef) (ret_to : StepId) (future_id : LocalVarRef)
| AwaitSpec_Queue (queue_name message_var : LocalVarRef) (next : StepId).

Inductive SetPrimitive : Type :=
| SetPrimitive_QueueMessage (f_var_queue_name var_name : LocalVarRef)
| SetPrimitive_Future (f_var_name var_name : LocalVarRef).

Inductive RuntimePrimitive : Type :=
| RuntimePrimitive_Future
| RuntimePrimitive_Queue (name : LocalVarRef) (public : bool)
| RuntimePrimitive_Schedule (ms_var : LocalVarRef).

Record SuccessCreateBranch := mkSuccess { success_next : StepId; id_binds : list LocalVarRef }.
Record FailCreateBranch := mkFail { fail_next : StepId; error_binds : list LocalVarRef }.
Record CreateFiberDetail := mkDetail { f_name : FiberType; detail_init_vars : list LocalVarRef }.

Inductive Step : Type :=
| Step_Call (target : FuncRef) (args : list Expr) (bind : option LocalVarRef) (ret_to : StepId)
| Step_Return (value : RetValue)
| Step_ReturnVoid
| Step_If (cond : Expr) (then_ else_ : StepId)
| Step_Let (local : string) (expr : Expr) (next : StepId)
| Step_RustBlock (binds : list LocalVarRef) (code : string) (next : StepId)
| Step_Select (arms : list AwaitSpec)
| Step_SetValues (values : list SetPrimitive) (next : StepId)
| Step_Create (primitives : list RuntimePrimitive) (success : SuccessCreateBranch) (fail : FailCreateBranch)
| Step_CreateFibers (details : list CreateFiberDetail) (next : StepId)
| Step_Debug (msg : string) (next : StepId)
| Step_DebugPrintVars (next : StepId).

Record Func := mkFunc {
  in_vars : list InVar;
  out : Type_;
  locals : list LocalVar;
  steps : list (StepId * Step)
}.

Record Fiber := mkFiber {
  heap : gmap string Type_;
  init_vars : list InVar;
  funcs : gmap string Func
}.

Record IR := mkIR { types : list Type_; fibers : gmap FiberType Fiber }.

(** ** Equality and printing of types *)
#[export] Instance Type_eq_dec : EqDecision Type_.
Proof.
  refine (fix go (t1 t2 : Type_) : Decision (t1 = t2) :=
    let dec : EqDecision Type_ := go in
    match t1, t2 with
    | Type_UInt64, Type_UInt64 | Type_String, Type_String | Type_Bool, Type_Bool | Type_Void, Type_Void => left eq_refl
    | Type_Map k v, Type_Map k' v' => cast_if_and (decide (k = k')) (decide (v = v'))
    | Type_Array t, Type_Array t' | Type_MaxQueue t, Type_MaxQueue t' | Type_MinQueue t, Type_MinQueue t'
    | Type_Option t, Type_Option t' | Type_Future t, Type_Future t' => cast_if (decide (t = t'))
    | Type_Struct n f i, Type_Struct n' f' i' | Type_PubQueueMessage n f i, Type_PubQueueMessage n' f' i' =>
        cast_if_and3 (decide (n = n')) (decide (f = f')) (decide (i = i'))
    | Type_Custom n, Type_Custom n' => cast_if (decide (n = n'))
    | _, _ => right _
    end); clear go dec; abstract congruence.
Defined.

(** [{:?}] of a string. A byte above 127 is part of a printable character. *)
Definition quote : string := String "034"%char "".
Definition newline : string := String "010"%char "".

Definition hex_digit (n : N) : string := String (ascii_of_N (if decide (n < 10)%N then 48 + n else 87 + n)) "".

Definition escape_char (c : ascii) : string :=
  let n := N_of_ascii c in
  if decide (n = 0)%N then "\0" else if decide (n = 9)%N then "\t" else if decide (n = 10)%N then "\n"
  else if decide (n = 13)%N then "\r" else if decide (n = 34)%N then "\" +:+ quote else if decide (n = 92)%N then "\\"
  else if decide (n < 16)%N then "\u{" +:+ hex_digit n +:+ "}"
  else if decide (n < 32)%N then "\u{1" +:+ hex_digit (n - 16) +:+ "}"
  else if decide (n = 127)%N then "\u{7f}" else String c "".

Fixpoint escape (s : string) : string :=
  match s with
  | EmptyString => ""
  | String c s' => escape_char c +:+ escape s'
  end.

Definition debug_str (s : string) : string := quote +:+ escape s +:+ quote.

Fixpoint str_join (sep : string) (l : list string) : string :=
  match l with
  | [] => ""
  | [x] => x
  | x :: l' => x +:+ sep +:+ str_join sep l'
  end.

(** [{:?}] of a type, as derived. *)
Fixpoint debug_type (t : Type_) : string :=
  let debug_fields fields :=
    "[" +:+ str_join ", " (map (fun '(n, ft) => "StructField { name: " +:+ debug_str n +:+ ", ty: " +:+ debug_type ft +:+ " }") fields) +:+ "]" in
  match t with
  | Type_UInt64 => "UInt64"
  | Type_String => "String"
  | Type_Bool => "Bool"
  | Type_Void => "Void"
  | Type_Map k v => "Map(" +:+ debug_type k +:+ ", " +:+ debug_type v +:+ ")"
  | Type_Array t => "Array(" +:+ debug_type t +:+ ")"
  | Type_Struct name fields impl =>
      "Struct(" +:+ debug_str name +:+ ", " +:+ debug_fields fields +:+ ", " +:+ debug_str impl +:+ ")"
  | Type_MaxQueue t => "MaxQueue(" +:+ debug_type t +:+ ")"
  | Type_MinQueue t => "MinQueue(" +:+ debug_type t +:+ ")"
  | Type_Option t => "Option(" +:+ debug_type t +:+ ")"
  | Type_Future t => "Future(" +:+ debug_type t +:+ ")"
  | Type_Custom name => "Custom(" +:+ debug_str name +:+ ")"
  | Type_PubQueueMessage name fields additions =>
      "PubQueueMessage { name: " +:+ debug_str name +:+ ", fields: " +:+ debug_fields fields +:+
      ", rust_additions: " +:+ debug_str additions +:+ " }"
  end.

Definition debug_step_id (id : StepId) : string := "StepId(" +:+ debug_str id +:+ ")".

(** ** Messages *)
Inductive Message : Type :=
| Main_not_void (fiber : string)
| No_entry (fiber func : string)
| No_main (fiber : string)
| No_root
| No_public_future_id (name : string)
| Duplicate (name : string) (t previous : Type_)
| Undefined (id : StepId) (name : string)
| Unknown_fiber (id : StepId) (fiber : string)
| Init_vars_count (id : StepId) (fiber : string) (expected got : nat)
| Init_var_type (id : StepId) (fiber : string) (idx : nat) (expected got : Type_)
| Call_args_count (id : StepId) (target : FuncRef) (expected got : nat)
| Call_arg_type (id : StepId) (name : string) (expected got : Type_)
| Call_bind_type (id : StepId) (name : string) (expected got : Type_)
| Return_type (id : StepId) (expected : Type_) (got : option Type_)
| Condition_type (id : StepId) (got : Type_)
| Operand_types (id : StepId) (left right : Type_)
| Comparison_type (id : StepId) (got : Type_)
| Let_type (id : StepId) (name : string) (expected got : Type_)
| Select_queue_type (id : StepId) (name : string) (got : Type_)
| Set_queue_type (id : StepId) (name : string) (got : Type_)
| Set_future_value (id : StepId) (name : string) (expected got : Type_)
| Set_future_handle (id : StepId) (name : string) (got : Type_)
| Id_binds_count (id : StepId) (binds primitives : nat)
| Error_binds_count (id : StepId) (binds primitives : nat)
| Success_not_string (id : StepId) (name : string) (got : Type_)
| Success_not_future (id : StepId) (name : string) (got : Type_)
| Schedule_not_void (id : StepId) (name : string) (inner : Type_)
| Schedule_not_future (id : StepId) (name : string) (got : Type_)
| Error_not_option (id : StepId) (name : string) (got : Type_)
| Queue_name_type (id : StepId) (name : string) (got : Type_)
| Schedule_ms_type (id : StepId) (name : string) (got : Type_).

Definition render (m : Message) : string :=
  let step id := debug_step_id id +:+ " " in
  let quoted name := "'" +:+ name +:+ "'" in
  let expected_got e g := ": expected " +:+ debug_type e +:+ ", got " +:+ debug_type g +:+ newline in
  match m with
  | Main_not_void fiber => fiber +:+ " main function can only return void"
  | No_entry fiber func => fiber +:+ "." +:+ func +:+ " doesnt have step 'entry'" +:+ newline
  | No_main fiber => fiber +:+ " doesnt have 'main' function" +:+ newline
  | No_root => "no 'root' fiber" +:+ newline
  | No_public_future_id name =>
      "PubQueueMessage " +:+ quoted name +:+ " must include field public_future_id: String or Future<T>" +:+ newline
  | Duplicate name t previous =>
      "duplicate var name " +:+ name +:+ " for types: " +:+ debug_type t +:+ " and " +:+ debug_type previous +:+ newline
  | Undefined id name => step id +:+ "references " +:+ name +:+ " that is not defined" +:+ newline
  | Unknown_fiber id fiber => step id +:+ "CreateFibers references unknown fiber " +:+ quoted fiber +:+ newline
  | Init_vars_count id fiber e g =>
      step id +:+ "CreateFibers " +:+ quoted fiber +:+ " expects " +:+ pretty e +:+ " init vars, got " +:+ pretty g +:+ newline
  | Init_var_type id fiber idx e g =>
      step id +:+ "CreateFibers " +:+ quoted fiber +:+ " arg " +:+ pretty idx +:+ " type mismatch" +:+ expected_got e g
  | Call_args_count id target e g =>
      step id +:+ "call " +:+ target_fiber target +:+ "." +:+ target_func target +:+ " expects " +:+ pretty e +:+
      " args, got " +:+ pretty g +:+ newline
  | Call_arg_type id name e g => step id +:+ "call arg " +:+ quoted name +:+ " type mismatch" +:+ expected_got e g
  | Call_bind_type id name e g => step id +:+ "bind " +:+ quoted name +:+ " type mismatch" +:+ expected_got e g
  | Return_type id e (Some g) =>
      step id +:+ "return type mismatch: function returns " +:+ debug_type e +:+ ", got " +:+ debug_type g +:+ newline
  | Return_type id e None => step id +:+ "return type mismatch: function returns " +:+ debug_type e +:+ newline
  | Condition_type id g => step id +:+ "condition must be Bool, got " +:+ debug_type g +:+ newline
  | Operand_types id l r =>
      step id +:+ "condition operand types mismatch: left " +:+ debug_type l +:+ ", right " +:+ debug_type r +:+ newline
  | Comparison_type id g => step id +:+ "comparison expects UInt64 operands, got " +:+ debug_type g +:+ newline
  | Let_type id name e g => step id +:+ "let " +:+ quoted name +:+ " type mismatch" +:+ expected_got e g
  | Select_queue_type id name g => step id +:+ "queue_name " +:+ quoted name +:+ " must be String, got " +:+ debug_type g +:+ newline
  | Set_queue_type id name g => step id +:+ "queue id " +:+ quoted name +:+ " must be String, got " +:+ debug_type g +:+ newline
  | Set_future_value id name e g =>
      step id +:+ "SetValues::Future value " +:+ quoted name +:+ " type mismatch" +:+ expected_got e g
  | Set_future_handle id name g => step id +:+ "future handle " +:+ quoted name +:+ " must be Future<T>, got " +:+ debug_type g +:+ newline
  | Id_binds_count id n k =>
      step id +:+ "Create: id_binds length " +:+ pretty n +:+ " does not match primitives " +:+ pretty k +:+ newline
  | Error_binds_count id n k =>
      step id +:+ "Create: error_binds length " +:+ pretty n +:+ " does not match primitives " +:+ pretty k +:+ newline
  | Success_not_string id name g =>
      step id +:+ "Create: success bind " +:+ quoted name +:+ " must be String, got " +:+ debug_type g +:+ newline
  | Success_not_future id name g =>
      step id +:+ "Create: success bind " +:+ quoted name +:+ " must be Future<T>, got " +:+ debug_type g +:+ newline
  | Schedule_not_void id name inner =>
      step id +:+ "Create: success bind " +:+ quoted name +:+ " for Schedule must be Future<Void>, got Future<" +:+
      debug_type inner +:+ ">" +:+ newline
  | Schedule_not_future id name g =>
      step id +:+ "Create: success bind " +:+ quoted name +:+ " for Schedule must be Future<Void>, got " +:+ debug_type g +:+ newline
  | Error_not_option id name g =>
      step id +:+ "Create: error bind " +:+ quoted name +:+ " must be Option<String>, got " +:+ debug_type g +:+ newline
  | Queue_name_type id name g =>
      step id +:+ "Create: queue name var " +:+ quoted name +:+ " must be String, got " +:+ debug_type g +:+ newline
  | Schedule_ms_type id name g =>
      step id +:+ "Create: schedule ms var " +:+ quoted name +:+ " must be U64, got " +:+ debug_type g +:+ newline
  end.

(** ** Types of expressions *)

(** [iter().find_map]. *)
Definition find_map {A B} (f : A -> option B) (l : list A) : option B := head (omap f l).

Section validation.
Context (ir : IR).

Definition struct_named (name : string) (t : Type_) : option (list StructField) :=
  match t with
  | Type_Struct n fields _ | Type_PubQueueMessage n fields _ => if decide (n = name) then Some fields else None
  | _ => None
  end.

Definition resolve_struct_fields (t : Type_) : option (list StructField) :=
  match t with
  | Type_Struct _ fields _ => Some fields
  | Type_PubQueueMessage _ fields _ => Some fields
  | Type_Custom name => find_map (struct_named name) (types ir)
  | _ => None
  end.

Definition resolve_struct_field_type (t : Type_) (field : string) : option Type_ :=
  fields ← resolve_struct_fields t;
  find_map (fun '(n, ft) => if decide (n = field) then Some ft else None) fields.

Notation Vars := (gmap string Type_).

(** The operands of a comparison and the updates of a structure do not bear on the type. *)
Fixpoint infer_expr_type (expr : Expr) (vars : Vars) : option Type_ :=
  match expr with
  | Expr_UInt64 _ => Some Type_UInt64
  | Expr_Str _ => Some Type_String
  | Expr_Bool _ => Some Type_Bool
  | Expr_Var name => vars !! name
  | Expr_Equal _ _ | Expr_Greater _ _ | Expr_Less _ _ => Some Type_Bool
  | Expr_IsSome _ => Some Type_Bool
  | Expr_Unwrap inner =>
      match infer_expr_type inner vars with
      | Some (Type_Option t) => Some t
      | _ => None
      end
  | Expr_GetField base field => bty ← infer_expr_type base vars; resolve_struct_field_type bty field
  | Expr_StructUpdate base _ => infer_expr_type base vars
  end.

Fixpoint infer_ret_value_type (rv : RetValue) (vars : Vars) : option Type_ :=
  match rv with
  | RetValue_Var name => vars !! name
  | RetValue_UInt64 _ => Some Type_UInt64
  | RetValue_Str _ => Some Type_String
  | RetValue_Bool _ => Some Type_Bool
  | RetValue_Some inner => Type_Option <$> infer_ret_value_type inner vars
  | RetValue_None => Some (Type_Option Type_Void)
  end.

Definition return_type_compatible (func_out : Type_) (rv : RetValue) (inferred : option Type_) : bool :=
  match func_out, rv, inferred with
  | Type_Option _, RetValue_None, _ => true
  | Type_Option _, RetValue_Some _, Some (Type_Option _) => true
  | fo, _, Some it => bool_decide (fo = it)
  | _, _, None => true
  end.

Definition undefined (vars : Vars) (id : StepId) (name : string) : list Message :=
  match vars !! name with Some _ => [] | None => [Undefined id name] end.

Fixpoint collect_vars_from_expr (expr : Expr) (vars : Vars) (id : StepId) : list Message :=
  match expr with
  | Expr_Var name => undefined vars id name
  | Expr_Equal a b | Expr_Greater a b | Expr_Less a b => collect_vars_from_expr a vars id ++ collect_vars_from_expr b vars id
  | Expr_IsSome inner | Expr_Unwrap inner => collect_vars_from_expr inner vars id
  | Expr_GetField base _ => collect_vars_from_expr base vars id
  | Expr_StructUpdate base updates =>
      collect_vars_from_expr base vars id ++ concat (map (fun '(_, e) => collect_vars_from_expr e vars id) updates)
  | _ => []
  end.

Fixpoint collect_vars_from_ret_value (rv : RetValue) (vars : Vars) (id : StepId) : list Message :=
  match rv with
  | RetValue_Var name => undefined vars id name
  | RetValue_Some inner => collect_vars_from_ret_value inner vars id
  | _ => []
  end.

(** ** The variables in scope *)

(** [insert], with a message when the name was taken. *)
Definition insert_var (acc : Vars * list Message) (v : string * Type_) : Vars * list Message :=
  let '(vars, msgs) := acc in
  let '(name, t) := v in
  (<[name := t]> vars, msgs ++ match vars !! name with Some previous => [Duplicate name t previous] | None => [] end).

(** [entry(..).or_insert_with(..)]. *)
Definition or_insert (vars : Vars) (v : string * Type_) : Vars :=
  let '(name, t) := v in
  match vars !! name with Some _ => vars | None => <[name := t]> vars end.

Definition vars_map (fiber : Fiber) (f : Func) : Vars * list Message :=
  let '(vars, msgs) := foldl insert_var (∅, []) (in_vars f ++ locals f) in
  (foldl or_insert vars (init_vars fiber), msgs).

(** ** The steps *)

(** [if l != r { push(m) }] *)
Definition unless (b : bool) (m : Message) : list Message := if b then [] else [m].

(** One of the positional arguments of [CreateFibers]. *)
Definition check_init_var (vars : Vars) (id : StepId) (fiber : string) (target : Fiber) (idx : nat) (var_ref : string) : list Message :=
  match vars !! var_ref with
  | Some t =>
      match init_vars target !! idx with
      | Some (_, pty) => unless (bool_decide (t = pty)) (Init_var_type id fiber idx pty t)
      | None => []
      end
  | None => [Undefined id var_ref]
  end.

Definition check_detail (vars : Vars) (id : StepId) (d : CreateFiberDetail) : list Message :=
  match fibers ir !! f_name d with
  | Some target =>
      unless (bool_decide (length (detail_init_vars d) = length (init_vars target)))
        (Init_vars_count id (f_name d) (length (init_vars target)) (length (detail_init_vars d))) ++
      concat (imap (check_init_var vars id (f_name d) target) (detail_init_vars d))
  | None => [Unknown_fiber id (f_name d)]
  end.

Definition callee_of (target : FuncRef) : option Func :=
  ff ← fibers ir !! target_fiber target; funcs ff !! target_func target.

Definition check_arg (vars : Vars) (id : StepId) (callee : Func) (idx : nat) (aexpr : Expr) : list Message :=
  match in_vars callee !! idx with
  | Some (pname, pty) =>
      match infer_expr_type aexpr vars with
      | Some at_ => unless (bool_decide (at_ = pty)) (Call_arg_type id pname pty at_)
      | None => []
      end
  | None => []
  end.

Definition check_call (vars : Vars) (id : StepId) (target : FuncRef) (args : list Expr) (bind : option string) : list Message :=
  concat (map (fun e => collect_vars_from_expr e vars id) args) ++
  match callee_of target with
  | Some callee =>
      unless (bool_decide (length (in_vars callee) = length args))
        (Call_args_count id target (length (in_vars callee)) (length args)) ++
      concat (imap (check_arg vars id callee) args) ++
      match bind with
      | Some name =>
          match vars !! name with
          | Some bt => unless (bool_decide (out callee = bt)) (Call_bind_type id name (out callee) bt)
          | None => []
          end
      | None => []
      end
  | None => []
  end ++
  match bind with Some name => undefined vars id name | None => [] end.

Definition check_return (vars : Vars) (f : Func) (id : StepId) (value : RetValue) : list Message :=
  let inferred := infer_ret_value_type value vars in
  collect_vars_from_ret_value value vars id ++
  unless (return_type_compatible (out f) value inferred) (Return_type id (out f) inferred).

(** [std::mem::discriminant]. *)
Definition discriminant (t : Type_) : nat :=
  match t with
  | Type_UInt64 => 0 | Type_String => 1 | Type_Bool => 2 | Type_Void => 3 | Type_Map _ _ => 4 | Type_Array _ => 5
  | Type_Struct _ _ _ => 6 | Type_MaxQueue _ => 7 | Type_MinQueue _ => 8 | Type_Option _ => 9 | Type_Future _ => 10
  | Type_Custom _ => 11 | Type_PubQueueMessage _ _ _ => 12
  end.

Definition check_operands (vars : Vars) (id : StepId) (l r : Expr) (ordered : bool) : list Message :=
  match infer_expr_type l vars, infer_expr_type r vars with
  | Some lt, Some rt =>
      unless (bool_decide (discriminant lt = discriminant rt)) (Operand_types id lt rt) ++
      (if ordered then unless (bool_decide (lt = Type_UInt64)) (Comparison_type id lt) else [])
  | _, _ => []
  end.

Definition check_if (vars : Vars) (id : StepId) (cond : Expr) : list Message :=
  collect_vars_from_expr cond vars id ++
  match infer_expr_type cond vars with
  | Some cty => unless (bool_decide (cty = Type_Bool)) (Condition_type id cty)
  | None => []
  end ++
  match cond with
  | Expr_Equal l r => check_operands vars id l r false
  | Expr_Greater l r | Expr_Less l r => check_operands vars id l r true
  | _ => []
  end.

Definition check_let (vars : Vars) (id : StepId) (local : string) (expr : Expr) : list Message :=
  undefined vars id local ++ collect_vars_from_expr expr vars id ++
  match vars !! local, infer_expr_type expr vars with
  | Some lt, Some rt => unless (bool_decide (lt = rt)) (Let_type id local lt rt)
  | _, _ => []
  end.

(** [ir.fibers.values().any(|f| f.init_vars.iter().any(..))]; the order is of no effect. *)
Definition is_init_var (name : string) : bool :=
  existsb (fun e => existsb (fun iv => bool_decide (fst iv = name)) (init_vars (snd e))) (map_to_list (fibers ir)).

Definition check_arm (vars : Vars) (id : StepId) (arm : AwaitSpec) : list Message :=
  match arm with
  | AwaitSpec_Future bind _ _ => match bind with Some x => undefined vars id x | None => [] end
  | AwaitSpec_Queue queue_name message_var _ =>
      match vars !! queue_name with
      | Some t => unless (bool_decide (t = Type_String)) (Select_queue_type id queue_name t)
      | None => unless (is_init_var queue_name) (Undefined id queue_name)
      end ++ undefined vars id message_var
  end.

Definition check_set (vars : Vars) (id : StepId) (v : SetPrimitive) : list Message :=
  match v with
  | SetPrimitive_QueueMessage q x =>
      undefined vars id q ++
      match vars !! q with
      | Some t => unless (bool_decide (t = Type_String)) (Set_queue_type id q t)
      | None => []
      end ++ undefined vars id x
  | SetPrimitive_Future f x =>
      match vars !! f with
      | Some (Type_Future inner) =>
          match vars !! x with
          | Some vty => unless (bool_decide (vty = inner)) (Set_future_value id x inner vty)
          | None => [Undefined id x]
          end
      | Some other => [Set_future_handle id f other]
      | None => [Undefined id f]
      end
  end.

(** The types a bound identifier of a created primitive may have. *)
Definition check_id_bind (vars : Vars) (id : StepId) (p : RuntimePrimitive) (b : string) : list Message :=
  match vars !! b with
  | Some t =>
      match p, t with
      | RuntimePrimitive_Queue _ _, _ => unless (bool_decide (t = Type_String)) (Success_not_string id b t)
      | RuntimePrimitive_Future, Type_Future _ => []
      | RuntimePrimitive_Future, other => [Success_not_future id b other]
      | RuntimePrimitive_Schedule _, Type_Future inner => unless (bool_decide (inner = Type_Void)) (Schedule_not_void id b inner)
      | RuntimePrimitive_Schedule _, other => [Schedule_not_future id b other]
      end
  | None => [Undefined id b]
  end.

Definition check_error_bind (vars : Vars) (id : StepId) (b : string) : list Message :=
  match vars !! b with
  | Some t => unless (bool_decide (t = Type_Option Type_String)) (Error_not_option id b t)
  | None => [Undefined id b]
  end.

Definition check_primitive_vars (vars : Vars) (id : StepId) (p : RuntimePrimitive) : list Message :=
  match p with
  | RuntimePrimitive_Future => []
  | RuntimePrimitive_Queue q _ =>
      match vars !! q with
      | Some t => unless (bool_decide (t = Type_String)) (Queue_name_type id q t)
      | None => [Undefined id q]
      end
  | RuntimePrimitive_Schedule ms =>
      match vars !! ms with
      | Some t => unless (bool_decide (t = Type_UInt64)) (Schedule_ms_type id ms t)
      | None => [Undefined id ms]
      end
  end.

Definition check_primitive (vars : Vars) (id : StepId) (success : SuccessCreateBranch) (fail : FailCreateBranch)
  (i : nat) (p : RuntimePrimitive) : list Message :=
  match id_binds success !! i with Some b => check_id_bind vars id p b | None => [] end ++
  match error_binds fail !! i with Some b => check_error_bind vars id b | None => [] end ++
  check_primitive_vars vars id p.

Definition check_create (vars : Vars) (id : StepId) (primitives : list RuntimePrimitive)
  (success : SuccessCreateBranch) (fail : FailCreateBranch) : list Message :=
  unless (bool_decide (length (id_binds success) = length primitives))
    (Id_binds_count id (length (id_binds success)) (length primitives)) ++
  unless (bool_decide (length (error_binds fail) = length primitives))
    (Error_binds_count id (length (error_binds fail)) (length primitives)) ++
  concat (imap (check_primitive vars id success fail) primitives).

Definition check_step (vars : Vars) (f : Func) (id : StepId) (step : Step) : list Message :=
  match step with
  | Step_Debug _ _ | Step_DebugPrintVars _ | Step_ReturnVoid => []
  | Step_CreateFibers details _ => concat (map (check_detail vars id) details)
  | Step_Call target args bind _ => check_call vars id target args bind
  | Step_Return value => check_return vars f id value
  | Step_If cond _ _ => check_if vars id cond
  | Step_Let local expr _ => check_let vars id local expr
  | Step_RustBlock binds _ _ => concat (map (undefined vars id) binds)
  | Step_Select arms => concat (map (check_arm vars id) arms)
  | Step_SetValues values _ => concat (map (check_set vars id) values)
  | Step_Create primitives success fail => check_create vars id primitives success fail
  end.

Definition uses_correct_variables (fiber : Fiber) (f : Func) : list Message :=
  let '(vars, duplicates) := vars_map fiber f in
  duplicates ++ concat (map (fun '(id, step) => check_step vars f id step) (steps f)).

(** ** The whole program *)
Definition check_func (fiber_name : FiberType) (fiber : Fiber) (func_name : string) (func : Func) : list Message :=
  uses_correct_variables fiber func ++
  (if decide (func_name = "main") then unless (bool_decide (out func = Type_Void)) (Main_not_void fiber_name) else []) ++
  unless (existsb (fun s => bool_decide (fst s = "entry")) (steps func)) (No_entry fiber_name func_name).

Definition check_fiber `{HashOrder} (fiber_name : FiberType) (fiber : Fiber) : list Message :=
  let fs := hash_iter (funcs fiber) in
  concat (map (fun '(func_name, func) => check_func fiber_name fiber func_name func) fs) ++
  unless (existsb (fun e => bool_decide (fst e = "main")) fs) (No_main fiber_name).

(** The fields are scanned up to the first of the name that has one of the two types. *)
Definition is_public_future_id (f : StructField) : bool :=
  let '(n, t) := f in
  bool_decide (n = "public_future_id") &&
  match t with Type_String | Type_Future _ => true | _ => false end.

Definition check_type (t : Type_) : list Message :=
  match t with
  | Type_PubQueueMessage name fields _ => unless (existsb is_public_future_id fields) (No_public_future_id name)
  | _ => []
  end.

Definition messages `{HashOrder} : list Message :=
  let fs := hash_iter (fibers ir) in
  concat (map (fun '(name, fiber) => check_fiber name fiber) fs) ++
  unless (existsb (fun e => bool_decide (fst e = "root")) fs) No_root ++
  concat (map check_type (types ir)).

Definition is_valid `{HashOrder} : bool * string :=
  let explanation := String.concat "" (map render messages) in
  (bool_decide (String.length explanation = 0%nat), explanation).
End validation.

