(* ===== verification/IrRules.v ===== *)
(** * The typing rules of the intermediate representation

    What [IR::is_valid] of [Ir] accepts, as rules: the types of expressions, the variables in
    scope of a function, and the steps that are well formed in it. The validator is exact:
    it accepts the well-formed programs and explains the others. *)
From S2P Require Import Prelude Ir.
Local Open Scope string_scope.
Local Open Scope list_scope.

Notation Vars := (gmap string Type_).

(** ** Lists of messages *)
Lemma concat_map_nil {A B} (f : A -> list B) l : concat (map f l) = [] <-> Forall (fun x => f x = []) l.
Proof.
  induction l as [|x l IH]; cbn; [done|]. rewrite app_nil, IH, Forall_cons. done.
Qed.

Lemma concat_imap_nil {A B} (f : nat -> A -> list B) l :
  concat (imap f l) = [] <-> forall i x, l !! i = Some x -> f i x = [].
Proof.
  revert f. induction l as [|x l IH]; intros f; cbn; [naive_solver|].
  rewrite app_nil, IH. unfold compose. split.
  - intros [Hx Hl] [|i] y Hy; [by injection Hy as <-|by apply Hl].
  - intros Hl. split; [by apply (Hl 0%nat)|]. intros i y Hy. by apply (Hl (S i)).
Qed.

Lemma unless_nil b m : unless b m = [] <-> b = true.
Proof. by destruct b. Qed.

Lemma existsb_spec {A} (f : A -> bool) l : existsb f l = true <-> exists x, x ∈ l /\ f x = true.
Proof. rewrite existsb_exists. by setoid_rewrite list_elem_of_In. Qed.

Lemma undefined_nil vars id name : undefined vars id name = [] <-> is_Some (vars !! name).
Proof. unfold undefined. destruct (vars !! name); [naive_solver|]. split; [done|by intros [? ?]]. Qed.

Lemma find_map_some {A B} (f : A -> option B) l y :
  find_map f l = Some y <-> exists l1 x l2, l = l1 ++ x :: l2 /\ f x = Some y /\ Forall (fun z => f z = None) l1.
Proof.
  unfold find_map. induction l as [|x l IH]; cbn.
  { split; [done|]. by intros ([|??] & ? & ? & ? & _). }
  destruct (f x) as [z|] eqn:E; cbn.
  - split.
    + intros [= ->]. exists [], x, l. by repeat constructor.
    + intros ([|x' l1] & x2 & l2 & [= -> ->] & Hy & Hn); [congruence|]. apply Forall_cons in Hn as [Hn _]. congruence.
  - rewrite IH. split.
    + intros (l1 & x' & l2 & -> & Hy & Hn). exists (x :: l1), x', l2. by repeat constructor.
    + intros ([|x' l1] & x2 & l2 & [= -> ->] & Hy & Hn); [congruence|]. apply Forall_cons in Hn as [_ Hn]. by exists l1, x2, l2.
Qed.

Section rules.
Context (ir : IR).

(** ** Expressions *)

(** The first element of [l] that [f] accepts, with its value. *)
Definition first_of {A B} (f : A -> option B) (l : list A) (y : B) : Prop :=
  exists before x after, l = before ++ x :: after /\ f x = Some y /\ Forall (fun z => f z = None) before.

Definition named_field (field : string) : StructField -> option Type_ :=
  fun '(n, ft) => if decide (n = field) then Some ft else None.

Inductive fields_of : Type_ -> list StructField -> Prop :=
| fields_struct name fields impl : fields_of (Type_Struct name fields impl) fields
| fields_message name fields additions : fields_of (Type_PubQueueMessage name fields additions) fields
| fields_custom name fields : first_of (struct_named name) (types ir) fields -> fields_of (Type_Custom name) fields.

Inductive has_type (vars : Vars) : Expr -> Type_ -> Prop :=
| type_u64 n : has_type vars (Expr_UInt64 n) Type_UInt64
| type_str s : has_type vars (Expr_Str s) Type_String
| type_bool b : has_type vars (Expr_Bool b) Type_Bool
| type_var x t : vars !! x = Some t -> has_type vars (Expr_Var x) t
| type_equal l r : has_type vars (Expr_Equal l r) Type_Bool
| type_greater l r : has_type vars (Expr_Greater l r) Type_Bool
| type_less l r : has_type vars (Expr_Less l r) Type_Bool
| type_is_some e : has_type vars (Expr_IsSome e) Type_Bool
| type_unwrap e t : has_type vars e (Type_Option t) -> has_type vars (Expr_Unwrap e) t
| type_field e s fields x t :
    has_type vars e s -> fields_of s fields -> first_of (named_field x) fields t -> has_type vars (Expr_GetField e x) t
| type_update base updates t : has_type vars base t -> has_type vars (Expr_StructUpdate base updates) t.

Lemma fields_of_spec t fields : resolve_struct_fields ir t = Some fields <-> fields_of t fields.
Proof.
  split.
  - destruct t; cbn; intros H; try discriminate H; try (injection H as <-; constructor).
    constructor. by apply find_map_some.
  - intros [| |name fs Hf]; [done|done|]. cbn. by apply find_map_some.
Qed.

Lemma infer_expr_type_spec vars e t : infer_expr_type ir e vars = Some t <-> has_type vars e t.
Proof.
  split.
  - revert t. induction e as [| | | | | | | |e IH|e IH x|e IH ups]; intros t H; cbn in H; try (injection H as <-; constructor).
    + by constructor.
    + destruct (infer_expr_type ir e vars) as [[]|]; try discriminate H. injection H as <-. constructor. by apply IH.
    + apply bind_Some in H as (s & Hs & H). apply bind_Some in H as (fields & Hf & H). apply IH in Hs.
      econstructor; [exact Hs|by apply fields_of_spec|]. by apply find_map_some.
    + constructor. by apply IH.
  - induction 1 as [| | | | | | | |e t H IH|e s fields x t H IH Hf Hx|base ups t H IH]; cbn; try done.
    + by rewrite IH.
    + rewrite IH. cbn. unfold resolve_struct_field_type. apply fields_of_spec in Hf. rewrite Hf. cbn.
      by apply find_map_some.
Qed.

(** An unknown type is no error: what is inferred, if anything, must be right. *)
Lemma inferred_right vars e t m :
  match infer_expr_type ir e vars with Some t' => unless (bool_decide (t' = t)) (m t') | None => [] end = [] <->
  forall t', has_type vars e t' -> t' = t.
Proof.
  destruct (infer_expr_type ir e vars) as [t'|] eqn:E.
  - rewrite unless_nil, bool_decide_eq_true. split; [|intros H; by apply H, infer_expr_type_spec].
    intros -> t2 H2. apply infer_expr_type_spec in H2. congruence.
  - split; [|done]. intros _ t' H. apply infer_expr_type_spec in H. congruence.
Qed.

(** The variables of an expression. *)
Fixpoint expr_vars (e : Expr) : list string :=
  match e with
  | Expr_Var x => [x]
  | Expr_Equal a b | Expr_Greater a b | Expr_Less a b => expr_vars a ++ expr_vars b
  | Expr_IsSome e | Expr_Unwrap e | Expr_GetField e _ => expr_vars e
  | Expr_StructUpdate base updates => expr_vars base ++ concat (map (fun '(_, e) => expr_vars e) updates)
  | _ => []
  end.

Fixpoint ret_vars (v : RetValue) : list string :=
  match v with
  | RetValue_Var x => [x]
  | RetValue_Some v => ret_vars v
  | _ => []
  end.

Definition defined (vars : Vars) (x : string) : Prop := is_Some (vars !! x).
Definition scoped (vars : Vars) (e : Expr) : Prop := Forall (defined vars) (expr_vars e).

(** Induction over expressions, through the updates. *)
Lemma Expr_nested_ind (P : Expr -> Prop) :
  (forall n, P (Expr_UInt64 n)) -> (forall s, P (Expr_Str s)) -> (forall b, P (Expr_Bool b)) -> (forall x, P (Expr_Var x)) ->
  (forall a b, P a -> P b -> P (Expr_Equal a b)) -> (forall a b, P a -> P b -> P (Expr_Greater a b)) ->
  (forall a b, P a -> P b -> P (Expr_Less a b)) -> (forall e, P e -> P (Expr_IsSome e)) -> (forall e, P e -> P (Expr_Unwrap e)) ->
  (forall e x, P e -> P (Expr_GetField e x)) ->
  (forall base updates, P base -> Forall (fun u => P (snd u)) updates -> P (Expr_StructUpdate base updates)) ->
  forall e, P e.
Proof.
  intros H1 H2 H3 H4 H5 H6 H7 H8 H9 H10 H11. fix go 1. intros [n|s|b|x|a b|a b|a b|e|e|e x|base ups];
    [apply H1|apply H2|apply H3|apply H4|apply H5; apply go|apply H6; apply go|apply H7; apply go|apply H8, go|apply H9, go|apply H10, go|].
  apply H11; [apply go|]. induction ups as [|[x e] ups IH]; constructor; [apply go|exact IH].
Qed.

Lemma concat_map_concat {A B C} (f : A -> list B) (g : B -> list C) l :
  concat (map g (concat (map f l))) = concat (map (fun x => concat (map g (f x))) l).
Proof. induction l as [|x l IH]; cbn; [done|]. by rewrite map_app, concat_app, IH. Qed.

Lemma collect_vars_expr vars id e : collect_vars_from_expr e vars id = concat (map (undefined vars id) (expr_vars e)).
Proof.
  induction e as [| | |x|a b IHa IHb|a b IHa IHb|a b IHa IHb|e IH|e IH|e x IH|base ups IH IHs] using Expr_nested_ind;
    cbn [collect_vars_from_expr expr_vars]; try done; try (by rewrite map_app, concat_app, IHa, IHb).
  - cbn. by rewrite app_nil_r.
  - rewrite map_app, concat_app, IH, concat_map_concat. f_equal. f_equal. apply map_ext_Forall.
    eapply Forall_impl; [exact IHs|]. by intros [x e] He.
Qed.

Lemma collect_vars_nil vars id e : collect_vars_from_expr e vars id = [] <-> scoped vars e.
Proof. rewrite collect_vars_expr, concat_map_nil. apply Forall_iff. intros x. apply undefined_nil. Qed.

Lemma collect_ret_nil vars id v : collect_vars_from_ret_value v vars id = [] <-> Forall (defined vars) (ret_vars v).
Proof.
  induction v as [x| | | |v IH|]; cbn [collect_vars_from_ret_value ret_vars]; try done.
  rewrite undefined_nil, Forall_singleton. done.
Qed.

(** ** Returned values *)
Inductive ret_has_type (vars : Vars) : RetValue -> Type_ -> Prop :=
| ret_var x t : vars !! x = Some t -> ret_has_type vars (RetValue_Var x) t
| ret_u64 n : ret_has_type vars (RetValue_UInt64 n) Type_UInt64
| ret_str s : ret_has_type vars (RetValue_Str s) Type_String
| ret_bool b : ret_has_type vars (RetValue_Bool b) Type_Bool
| ret_some v t : ret_has_type vars v t -> ret_has_type vars (RetValue_Some v) (Type_Option t)
| ret_none : ret_has_type vars RetValue_None (Type_Option Type_Void).

Lemma infer_ret_spec vars v t : infer_ret_value_type v vars = Some t <-> ret_has_type vars v t.
Proof.
  split.
  - revert t. induction v as [x| | | |v IH|]; intros t H; cbn in H; try (injection H as <-; constructor); [by constructor|].
    apply fmap_Some in H as (u & Hu & ->). constructor. by apply IH.
  - induction 1 as [| | | |v t H IH|]; cbn; try done. by rewrite IH.
Qed.

(** A function may return any [Some] as an [Option]; the payload's type is not compared. *)
Inductive return_ok (vars : Vars) (func_out : Type_) : RetValue -> Prop :=
| return_none t : func_out = Type_Option t -> return_ok vars func_out RetValue_None
| return_some t v : func_out = Type_Option t -> return_ok vars func_out (RetValue_Some v)
| return_exact v : (forall t, ret_has_type vars v t -> t = func_out) -> return_ok vars func_out v.

Lemma return_compatible_spec vars func_out v :
  return_type_compatible func_out v (infer_ret_value_type v vars) = true <-> return_ok vars func_out v.
Proof.
  assert (Hexact : forall v, (match infer_ret_value_type v vars with Some it => bool_decide (func_out = it) | None => true end) = true <->
    forall t, ret_has_type vars v t -> t = func_out).
  { clear v. intros v. destruct (infer_ret_value_type v vars) as [it|] eqn:E.
    - rewrite bool_decide_eq_true. split; [|intros H; symmetry; by apply H, infer_ret_spec].
      intros -> t Ht. apply infer_ret_spec in Ht. congruence.
    - split; [|done]. intros _ t Ht. apply infer_ret_spec in Ht. congruence. }
  split.
  - intros H. destruct func_out; destruct v; try discriminate H; try (by eapply return_none); try (by eapply return_some);
      apply return_exact, Hexact; exact H.
  - intros [t ->|t v' ->|v' Hv]; [done| |].
    + cbn. by destruct (infer_ret_value_type v' vars).
    + apply Hexact in Hv. destruct func_out, v'; cbn in *; try done; repeat case_match; done.
Qed.

(** ** Steps *)
Definition defined_opt (vars : Vars) (x : option string) : Prop := forall y, x = Some y -> defined vars y.
Definition typed (vars : Vars) (e : Expr) (t : Type_) : Prop := forall t', has_type vars e t' -> t' = t.

Inductive cond_ok (vars : Vars) : Expr -> Prop :=
| cond_equal l r :
    (forall tl tr, has_type vars l tl -> has_type vars r tr -> discriminant tl = discriminant tr) ->
    cond_ok vars (Expr_Equal l r)
| cond_ordered e l r :
    e = Expr_Greater l r \/ e = Expr_Less l r ->
    (forall tl tr, has_type vars l tl -> has_type vars r tr -> tl = Type_UInt64 /\ tr = Type_UInt64) -> cond_ok vars e
| cond_other e : typed vars e Type_Bool -> match e with Expr_Equal _ _ | Expr_Greater _ _ | Expr_Less _ _ => False | _ => True end ->
    cond_ok vars e.

Inductive arm_ok (vars : Vars) : AwaitSpec -> Prop :=
| arm_future bind ret_to future_id : defined_opt vars bind -> arm_ok vars (AwaitSpec_Future bind ret_to future_id)
| arm_queue q x next :
    vars !! q = Some Type_String \/ (vars !! q = None /\ exists fiber f, fibers ir !! fiber = Some f /\ q ∈ (init_vars f).*1) ->
    defined vars x -> arm_ok vars (AwaitSpec_Queue q x next).

Inductive set_ok (vars : Vars) : SetPrimitive -> Prop :=
| set_queue q x : vars !! q = Some Type_String -> defined vars x -> set_ok vars (SetPrimitive_QueueMessage q x)
| set_future f x t : vars !! f = Some (Type_Future t) -> vars !! x = Some t -> set_ok vars (SetPrimitive_Future f x).

Inductive id_bind_ok (vars : Vars) : string -> RuntimePrimitive -> Prop :=
| bind_queue b q public : vars !! b = Some Type_String -> id_bind_ok vars b (RuntimePrimitive_Queue q public)
| bind_future b t : vars !! b = Some (Type_Future t) -> id_bind_ok vars b RuntimePrimitive_Future
| bind_schedule b ms : vars !! b = Some (Type_Future Type_Void) -> id_bind_ok vars b (RuntimePrimitive_Schedule ms).

Inductive primitive_ok (vars : Vars) : RuntimePrimitive -> Prop :=
| primitive_future : primitive_ok vars RuntimePrimitive_Future
| primitive_queue q public : vars !! q = Some Type_String -> primitive_ok vars (RuntimePrimitive_Queue q public)
| primitive_schedule ms : vars !! ms = Some Type_UInt64 -> primitive_ok vars (RuntimePrimitive_Schedule ms).

(** A call to a function that does not exist is not checked. *)
Inductive step_ok (vars : Vars) (func_out : Type_) : Step -> Prop :=
| ok_call target args bind ret_to :
    Forall (scoped vars) args -> defined_opt vars bind ->
    (forall callee, callee_of ir target = Some callee ->
       Forall2 (fun e v => typed vars e (snd v)) args (in_vars callee) /\
       forall x, bind = Some x -> vars !! x = Some (out callee)) ->
    step_ok vars func_out (Step_Call target args bind ret_to)
| ok_return v : Forall (defined vars) (ret_vars v) -> return_ok vars func_out v -> step_ok vars func_out (Step_Return v)
| ok_return_void : step_ok vars func_out Step_ReturnVoid
| ok_if cond then_ else_ : scoped vars cond -> cond_ok vars cond -> step_ok vars func_out (Step_If cond then_ else_)
| ok_let x e next lt : vars !! x = Some lt -> scoped vars e -> typed vars e lt -> step_ok vars func_out (Step_Let x e next)
| ok_rust_block binds code next : Forall (defined vars) binds -> step_ok vars func_out (Step_RustBlock binds code next)
| ok_select arms : Forall (arm_ok vars) arms -> step_ok vars func_out (Step_Select arms)
| ok_set_values values next : Forall (set_ok vars) values -> step_ok vars func_out (Step_SetValues values next)
| ok_create primitives success fail :
    Forall2 (id_bind_ok vars) (id_binds success) primitives ->
    Forall2 (fun b _ => vars !! b = Some (Type_Option Type_String)) (error_binds fail) primitives ->
    Forall (primitive_ok vars) primitives -> step_ok vars func_out (Step_Create primitives success fail)
| ok_create_fibers details next :
    Forall (fun d => exists target, fibers ir !! f_name d = Some target /\
      Forall2 (fun x v => vars !! x = Some (snd v)) (detail_init_vars d) (init_vars target)) details ->
    step_ok vars func_out (Step_CreateFibers details next)
| ok_debug msg next : step_ok vars func_out (Step_Debug msg next)
| ok_debug_print_vars next : step_ok vars func_out (Step_DebugPrintVars next).

(** ** Functions, fibers and programs *)

(** A parameter or a local hides a variable of the fiber of the same name. *)
Definition scope (fiber : Fiber) (f : Func) : Vars := list_to_map (in_vars f ++ locals f ++ init_vars fiber).

Record func_ok (fiber : Fiber) (name : string) (f : Func) : Prop := {
  fo_distinct : NoDup (in_vars f ++ locals f).*1;
  fo_steps : Forall (fun s => step_ok (scope fiber f) (out f) (snd s)) (steps f);
  fo_main : name = "main" -> out f = Type_Void;
  fo_entry : "entry" ∈ (steps f).*1
}.

Record fiber_ok (fiber : Fiber) : Prop := {
  fb_funcs : forall name f, funcs fiber !! name = Some f -> func_ok fiber name f;
  fb_main : is_Some (funcs fiber !! "main")
}.

Definition type_ok (t : Type_) : Prop :=
  match t with
  | Type_PubQueueMessage _ fields _ =>
      ("public_future_id", Type_String) ∈ fields \/ exists u, ("public_future_id", Type_Future u) ∈ fields
  | _ => True
  end.

Record well_formed : Prop := {
  wf_fibers : forall name fiber, fibers ir !! name = Some fiber -> fiber_ok fiber;
  wf_root : is_Some (fibers ir !! "root");
  wf_types : Forall type_ok (types ir)
}.

(** ** The validator checks the rules *)
Lemma type_string_nil (vars : Vars) (x : string) (m : Type_ -> Message) t n :
  match vars !! x with Some t' => unless (bool_decide (t' = t)) (m t') | None => [n] end = [] <-> vars !! x = Some t.
Proof.
  destruct (vars !! x) as [t'|]; [|done]. rewrite unless_nil, bool_decide_eq_true. naive_solver.
Qed.

Lemma defined_opt_nil (vars : Vars) id (x : option string) :
  match x with Some y => undefined vars id y | None => [] end = [] <-> defined_opt vars x.
Proof.
  unfold defined_opt. destruct x as [y|]; [|done]. rewrite undefined_nil. naive_solver.
Qed.

Lemma Forall2_lookup_iff {A B} (P : A -> B -> Prop) l k :
  Forall2 P l k <-> length l = length k /\ forall i x y, l !! i = Some x -> k !! i = Some y -> P x y.
Proof.
  rewrite Forall2_same_length_lookup. done.
Qed.

Lemma check_detail_nil (vars : Vars) id d :
  check_detail ir vars id d = [] <-> exists target, fibers ir !! f_name d = Some target /\
    Forall2 (fun x v => vars !! x = Some (snd v)) (detail_init_vars d) (init_vars target).
Proof.
  unfold check_detail. destruct (fibers ir !! f_name d) as [target|]; [|by split; [|intros (? & ? & _)]].
  rewrite app_nil, unless_nil, bool_decide_eq_true, concat_imap_nil. split.
  - intros [Hlen Hc]. exists target. split; [done|]. apply Forall2_lookup_iff. split; [done|]. intros i x [n t] Hx Hy.
    specialize (Hc i x Hx). unfold check_init_var in Hc. destruct (vars !! x) as [t'|]; [|done]. rewrite Hy in Hc.
    apply unless_nil, bool_decide_eq_true in Hc. by subst.
  - intros (target' & [= <-] & Hf). apply Forall2_lookup_iff in Hf as [Hlen Hf]. split; [done|]. intros i x Hx.
    unfold check_init_var. destruct (lookup_lt_is_Some_2 (init_vars target) i) as [[n t] Hy].
    { rewrite <-Hlen. by eapply lookup_lt_Some. }
    rewrite (Hf i x (n, t) Hx Hy), Hy. by apply unless_nil, bool_decide_eq_true.
Qed.

Lemma check_call_nil (vars : Vars) id target args bind :
  check_call ir vars id target args bind = [] <->
  Forall (scoped vars) args /\ defined_opt vars bind /\
  (forall callee, callee_of ir target = Some callee ->
     Forall2 (fun e v => typed vars e (snd v)) args (in_vars callee) /\
     forall x, bind = Some x -> vars !! x = Some (out callee)).
Proof.
  unfold check_call. rewrite !app_nil, concat_map_nil, defined_opt_nil.
  setoid_rewrite collect_vars_nil.
  enough (Hcallee : defined_opt vars bind -> forall callee,
    unless (bool_decide (length (in_vars callee) = length args))
        (Call_args_count id target (length (in_vars callee)) (length args)) ++
      concat (imap (check_arg ir vars id callee) args) ++
      match bind with
      | Some name =>
          match vars !! name with
          | Some bt => unless (bool_decide (out callee = bt)) (Call_bind_type id name (out callee) bt)
          | None => []
          end
      | None => []
      end = [] <->
    Forall2 (fun e v => typed vars e (snd v)) args (in_vars callee) /\
    forall x, bind = Some x -> vars !! x = Some (out callee)).
  { destruct (callee_of ir target) as [callee|]; [|naive_solver]. split.
    - intros (Hs & Hc & Hb). apply Hcallee in Hc; [|done]. naive_solver.
    - intros (Hs & Hb & Hc). split_and!; [done| |done]. apply Hcallee; naive_solver. }
  intros Hb callee. rewrite !app_nil, unless_nil, bool_decide_eq_true, concat_imap_nil, Forall2_lookup_iff.
  assert (Hbind : match bind with
      | Some name =>
          match vars !! name with
          | Some bt => unless (bool_decide (out callee = bt)) (Call_bind_type id name (out callee) bt)
          | None => []
          end
      | None => []
      end = [] <-> forall x, bind = Some x -> vars !! x = Some (out callee)).
  { destruct bind as [x|]; [|done]. destruct (Hb x eq_refl) as [bt Hx]. rewrite Hx, unless_nil, bool_decide_eq_true. naive_solver. }
  rewrite Hbind. split.
  - intros (Hlen & Hc & Hx). split; [|exact Hx]. split; [done|]. intros i e [n t] He Hv. specialize (Hc i e He).
    unfold check_arg in Hc. rewrite Hv in Hc. exact (proj1 (inferred_right vars e t (Call_arg_type id n t)) Hc).
  - intros ([Hlen Hf] & Hx). split_and!; [done| |exact Hx]. intros i e He. unfold check_arg.
    destruct (in_vars callee !! i) as [[n t]|] eqn:Hv; [|done].
    apply (inferred_right vars e t (Call_arg_type id n t)). exact (Hf i e (n, t) He Hv).
Qed.

Lemma check_return_nil (vars : Vars) (f : Func) id v :
  check_return vars f id v = [] <-> Forall (defined vars) (ret_vars v) /\ return_ok vars (out f) v.
Proof. unfold check_return. by rewrite app_nil, collect_ret_nil, unless_nil, return_compatible_spec. Qed.

Lemma check_operands_nil (vars : Vars) id l r ordered :
  check_operands ir vars id l r ordered = [] <->
  forall tl tr, has_type vars l tl -> has_type vars r tr ->
    discriminant tl = discriminant tr /\ (ordered = true -> tl = Type_UInt64).
Proof.
  unfold check_operands. destruct (infer_expr_type ir l vars) as [lt|] eqn:El.
  2: { split; [|done]. intros _ tl tr Hl. apply infer_expr_type_spec in Hl. congruence. }
  destruct (infer_expr_type ir r vars) as [rt|] eqn:Er.
  2: { split; [|done]. intros _ tl tr _ Hr. apply infer_expr_type_spec in Hr. congruence. }
  rewrite app_nil, unless_nil, bool_decide_eq_true. split.
  - intros [Hd Ho] tl tr Hl Hr. apply infer_expr_type_spec in Hl, Hr. split; [congruence|]. intros ->.
    apply unless_nil, bool_decide_eq_true in Ho. congruence.
  - intros H. destruct (H lt rt) as [Hd Ho]; [by apply infer_expr_type_spec..|]. split; [done|].
    destruct ordered; [|done]. by apply unless_nil, bool_decide_eq_true, Ho.
Qed.

Lemma check_if_nil (vars : Vars) id cond : check_if ir vars id cond = [] <-> scoped vars cond /\ cond_ok vars cond.
Proof.
  unfold check_if. rewrite !app_nil, collect_vars_nil. apply and_iff_compat_l.
  rewrite (inferred_right vars cond Type_Bool (Condition_type id)). fold (typed vars cond Type_Bool).
  assert (Hord : forall l r, check_operands ir vars id l r true = [] <->
    forall tl tr, has_type vars l tl -> has_type vars r tr -> tl = Type_UInt64 /\ tr = Type_UInt64).
  { intros l r. rewrite check_operands_nil. split; intros H tl tr Hl Hr; destruct (H tl tr Hl Hr) as [H1 H2].
    - specialize (H2 eq_refl). subst. by destruct tr.
    - by subst. }
  assert (Hb : forall l r, typed vars (Expr_Equal l r) Type_Bool /\ typed vars (Expr_Greater l r) Type_Bool /\
    typed vars (Expr_Less l r) Type_Bool) by (intros l r; split_and!; intros t Ht; by inversion Ht).
  split.
  - intros [Ht Hc]. destruct cond as [| | | |l r|l r|l r| | | |]; try (by apply cond_other).
    + apply cond_equal. intros tl tr Hl Hr. by apply (check_operands_nil vars id l r false).
    + apply (cond_ordered _ _ l r); [by left|by apply Hord].
    + apply (cond_ordered _ _ l r); [by right|by apply Hord].
  - destruct 1 as [l r He|e l r [-> | ->] Ho|e Ht Hn].
    + split; [by apply Hb|]. apply check_operands_nil. intros tl tr Hl Hr. split; [by apply He|done].
    + split; [by apply Hb|]. by apply Hord.
    + split; [by apply Hb|]. by apply Hord.
    + split; [done|]. by destruct e.
Qed.

Lemma check_let_nil (vars : Vars) id x e :
  check_let ir vars id x e = [] <-> exists lt, vars !! x = Some lt /\ scoped vars e /\ typed vars e lt.
Proof.
  unfold check_let. rewrite !app_nil, collect_vars_nil, undefined_nil. split.
  - intros ([lt Hx] & Hs & Hc). exists lt. split_and!; [done|done|]. rewrite Hx in Hc. intros t Ht.
    apply infer_expr_type_spec in Ht. rewrite Ht in Hc. by apply unless_nil, bool_decide_eq_true in Hc.
  - intros (lt & Hx & Hs & Ht). split_and!; [by exists lt|done|]. rewrite Hx.
    destruct (infer_expr_type ir e vars) as [t|] eqn:E; [|done]. apply unless_nil, bool_decide_eq_true.
    symmetry. by apply Ht, infer_expr_type_spec.
Qed.

Lemma is_init_var_spec q :
  is_init_var ir q = true <-> exists fiber f, fibers ir !! fiber = Some f /\ q ∈ (init_vars f).*1.
Proof.
  unfold is_init_var. rewrite existsb_spec. split.
  - intros ([fiber f] & Hf%elem_of_map_to_list & ([x t] & Hx & Hq%bool_decide_eq_true)%existsb_spec). cbn in *. subst.
    exists fiber, f. split; [done|]. apply list_elem_of_fmap. by exists (q, t).
  - intros (fiber & f & Hf & Hq). exists (fiber, f). split; [by apply elem_of_map_to_list|]. apply existsb_spec.
    apply list_elem_of_fmap in Hq as ([x t] & -> & Hx). exists (x, t). split; [done|]. by apply bool_decide_eq_true.
Qed.

Lemma check_arm_nil (vars : Vars) id arm : check_arm ir vars id arm = [] <-> arm_ok vars arm.
Proof.
  destruct arm as [bind ret_to fut|q x next]; cbn.
  - rewrite defined_opt_nil. split; [by constructor|by inversion 1].
  - rewrite app_nil, undefined_nil. split.
    + intros [Hq Hx]. constructor; [|done]. destruct (vars !! q) as [t|] eqn:E.
      * left. apply unless_nil, bool_decide_eq_true in Hq. by subst.
      * right. split; [done|]. by apply unless_nil, is_init_var_spec in Hq.
    + inversion 1 as [|? ? ? Hq Hx]; subst. split; [|done]. destruct Hq as [-> | [-> Hi]]; [done|].
      by apply unless_nil, is_init_var_spec.
Qed.

Lemma check_set_nil (vars : Vars) id v : check_set vars id v = [] <-> set_ok vars v.
Proof.
  destruct v as [q x|f x]; cbn.
  - rewrite !app_nil, !undefined_nil. split.
    + intros ([t Hq] & Hc & Hx). rewrite Hq in Hc. apply unless_nil, bool_decide_eq_true in Hc. subst. by constructor.
    + inversion 1 as [? ? Hq Hx|]; subst. rewrite Hq. split_and!; [by eexists|done|done].
  - split.
    + destruct (vars !! f) as [t|] eqn:Ef; [|done]. destruct t; try done. intros Hc. econstructor; [done|].
      destruct (vars !! x) as [t'|]; [|done]. apply unless_nil, bool_decide_eq_true in Hc. by subst.
    + inversion 1 as [|? ? t Hf Hx]; subst. rewrite Hf, Hx. by apply unless_nil, bool_decide_eq_true.
Qed.

Lemma check_id_bind_nil (vars : Vars) id p b : check_id_bind vars id p b = [] <-> id_bind_ok vars b p.
Proof.
  unfold check_id_bind. split.
  - destruct (vars !! b) as [t|] eqn:Eb; [|done]. destruct p as [|q public|ms].
    + destruct t; try done. intros _. by econstructor.
    + intros Hc%unless_nil%bool_decide_eq_true. constructor. by subst.
    + destruct t; try done. intros Hc%unless_nil%bool_decide_eq_true. constructor. by subst.
  - inversion 1 as [? q public Hb|? t Hb|? ms Hb]; subst; rewrite Hb; [|done|]; by apply unless_nil, bool_decide_eq_true.
Qed.

Lemma check_primitive_vars_nil (vars : Vars) id p : check_primitive_vars vars id p = [] <-> primitive_ok vars p.
Proof.
  destruct p as [|q public|ms]; cbn.
  - split; [constructor|done].
  - rewrite type_string_nil. split; [by constructor|by inversion 1].
  - rewrite type_string_nil. split; [by constructor|by inversion 1].
Qed.

Lemma check_create_nil (vars : Vars) id primitives success fail :
  check_create vars id primitives success fail = [] <->
  Forall2 (id_bind_ok vars) (id_binds success) primitives /\
  Forall2 (fun b _ => vars !! b = Some (Type_Option Type_String)) (error_binds fail) primitives /\
  Forall (primitive_ok vars) primitives.
Proof.
  unfold check_create. rewrite !app_nil, !unless_nil, !bool_decide_eq_true, concat_imap_nil, !Forall2_lookup_iff, Forall_lookup.
  unfold check_primitive. split.
  - intros (Hs & He & Hc). split_and!; [done| |done| |].
    + intros i b p Hb Hp. specialize (Hc i p Hp). rewrite Hb, !app_nil, check_id_bind_nil in Hc. tauto.
    + intros i b p Hb Hp. specialize (Hc i p Hp). rewrite Hb, !app_nil in Hc. destruct Hc as (_ & Hc & _).
      by apply type_string_nil in Hc.
    + intros i p Hp. specialize (Hc i p Hp). rewrite !app_nil, check_primitive_vars_nil in Hc. tauto.
  - intros ((Hs & Hsb) & (He & Heb) & Hp). split_and!; [done|done|]. intros i p Hi. rewrite !app_nil. split_and!.
    + destruct (id_binds success !! i) as [b|] eqn:Eb; [|done]. apply check_id_bind_nil. by eapply Hsb.
    + destruct (error_binds fail !! i) as [b|] eqn:Eb; [|done]. apply type_string_nil. by eapply Heb.
    + by eapply check_primitive_vars_nil, Hp.
Qed.

Lemma Forall_iff' {A} (P Q : A -> Prop) l : (forall x, P x <-> Q x) -> Forall P l <-> Forall Q l.
Proof. intros H. split; intros Hl; (eapply Forall_impl; [exact Hl|]); intros x; apply H. Qed.

Lemma check_step_nil (vars : Vars) f id step : check_step ir vars f id step = [] <-> step_ok vars (out f) step.
Proof.
  destruct step as [target args bind ret_to|v| |cond then_ else_|x e next|binds code next|arms|values next|ps success fail
    |details next|msg next|next]; cbn [check_step].
  - rewrite check_call_nil. split; [intros (? & ? & ?); by constructor|by inversion 1].
  - rewrite check_return_nil. split; [intros (? & ?); by constructor|by inversion 1].
  - split; [constructor|done].
  - rewrite check_if_nil. split; [intros (? & ?); by constructor|by inversion 1].
  - rewrite check_let_nil. split; [intros (lt & ? & ? & ?); by econstructor|inversion 1; subst; by eexists].
  - rewrite concat_map_nil, (Forall_iff' _ (defined vars)) by (intros y; apply undefined_nil).
    split; [by constructor|by inversion 1].
  - rewrite concat_map_nil, (Forall_iff' _ (arm_ok vars)) by (intros y; apply check_arm_nil).
    split; [by constructor|by inversion 1].
  - rewrite concat_map_nil, (Forall_iff' _ (set_ok vars)) by (intros y; apply check_set_nil).
    split; [by constructor|by inversion 1].
  - rewrite check_create_nil. split; [intros (? & ? & ?); by constructor|by inversion 1].
  - rewrite concat_map_nil, Forall_iff' by (intros d; apply check_detail_nil). split; [by constructor|by inversion 1].
  - split; [constructor|done].
  - split; [constructor|done].
Qed.

(** ** Scopes *)
Lemma insert_vars_spec l : forall vars msgs,
  (foldl insert_var (vars, msgs) l).2 = [] <-> msgs = [] /\ NoDup l.*1 /\ forall x, x ∈ l.*1 -> vars !! x = None.
Proof.
  induction l as [|[x t] l IH]; intros vars msgs; cbn [foldl insert_var].
  { cbn. split; [|tauto]. intros ->. split_and!; [done|constructor|]. by intros x ?%elem_of_nil. }
  rewrite IH, app_nil, fmap_cons, NoDup_cons. cbn [fst]. setoid_rewrite elem_of_cons. split.
  - intros ([Hm Hx] & Hnd & Hl). destruct (vars !! x) eqn:Ex; [done|]. split_and!; [done| |done|].
    + intros Hel. specialize (Hl x Hel). by rewrite lookup_insert_eq in Hl.
    + intros y [->|Hy]; [done|]. specialize (Hl y Hy). by apply lookup_insert_None in Hl as [? _].
  - intros (Hm & (Hx & Hnd) & Hl). split_and!; [done|by rewrite (Hl x) by by left|done|].
    intros y Hy. apply lookup_insert_None. split; [apply Hl; by right|]. by intros ->.
Qed.

Lemma insert_vars_lookup l : forall vars msgs y, NoDup l.*1 ->
  (foldl insert_var (vars, msgs) l).1 !! y =
    match (list_to_map l : Vars) !! y with Some t => Some t | None => vars !! y end.
Proof.
  induction l as [|[x t] l IH]; intros vars msgs y Hnd; cbn [foldl insert_var list_to_map foldr]; [by rewrite lookup_empty|].
  rewrite fmap_cons in Hnd. apply NoDup_cons in Hnd as [Hx Hnd]. rewrite IH by done.
  cbn. destruct (decide (x = y)) as [<-|Hne].
  - rewrite !lookup_insert_eq. rewrite (not_elem_of_list_to_map_1 l x) by done. done.
  - by rewrite !lookup_insert_ne.
Qed.

Lemma or_insert_lookup l : forall vars y,
  foldl or_insert vars l !! y = match vars !! y with Some t => Some t | None => (list_to_map l : Vars) !! y end.
Proof.
  induction l as [|[x t] l IH]; intros vars y; cbn [foldl or_insert]; [by destruct (vars !! y)|].
  rewrite IH. cbn. destruct (decide (x = y)) as [<-|Hne].
  - rewrite lookup_insert_eq. destruct (vars !! x) eqn:E; rewrite ?E, ?lookup_insert_eq; done.
  - rewrite (lookup_insert_ne _ x y) by done. destruct (vars !! x); [done|]. by rewrite lookup_insert_ne.
Qed.

Lemma vars_map_spec fiber f :
  ((vars_map fiber f).2 = [] <-> NoDup (in_vars f ++ locals f).*1) /\
  (NoDup (in_vars f ++ locals f).*1 -> (vars_map fiber f).1 = scope fiber f).
Proof.
  unfold vars_map. pose proof (insert_vars_spec (in_vars f ++ locals f) ∅ []) as Hm.
  pose proof (fun y => insert_vars_lookup (in_vars f ++ locals f) ∅ [] y) as Hl.
  destruct (foldl insert_var (∅, []) (in_vars f ++ locals f)) as [vars msgs]. cbn in *. split.
  - rewrite Hm. split; [tauto|]. intros Hnd. split_and!; [done|done|]. intros x _. apply lookup_empty.
  - intros Hnd. apply map_eq. intros y. rewrite or_insert_lookup, Hl by done. unfold scope.
    rewrite lookup_empty, app_assoc. set (frame := in_vars f ++ locals f). rewrite list_to_map_app, lookup_union.
    by destruct ((list_to_map frame : Vars) !! y), ((list_to_map (init_vars fiber) : Vars) !! y).
Qed.

Lemma uses_correct_variables_nil fiber f :
  uses_correct_variables ir fiber f = [] <->
  NoDup (in_vars f ++ locals f).*1 /\ Forall (fun s => step_ok (scope fiber f) (out f) (snd s)) (steps f).
Proof.
  unfold uses_correct_variables. destruct (vars_map_spec fiber f) as [Hd Hs].
  destruct (vars_map fiber f) as [vars duplicates]. cbn in *. rewrite app_nil, Hd.
  assert (Hsteps : forall vars, concat (map (fun '(id, step) => check_step ir vars f id step) (steps f)) = [] <->
    Forall (fun s => step_ok vars (out f) (snd s)) (steps f)).
  { intros v. rewrite concat_map_nil. apply Forall_iff'. intros [id step]. apply check_step_nil. }
  split; intros [Hnd Hc]; (split; [done|]); rewrite Hs in * by done; by apply Hsteps.
Qed.

Lemma check_func_nil fiber_name fiber name f : check_func ir fiber_name fiber name f = [] <-> func_ok fiber name f.
Proof.
  unfold check_func. rewrite !app_nil, uses_correct_variables_nil, unless_nil, existsb_spec.
  assert (He : (exists s : StepId * Step, s ∈ steps f /\ bool_decide (fst s = "entry") = true) <-> "entry" ∈ (steps f).*1).
  { rewrite list_elem_of_fmap. setoid_rewrite bool_decide_eq_true. split; intros (s & H1 & H2); by exists s. }
  rewrite He. split.
  - intros ((Hnd & Hs) & Hm & Hen). split; [done..| |done]. intros ->.
    by apply unless_nil, bool_decide_eq_true in Hm.
  - intros [Hnd Hs Hm Hen]. split_and!; [done|done| |done]. case_decide; [|done]. by apply unless_nil, bool_decide_eq_true, Hm.
Qed.

Lemma forall_entries `{HashOrder} {K V} `{Countable K} (m : gmap K V) (P : K -> V -> Prop) :
  Forall (fun e => P (fst e) (snd e)) (hash_iter m) <-> forall k v, m !! k = Some v -> P k v.
Proof.
  rewrite Forall_forall. split.
  - intros Hl k v Hm. by apply (Hl (k, v)), hash_iter_elem.
  - intros Hm [k v] Hl. by apply Hm, hash_iter_elem.
Qed.

Lemma has_entry `{HashOrder} {V} (m : gmap string V) k :
  existsb (fun e => bool_decide (fst e = k)) (hash_iter m) = true <-> is_Some (m !! k).
Proof.
  rewrite existsb_spec. split.
  - intros ([k' v] & Hel & Hk%bool_decide_eq_true). cbn in Hk. subst. exists v. by apply hash_iter_elem.
  - intros [v Hv]. exists (k, v). split; [by apply hash_iter_elem|]. by apply bool_decide_eq_true.
Qed.

Context `{HashOrder}.

Lemma check_fiber_nil name fiber : check_fiber ir name fiber = [] <-> fiber_ok fiber.
Proof.
  unfold check_fiber. rewrite app_nil, concat_map_nil, unless_nil, has_entry.
  rewrite (Forall_iff' _ (fun e => func_ok fiber (fst e) (snd e))) by (intros [n f]; apply check_func_nil).
  rewrite forall_entries. split; [intros [? ?]; by constructor|by intros [? ?]].
Qed.

Lemma check_type_nil t : check_type t = [] <-> type_ok t.
Proof.
  destruct t as [| | | | | | | | | | | |name fields additions]; try done. cbn. rewrite unless_nil, existsb_spec. split.
  - intros ([n t] & Hel & Hp). apply andb_true_iff in Hp as [Hn%bool_decide_eq_true Ht]. subst.
    destruct t; try done; [by left|right; by eexists].
  - intros [Hel|[u Hel]]; by eexists.
Qed.

Lemma messages_nil : messages ir = [] <-> well_formed.
Proof.
  unfold messages. rewrite !app_nil, !concat_map_nil, unless_nil, has_entry.
  rewrite (Forall_iff' _ (fun e => fiber_ok (snd e))) by (intros [n f]; apply check_fiber_nil).
  rewrite (forall_entries (fibers ir) (fun _ => fiber_ok)), (Forall_iff' _ type_ok) by (intros t; apply check_type_nil).
  split; [intros (? & ? & ?); by constructor|by intros [? ? ?]].
Qed.
End rules.

(** ** The explanation *)
Lemma render_nonempty m : (0 < String.length (render m))%nat.
Proof.
  destruct m as [| | | | | | | | | | | | |? ? []| | | | | | | | | | | | | | | | |]; cbn [render];
    unfold debug_step_id; rewrite ?string_length_app; cbn [String.length]; lia.
Qed.

Lemma explanation_empty (l : list Message) : String.length (String.concat "" (map render l)) = 0%nat <-> l = [].
Proof.
  destruct l as [|m l]; [done|]. split; [|done]. intros Hl. pose proof (render_nonempty m).
  destruct l as [|m' l]; cbn in Hl; rewrite ?string_length_app in Hl; lia.
Qed.

(** ** The validator is exact *)

(** C34: the validator accepts exactly the programs that are well formed by the rules, in
    whatever order it visits fibers and functions: it answers [true] with an empty
    explanation for those, and [false] with a non-empty one for all others. *)
Theorem validation_exact `{HashOrder} ir :
  (is_valid ir = (true, "") <-> well_formed ir) /\
  (is_valid ir <> (true, "") -> exists explanation, is_valid ir = (false, explanation) /\ explanation <> "").
Proof.
  unfold is_valid. set (explanation := String.concat "" (map render (messages ir))).
  assert (Hlen : String.length explanation = 0%nat <-> well_formed ir)
    by (etrans; [apply explanation_empty|apply messages_nil]).
  assert (Hempty : String.length explanation = 0%nat <-> explanation = "") by by destruct explanation.
  destruct (decide (String.length explanation = 0%nat)) as [H0|H0].
  - rewrite bool_decide_eq_true_2 by done. rewrite (proj1 Hempty H0). split; [tauto|done].
  - rewrite bool_decide_eq_false_2 by done. split; [split; [done|tauto]|]. intros _. exists explanation. tauto.
Qed.
