(* ===== verification/SampleIr.v ===== *)
(** * The sample program

    [sample_ir] of [runtime/src/ir_spec.rs], the program the code generator was run on to
    produce generated/src/maroon_assembler.rs ([Values] and [Assembler]). A [HashMap] built
    by [from] is the map of its list of entries; no key occurs twice. *)
From S2P Require Import Prelude Ir IrRules.
Local Open Scope string_scope.
Local Open Scope list_scope.
Local Open Scope Z_scope.

(** ** The fibers *)
Definition root_main : Func :=
  mkFunc [] Type_Void []
    [("entry", Step_CreateFibers [mkDetail "testInfiniteSummator" []] "return"); ("return", Step_ReturnVoid)].

Definition root_fiber : Fiber :=
  mkFiber ∅ [] (list_to_map [("main", root_main)]).

Definition testSelectQueue_main : Func :=
  mkFunc [] Type_Void
    [("counter", Type_UInt64);
     ("responseFromFut", Type_UInt64);
     ("counterStartQueueName", Type_String);
     ("futureId", Type_String);
     ("isThree", Type_Bool)]
    [("entry", Step_Let "counterStartQueueName" (Expr_Str "counterStartQueue") "init_future_id");
     ("init_future_id", Step_Let "futureId" (Expr_Str "testSelectQueue_future_1") "select_counter");
     ("select_counter",
       Step_Select
         [AwaitSpec_Queue "counterStartQueueName" "counter" "start_work";
          AwaitSpec_Future (Some "responseFromFut") "inc_from_fut" "futureId"]);
     ("inc_from_fut", Step_RustBlock ["counter"] "responseFromFut - 1" "prepare_cond");
     ("start_work", Step_RustBlock ["counter"] "counter + 1" "prepare_cond");
     ("prepare_cond", Step_Let "isThree" (Expr_Equal (Expr_Var "counter") (Expr_UInt64 3)) "compare");
     ("compare", Step_If (Expr_Var "isThree") "return" "start_work");
     ("return", Step_ReturnVoid)].

Definition testSelectQueue_fiber : Fiber :=
  mkFiber ∅ [] (list_to_map [("main", testSelectQueue_main)]).

Definition testTaskExecutorIncrementer_main : Func :=
  mkFunc [] Type_Void
    [("f_task", Type_Custom "TestIncrementTask");
     ("f_respFutureId", Type_Future (Type_Custom "TestIncrementTask"));
     ("f_respQueueName", Type_String);
     ("f_tasksQueueName", Type_String)]
    [("entry", Step_Debug "start function" "init_queue_name");
     ("init_queue_name",
       Step_RustBlock ["f_tasksQueueName"] "heap.testTaskExecutorIncrementer.in_vars.inTaskqueuename.clone()"
         "debug_vars");
     ("debug_vars", Step_DebugPrintVars "await");
     ("await", Step_Select [AwaitSpec_Queue "f_tasksQueueName" "f_task" "increment"]);
     ("increment",
       Step_RustBlock ["f_task"; "f_respQueueName"; "f_respFutureId"]
         "
                    let mut t_m = fTask;
                    t_m.inStrValue += 1;
                    (t_m.clone(), t_m.inStrRespQueueName, FutureTestIncrementTask(t_m.inStrRespFutureId))
                  " "debug2");
     ("debug2", Step_Debug "after increment" "debug_vars2");
     ("debug_vars2", Step_DebugPrintVars "return_result");
     ("return_result",
       Step_SetValues
         [SetPrimitive_Future "f_respFutureId" "f_task"; SetPrimitive_QueueMessage "f_respQueueName" "f_task"]
         "return");
     ("return", Step_ReturnVoid)].

Definition testTaskExecutorIncrementer_fiber : Fiber :=
  mkFiber ∅ [("in_taskQueueName", Type_String)] (list_to_map [("main", testTaskExecutorIncrementer_main)]).

Definition testCreateQueue_main : Func :=
  mkFunc [] Type_Void
    [("value", Type_Custom "TestCreateQueueMessage");
     ("f_queueName", Type_String);
     ("created_queue_name", Type_String);
     ("f_queueCreationError", Type_Option Type_String);
     ("f_future_id_response", Type_Future Type_UInt64);
     ("f_res_inc", Type_UInt64)]
    [("entry", Step_Let "f_queueName" (Expr_Str "randomQueueName") "wrong_queue_creation");
     ("wrong_queue_creation",
       Step_Create [RuntimePrimitive_Queue "f_queueName" true; RuntimePrimitive_Queue "f_queueName" true]
         (mkSuccess "return" ["created_queue_name"; "created_queue_name"])
         (mkFail "debug_vars" ["f_queueCreationError"; "f_queueCreationError"]));
     ("debug_vars", Step_DebugPrintVars "clean_up");
     ("clean_up",
       Step_RustBlock ["created_queue_name"; "f_queueCreationError"] "(String::new(), None)" "correct_creation");
     ("correct_creation",
       Step_Create [RuntimePrimitive_Queue "f_queueName" true]
         (mkSuccess "debug_vars_2" ["created_queue_name"]) (mkFail "return" ["f_queueCreationError"]));
     ("debug_vars_2", Step_DebugPrintVars "await_on_queue");
     ("await_on_queue", Step_Select [AwaitSpec_Queue "created_queue_name" "value" "extract_fut_and_inc"]);
     ("extract_fut_and_inc",
       Step_RustBlock ["f_future_id_response"; "f_res_inc"] "(value.publicFutureId, value.value + 2)"
         "debug_vars_3");
     ("debug_vars_3", Step_DebugPrintVars "answer");
     ("answer", Step_SetValues [SetPrimitive_Future "f_future_id_response" "f_res_inc"] "return");
     ("return", Step_ReturnVoid)].

Definition testCreateQueue_fiber : Fiber :=
  mkFiber ∅ [] (list_to_map [("main", testCreateQueue_main)]).

Definition testRootFiber_main : Func :=
  mkFunc [] Type_Void
    [("rootQueueName", Type_String);
     ("calculatorTask", Type_Custom "TestCalculatorTask");
     ("calculatorTask2", Type_Custom "TestCalculatorTask");
     ("responseFutureId", Type_Future Type_UInt64);
     ("responseFutureId2", Type_Future Type_UInt64);
     ("responseFromCalculator", Type_String);
     ("responseFromCalculator2", Type_String);
     ("createQueueError", Type_Option Type_String);
     ("createFutureError", Type_Option Type_String);
     ("createFutureError2", Type_Option Type_String)]
    [("entry", Step_Let "rootQueueName" (Expr_Str "rootQueue") "create_queueues");
     ("create_queueues",
       Step_Create [RuntimePrimitive_Queue "rootQueueName" true] (mkSuccess "create_fiber" ["rootQueueName"])
         (mkFail "return_dbg" ["createQueueError"]));
     ("create_fiber",
       Step_CreateFibers
         [mkDetail "testCalculator" ["rootQueueName"]; mkDetail "testCalculator" ["rootQueueName"]]
         "create_future");
     ("create_future",
       Step_Create [RuntimePrimitive_Future; RuntimePrimitive_Future]
         (mkSuccess "prepareCalculationRequests" ["responseFutureId"; "responseFutureId2"])
         (mkFail "return_dbg" ["createFutureError"; "createFutureError2"]));
     ("prepareCalculationRequests",
       Step_RustBlock ["calculatorTask"; "calculatorTask2"]
         "(TestCalculatorTask{a:10,b:15,responseFutureId: responseFutureId}, TestCalculatorTask{a:2,b:4,responseFutureId: responseFutureId2})"
         "send_calculation_request");
     ("send_calculation_request",
       Step_SetValues
         [SetPrimitive_QueueMessage "rootQueueName" "calculatorTask";
          SetPrimitive_QueueMessage "rootQueueName" "calculatorTask2"] "await_response");
     ("await_response",
       Step_Select [AwaitSpec_Future (Some "responseFromCalculator") "await_response_2" "responseFutureId2"]);
     ("await_response_2",
       Step_Select [AwaitSpec_Future (Some "responseFromCalculator2") "return_dbg" "responseFutureId"]);
     ("return_dbg", Step_DebugPrintVars "return");
     ("return", Step_ReturnVoid)].

Definition testRootFiber_fiber : Fiber :=
  mkFiber ∅ [] (list_to_map [("main", testRootFiber_main)]).

Definition testCalculator_main : Func :=
  mkFunc [] Type_Void
    [("request", Type_Custom "TestCalculatorTask");
     ("result", Type_UInt64);
     ("respFutureId", Type_Future Type_UInt64)]
    [("entry", Step_DebugPrintVars "select_queue");
     ("select_queue",
       Step_Select [AwaitSpec_Queue "calculationRequestsQueueName" "request" "debug_gotten_task"]);
     ("debug_gotten_task", Step_Debug "got task from the queue" "debug_vars");
     ("debug_vars", Step_DebugPrintVars "calculate");
     ("calculate",
       Step_RustBlock ["result"; "respFutureId"] "(request.a * request.b, request.responseFutureId)" "response");
     ("response", Step_SetValues [SetPrimitive_Future "respFutureId" "result"] "return");
     ("return", Step_ReturnVoid)].

Definition testCalculator_fiber : Fiber :=
  mkFiber ∅ [("calculationRequestsQueueName", Type_String)] (list_to_map [("main", testCalculator_main)]).

Definition testRootFiberSleepTest_main : Func :=
  mkFunc [] Type_Void
    [("scheduledFutId", Type_Future Type_Void);
     ("createScheduleError", Type_Option Type_String);
     ("await_milliseconds", Type_UInt64)]
    [("entry", Step_Let "await_milliseconds" (Expr_UInt64 150) "create_primitives");
     ("create_primitives",
       Step_Create [RuntimePrimitive_Schedule "await_milliseconds"] (mkSuccess "seelect" ["scheduledFutId"])
         (mkFail "return_dbg" ["createScheduleError"]));
     ("seelect", Step_Select [AwaitSpec_Future None "return_dbg" "scheduledFutId"]);
     ("return_dbg", Step_DebugPrintVars "return");
     ("return", Step_ReturnVoid)].

Definition testRootFiberSleepTest_fiber : Fiber :=
  mkFiber ∅ [] (list_to_map [("main", testRootFiberSleepTest_main)]).

Definition testInfiniteSummator_main : Func :=
  mkFunc [] Type_Void
    [("infiniteCalculatorQueue", Type_String);
     ("request", Type_Custom "TestInfiniteSummatorQueueMessage");
     ("result", Type_UInt64);
     ("createQueueError", Type_Option Type_String);
     ("respFutureId", Type_Future Type_UInt64)]
    [("entry", Step_Let "infiniteCalculatorQueue" (Expr_Str "testInfiniteCalculatorQueue") "create_queue");
     ("create_queue",
       Step_Create [RuntimePrimitive_Queue "infiniteCalculatorQueue" true]
         (mkSuccess "select_queue" ["infiniteCalculatorQueue"]) (mkFail "return" ["createQueueError"]));
     ("select_queue", Step_Select [AwaitSpec_Queue "infiniteCalculatorQueue" "request" "calculate"]);
     ("calculate",
       Step_RustBlock ["result"; "respFutureId"] "(request.a * request.b, request.publicFutureId)" "response");
     ("response", Step_SetValues [SetPrimitive_Future "respFutureId" "result"] "select_queue");
     ("return", Step_ReturnVoid)].

Definition testInfiniteSummator_fiber : Fiber :=
  mkFiber ∅ [] (list_to_map [("main", testInfiniteSummator_main)]).

Definition testFunctionsCall_main : Func :=
  mkFunc [] Type_Void
    [("multResult", Type_UInt64);
     ("factorialResult", Type_UInt64);
     ("binarySearchResult", Type_Option Type_UInt64);
     ("binarySearchLeft", Type_UInt64);
     ("binarySearchRight", Type_UInt64)]
    [("entry", Step_DebugPrintVars "multiply");
     ("multiply",
       Step_Call (mkFuncRef "testFunctionsCall" "mult") [Expr_Var "multa"; Expr_Var "multb"]
         (Some "multResult") "after_multiply");
     ("after_multiply", Step_DebugPrintVars "factorial");
     ("factorial",
       Step_Call (mkFuncRef "testFunctionsCall" "factorial") [Expr_Var "factorialStart"]
         (Some "factorialResult") "after_factorial");
     ("after_factorial", Step_DebugPrintVars "set_b_search_values");
     ("set_b_search_values",
       Step_RustBlock ["binarySearchLeft"; "binarySearchRight"]
         "
                      heap.testFunctionsCall.binarySearchValues = binarySearchArray.clone();
                    (0u64, (binarySearchArray.len() as u64)-1)
                      " "binary_search");
     ("binary_search",
       Step_Call (mkFuncRef "testFunctionsCall" "binary_search")
         [Expr_Var "binarySearchTarget"; Expr_Var "binarySearchLeft"; Expr_Var "binarySearchRight"]
         (Some "binarySearchResult") "after_binary");
     ("after_binary", Step_DebugPrintVars "finish");
     ("finish", Step_ReturnVoid)].

Definition testFunctionsCall_mult : Func :=
  mkFunc [("a", Type_UInt64); ("b", Type_UInt64)] Type_UInt64 [("mult", Type_UInt64)]
    [("entry", Step_RustBlock ["mult"] "a*b" "return"); ("return", Step_Return (RetValue_Var "mult"))].

Definition testFunctionsCall_sub : Func :=
  mkFunc [("a", Type_UInt64); ("b", Type_UInt64)] Type_UInt64 [("sub", Type_UInt64)]
    [("entry",
       Step_RustBlock ["sub"]
         "
let out = a - b;
out
" "return");
     ("return", Step_Return (RetValue_Var "sub"))].

Definition testFunctionsCall_factorial : Func :=
  mkFunc [("n", Type_UInt64)] Type_UInt64
    [("fac_call_res", Type_UInt64); ("subtract_res", Type_UInt64); ("result", Type_UInt64)]
    [("entry", Step_If (Expr_Equal (Expr_Var "n") (Expr_UInt64 1)) "return_1" "subtract");
     ("return_1", Step_Return (RetValue_UInt64 1));
     ("subtract",
       Step_Call (mkFuncRef "testFunctionsCall" "sub") [Expr_Var "n"; Expr_UInt64 1] (Some "subtract_res")
         "factorial_call");
     ("factorial_call",
       Step_Call (mkFuncRef "testFunctionsCall" "factorial") [Expr_Var "subtract_res"] (Some "fac_call_res")
         "multiply");
     ("multiply",
       Step_Call (mkFuncRef "testFunctionsCall" "mult") [Expr_Var "n"; Expr_Var "fac_call_res"]
         (Some "result") "return");
     ("return", Step_Return (RetValue_Var "result"))].

Definition testFunctionsCall_binary_search : Func :=
  mkFunc [("e", Type_UInt64); ("left", Type_UInt64); ("right", Type_UInt64)] (Type_Option Type_UInt64)
    [("div", Type_UInt64); ("v_by_index_div", Type_UInt64); ("fac_call_res", Type_Option Type_UInt64)]
    [("entry", Step_If (Expr_Greater (Expr_Var "left") (Expr_Var "right")) "return_None" "calculate_div");
     ("return_None", Step_Return RetValue_None);
     ("calculate_div",
       Step_RustBlock ["div"; "v_by_index_div"]
         "
                    let o_div = (left + right) / 2;
                    let s = &heap.testFunctionsCall;
                    (o_div, s.binarySearchValues[o_div as usize])
                    " "return_if_equal");
     ("return_if_equal",
       Step_If (Expr_Equal (Expr_Var "v_by_index_div") (Expr_Var "e")) "return_found" "cmp_less");
     ("return_found", Step_Return (RetValue_Some (RetValue_Var "div")));
     ("cmp_less",
       Step_If (Expr_Less (Expr_Var "v_by_index_div") (Expr_Var "e")) "go_right" "go_left_check_overflow");
     ("go_right",
       Step_Call (mkFuncRef "testFunctionsCall" "add") [Expr_Var "div"; Expr_UInt64 1] (Some "left")
         "recursive_call");
     ("go_left_check_overflow", Step_If (Expr_Less (Expr_Var "div") (Expr_UInt64 0)) "return_None" "go_left");
     ("go_left",
       Step_Call (mkFuncRef "testFunctionsCall" "sub") [Expr_Var "div"; Expr_UInt64 1] (Some "right")
         "recursive_call");
     ("recursive_call",
       Step_Call (mkFuncRef "testFunctionsCall" "binary_search")
         [Expr_Var "e"; Expr_Var "left"; Expr_Var "right"] (Some "fac_call_res") "return_result");
     ("return_result", Step_Return (RetValue_Var "fac_call_res"))].

Definition testFunctionsCall_fiber : Fiber :=
  mkFiber (list_to_map [("binary_search_values", Type_Array Type_UInt64)])
    [("multa", Type_UInt64);
     ("multb", Type_UInt64);
     ("factorialStart", Type_UInt64);
     ("binarySearchArray", Type_Array Type_UInt64);
     ("binarySearchTarget", Type_UInt64)]
    (list_to_map
      [("main", testFunctionsCall_main);
       ("mult", testFunctionsCall_mult);
       ("sub", testFunctionsCall_sub);
       ("factorial", testFunctionsCall_factorial);
       ("binary_search", testFunctionsCall_binary_search)]).

(** ** The program *)
Definition sample_types : list Type_ :=
  [Type_Struct "TestIncrementTask"
     [("in_str_value", Type_UInt64);
      ("in_str_resp_future_id", Type_String);
      ("in_str_resp_queue_name", Type_String)] "";
   Type_PubQueueMessage "TestCreateQueueMessage"
     [("value", Type_UInt64); ("public_future_id", Type_Future Type_UInt64)] "";
   Type_Struct "TestCalculatorTask"
     [("a", Type_UInt64); ("b", Type_UInt64); ("response_future_id", Type_Future Type_UInt64)] "";
   Type_PubQueueMessage "TestInfiniteSummatorQueueMessage"
     [("a", Type_UInt64); ("b", Type_UInt64); ("public_future_id", Type_Future Type_UInt64)] ""].

Definition sample_ir : IR :=
  mkIR sample_types (list_to_map [("root", root_fiber);
    ("testSelectQueue", testSelectQueue_fiber);
    ("testTaskExecutorIncrementer", testTaskExecutorIncrementer_fiber);
    ("testCreateQueue", testCreateQueue_fiber);
    ("testRootFiber", testRootFiber_fiber);
    ("testCalculator", testCalculator_fiber);
    ("testRootFiberSleepTest", testRootFiberSleepTest_fiber);
    ("testInfiniteSummator", testInfiniteSummator_fiber);
    ("testFunctionsCall", testFunctionsCall_fiber)]).
