(* ===== verification/Codegen.v ===== *)
(** * Code generation: names and declarations

    Models the first half of [dsl/src/codegen.rs], which prints a program as Rust source
    text: names, types, and the declarations around the step function. What is pushed on the
    output is returned as a string. A [BTreeSet] or [BTreeMap] is its list in key order. *)
From S2P Require Import Prelude Ir.
From Stdlib Require Import Ascii.
From stdpp Require Import pretty.
Local Open Scope string_scope.
Local Open Scope list_scope.

(** ** Text *)
Definition cat (l : list string) : string := String.concat "" l.
Definition line (l : list string) : string := cat l +:+ newline.

Definition to_ascii_uppercase (c : ascii) : ascii :=
  let n := N_of_ascii c in if decide (97 <= n <= 122)%N then ascii_of_N (n - 32) else c.
Definition to_ascii_lowercase (c : ascii) : ascii :=
  let n := N_of_ascii c in if decide (65 <= n <= 90)%N then ascii_of_N (n + 32) else c.

Fixpoint string_map (f : ascii -> ascii) (s : string) : string :=
  match s with
  | EmptyString => ""
  | String c s' => String (f c) (string_map f s')
  end.

Definition contains (pattern s : string) : bool :=
  match String.index 0 pattern s with Some _ => true | None => false end.

(** [split('_')]. *)
Fixpoint split_underscore (s : string) : list string :=
  match s with
  | EmptyString => [""]
  | String c s' =>
      if decide (c = "_"%char) then "" :: split_underscore s'
      else match split_underscore s' with
           | part :: parts => String c part :: parts
           | [] => [String c ""]
           end
  end.

(** [trim], for the white space of ASCII. *)
Definition is_whitespace (c : ascii) : bool :=
  let n := N_of_ascii c in bool_decide (n = 32 \/ 9 <= n <= 13)%N.

Fixpoint trim_start (s : string) : string :=
  match s with
  | String c s' => if is_whitespace c then trim_start s' else s
  | EmptyString => ""
  end.

Fixpoint trim_end (s : string) : string :=
  match s with
  | String c s' =>
      match trim_end s' with
      | EmptyString => if is_whitespace c then "" else String c ""
      | t => String c t
      end
  | EmptyString => ""
  end.

Definition trim (s : string) : string := trim_end (trim_start s).

(** ** Order of strings *)
Definition str_leb (s t : string) : bool := String.leb s t.
Definition str_ltb (s t : string) : bool := String.ltb s t.

(** A stable sort by a key. *)
Fixpoint insert_by {A} (key : A -> string) (x : A) (l : list A) : list A :=
  match l with
  | [] => [x]
  | y :: l' => if str_leb (key x) (key y) then x :: l else y :: insert_by key x l'
  end.
Definition sort_by {A} (key : A -> string) (l : list A) : list A := foldr (insert_by key) [] l.

(** [Vec::dedup]. *)
Fixpoint dedup (l : list string) : list string :=
  match l with
  | x :: (y :: _) as l' => if decide (x = y) then dedup l' else x :: dedup l'
  | _ => l
  end.

(** [BTreeSet::insert], [BTreeMap::insert] and [entry(..).or_insert(..)]. *)
Fixpoint btree_insert (x : string) (l : list string) : list string :=
  match l with
  | [] => [x]
  | y :: l' => if decide (x = y) then l else if str_ltb x y then x :: l else y :: btree_insert x l'
  end.

Fixpoint btree_map_insert {V} (k : string) (v : V) (l : list (string * V)) : list (string * V) :=
  match l with
  | [] => [(k, v)]
  | (y, w) :: l' =>
      if decide (k = y) then (k, v) :: l'
      else if str_ltb k y then (k, v) :: l else (y, w) :: btree_map_insert k v l'
  end.

Definition btree_or_insert {V} (k : string) (v : V) (l : list (string * V)) : list (string * V) :=
  if existsb (fun e => bool_decide (fst e = k)) l then l else btree_map_insert k v l.

(** ** Names *)
Definition pascal_part (part : string) : string :=
  match part with
  | EmptyString => ""
  | String f rest => String (to_ascii_uppercase f) (string_map to_ascii_lowercase rest)
  end.

Definition pascal_case (raw : string) : string :=
  if contains "_" raw then
    let out := cat (map pascal_part (split_underscore raw)) in
    if decide (out = "") then "_" else out
  else
    match raw with
    | EmptyString => "_"
    | String f rest => String (to_ascii_uppercase f) rest
    end.

Definition camel_ident (raw : string) : string :=
  match pascal_case raw with
  | EmptyString => ""
  | String f rest => String (to_ascii_lowercase f) rest
  end.

Definition variant_name (parts : list string) : string := cat (map pascal_case parts).

(** ** Types *)
Fixpoint is_copy_type (t : Type_) : bool :=
  match t with
  | Type_UInt64 | Type_Bool | Type_Void => true
  | Type_Option inner => is_copy_type inner
  | _ => false
  end.

Fixpoint type_variant_name (t : Type_) : string :=
  match t with
  | Type_UInt64 => "U64"
  | Type_String => "String"
  | Type_Bool => "Bool"
  | Type_Void => "Unit"
  | Type_MaxQueue inner => "MaxQueue" +:+ type_variant_name inner
  | Type_MinQueue inner => "MinQueue" +:+ type_variant_name inner
  | Type_Struct name _ _ | Type_PubQueueMessage name _ _ | Type_Custom name => pascal_case name
  | Type_Future inner => "Future" +:+ type_variant_name inner
  | Type_Option inner => "Option" +:+ type_variant_name inner
  | Type_Array inner => "Array" +:+ type_variant_name inner
  | Type_Map k v => cat ["Map"; type_variant_name k; "To"; type_variant_name v]
  end.

Fixpoint rust_type (t : Type_) : string :=
  match t with
  | Type_UInt64 => "u64"
  | Type_String => "String"
  | Type_Bool => "bool"
  | Type_Void => "()"
  | Type_MaxQueue inner => cat ["std::collections::BinaryHeap<"; rust_type inner; ">"]
  | Type_MinQueue inner => cat ["std::collections::BinaryHeap<std::cmp::Reverse<"; rust_type inner; ">>"]
  | Type_Map k v => cat ["std::collections::HashMap<"; rust_type k; ", "; rust_type v; ">"]
  | Type_Array t => cat ["Vec<"; rust_type t; ">"]
  | Type_Option t => cat ["Option<"; rust_type t; ">"]
  | Type_Struct name _ _ | Type_PubQueueMessage name _ _ | Type_Custom name => pascal_case name
  | Type_Future inner => "Future" +:+ type_variant_name inner
  end.

Definition default_value_expr (t : Type_) : string :=
  match t with
  | Type_UInt64 => "0u64"
  | Type_String => "String::new()"
  | Type_Bool => "false"
  | Type_Void => "()"
  | Type_MaxQueue inner => cat ["std::collections::BinaryHeap::<"; rust_type inner; ">::new()"]
  | Type_MinQueue inner => cat ["std::collections::BinaryHeap::<std::cmp::Reverse<"; rust_type inner; ">>::new()"]
  | Type_Option _ => "None"
  | Type_Array inner => cat ["Vec::<"; rust_type inner; ">::new()"]
  | Type_Map k v => cat ["std::collections::HashMap::<"; rust_type k; ", "; rust_type v; ">::new()"]
  | Type_Struct name _ _ | Type_Custom name | Type_PubQueueMessage name _ _ => pascal_case name +:+ "::default()"
  | Type_Future inner => cat ["Future"; type_variant_name inner; "::default()"]
  end.

(** ** Declarations of the program's types *)
Section generate.
Context `{HashOrder} (ir : IR).

(** The structures that are elements of a priority queue in some heap. *)
Definition need_ord_of (hty : Type_) (acc : list string) : list string :=
  match hty with
  | Type_MinQueue (Type_Custom n) | Type_MaxQueue (Type_Custom n)
  | Type_MinQueue (Type_Struct n _ _) | Type_MaxQueue (Type_Struct n _ _) => btree_insert (pascal_case n) acc
  | _ => acc
  end.

Definition heap_types : list Type_ :=
  concat (map (fun '(_, fiber) => map snd (hash_iter (heap fiber))) (hash_iter (fibers ir))).

Definition need_ord : list string := foldl (fun acc hty => need_ord_of hty acc) [] heap_types.

Definition field_line (f : StructField) : string := line ["  pub "; camel_ident (fst f); ": "; rust_type (snd f); ","].

Definition derives : string := "#[derive(Clone, Debug, Default, PartialEq, Eq, Serialize, Deserialize)]" +:+ newline.

Definition struct_decl (derive name : string) (fields : list string) : string :=
  cat [derive; line ["pub struct "; name; " {"]; cat fields; "}"; newline; newline].

Definition is_private_field (f : StructField) : bool := negb (bool_decide (fst f = "public_future_id")).

Definition render_type (t : Type_) : string :=
  match t with
  | Type_Struct name fields impl_block =>
      let ty_name := pascal_case name in
      let ib := trim impl_block in
      let derive_partial_eq := negb (contains "impl PartialEq" ib || contains "impl Eq" ib) in
      let derive_ord := bool_decide (ty_name ∈ need_ord) && negb (contains "impl Ord" ib || contains "impl PartialOrd" ib) in
      let derive :=
        if derive_partial_eq && derive_ord then
          line ["#[derive(Clone, Debug, Default, PartialEq, Eq, PartialOrd, Ord, Serialize, Deserialize)]"]
        else if derive_partial_eq then derives
        else line ["#[derive(Clone, Debug, Default, Serialize, Deserialize)]"] in
      cat [struct_decl derive ty_name (map field_line fields); impl_block; newline; newline]
  | Type_PubQueueMessage name fields rust_additions =>
      let ib := trim rust_additions in
      cat [struct_decl derives (pascal_case name +:+ "Pub") (map field_line (List.filter is_private_field fields));
           struct_decl derives (pascal_case name) (map field_line fields);
           if decide (ib = "") then "" else cat [ib; newline; newline]]
  | _ => ""
  end.

(** *** Wrappers of futures *)

(** The recursion follows the fields of named types; it does not end on a recursive type. *)
Fixpoint collect_future_wrappers (fuel : nat) (ty : Type_) (acc : list string) : result (list string) :=
  match fuel with
  | O => OutOfFuel
  | S fuel' =>
      match ty with
      | Type_Future inner =>
          collect_future_wrappers fuel' inner (btree_insert ("Future" +:+ type_variant_name inner) acc)
      | Type_Option inner | Type_Array inner | Type_MaxQueue inner | Type_MinQueue inner =>
          collect_future_wrappers fuel' inner acc
      | Type_Map k v =>
          acc ← collect_future_wrappers fuel' k acc;
          collect_future_wrappers fuel' v acc
      | Type_Custom name =>
          match find_map (struct_named name) (types ir) with
          | Some fields => for_each fields (fun acc f => collect_future_wrappers fuel' (snd f) acc) acc
          | None => Ok acc
          end
      | _ => Ok acc
      end
  end.

Definition collect_top_level (fuel : nat) (acc : list string) (t : Type_) : result (list string) :=
  match t with
  | Type_Struct _ fields _ | Type_PubQueueMessage _ fields _ =>
      for_each fields (fun acc f => collect_future_wrappers fuel (snd f) acc) acc
  | other => collect_future_wrappers fuel other acc
  end.

(** The types a fiber mentions, in the order they are visited. *)
Definition func_types (f : Func) : list Type_ := map snd (in_vars f) ++ map snd (locals f) ++ [out f].

Definition fiber_types (fiber : Fiber) : list Type_ :=
  map snd (hash_iter (heap fiber)) ++ concat (map (fun '(_, f) => func_types f) (hash_iter (funcs fiber))).

Definition future_wrappers (fuel : nat) : result (list string) :=
  acc ← for_each (types ir) (collect_top_level fuel) [];
  for_each (concat (map (fun '(_, fiber) => fiber_types fiber) (hash_iter (fibers ir))))
    (fun acc ty => collect_future_wrappers fuel ty acc) acc.

Definition wrapper_decl (w : string) : string := cat [derives; "pub struct "; w; "(pub String);"; newline; newline].

(** *** Heaps *)
Definition fibers_sorted : list (FiberType * Fiber) := sort_by fst (hash_iter (fibers ir)).
Definition funcs_sorted (fiber : Fiber) : list (string * Func) := sort_by fst (hash_iter (funcs fiber)).

Definition derives_plain : string := line ["#[derive(Clone, Debug, Default)]"].

Definition heap_decls (e : FiberType * Fiber) : string :=
  let '(fiber_name, fiber) := e in
  let heap_struct := variant_name [fiber_name; "Heap"] in
  let invars_struct := variant_name [fiber_name; "InVars"] in
  let has_vars := bool_decide (init_vars fiber <> []) in
  cat [struct_decl derives_plain heap_struct
         (map field_line (sort_by fst (hash_iter (heap fiber))) ++
          if has_vars then [line ["  pub in_vars: "; invars_struct; ","]] else []);
       if has_vars then struct_decl derives_plain invars_struct (map field_line (sort_by fst (init_vars fiber))) else ""].

Definition heap_decl : string :=
  let heap_structs := map (fun '(n, _) => (camel_ident n, variant_name [n; "Heap"])) fibers_sorted in
  struct_decl derives_plain "Heap"
    (map (fun '(field_name, struct_name) => line ["  pub "; field_name; ": "; struct_name; ","]) (sort_by fst heap_structs)).

(** *** States *)

(** The step that follows a block with one binding and returns that binding is not a state:
    the block returns the value itself. *)
Definition returns_var (step : Step) (x : string) : bool :=
  match step with Step_Return (RetValue_Var v) => bool_decide (v = x) | _ => false end.

Definition find_step (f : Func) (id : StepId) : option Step :=
  snd <$> List.find (fun s => bool_decide (fst s = id)) (steps f).

Definition suppressed_by (f : Func) (step : Step) : list string :=
  match step with
  | Step_RustBlock [b] _ next =>
      match find_step f next with
      | Some st => if returns_var st b then [next] else []
      | None => []
      end
  | _ => []
  end.

Definition suppressed (f : Func) : list string := foldl (fun acc x => btree_insert x acc) []
  (concat (map (fun s => suppressed_by f (snd s)) (steps f))).

Definition has_direct_rb (f : Func) (id : StepId) (x : string) : bool :=
  existsb (fun s => match snd s with
                    | Step_RustBlock [b] _ next => bool_decide (b = x) && bool_decide (next = id)
                    | _ => false
                    end) (steps f).

Definition suppress_this (f : Func) (s : StepId * Step) : bool :=
  bool_decide (fst s ∈ suppressed f) ||
  match snd s with
  | Step_Return (RetValue_Var x) => has_direct_rb f (fst s) x
  | _ => false
  end.

Definition state_ids (f : Func) : list string :=
  dedup (sort_by id ("entry" :: map fst (List.filter (fun s => negb (suppress_this f s)) (steps f)))).

Definition state_variants (e : FiberType * Fiber) : list string :=
  let '(fiber_name, fiber) := e in
  concat (map (fun '(func_name, func) => map (fun s => variant_name [fiber_name; func_name; s]) (state_ids func))
    (funcs_sorted fiber)).

Definition state_enum : string :=
  cat ["#[derive(Clone, Debug, PartialEq, Eq)]"; newline; "pub enum State {"; newline;
       "  Completed,"; newline; "  Idle,"; newline;
       cat (map (fun v => line ["  "; v; ","]) (concat (map state_variants fibers_sorted))); "}"; newline; newline].

(** *** Values *)
Definition used_by_fiber (fiber : Fiber) : list Type_ :=
  map snd (init_vars fiber) ++ concat (map (fun '(_, f) => func_types f) (hash_iter (funcs fiber))).

Definition use_type (acc : list (string * Type_)) (ty : Type_) : list (string * Type_) :=
  btree_map_insert (type_variant_name ty) ty acc.

(** Both variants of a message type. *)
Definition use_message (acc : list (string * Type_)) (t : Type_) : list (string * Type_) :=
  match t with
  | Type_PubQueueMessage name _ _ =>
      let priv_name := pascal_case name in
      let pub_name := priv_name +:+ "Pub" in
      btree_or_insert pub_name (Type_Struct pub_name [] "")
        (btree_or_insert priv_name (Type_PubQueueMessage name [] "") acc)
  | _ => acc
  end.

Definition used_types : list (string * Type_) :=
  foldl use_message (foldl use_type [] (concat (map (fun '(_, fiber) => used_by_fiber fiber) fibers_sorted))) (types ir).

Definition value_enum : string :=
  cat ["#[derive(Clone, Debug, PartialEq, Eq, Serialize, Deserialize)]"; newline; "pub enum Value {"; newline;
       cat (map (fun '(vname, ty) => line ["  "; vname; "("; rust_type ty; "),"]) used_types); "}"; newline; newline].

Definition quoted (s : string) : string := cat [quote; s; quote].
Definition string_lit (s : string) : string := quoted s +:+ ".to_string()".

(** The last field named [public_future_id] decides how the future is made. *)
Definition future_assign (fields : list StructField) : string :=
  default "future_id" (last (omap (fun '(n, t) =>
    if decide (n = "public_future_id") then
      Some match t with
           | Type_Future inner => cat ["Future"; type_variant_name inner; "(future_id)"]
           | _ => "future_id"
           end
    else None) fields)).

Definition copies (fields : list StructField) : string :=
  str_join ", " (map (fun '(n, _) => cat [camel_ident n; ": m."; camel_ident n]) (List.filter is_private_field fields)).

Definition pub_to_private_arm (t : Type_) : string :=
  match t with
  | Type_PubQueueMessage name fields _ =>
      let priv := pascal_case name in
      line ["    Value::"; priv; "Pub(m) => Value::"; priv; "("; priv; " { "; copies fields; " , ";
            camel_ident "public_future_id"; ": "; future_assign fields; " }),"]
  | _ => ""
  end.

Definition private_to_pub_arm (t : Type_) : string :=
  match t with
  | Type_PubQueueMessage name fields _ =>
      let priv := pascal_case name in
      line ["    Value::"; priv; "(m) => Value::"; priv; "Pub("; priv; "Pub { "; copies fields; " }),"]
  | _ => ""
  end.

Definition converter (signature : string) (arms : list string) (name : string) : string :=
  cat [signature; newline; "  match val {"; newline; cat arms;
       "    _ => panic!("; quoted (name +:+ " is only for PubQueueMessage values"); "),"; newline;
       "  }"; newline; "}"; newline; newline].

Definition pub_to_private : string :=
  converter "pub fn pub_to_private(val: Value, future_id: String) -> Value {" (map pub_to_private_arm (types ir)) "pub_to_private".
Definition private_to_pub : string :=
  converter "pub fn private_to_pub(val: Value) -> Value {" (map private_to_pub_arm (types ir)) "private_to_pub".

(** *** Types of the runtime's interface *)
Definition stack_entry_decl : string := "#[derive(Clone, Debug, PartialEq, Eq)]
pub enum StackEntry {
  State(State),
  // Option<usize> - local index offset back on stack
  // if it's None - no value will be binded into the local variable of the function that initiated call
  Retrn(Option<usize>),
  Value(String, Value),
  // In-place updates to the current frame (offset -> new Value)
  FrameAssign(Vec<(usize, Value)>),
}
".

Definition future_kind_decl (wrappers : list string) : string :=
  cat ["#[derive(Clone, Debug, PartialEq, Eq)]"; newline; "pub enum FutureKind {"; newline;
       cat (map (fun w => line ["  "; w; ","]) wrappers); "}"; newline; newline].

Definition wrap_future_id_decl (wrappers : list string) : string :=
  cat ["pub fn wrap_future_id(kind: FutureKind, id: String) -> Value {"; newline; "  match kind {"; newline;
       cat (map (fun w => line ["    FutureKind::"; w; " => Value::"; w; "("; w; "(id)),"]) wrappers);
       "  }"; newline; "}"; newline; newline].

Definition step_result_decl : string := "#[derive(Clone, Debug, PartialEq, Eq)]
pub enum SuccessBindKind { String, Future(FutureKind) }

#[derive(Clone, Debug, PartialEq, Eq)]
pub enum SelectArm {
  FutureVar { future_id: String, bind: Option<String>, next: State },
  Queue { queue_name: String, bind: String, next: State },
}

#[derive(Clone, Debug, PartialEq, Eq, Serialize, Deserialize)]
pub enum CreatePrimitiveValue {
  Future,
  Queue { name: String, public: bool },
  // Create a scheduled timer future that resolves after `ms` milliseconds.
  // The created future is a Void future (Unit), i.e., it signals completion with no value.
  Schedule { ms: u64 },
}

#[derive(Clone, Debug, PartialEq, Eq, Serialize, Deserialize)]
pub enum SetPrimitiveValue {
  QueueMessage { queue_name: String, value: Value },
  Future { id: String, value: Value },
}

#[derive(Clone, Debug, PartialEq, Eq)]
pub enum StepResult {
  Done,
  Next(Vec<StackEntry>),
  GoTo(State),
  Select(Vec<SelectArm>),
  // Atomically create runtime primitives and branch based on outcome.
  Create {
    primitives: Vec<CreatePrimitiveValue>,
    success_next: State,
    success_binds: Vec<String>,
    success_kinds: Vec<SuccessBindKind>,
    fail_next: State,
    fail_binds: Vec<String>,
  },
  // Return can carry an optional value to be consumed by the runtime.
  Return(Value),
  ReturnVoid,
  Todo(String),
  // Broadcast updates to async primitives (queues/futures) and continue to `next`.
  SetValues { values: Vec<SetPrimitiveValue>, next: State },
  // Debug
  // Print a string message and continue to the provided next state.
  Debug(&'static str, State),
  // Print all current-frame vars in order and continue to next state.
  DebugPrintVars(State),
  // Spawn new fibers (fire-and-forget) and continue to `next`.
  // Runtime may ignore this for now; present for forward-compat.
  CreateFibers { details: Vec<(FiberType, Vec<Value>)>, next: State },
}
".

(** *** Sizes of frames *)
Definition frame_size (f : Func) : nat := length (in_vars f) + length (locals f).

Definition args_count_arms (fiber_name : string) (e : string * Func) : list string :=
  let '(func_name, func) := e in
  let arm s := line ["    State::"; variant_name [fiber_name; func_name; s]; " => "; pretty (frame_size func); ","] in
  arm "entry" :: map (fun s => arm (fst s))
    (List.filter (fun s => negb (bool_decide (fst s = "entry")) && negb (suppress_this func s)) (sort_by fst (steps func))).

Definition generate_func_args_count : string :=
  cat [newline; "pub fn func_args_count(e: &State) -> usize {"; newline; "  match e {"; newline;
       cat (concat (map (fun '(fiber_name, fiber) => concat (map (args_count_arms fiber_name) (funcs_sorted fiber))) fibers_sorted));
       "    State::Idle => 0,"; newline; "    State::Completed => 0,"; newline; "  }"; newline; "}"; newline].

(** *** Preparing a stack *)
Definition prepare_name (fiber_name func_name : string) : string :=
  cat [camel_ident fiber_name; "_prepare_"; camel_ident func_name].
Definition result_name (fiber_name func_name : string) : string :=
  cat [camel_ident fiber_name; "_result_"; camel_ident func_name].

Definition typed_params (vs : list InVar) : string :=
  str_join ", " (map (fun '(n, t) => cat [camel_ident n; ": "; rust_type t]) vs).

Definition push_value (name vname code : string) : string :=
  line ["  stack.push(StackEntry::Value("; string_lit name; ", Value::"; vname; "("; code; ")));"].

(** The placeholder of the result, the marker, the parameters, the locals and the state. *)
Definition prepare_fn (fiber_name func_name : string) (func : Func) : string :=
  cat [line ["pub fn "; prepare_name fiber_name func_name; "("; typed_params (in_vars func); ") -> (Vec<StackEntry>, Heap) {"];
       line ["  let mut stack: Vec<StackEntry> = Vec::new();"];
       match out func with
       | Type_Void => ""
       | t => push_value "ret" (type_variant_name t) (default_value_expr t)
       end;
       line ["  stack.push(StackEntry::Retrn(Some(1)));"];
       cat (map (fun '(n, t) => push_value n (type_variant_name t) (camel_ident n)) (in_vars func));
       cat (map (fun '(n, t) => push_value n (type_variant_name t) (default_value_expr t)) (locals func));
       line ["  stack.push(StackEntry::State(State::"; variant_name [fiber_name; func_name; "entry"]; "));"];
       line ["  let heap = Heap::default();"]; line ["  (stack, heap)"]; "}"; newline; newline].

Definition result_fn (fiber_name func_name : string) (func : Func) : string :=
  cat [line ["pub fn "; result_name fiber_name func_name; "(stack: &[StackEntry]) -> "; rust_type (out func); " {"];
       match out func with
       | Type_Void => cat [line ["  let _ = stack;"]; line ["  ()"]; "}"; newline; newline]
       | t =>
           cat [line ["  match stack.last() {"];
                line ["    Some(StackEntry::Value(_, Value::"; type_variant_name t; "(v))) => v.clone(),"];
                line ["    _ => unreachable!("; quoted "result not found on stack"; "),"];
                line ["  }"]; "}"; newline; newline]
       end].

Definition prepare_wrapper (fiber_name func_name : string) (func : Func) : string :=
  cat [line ["fn "; prepare_name fiber_name func_name; "_from_values(args: Vec<Value>) -> Vec<StackEntry> {"];
       cat (imap (fun idx '(n, t) =>
         line ["  let "; camel_ident n; ": "; rust_type t; " = if let Value::"; type_variant_name t; "(x) = &args[";
               pretty idx; "] { x.clone() } else { unreachable!("; quoted (cat ["invalid args for "; fiber_name; "."; func_name]); ") };"])
         (in_vars func));
       line ["  let (stack, _heap) = "; prepare_name fiber_name func_name; "(";
             str_join ", " (map (fun '(n, _) => camel_ident n) (in_vars func)); ");"];
       line ["  stack"]; "}"; newline; newline].

Definition result_wrapper (fiber_name func_name : string) (func : Func) : string :=
  cat ["fn "; result_name fiber_name func_name; "_value(stack: &[StackEntry]) -> Value { Value::";
       type_variant_name (out func); "("; result_name fiber_name func_name; "(stack)) }"; newline; newline].

Definition prepare_arm (fiber_name func_name : string) : string :=
  line ["    "; quoted (cat [fiber_name; "."; func_name]); " => "; prepare_name fiber_name func_name; "_from_values,"].

(** Every function, with the fiber it belongs to, in the order of the output. *)
Definition all_funcs : list (string * Fiber * string * Func) :=
  concat (map (fun '(fiber_name, fiber) => map (fun '(func_name, func) => (fiber_name, fiber, func_name, func)) (funcs_sorted fiber))
    fibers_sorted).

Definition generate_prepare_and_result_helpers : string :=
  cat [newline; line ["// Registry: function key -> (prepare_from_values, result_to_value)"];
       line ["pub type PrepareFn = fn(Vec<Value>) -> Vec<StackEntry>;"];
       line ["pub type ResultFn = fn(&[StackEntry]) -> Value;"]; newline;
       cat (map (fun '(fiber_name, _, func_name, func) =>
         cat [prepare_fn fiber_name func_name func; result_fn fiber_name func_name func;
              prepare_wrapper fiber_name func_name func; result_wrapper fiber_name func_name func]) all_funcs);
       line ["pub fn get_prepare_fn(key: &str) -> PrepareFn {"]; line ["  match key {"];
       cat (sort_by id (map (fun '(fiber_name, _, func_name, _) => prepare_arm fiber_name func_name) all_funcs));
       line ["    _ => panic!("; quoted "shouldnt be here"; "),"]; line ["  }"]; "}"; newline; newline].

(** *** Preparing a heap *)
Definition heap_init (e : FiberType * Fiber) : string :=
  let '(fiber_name, fiber) := e in
  let fname := camel_ident fiber_name in
  let prepare_fn_name := fname +:+ "_prepare_heap" in
  cat [line ["pub fn "; prepare_fn_name; "("; typed_params (init_vars fiber); ") -> Heap {"];
       line ["  let mut heap = Heap::default();"];
       cat (map (fun '(n, _) => line ["  heap."; fname; ".in_vars."; camel_ident n; " = "; camel_ident n; ";"]) (init_vars fiber));
       line ["  heap"]; "}"; newline; newline;
       line ["fn "; prepare_fn_name; "_from_values(args: Vec<Value>) -> Heap {"];
       cat (imap (fun idx '(n, t) =>
         line ["  let "; camel_ident n; ": "; rust_type t; " = if let Some(Value::"; type_variant_name t; "(x)) = args.get(";
               pretty idx; ") { x.clone() } else { "; default_value_expr t; " };"]) (init_vars fiber));
       line ["  "; prepare_fn_name; "("; str_join ", " (map (fun '(n, _) => camel_ident n) (init_vars fiber)); ")"];
       "}"; newline; newline].

Definition generate_heap_init_helpers : string :=
  cat [line ["pub type HeapInitFn = fn(Vec<Value>) -> Heap;"]; newline;
       cat (map heap_init fibers_sorted);
       line ["pub fn get_heap_init_fn(fiber: &FiberType) -> HeapInitFn {"]; line ["  match fiber.0.as_str() {"];
       cat (sort_by id (map (fun '(n, _) => line ["    "; quoted n; " => "; camel_ident n; "_prepare_heap_from_values,"]) fibers_sorted));
       line ["    _ => |_| Heap::default(),"]; line ["  }"]; "}"; newline; newline].
End generate.
