(* ===== verification/CodegenStep.v ===== *)
(** * Code generation: the step function

    Models the second half of [dsl/src/codegen.rs]: [global_step] of the generated program,
    one arm per state, and the whole output. The entry of a function and its other steps
    are printed by separate code there; what both copies share is one definition here. *)
From S2P Require Import Prelude Ir Codegen.
From stdpp Require Import pretty.
Local Open Scope string_scope.
Local Open Scope list_scope.

(** ** Variables of a frame *)
Definition position (x : string) (l : list (string * Type_)) : option nat := fst <$> list_find (fun v => fst v = x) l.

Definition var_type_of (func : Func) (name : string) : option Type_ :=
  match find_map (fun '(n, t) => if decide (n = name) then Some t else None) (in_vars func) with
  | Some t => Some t
  | None => find_map (fun '(n, t) => if decide (n = name) then Some t else None) (locals func)
  end.

Definition var_is_param (func : Func) (name : string) : bool := existsb (fun p => bool_decide (fst p = name)) (in_vars func).

(** The slot of a variable: parameters come first, then the locals. *)
Definition frame_slot (func : Func) (name : string) : option nat :=
  match position name (in_vars func) with
  | Some pi => Some pi
  | None => (fun li => length (in_vars func) + li)%nat <$> position name (locals func)
  end.

Definition slot_expr (slot : option nat) : string := match slot with Some i => pretty i | None => "0" end.

(** [if let .. = &vars[idx] { x.clone() } else { unreachable!() }] *)
Definition read_slot (vname idx : string) : string :=
  cat ["if let StackEntry::Value(_, Value::"; vname; "(x)) = &vars["; idx; "] { x.clone() } else { unreachable!() }"].

(** ** Expressions *)
Definition backslash_quotes : string -> string :=
  fix go s := match s with
              | EmptyString => ""
              | String c s' => if decide (Ascii.N_of_ascii c = 34)%N then "\" +:+ quote +:+ go s' else String c (go s')
              end.

Definition render_bool (b : bool) : string := if b then "true" else "false".

Fixpoint render_expr_code (expr : Expr) : string :=
  match expr with
  | Expr_UInt64 x => pretty x +:+ "u64"
  | Expr_Var name => camel_ident name
  | Expr_Str s => string_lit (backslash_quotes s)
  | Expr_Bool b => render_bool b
  | Expr_Equal a b => cat [render_expr_code a; " == "; render_expr_code b]
  | Expr_Greater a b => cat [render_expr_code a; " > "; render_expr_code b]
  | Expr_Less a b => cat [render_expr_code a; " < "; render_expr_code b]
  | Expr_IsSome e => cat ["("; render_expr_code e; ").is_some()"]
  | Expr_Unwrap e => cat ["("; render_expr_code e; ").unwrap()"]
  | Expr_GetField e field => cat ["("; render_expr_code e; ")."; camel_ident field]
  | Expr_StructUpdate base updates =>
      cat ["{ let mut tmp = ("; render_expr_code base; ").clone(); ";
           cat (map (fun '(fname, fexpr) => cat ["tmp."; camel_ident fname; " = ("; render_expr_code fexpr; "); "]) updates); "tmp }"]
  end.

Fixpoint render_ret_value (rv : RetValue) (expected_ty : Type_) : string :=
  match rv with
  | RetValue_UInt64 x => pretty x +:+ "u64"
  | RetValue_Str s => string_lit (backslash_quotes s)
  | RetValue_Bool b => render_bool b
  | RetValue_Var name => camel_ident name
  | RetValue_Some inner =>
      cat ["Some("; render_ret_value inner (match expected_ty with Type_Option inner_ty => inner_ty | _ => expected_ty end); ")"]
  | RetValue_None => "None"
  end.

Fixpoint expr_references (expr : Expr) (acc : list string) : list string :=
  match expr with
  | Expr_UInt64 _ | Expr_Str _ | Expr_Bool _ => acc
  | Expr_Var name => btree_insert name acc
  | Expr_Equal a b | Expr_Greater a b | Expr_Less a b => expr_references b (expr_references a acc)
  | Expr_IsSome e | Expr_Unwrap e | Expr_GetField e _ => expr_references e acc
  | Expr_StructUpdate base updates => foldl (fun acc u => expr_references (snd u) acc) (expr_references base acc) updates
  end.

Fixpoint ret_references (rv : RetValue) (acc : list string) : list string :=
  match rv with
  | RetValue_Var name => btree_insert name acc
  | RetValue_Some inner => ret_references inner acc
  | _ => acc
  end.

Section step.
Context (ir : IR) (fiber_name : FiberType) (fiber : Fiber) (func_name : string) (func : Func).

Definition state_of (id : StepId) : string := variant_name [fiber_name; func_name; id].

(** ** The variables a step reads *)
Definition insert_all (l : list string) (acc : list string) : list string := foldl (fun acc x => btree_insert x acc) acc l.

Definition referenced (step : Step) : list string :=
  match step with
  | Step_Debug _ _ | Step_DebugPrintVars _ | Step_ReturnVoid => []
  | Step_SetValues values _ =>
      insert_all (concat (map (fun v => match v with
                                        | SetPrimitive_QueueMessage q x => [q; x]
                                        | SetPrimitive_Future f x => [f; x]
                                        end) values)) []
  | Step_Create primitives _ _ =>
      insert_all (omap (fun p => match p with RuntimePrimitive_Queue name _ => Some name | _ => None end) primitives) []
  | Step_CreateFibers details _ => insert_all (concat (map detail_init_vars details)) []
  | Step_Select arms =>
      insert_all (map (fun arm => match arm with
                                  | AwaitSpec_Queue queue_name _ _ => queue_name
                                  | AwaitSpec_Future _ _ future_id => future_id
                                  end) arms) []
  | Step_Call _ args _ _ => foldl (fun acc e => expr_references e acc) [] args
  | Step_Return value => ret_references value []
  | Step_If cond _ _ => expr_references cond []
  | Step_Let _ expr _ => expr_references expr []
  | Step_RustBlock _ _ _ =>
      insert_all (map fst (in_vars func) ++ map fst (locals func) ++ map fst (init_vars fiber)) []
  end.

Definition bind_slot (ident : string) (ty : Type_) (idx : nat) : string :=
  line ["      let "; ident; ": "; rust_type ty; " = "; read_slot (type_variant_name ty) (pretty idx); ";"].

(** A variable that is not in the frame is looked for among the fiber's. *)
Definition bind_outer (var_name : string) : string :=
  match find_map (fun '(n, t) => if decide (n = var_name) then Some t else None) (init_vars fiber) with
  | Some ty =>
      let local_ident := camel_ident var_name in
      line ["      let "; local_ident; ": "; rust_type ty; " = heap."; camel_ident fiber_name; ".in_vars."; local_ident; ".clone();"]
  | None => line ["      // NOTE: Referenced variable '"; var_name; "' not found among params/locals/init_vars."]
  end.

Definition bind_local (var_name : string) (ty : Type_) : string :=
  match position var_name (locals func) with
  | Some pos => bind_slot (camel_ident var_name) ty (length (in_vars func) + pos)
  | None => ""
  end.

(** In the entry every parameter is bound first, under its own name. *)
Definition entry_params : string := cat (imap (fun i '(n, t) => bind_slot n t i) (in_vars func)).

Definition entry_bind (var_name : string) : string :=
  match var_type_of func var_name with
  | Some ty => if var_is_param func var_name then "" else bind_local var_name ty
  | None => bind_outer var_name
  end.

Definition step_bind (var_name : string) : string :=
  match var_type_of func var_name with
  | Some ty =>
      if var_is_param func var_name then
        match position var_name (in_vars func) with
        | Some pos => bind_slot (camel_ident var_name) ty pos
        | None => ""
        end
      else bind_local var_name ty
  | None => bind_outer var_name
  end.

(** ** The steps *)
Definition create_fibers_arg (v : LocalVarRef) : string :=
  let vname := match var_type_of func v with Some ty => type_variant_name ty | None => "String" end in
  cat ["Value::"; vname; "("; read_slot vname (slot_expr (frame_slot func v)); ")"].

Definition render_create_fibers (details : list CreateFiberDetail) (next : StepId) : string :=
  let dparts := map (fun d => cat ["(FiberType::new("; quoted (f_name d); "), vec!["; 
                                   str_join ", " (map create_fibers_arg (detail_init_vars d)); "])"]) details in
  line ["      StepResult::CreateFibers { details: vec!["; str_join ", " dparts; "], next: State::"; state_of next; " }"].

Definition create_part (p : RuntimePrimitive) : string :=
  match p with
  | RuntimePrimitive_Future => "CreatePrimitiveValue::Future"
  | RuntimePrimitive_Queue name public =>
      cat ["CreatePrimitiveValue::Queue { name: "; read_slot "String" (slot_expr (frame_slot func name));
           ", public: "; render_bool public; " }"]
  | RuntimePrimitive_Schedule ms_var =>
      cat ["CreatePrimitiveValue::Schedule { ms: "; read_slot "U64" (slot_expr (frame_slot func ms_var)); " }"]
  end.

Definition success_kind (primitives : list RuntimePrimitive) (i : nat) (b : LocalVarRef) : string :=
  match primitives !! i with
  | Some RuntimePrimitive_Future | Some (RuntimePrimitive_Schedule _) =>
      match var_type_of func b with
      | Some (Type_Future inner) => cat ["SuccessBindKind::Future(FutureKind::Future"; type_variant_name inner; ")"]
      | _ => "SuccessBindKind::String"
      end
  | _ => "SuccessBindKind::String"
  end.

Definition render_create (primitives : list RuntimePrimitive) (success : SuccessCreateBranch) (fail : FailCreateBranch) : string :=
  line ["      StepResult::Create { primitives: vec!["; str_join ", " (map create_part primitives);
        "], success_next: State::"; state_of (success_next success);
        ", success_binds: vec!["; str_join ", " (map string_lit (id_binds success));
        "], success_kinds: vec!["; str_join ", " (imap (success_kind primitives) (id_binds success));
        "], fail_next: State::"; state_of (fail_next fail);
        ", fail_binds: vec!["; str_join ", " (map string_lit (error_binds fail)); "] }"].

(** The entry spares the clone of a value of a copied type. *)
Definition set_part (entry : bool) (v : SetPrimitive) : result string :=
  let value (vty : Type_) (x : string) :=
    if entry && is_copy_type vty then camel_ident x else camel_ident x +:+ ".clone()" in
  match v with
  | SetPrimitive_QueueMessage q x =>
      vty ← expect "unknown var in SetValues::QueueMessage" (var_type_of func x);
      Ok (cat ["SetPrimitiveValue::QueueMessage { queue_name: "; camel_ident q; ".clone(), value: Value::";
               type_variant_name vty; "("; value vty x; ") }"])
  | SetPrimitive_Future f x =>
      vty ← expect "unknown var in SetValues::Future" (var_type_of func x);
      let fid := match var_type_of func f with
                 | Some (Type_Future _) => camel_ident f +:+ ".0.clone()"
                 | _ => camel_ident f +:+ ".clone()"
                 end in
      Ok (cat ["SetPrimitiveValue::Future { id: "; fid; ", value: Value::"; type_variant_name vty; "("; value vty x; ") }"])
  end.

(** [for v in values { parts.push(..) }] *)
Definition push_part {A} (part : A -> result string) (parts : list string) (v : A) : result (list string) :=
  p ← part v; Ok (parts ++ [p]).

Definition render_set_values (entry : bool) (values : list SetPrimitive) (next : StepId) : result string :=
  vparts ← for_each values (push_part (set_part entry)) [];
  Ok (line ["      StepResult::SetValues { values: vec!["; str_join ", " vparts; "], next: State::"; state_of next; " }"]).

Definition select_arm (arm : AwaitSpec) : string :=
  match arm with
  | AwaitSpec_Queue queue_name message_var next =>
      cat ["SelectArm::Queue { queue_name: "; camel_ident queue_name; ".clone(), bind: "; string_lit message_var;
           ", next: State::"; state_of next; " }"]
  | AwaitSpec_Future bind ret_to future_id =>
      let id_expr := match var_type_of func future_id with
                     | Some (Type_Future _) => camel_ident future_id +:+ ".0.clone()"
                     | _ => camel_ident future_id +:+ ".clone()"
                     end in
      let bind_expr := match bind with Some name => cat ["Some("; string_lit name; ")"] | None => "None" end in
      cat ["SelectArm::FutureVar { future_id: "; id_expr; ", bind: "; bind_expr; ", next: State::"; state_of ret_to; " }"]
  end.

Definition render_select (arms : list AwaitSpec) : string :=
  line ["      StepResult::Select(vec!["; str_join ", " (map select_arm arms); "])"].

(** *** Calls *)
Definition find_func (fiber func : string) : option Func := ff ← fibers ir !! fiber; funcs ff !! func.

(** How far below the top the result is bound: the caller's frame is under its state. *)
Definition call_offset (bind : option LocalVarRef) : option nat :=
  x ← bind;
  (fun var_ind => (frame_size func + 1) - var_ind)%nat <$> frame_slot func x.

Definition stack_value (name vname code : string) : string :=
  line ["        StackEntry::Value("; string_lit name; ", Value::"; vname; "("; code; ")),"].

Definition call_args (args : list Expr) (callee : Func) : list string :=
  omap (fun '(p, arg) => Some (stack_value (fst p) (type_variant_name (snd p)) (render_expr_code arg)))
    (zip (in_vars callee) args).

Definition render_call_step (target : FuncRef) (args : list Expr) (ret_to : StepId) (bind : option LocalVarRef) : string :=
  let ret_state := state_of ret_to in
  match find_func (target_fiber target) (target_func target) with
  | Some callee =>
      cat [line ["      StepResult::Next(vec!["];
           line ["        StackEntry::State(State::"; ret_state; "),"];
           match call_offset bind with
           | Some offset => line ["        StackEntry::Retrn(Some("; pretty offset; ")),"]
           | None => line ["        StackEntry::Retrn(None),"]
           end;
           cat (call_args args callee);
           cat (map (fun '(n, t) => stack_value n (type_variant_name t) (default_value_expr t)) (locals callee));
           line ["        StackEntry::State(State::"; variant_name [target_fiber target; target_func target; "entry"]; "),"];
           line ["      ])"]]
  | None => line ["      StepResult::GoTo(State::"; ret_state; ")"]
  end.

(** *** Assignments *)
Definition frame_assign (assignments : string) (next : StepId) : string :=
  cat [line ["        StackEntry::FrameAssign(vec!["; assignments; "]),"];
       line ["        StackEntry::State(State::"; state_of next; "),"]].

(** The slot is looked for among the locals only. *)
Definition let_slot (local : string) : option nat := (fun li => length (in_vars func) + li)%nat <$> position local (locals func).

Definition render_let (local : string) (expr : Expr) (next : StepId) : result string :=
  lty ← expect "unknown local var in Let" (var_type_of func local);
  Ok (cat [line ["      StepResult::Next(vec!["];
           frame_assign (cat ["( "; slot_expr (let_slot local); ", Value::"; type_variant_name lty; "("; render_expr_code expr; ") )"]) next;
           line ["      ])"]]).

Definition direct_return (b : LocalVarRef) (next : StepId) : bool :=
  match find_step func next with Some st => returns_var st b | None => false end.

Definition block_header (code : string) : string := cat [line ["      { let out = {"]; code; newline].

Definition tuple_name (i : nat) : string := "o" +:+ pretty i.

Definition block_assign (bind_types : list Type_) (i : nat) (b : LocalVarRef) : result string :=
  ty ← expect "index out of bounds" (bind_types !! i);
  Ok (line ["            ( "; slot_expr (frame_slot func b); ", Value::"; type_variant_name ty; "("; tuple_name i; ") ),"]).

Definition render_rust_block (binds : list LocalVarRef) (code : string) (next : StepId) : result string :=
  bind_types ← for_each binds (fun tys b => ty ← expect "bind var type" (var_type_of func b); Ok (tys ++ [ty])) [];
  let next_lines := cat [line ["          StackEntry::State(State::"; state_of next; "),"]; line ["        ]) }"]] in
  match binds, bind_types with
  | [b], [ty] =>
      if direct_return b next then
        Ok (cat [block_header code; "      }; "; line ["StepResult::Return(Value::"; type_variant_name ty; "(out)) }"]])
      else
        Ok (cat [block_header code; line ["      }; StepResult::Next(vec!["];
                 line ["          StackEntry::FrameAssign(vec![( "; slot_expr (frame_slot func b); ", Value::";
                       type_variant_name ty; "(out) )]),"]; next_lines])
  | _, _ =>
      assigns ← for_each (imap (fun i b => (i, b)) binds) (push_part (fun '(i, b) => block_assign bind_types i b)) [];
      Ok (cat [block_header code; line ["      };"];
               line ["        let ("; str_join ", " (imap (fun i _ => tuple_name i) bind_types); ") = out;"];
               line ["        StepResult::Next(vec!["]; line ["          StackEntry::FrameAssign(vec!["];
               cat assigns; line ["          ]),"]; next_lines])
  end.

(** *** Any step *)
Definition render_step (entry : bool) (step : Step) : result string :=
  match step with
  | Step_Debug msg next => Ok (line ["      StepResult::Debug("; quoted msg; ", State::"; state_of next; ")"])
  | Step_CreateFibers details next => Ok (render_create_fibers details next)
  | Step_Create primitives success fail => Ok (render_create primitives success fail)
  | Step_DebugPrintVars next => Ok (line ["      StepResult::DebugPrintVars(State::"; state_of next; ")"])
  | Step_SetValues values next => render_set_values entry values next
  | Step_Select arms => Ok (render_select arms)
  | Step_Call target args bind ret_to => Ok (render_call_step target args ret_to bind)
  | Step_Return value =>
      Ok (line ["      StepResult::Return(Value::"; type_variant_name (out func); "("; render_ret_value value (out func); "))"])
  | Step_ReturnVoid => Ok (line ["      StepResult::ReturnVoid"])
  | Step_If cond then_ else_ =>
      Ok (line ["      if "; render_expr_code cond; " { StepResult::GoTo(State::"; state_of then_;
                ") } else { StepResult::GoTo(State::"; state_of else_; ") }"])
  | Step_Let local expr next => render_let local expr next
  | Step_RustBlock binds code next => render_rust_block binds code next
  end.

Definition entry_arm : result string :=
  let header := cat [line ["    State::"; state_of "entry"; " => {"]; entry_params] in
  body ← match find_step func "entry" with
         | Some step =>
             code ← render_step true step;
             Ok (cat (map entry_bind (referenced step)) +:+ code)
         | None => Ok (line ["      StepResult::GoTo(State::"; state_of "entry"; ")"])
         end;
  Ok (cat [header; body; line ["    }"]]).

Definition step_arm (s : StepId * Step) : result string :=
  let '(step_id, step) := s in
  code ← render_step false step;
  Ok (cat [line ["    State::"; state_of step_id; " => {"]; cat (map step_bind (referenced step)); code; line ["    }"]]).

(** The loop over the steps: [seen] holds the states that have an arm. *)
Definition render_next (acc : list string * list string) (s : StepId * Step) : result (list string * list string) :=
  let '(seen, arms) := acc in
  if suppress_this func s then Ok acc
  else if decide (state_of (fst s) ∈ seen) then Ok acc
  else
    arm ← step_arm s;
    Ok (btree_insert (state_of (fst s)) seen, arms ++ [arm]).

Definition func_arms : result (list string) :=
  entry ← entry_arm;
  '(_, arms) ← for_each (sort_by fst (steps func)) render_next ([state_of "entry"], [entry]);
  Ok arms.
End step.

(** ** The whole output *)
Section output.
Context `{HashOrder} (ir : IR).

Definition push_func (acc : list string) (e : string * Fiber * string * Func) : result (list string) :=
  let '(fiber_name, fiber, func_name, func) := e in
  arms ← func_arms ir fiber_name fiber func_name func;
  Ok (acc ++ arms).

Definition generate_global_step : result string :=
  arms ← for_each (all_funcs ir) push_func [];
  Ok (cat [line ["pub fn global_step(state: State, vars: &[StackEntry], heap: &mut Heap) -> StepResult {"];
           line ["  match state {"]; line ["    State::Completed => StepResult::Done,"];
           line ["    State::Idle => panic!("; quoted "shoudnt be here"; "),"];
           cat arms;
           line ["    _ => StepResult::Todo("; string_lit "uncovered-state"; "),"]; line ["  }"]; line ["}"]]).

Definition generate_rust_types (fuel : nat) : result string :=
  wrappers ← future_wrappers ir fuel;
  step ← generate_global_step;
  Ok (cat [line ["// Generated by dsl::codegen from IR"]; line ["#![allow(dead_code)]"]; line ["#![allow(unused_variables)]"];
           line ["#![allow(non_snake_case)]"]; newline;
           line ["use serde::{Serialize, Deserialize};"]; line ["use crate::ir::FiberType;"]; newline;
           cat (map (render_type ir) (types ir)); cat (map wrapper_decl wrappers);
           cat (map heap_decls (fibers_sorted ir)); heap_decl ir; state_enum ir; value_enum ir;
           pub_to_private ir; private_to_pub ir; stack_entry_decl; future_kind_decl wrappers; wrap_future_id_decl wrappers;
           step_result_decl; generate_func_args_count ir; step;
           generate_prepare_and_result_helpers ir; generate_heap_init_helpers ir]).
End output.
