(* ===== verification/CodegenSpec.v ===== *)
(** * Code generation: what it promises

    The output does not depend on the order in which hash maps are visited; every valid
    program whose types are not recursive is printed; the arms of the step function and the
    declared states are the same; the slots of a frame are where the runtime looks. *)
From S2P Require Import Prelude Ir IrRules SampleIr Codegen CodegenStep.
From Stdlib Require Import Ascii.
Local Open Scope string_scope.
Local Open Scope list_scope.

(** ** The order of strings *)
Lemma compare_trans_lt : forall s t u, String.compare s t = Lt -> String.compare t u = Lt -> String.compare s u = Lt.
Proof.
  induction s as [|c s IH]; intros [|d t] [|e u]; cbn; try done. unfold Ascii.compare.
  destruct (N.compare_spec (N_of_ascii c) (N_of_ascii d)) as [E1|E1|E1]; try done;
    destruct (N.compare_spec (N_of_ascii d) (N_of_ascii e)) as [E2|E2|E2]; try done;
    intros H1 H2; destruct (N.compare_spec (N_of_ascii c) (N_of_ascii e)); try done; try lia. by eapply IH.
Qed.

Lemma ltb_compare s t : str_ltb s t = true <-> String.compare s t = Lt.
Proof. unfold str_ltb, String.ltb. by destruct (String.compare s t). Qed.

Lemma leb_compare s t : str_leb s t = true <-> String.compare s t <> Gt.
Proof. unfold str_leb, String.leb. by destruct (String.compare s t). Qed.

Lemma str_ltb_trans s t u : str_ltb s t = true -> str_ltb t u = true -> str_ltb s u = true.
Proof. rewrite !ltb_compare. apply compare_trans_lt. Qed.

Lemma compare_eq s t : String.compare s t = Eq <-> s = t.
Proof.
  split; [apply String.compare_eq_iff|]. intros ->. induction t as [|c t IH]; cbn; [done|].
  unfold Ascii.compare. by rewrite N.compare_refl.
Qed.

Lemma str_ltb_irrefl s : str_ltb s s = false.
Proof. apply not_true_is_false. rewrite ltb_compare. by rewrite (proj2 (compare_eq s s) eq_refl). Qed.

Lemma str_cases s t : s = t \/ str_ltb s t = true \/ str_ltb t s = true.
Proof.
  rewrite !ltb_compare, (String.compare_antisym t s). destruct (String.compare s t) eqn:E; [left|by right; left|by right; right].
  by apply compare_eq.
Qed.

Lemma str_leb_ltb s t : str_leb s t = true <-> s = t \/ str_ltb s t = true.
Proof.
  rewrite leb_compare, ltb_compare, <-compare_eq. destruct (String.compare s t); split; try tauto; try done.
  - by intros [|].
Qed.

(** Case analysis on the comparison of two different strings. *)
Ltac str_order :=
  repeat match goal with
  | H1 : str_ltb ?a ?b = true, H2 : str_ltb ?b ?c = true |- _ =>
      lazymatch goal with H : str_ltb a c = true |- _ => fail | _ => pose proof (str_ltb_trans a b c H1 H2) end
  end;
  try match goal with H : str_ltb ?a ?a = true |- _ => by rewrite str_ltb_irrefl in H end.

Lemma str_ltb_false s t : str_ltb s t = true -> str_ltb t s = false.
Proof. intros H. apply not_true_is_false. intros H'. str_order. Qed.

Lemma str_leb_false s t : str_ltb s t = true -> str_leb t s = false.
Proof. intros H. apply not_true_is_false. rewrite str_leb_ltb. intros [->|H']; str_order. Qed.

Lemma str_leb_true s t : str_ltb s t = true -> str_leb s t = true.
Proof. intros H. apply str_leb_ltb. by right. Qed.

(** ** Insertions commute *)
Lemma btree_insert_lt x y l : str_ltb x y = true -> btree_insert x (y :: l) = x :: y :: l.
Proof. intros H. cbn. rewrite H. case_decide; [|done]. subst. by rewrite str_ltb_irrefl in H. Qed.

Lemma btree_insert_gt x y l : str_ltb y x = true -> btree_insert x (y :: l) = y :: btree_insert x l.
Proof. intros H. cbn. rewrite (str_ltb_false y x H). case_decide; [|done]. subst. by rewrite str_ltb_irrefl in H. Qed.

Lemma btree_insert_eq x l : btree_insert x (x :: l) = x :: l.
Proof. cbn. by rewrite decide_True. Qed.

(** Evaluates [btree_insert] with the comparisons that are known. *)
Ltac btree_step := repeat first
  [ rewrite btree_insert_eq | rewrite btree_insert_lt by (assumption || (str_order; assumption))
  | rewrite btree_insert_gt by (assumption || (str_order; assumption)) ].

Lemma btree_insert_comm x y l : btree_insert x (btree_insert y l) = btree_insert y (btree_insert x l).
Proof.
  destruct (str_cases x y) as [->|Hxy]; [done|]. induction l as [|z l IH].
  - change (btree_insert x []) with [x]. change (btree_insert y []) with [y]. destruct Hxy as [H|H]; by btree_step.
  - destruct (str_cases x z) as [->|[Hx|Hx]], (str_cases y z) as [->|[Hy|Hy]], Hxy as [H|H];
      try (str_order; fail); btree_step; try done; by rewrite IH.
Qed.

Lemma insert_by_le {A} (key : A -> string) x y l : str_ltb (key x) (key y) = true -> insert_by key x (y :: l) = x :: y :: l.
Proof. intros H. cbn. by rewrite str_leb_true. Qed.

Lemma insert_by_gt {A} (key : A -> string) x y l : str_ltb (key y) (key x) = true -> insert_by key x (y :: l) = y :: insert_by key x l.
Proof. intros H. cbn. by rewrite str_leb_false. Qed.

Lemma insert_by_same {A} (key : A -> string) x y l : key x = key y -> insert_by key x (y :: l) = x :: y :: l.
Proof. intros E. cbn. by rewrite (proj2 (str_leb_ltb (key x) (key y)) (or_introl E)). Qed.

Ltac insert_by_step := repeat first
  [ rewrite insert_by_same by assumption | rewrite insert_by_le by (assumption || (str_order; assumption))
  | rewrite insert_by_gt by (assumption || (str_order; assumption)) ].

Lemma insert_by_comm {A} (key : A -> string) x y l :
  key x <> key y -> insert_by key x (insert_by key y l) = insert_by key y (insert_by key x l).
Proof.
  intros Hne. destruct (str_cases (key x) (key y)) as [|Hxy]; [done|]. induction l as [|z l IH].
  - change (insert_by key x []) with [x]. change (insert_by key y []) with [y]. destruct Hxy as [H|H]; by insert_by_step.
  - destruct (str_cases (key x) (key z)) as [Hx|[Hx|Hx]], (str_cases (key y) (key z)) as [Hy|[Hy|Hy]], Hxy as [H|H];
      try (exfalso; congruence); pose proof H as H'; try rewrite Hx in H'; try rewrite Hy in H';
      try (str_order; fail); insert_by_step; try done; by rewrite IH.
Qed.

Lemma sort_by_perm {A} (key : A -> string) l k : l ≡ₚ k -> NoDup (map key l) -> sort_by key l = sort_by key k.
Proof.
  intros Hp Hnd. apply (foldr_permutation (=) (insert_by key) [] l k); [|done].
  intros i x j y acc Hij Hx Hy. apply insert_by_comm. intros E. apply Hij.
  eapply (NoDup_lookup (map key l) i j (key x)); [done| |].
  - change (map key l) with (key <$> l). by rewrite list_lookup_fmap, Hx.
  - change (map key l) with (key <$> l). by rewrite list_lookup_fmap, Hy, E.
Qed.

Lemma sort_by_elem {A} (key : A -> string) l : sort_by key l ≡ₚ l.
Proof.
  unfold sort_by. induction l as [|x l IH]; cbn; [done|]. rewrite <-IH at 2. generalize (foldr (insert_by key) [] l) as k.
  induction k as [|y k IHk]; cbn; [done|]. destruct (str_leb (key x) (key y)); [done|]. rewrite IHk. constructor.
Qed.

(** *** Maps *)
Lemma map_insert_lt {V} x y (v w : V) l : str_ltb x y = true -> btree_map_insert x v ((y, w) :: l) = (x, v) :: (y, w) :: l.
Proof. intros H. cbn. rewrite H. case_decide; [|done]. subst. by rewrite str_ltb_irrefl in H. Qed.

Lemma map_insert_gt {V} x y (v w : V) l : str_ltb y x = true -> btree_map_insert x v ((y, w) :: l) = (y, w) :: btree_map_insert x v l.
Proof. intros H. cbn. rewrite (str_ltb_false y x H). case_decide; [|done]. subst. by rewrite str_ltb_irrefl in H. Qed.

Lemma map_insert_eq {V} x (v w : V) l : btree_map_insert x v ((x, w) :: l) = (x, v) :: l.
Proof. cbn. by rewrite decide_True. Qed.

Ltac map_insert_step := repeat first
  [ rewrite map_insert_eq | rewrite map_insert_lt by (assumption || (str_order; assumption))
  | rewrite map_insert_gt by (assumption || (str_order; assumption)) ].

Lemma map_insert_comm {V} x y (v w : V) l :
  (x = y -> v = w) -> btree_map_insert x v (btree_map_insert y w l) = btree_map_insert y w (btree_map_insert x v l).
Proof.
  intros Hv. destruct (str_cases x y) as [->|Hxy]; [by rewrite Hv|]. clear Hv. induction l as [|[z u] l IH].
  - change (btree_map_insert x v []) with [(x, v)]. change (btree_map_insert y w []) with [(y, w)].
    destruct Hxy as [H|H]; by map_insert_step.
  - destruct (str_cases x z) as [->|[Hx|Hx]], (str_cases y z) as [->|[Hy|Hy]], Hxy as [H|H];
      try (str_order; fail); map_insert_step; try done; by rewrite IH.
Qed.

(** Replacing the values of a map. *)
Lemma map_insert_fmap {V U} (f : V -> U) k v l :
  prod_map id f <$> btree_map_insert k v l = btree_map_insert k (f v) (prod_map id f <$> l).
Proof.
  induction l as [|[y w] l IH]; [done|]. cbn. case_decide; [done|]. destruct (str_ltb k y); [done|]. cbn. by f_equal.
Qed.

(** ** Loops over permuted lists *)
Lemma for_each_perm {A S} (l k : list A) (body : S -> A -> result S) s :
  l ≡ₚ k -> (forall x y s, (s1 ← body s x; body s1 y) = (s1 ← body s y; body s1 x)) ->
  for_each l body s = for_each k body s.
Proof.
  intros Hp Hc. revert s. induction Hp as [|x l k _ IH|x y l|l k m _ IH1 _ IH2]; intros s; cbn; [done| | |].
  - destruct (body s x); cbn; [apply IH|done|done].
  - specialize (Hc y x s). destruct (body s y) as [s1| |] eqn:Ey, (body s x) as [s2| |] eqn:Ex; cbn in *; try done;
      rewrite ?Hc; try done; try (by rewrite <-Hc).
  - by rewrite IH1.
Qed.

Lemma foldl_perm {A B} (f : A -> B -> A) l k a :
  l ≡ₚ k -> (forall a x y, f (f a x) y = f (f a y) x) -> foldl f a l = foldl f a k.
Proof. intros Hp Hc. revert a. induction Hp as [|x l k _ IH|x y l|l k m _ IH1 _ IH2]; intros a; cbn; [done|by rewrite IH|by rewrite Hc|by rewrite IH1]. Qed.

Lemma concat_map_perm {A B} (f g : A -> list B) l k :
  l ≡ₚ k -> (forall x, f x ≡ₚ g x) -> concat (map f l) ≡ₚ concat (map g k).
Proof.
  intros Hp Hfg. trans (concat (map f k)).
  - clear Hfg. induction Hp as [|x l k _ IH|x y l|l k m _ IH1 _ IH2]; cbn; [done|by rewrite IH| |by rewrite IH1].
    rewrite !app_assoc. by rewrite (Permutation_app_comm (f y)).
  - clear Hp. induction k as [|x k IH]; cbn; [done|]. by rewrite IH, Hfg.
Qed.

Lemma hash_orders (o1 o2 : HashOrder) {V} (m : gmap string V) : @hash_iter o1 _ _ _ _ m ≡ₚ @hash_iter o2 _ _ _ _ m.
Proof. by rewrite !hash_iter_perm. Qed.

Lemma insert_all_comm ns ms acc : insert_all ns (insert_all ms acc) = insert_all ms (insert_all ns acc).
Proof.
  unfold insert_all. rewrite <-!foldl_app. apply foldl_perm; [apply Permutation_app_comm|]. intros a x y. apply btree_insert_comm.
Qed.

(** A computation that only adds to a set, or runs out of fuel. *)
Definition inserts (f : list string -> result (list string)) : Prop :=
  (exists ns, forall acc, f acc = Ok (insert_all ns acc)) \/ (forall acc, f acc = OutOfFuel).

Lemma inserts_id : inserts (fun acc => Ok acc).
Proof. left. by exists []. Qed.

Lemma inserts_bind f g : inserts f -> inserts g -> inserts (fun acc => acc ← f acc; g acc).
Proof.
  intros [[ns Hf]|Hf] [[ms Hg]|Hg]; [left; exists (ns ++ ms)| | |]; try (right; intros acc; by rewrite Hf; cbn; rewrite ?Hg).
  intros acc. rewrite Hf. cbn. rewrite Hg. unfold insert_all. by rewrite foldl_app.
Qed.

Lemma inserts_loop {A} (l : list A) (body : list string -> A -> result (list string)) :
  (forall x, inserts (fun acc => body acc x)) -> inserts (fun acc => for_each l body acc).
Proof. intros Hb. induction l as [|x l IH]; cbn [for_each]; [apply inserts_id|]. by apply (inserts_bind (fun acc => body acc x)). Qed.

Lemma inserts_comm f g acc : inserts f -> inserts g -> (acc ← f acc; g acc) = (acc ← g acc; f acc).
Proof.
  intros [[ns Hf]|Hf] [[ms Hg]|Hg]; rewrite ?Hf, ?Hg; cbn; rewrite ?Hf, ?Hg; [by rewrite insert_all_comm|done..].
Qed.

Lemma collect_inserts ir fuel : forall ty, inserts (fun acc => collect_future_wrappers ir fuel ty acc).
Proof.
  induction fuel as [|fuel IH]; intros ty; [by right|]. cbn [collect_future_wrappers].
  destruct ty as [| | | |k v|t|name fs i|t|t|t|t|name|name fs i]; try apply inserts_id; try apply IH.
  - apply (inserts_bind (fun acc => collect_future_wrappers ir fuel k acc)); apply IH.
  - apply (inserts_bind (fun acc => Ok (btree_insert ("Future" +:+ type_variant_name t) acc))); [|apply IH].
    left. by exists ["Future" +:+ type_variant_name t].
  - destruct (find_map (struct_named name) (types ir)) as [fields|]; [|apply inserts_id].
    apply inserts_loop. intros [n t]. apply IH.
Qed.

(** ** The order of hash maps *)

(** The types whose values the program's variables hold. *)
Definition variable_types (ir : IR) (t : Type_) : Prop :=
  exists name fiber, fibers ir !! name = Some fiber /\
    (t ∈ (init_vars fiber).*2 \/ exists fname f, funcs fiber !! fname = Some f /\ t ∈ func_types f).

(** Types of the same printed name are the same in the printed program. *)
Definition names_agree (ir : IR) : Prop :=
  forall t1 t2, variable_types ir t1 -> variable_types ir t2 ->
    type_variant_name t1 = type_variant_name t2 -> rust_type t1 = rust_type t2.

Section orders.
Variables (o1 o2 : HashOrder) (ir : IR).

Lemma fibers_sorted_order : @fibers_sorted o1 ir = @fibers_sorted o2 ir.
Proof. apply sort_by_perm; [apply hash_orders|apply hash_iter_nodup]. Qed.

Lemma funcs_sorted_order fiber : @funcs_sorted o1 fiber = @funcs_sorted o2 fiber.
Proof. apply sort_by_perm; [apply hash_orders|apply hash_iter_nodup]. Qed.

Lemma need_ord_order : @need_ord o1 ir = @need_ord o2 ir.
Proof.
  apply (foldl_perm (fun acc hty => need_ord_of hty acc)).
  - apply concat_map_perm; [apply hash_orders|]. intros [_ fiber]. apply Permutation_map, hash_orders.
  - intros a x y. assert (Hn : forall t, (forall acc, need_ord_of t acc = acc) \/ exists n, forall acc, need_ord_of t acc = btree_insert n acc).
    { intros [| | | | | | |[]|[]| | | |]; cbn; (by left) || (right; by eexists). }
    destruct (Hn x) as [Hx|[n Hx]], (Hn y) as [Hy|[m Hy]]; rewrite ?Hx, ?Hy, ?Hx, ?Hy; try done. apply btree_insert_comm.
Qed.

Lemma fiber_types_order fiber : @fiber_types o1 fiber ≡ₚ @fiber_types o2 fiber.
Proof.
  apply Permutation_app; [apply Permutation_map, hash_orders|]. apply concat_map_perm; [apply hash_orders|]. by intros [_ f].
Qed.

Lemma future_wrappers_order fuel : @future_wrappers o1 ir fuel = @future_wrappers o2 ir fuel.
Proof.
  unfold future_wrappers. destruct (for_each (types ir) _ _) as [acc| |]; [|done|done]. cbn. apply for_each_perm.
  - apply concat_map_perm; [apply hash_orders|]. intros [_ fiber]. apply fiber_types_order.
  - intros x y s. apply inserts_comm; apply collect_inserts.
Qed.

(** The values of the type map matter by their printed types only. *)
Definition printed (l : list (string * Type_)) : list (string * string) := prod_map id rust_type <$> l.

Definition print_type (acc : list (string * string)) (ty : Type_) : list (string * string) :=
  btree_map_insert (type_variant_name ty) (rust_type ty) acc.

Lemma use_types_printed l acc : printed (foldl use_type acc l) = foldl print_type (printed acc) l.
Proof. revert acc. induction l as [|t l IH]; intros acc; cbn; [done|]. rewrite IH. f_equal. apply (map_insert_fmap rust_type). Qed.

Lemma print_types_perm l k acc :
  l ≡ₚ k -> (forall t1 t2, t1 ∈ l -> t2 ∈ l -> type_variant_name t1 = type_variant_name t2 -> rust_type t1 = rust_type t2) ->
  foldl print_type acc l = foldl print_type acc k.
Proof.
  intros Hp. revert acc. induction Hp as [|x l k Hp IH|x y l|l k m Hp1 IH1 Hp2 IH2]; intros acc Ha; cbn; [done| | |].
  - apply IH. intros t1 t2 H1 H2. apply Ha; by right.
  - f_equal. unfold print_type. apply map_insert_comm. apply Ha; [right; left|left].
  - rewrite IH1 by done. apply IH2. intros t1 t2 H1 H2. apply Ha; by rewrite Hp1.
Qed.

Lemma or_insert_printed k v l : printed (btree_or_insert k v l) = btree_or_insert k (rust_type v) (printed l).
Proof.
  unfold btree_or_insert, printed.
  assert (E : existsb (fun e : string * string => bool_decide (fst e = k)) (prod_map id rust_type <$> l) =
    existsb (fun e : string * Type_ => bool_decide (fst e = k)) l) by (induction l as [|[x t] l IH]; cbn; [done|by rewrite IH]).
  rewrite E. destruct (existsb _ l); [done|]. apply (map_insert_fmap rust_type).
Qed.

Lemma use_messages_printed l acc acc' : printed acc = printed acc' -> printed (foldl use_message acc l) = printed (foldl use_message acc' l).
Proof.
  revert acc acc'. induction l as [|t l IH]; intros acc acc' E; cbn; [done|]. apply IH. destruct t; cbn; try done.
  by rewrite !or_insert_printed, E.
Qed.

Lemma used_is_variable t :
  t ∈ concat (map (fun '(_, fiber) => @used_by_fiber o1 fiber) (@fibers_sorted o1 ir)) -> variable_types ir t.
Proof.
  intros ([name fiber] & Hf & Ht)%elem_of_concat_map. exists name, fiber.
  unfold fibers_sorted in Hf. rewrite sort_by_elem in Hf. split; [by apply hash_iter_elem in Hf|].
  apply elem_of_app in Ht as [Ht|Ht]; [by left|right]. apply elem_of_concat_map in Ht as ([fname f] & Hfn & Ht).
  exists fname, f. split; [by apply hash_iter_elem in Hfn|done].
Qed.

Lemma used_types_order : names_agree ir -> printed (@used_types o1 ir) = printed (@used_types o2 ir).
Proof.
  intros Ha. apply use_messages_printed. rewrite !use_types_printed. rewrite <-fibers_sorted_order. apply print_types_perm.
  - apply concat_map_perm; [done|]. intros [_ fiber]. apply Permutation_app; [done|].
    apply concat_map_perm; [apply hash_orders|]. by intros [_ f].
  - intros t1 t2 H1%used_is_variable H2%used_is_variable. by apply Ha.
Qed.

Lemma value_enum_order : names_agree ir -> @value_enum o1 ir = @value_enum o2 ir.
Proof.
  intros Ha. assert (Hv : forall l, map (fun '(vname, ty) => line ["  "; vname; "("; rust_type ty; "),"]) l =
    map (fun '(vname, r) => line ["  "; vname; "("; r; "),"]) (printed l)).
  { intros l. unfold printed. induction l as [|[n t] l IH]; cbn; [done|by f_equal]. }
  unfold value_enum. by rewrite !Hv, used_types_order.
Qed.

Lemma all_funcs_order : @all_funcs o1 ir = @all_funcs o2 ir.
Proof. unfold all_funcs. rewrite fibers_sorted_order. f_equal. apply map_ext. intros [n fiber]. by rewrite funcs_sorted_order. Qed.

Lemma render_type_order t : @render_type o1 ir t = @render_type o2 ir t.
Proof. destruct t; try done. cbn. by rewrite need_ord_order. Qed.

Lemma heap_decls_order e : @heap_decls o1 e = @heap_decls o2 e.
Proof.
  destruct e as [n fiber]. unfold heap_decls.
  rewrite (sort_by_perm fst (@hash_iter o1 _ _ _ _ (heap fiber)) (@hash_iter o2 _ _ _ _ (heap fiber))); [done|apply hash_orders|apply hash_iter_nodup].
Qed.

Lemma state_enum_order : @state_enum o1 ir = @state_enum o2 ir.
Proof.
  unfold state_enum. rewrite fibers_sorted_order. rewrite (map_ext (@state_variants o1) (@state_variants o2)); [done|].
  intros [n fiber]. cbn. by rewrite funcs_sorted_order.
Qed.

Lemma func_args_count_order : @generate_func_args_count o1 ir = @generate_func_args_count o2 ir.
Proof.
  unfold generate_func_args_count. rewrite fibers_sorted_order. do 3 f_equal.
  rewrite (map_ext (fun '(n, fiber) => concat (map (args_count_arms n) (@funcs_sorted o1 fiber)))
    (fun '(n, fiber) => concat (map (args_count_arms n) (@funcs_sorted o2 fiber)))); [done|].
  intros [n fiber]. by rewrite funcs_sorted_order.
Qed.
End orders.

(** C39: the printed program does not depend on the order in which the hash maps of the
    program are visited, as long as variables whose types have the same printed name have
    the same printed type: two runs of the generator agree. *)
Theorem codegen_deterministic (o1 o2 : HashOrder) ir fuel :
  names_agree ir -> @generate_rust_types o1 ir fuel = @generate_rust_types o2 ir fuel.
Proof.
  intros Ha. unfold generate_rust_types. rewrite (future_wrappers_order o1 o2).
  destruct (@future_wrappers o2 ir fuel) as [wrappers| |]; [|done|done]. cbn [mbind result_bind].
  unfold generate_global_step, generate_prepare_and_result_helpers, generate_heap_init_helpers, heap_decl.
  rewrite (all_funcs_order o1 o2), (fibers_sorted_order o1 o2), (state_enum_order o1 o2), (func_args_count_order o1 o2),
    (value_enum_order o1 o2) by done.
  rewrite (map_ext (@render_type o1 ir) (@render_type o2 ir)) by (intros t; apply render_type_order).
  by rewrite (map_ext (@heap_decls o1) (@heap_decls o2)) by (intros e; apply heap_decls_order).
Qed.

(** A check of [names_agree], to evaluate. *)
Definition listed_types (ir : IR) : list Type_ :=
  concat (map (fun '(_, fiber) => @used_by_fiber list_order fiber) (@fibers_sorted list_order ir)).

Lemma names_agree_checked ir :
  forallb (fun t1 => forallb (fun t2 => bool_decide (type_variant_name t1 <> type_variant_name t2) ||
    bool_decide (rust_type t1 = rust_type t2)) (listed_types ir)) (listed_types ir) = true -> names_agree ir.
Proof.
  intros Hc.
  assert (Hl : forall t, variable_types ir t -> t ∈ listed_types ir).
  { intros t (name & fiber & Hf & Ht). apply elem_of_concat_map. exists (name, fiber). split.
    - unfold fibers_sorted. rewrite sort_by_elem. by apply (@hash_iter_elem list_order).
    - apply elem_of_app. destruct Ht as [Ht|(fname & f & Hfn & Ht)]; [by left|right]. apply elem_of_concat_map.
      exists (fname, f). split; [by apply (@hash_iter_elem list_order)|done]. }
  intros t1 t2 H1%Hl H2%Hl Hn. rewrite forallb_forall in Hc. specialize (Hc t1 (proj1 (list_elem_of_In _ _) H1)).
  rewrite forallb_forall in Hc. specialize (Hc t2 (proj1 (list_elem_of_In _ _) H2)).
  apply orb_true_iff in Hc as [Hc|Hc]; by apply bool_decide_eq_true in Hc.
Qed.

(** Another order. *)
Definition reverse_order : HashOrder := {|
  hash_iter := fun K V _ _ m => reverse (map_to_list m);
  hash_iter_perm := fun K V _ _ m => reverse_Permutation (map_to_list m)
|}.

Lemma codegen_deterministic_witness :
  @generate_rust_types reverse_order sample_ir 30 = @generate_rust_types list_order sample_ir 30.
Proof. apply codegen_deterministic. apply names_agree_checked. vm_compute. reflexivity. Defined.

(** ** Programs that are printed *)

(** The variables a step assigns or sends must be in the frame. *)
Definition assigned (step : Step) : list string :=
  match step with
  | Step_Let x _ _ => [x]
  | Step_RustBlock binds _ _ => binds
  | Step_SetValues values _ =>
      map (fun v => match v with SetPrimitive_QueueMessage _ x | SetPrimitive_Future _ x => x end) values
  | _ => []
  end.

Definition frame_names (f : Func) : list string := (in_vars f ++ locals f).*1.

Lemma find_var_some (l : list (string * Type_)) x :
  is_Some (find_map (fun '(n, t) => if decide (n = x) then Some t else None) l) <-> x ∈ l.*1.
Proof.
  unfold find_map. induction l as [|[n t] l IH]; cbn; [split; [by intros [? ?]|by intros ?%elem_of_nil]|].
  case_decide as E; cbn.
  - subst. split; [left|by eexists].
  - rewrite IH, elem_of_cons. split; [by right|]. intros [->|?]; done.
Qed.

Lemma var_type_of_some f x : is_Some (var_type_of f x) <-> x ∈ frame_names f.
Proof.
  unfold var_type_of, frame_names. rewrite fmap_app, elem_of_app, <-!find_var_some.
  destruct (find_map _ (in_vars f)); naive_solver.
Qed.

Lemma for_each_total {A S} (l : list A) (body : S -> A -> result S) s :
  (forall x s, x ∈ l -> is_ok (body s x)) -> is_ok (for_each l body s).
Proof.
  revert s. induction l as [|x l IH]; intros s Hb; cbn; [by exists s|].
  destruct (Hb x s ltac:(left)) as [s' ->]. cbn. apply IH. intros y s1 Hy. apply Hb. by right.
Qed.

(** The number of values pushed by a loop of [push_part]. *)
Lemma push_parts_length {A} (part : A -> result string) l acc parts :
  for_each l (push_part part) acc = Ok parts -> length parts = (length acc + length l)%nat.
Proof.
  revert acc. induction l as [|x l IH]; intros acc H; cbn in H; [injection H as <-; cbn; lia|].
  inv_ok. unfold push_part in Ha. inv_ok. apply IH in H. rewrite H, length_app. cbn. lia.
Qed.

Section total.
Context (ir : IR) (fiber_name : string) (fiber : Fiber) (func_name : string) (f : Func).

Lemma frame_var x : x ∈ frame_names f -> exists t, var_type_of f x = Some t.
Proof. apply var_type_of_some. Qed.

Lemma bind_types_total binds acc :
  (forall x, x ∈ binds -> x ∈ frame_names f) ->
  exists tys, for_each binds (fun tys b => ty ← expect "bind var type" (var_type_of f b); Ok (tys ++ [ty])) acc = Ok (acc ++ tys) /\
    length tys = length binds.
Proof.
  revert acc. induction binds as [|x binds IH]; intros acc Hx; cbn; [exists []; by rewrite app_nil_r|].
  destruct (frame_var x) as [t Ht]; [apply Hx; left|]. rewrite Ht. cbn.
  destruct (IH (acc ++ [t])) as (tys & E & Hl); [intros y Hy; apply Hx; by right|].
  exists (t :: tys). rewrite E, <-app_assoc. cbn. by rewrite Hl.
Qed.

Lemma render_step_total entry step :
  (forall x, x ∈ assigned step -> x ∈ frame_names f) -> is_ok (render_step ir fiber_name func_name f entry step).
Proof.
  intros Hx. destruct step as [| | | |x e next|binds code next| |values next| | | |]; cbn [render_step]; try by eexists.
  - unfold render_let. destruct (frame_var x) as [t ->]; [apply Hx; cbn; left|]. by eexists.
  - unfold render_rust_block. destruct (bind_types_total binds []) as (tys & E & Hl); [done|]. rewrite E. cbn [app mbind result_bind].
    assert (Hgen : is_ok (assigns ← for_each (imap (fun i b => (i, b)) binds) (push_part (fun '(i, b) => block_assign f tys i b)) [];
      Ok (cat [block_header code; line ["      };"];
               line ["        let ("; str_join ", " (imap (fun i _ => tuple_name i) tys); ") = out;"];
               line ["        StepResult::Next(vec!["]; line ["          StackEntry::FrameAssign(vec!["];
               cat assigns; line ["          ]),"];
               cat [line ["          StackEntry::State(State::"; state_of fiber_name func_name next; "),"]; line ["        ]) }"]]]))).
    { destruct (for_each_total (imap (fun i b => (i, b)) binds) (push_part (fun '(i, b) => block_assign f tys i b)) [])
        as [assigns ->]; [|by eexists].
      intros [i b] acc Hel. apply list_elem_of_lookup in Hel as [k Hk]. rewrite list_lookup_imap in Hk.
      apply fmap_Some in Hk as (b' & Hk & [= -> ->]). unfold push_part, block_assign.
      destruct (lookup_lt_is_Some_2 tys k) as [t ->]; [rewrite Hl; by eapply lookup_lt_Some|]. by eexists. }
    destruct binds as [|b [|b' binds]], tys as [|t [|t' tys]]; try exact Hgen.
    destruct (direct_return f b next); by eexists.
  - unfold render_set_values.
    destruct (for_each_total values (push_part (set_part f entry)) []) as [parts ->]; [|by eexists].
    intros v acc Hv. unfold push_part.
    destruct v as [q x|g x]; cbn; (destruct (frame_var x) as [t ->];
      [apply Hx; cbn; apply list_elem_of_fmap; eexists; split; [|exact Hv]; done|]); by eexists.
Qed.

Lemma func_arms_total :
  (forall s x, s ∈ steps f -> x ∈ assigned (snd s) -> x ∈ frame_names f) ->
  is_ok (func_arms ir fiber_name fiber func_name f).
Proof.
  intros Hx. unfold func_arms, entry_arm.
  assert (Hentry : is_ok (match find_step f "entry" with
         | Some step =>
             code ← render_step ir fiber_name func_name f true step;
             Ok (cat (map (entry_bind fiber_name fiber f) (referenced fiber f step)) +:+ code)
         | None => Ok (line ["      StepResult::GoTo(State::"; state_of fiber_name func_name "entry"; ")"])
         end)).
  { destruct (find_step f "entry") as [step|] eqn:E; [|by eexists]. unfold find_step in E.
    apply fmap_Some in E as (s & E & ->). apply find_some in E as [Hs _]. apply list_elem_of_In in Hs.
    destruct (render_step_total true (snd s)) as [code ->]; [intros x; by apply Hx|]. by eexists. }
  destruct Hentry as [body ->]. cbn [mbind result_bind].
  destruct (for_each_total (sort_by fst (steps f)) (render_next ir fiber_name fiber func_name f)
    ([state_of fiber_name func_name "entry"],
     [cat [cat [line ["    State::"; state_of fiber_name func_name "entry"; " => {"]; entry_params f]; body; line ["    }"]]]))
    as [[seen arms] E].
  - intros [id step] [seen arms] Hel. unfold render_next. rewrite sort_by_elem in Hel.
    destruct (suppress_this f (id, step)); [by eexists|]. case_decide; [by eexists|]. unfold step_arm.
    destruct (render_step_total false step) as [code ->]; [intros x; by apply (Hx (id, step))|]. by eexists.
  - cbn in E |- *. rewrite E. by eexists.
Qed.
End total.

(** *** Fuel *)

(** The named types a type mentions, and the condition that no named type reaches itself. *)
Fixpoint customs (t : Type_) : list string :=
  match t with
  | Type_Custom name => [name]
  | Type_Future t | Type_Option t | Type_Array t | Type_MaxQueue t | Type_MinQueue t => customs t
  | Type_Map k v => customs k ++ customs v
  | _ => []
  end.

Definition not_recursive (ir : IR) : Prop :=
  exists rank : string -> nat, forall name fields, find_map (struct_named name) (types ir) = Some fields ->
    forall f, f ∈ fields -> forall c, c ∈ customs (snd f) -> (rank c < rank name)%nat.

Section fuel.
Context (ir : IR).

Definition enough (n : nat) (ty : Type_) : Prop :=
  forall fuel acc, (n <= fuel)%nat -> is_ok (collect_future_wrappers ir fuel ty acc).

Lemma enough_list {A} (l : list A) (g : A -> Type_) :
  (forall x, x ∈ l -> exists n, enough n (g x)) -> exists n, forall x, x ∈ l -> enough n (g x).
Proof.
  induction l as [|x l IH]; intros Hl; [exists O; by intros x ?%elem_of_nil|].
  destruct IH as [n Hn]; [intros y Hy; apply Hl; by right|]. destruct (Hl x) as [m Hm]; [left|].
  exists (n + m)%nat. intros y [->|Hy]%elem_of_cons fuel acc Hf; [apply Hm; lia|by apply Hn; [|lia]].
Qed.

Lemma fuel_enough rank :
  (forall name fields, find_map (struct_named name) (types ir) = Some fields ->
    forall f, f ∈ fields -> forall c, c ∈ customs (snd f) -> (rank c < rank name)%nat) ->
  forall r ty, (forall c, c ∈ customs ty -> (rank c < r)%nat) -> exists n, enough n ty.
Proof.
  intros Hrank r. induction r as [r IHr] using lt_wf_ind. intros ty.
  induction ty as [| | | |k IHk v IHv|t IH|name fs i|t IH|t IH|t IH|t IH|name|name fs i]; intros Hc;
    try (exists 1%nat; intros [|fuel] acc Hf; [lia|by eexists]);
    try (destruct IH as [n Hn]; [done|]; exists (S n); intros [|fuel] acc Hf; [lia|]; cbn [collect_future_wrappers]; apply Hn; lia).
  - destruct IHk as [n Hn]; [intros c Hck; apply Hc; cbn; apply elem_of_app; by left|].
    destruct IHv as [m Hm]; [intros c Hcv; apply Hc; cbn; apply elem_of_app; by right|].
    exists (S (n + m)). intros [|fuel] acc Hf; [lia|]. cbn [collect_future_wrappers].
    destruct (Hn fuel acc) as [acc1 ->]; [lia|]. apply Hm. lia.
  - destruct (find_map (struct_named name) (types ir)) as [fields|] eqn:E.
    + assert (Hr : (rank name < r)%nat) by (apply Hc; cbn; left).
      destruct (enough_list fields snd) as [n Hn].
      { intros g Hg. apply (IHr (rank name) Hr). intros c Hcg. by apply (Hrank name fields E g). }
      exists (S n). intros [|fuel] acc Hf; [lia|]. cbn [collect_future_wrappers]. rewrite E.
      apply for_each_total. intros g s Hg. apply (Hn g Hg). lia.
    + exists 1%nat. intros [|fuel] acc Hf; [lia|]. cbn [collect_future_wrappers]. rewrite E. by eexists.
Qed.

Lemma for_each_mono {A S} (l : list A) (body body' : S -> A -> result S) s s' :
  (forall x s s', body s x = Ok s' -> body' s x = Ok s') -> for_each l body s = Ok s' -> for_each l body' s = Ok s'.
Proof.
  intros Hb. revert s. induction l as [|x l IH]; intros s H; [done|]. cbn in *. inv_ok. rewrite (Hb _ _ _ Ha). by apply IH.
Qed.

Lemma collect_mono fuel : forall ty acc acc',
  collect_future_wrappers ir fuel ty acc = Ok acc' -> collect_future_wrappers ir (S fuel) ty acc = Ok acc'.
Proof.
  induction fuel as [|fuel IH]; intros ty acc acc' H; [done|].
  destruct ty as [| | | |k v|t|name fs i|t|t|t|t|name|name fs i]; try exact H; try (by apply IH in H).
  - cbn [collect_future_wrappers] in H. inv_ok. apply IH in Ha, H.
    change ((acc1 ← collect_future_wrappers ir (S fuel) k acc; collect_future_wrappers ir (S fuel) v acc1) = Ok acc').
    rewrite Ha. exact H.
  - cbn [collect_future_wrappers] in H. change (match find_map (struct_named name) (types ir) with
          | Some fields => for_each fields (fun acc f => collect_future_wrappers ir (S fuel) (snd f) acc) acc
          | None => Ok acc
          end = Ok acc').
    destruct (find_map (struct_named name) (types ir)) as [fields|]; [|done].
    eapply for_each_mono; [|exact H]. intros g s s'. apply IH.
Qed.

Lemma collect_mono_le n fuel ty acc acc' :
  (n <= fuel)%nat -> collect_future_wrappers ir n ty acc = Ok acc' -> collect_future_wrappers ir fuel ty acc = Ok acc'.
Proof. induction 1 as [|m _ IH]; [done|]. intros Hok. by apply collect_mono, IH. Qed.

Lemma future_wrappers_total `{HashOrder} :
  not_recursive ir -> exists n wrappers, forall fuel, (n <= fuel)%nat -> future_wrappers ir fuel = Ok wrappers.
Proof.
  intros [rank Hrank].
  assert (Hall : forall ty, exists n, enough n ty).
  { intros ty. apply (fuel_enough rank Hrank (S (max_list (map rank (customs ty))))). intros c Hc.
    apply Nat.lt_succ_r, max_list_elem_of_le. apply list_elem_of_fmap. by exists c. }
  destruct (enough_list (concat (map (fun '(_, fiber) => fiber_types fiber) (hash_iter (fibers ir)))) id) as [n Hn].
  { intros ty _. apply Hall. }
  set (top := concat (map (fun t => match t with
    | Type_Struct _ fields _ | Type_PubQueueMessage _ fields _ => fields.*2 | other => [other] end) (types ir))).
  destruct (enough_list top id) as [m Hm]; [intros ty _; apply Hall|].
  assert (Htop : forall fuel acc t, (m <= fuel)%nat -> t ∈ types ir -> is_ok (collect_top_level ir fuel acc t)).
  { intros fuel acc t Hf Ht.
    assert (Hin : forall u, u ∈ match t with Type_Struct _ fields _ | Type_PubQueueMessage _ fields _ => fields.*2
      | other => [other] end -> enough m u).
    { intros u Hu. apply (Hm u). apply elem_of_concat_map. by exists t. }
    destruct t; cbn [collect_top_level]; try (apply Hin; [left|done]);
      (apply for_each_total; intros g s Hg; apply Hin; [apply list_elem_of_fmap; by exists g|done]). }
  destruct (for_each_total (types ir) (collect_top_level ir (n + m)) []) as [acc Eacc].
  { intros t s Ht. by apply Htop; [lia|]. }
  destruct (for_each_total (concat (map (fun '(_, fiber) => fiber_types fiber) (hash_iter (fibers ir))))
    (fun acc ty => collect_future_wrappers ir (n + m) ty acc) acc) as [wrappers E].
  { intros ty s Hty. apply (Hn ty Hty). lia. }
  exists (n + m)%nat, wrappers. intros fuel Hf. unfold future_wrappers.
  rewrite (for_each_mono (types ir) (collect_top_level ir (n + m)) (collect_top_level ir fuel) [] acc); [cbn| |done].
  - eapply for_each_mono; [|exact E]. intros ty s s'. by apply collect_mono_le.
  - intros t s s'. destruct t; cbn [collect_top_level]; try (by apply collect_mono_le);
      (apply for_each_mono; intros g s1 s2; by apply collect_mono_le).
Qed.
End fuel.

(** *** Valid programs *)

(** No step assigns or sends a variable of its fiber that the frame does not hide. *)
Definition assigns_frame (ir : IR) : Prop :=
  forall name fiber fname f, fibers ir !! name = Some fiber -> funcs fiber !! fname = Some f ->
    forall s x, s ∈ steps f -> x ∈ assigned (snd s) -> x ∈ (init_vars fiber).*1 -> x ∈ frame_names f.

Lemma assigned_defined ir vars func_out step x : step_ok ir vars func_out step -> x ∈ assigned step -> defined vars x.
Proof.
  intros Hok Hx. inversion Hok as [| | | |y e next lt Hy| binds code next Hb| |values next Hv| | | |]; subst; cbn in Hx;
    try (by apply elem_of_nil in Hx).
  - apply list_elem_of_singleton in Hx as ->. by eexists.
  - by eapply Forall_forall in Hb.
  - apply list_elem_of_fmap in Hx as (v & -> & Hel). eapply Forall_forall in Hv; [|exact Hel]. destruct Hv; [done|by eexists].
Qed.

Lemma scope_defined fiber f x : defined (scope fiber f) x -> x ∈ frame_names f \/ x ∈ (init_vars fiber).*1.
Proof.
  intros [t Ht]. unfold scope in Ht. apply elem_of_list_to_map_2 in Ht. rewrite app_assoc in Ht.
  apply elem_of_app in Ht as [Ht|Ht]; [left|right]; apply list_elem_of_fmap; by exists (x, t).
Qed.

Lemma valid_assigns ir name fiber fname f s x :
  well_formed ir -> assigns_frame ir -> fibers ir !! name = Some fiber -> funcs fiber !! fname = Some f ->
  s ∈ steps f -> x ∈ assigned (snd s) -> x ∈ frame_names f.
Proof.
  intros Hwf Ha Hfib Hf Hs Hx. destruct (fb_funcs _ _ (wf_fibers _ Hwf _ _ Hfib) _ _ Hf) as [_ Hsteps _ _].
  eapply Forall_forall in Hsteps; [|exact Hs]. eapply assigned_defined in Hsteps; [|exact Hx].
  apply scope_defined in Hsteps as [?|?]; [done|by eapply Ha].
Qed.

Lemma all_funcs_elem `{HashOrder} ir name fiber fname f :
  (name, fiber, fname, f) ∈ all_funcs ir -> fibers ir !! name = Some fiber /\ funcs fiber !! fname = Some f.
Proof.
  intros ([n fb] & Hfib & Hel)%elem_of_concat_map. unfold fibers_sorted in Hfib. rewrite sort_by_elem, hash_iter_elem in Hfib.
  apply list_elem_of_fmap in Hel as ([fn g] & [= -> -> -> ->] & Hg). unfold funcs_sorted in Hg.
  by rewrite sort_by_elem, hash_iter_elem in Hg.
Qed.

(** C38: the generator prints every valid program whose named types are not recursive and
    whose steps assign and send only parameters and locals: it neither panics nor recurses
    without end, and the text does not depend on the depth it is allowed. *)
Theorem codegen_total `{HashOrder} ir :
  well_formed ir -> not_recursive ir -> assigns_frame ir ->
  exists text n, forall fuel, (n <= fuel)%nat -> generate_rust_types ir fuel = Ok text.
Proof.
  intros Hwf Hrec Ha. destruct (future_wrappers_total ir Hrec) as (n & wrappers & Hw).
  destruct (for_each_total (all_funcs ir) (push_func ir) []) as [arms Harms].
  { intros [[[name fiber] fname] f] acc Hel. apply all_funcs_elem in Hel as [Hfib Hf]. unfold push_func.
    destruct (func_arms_total ir name fiber fname f) as [as_ ->]; [|by eexists].
    intros s x Hs Hx. by eapply valid_assigns. }
  unfold generate_rust_types, generate_global_step. rewrite Harms. cbn [mbind result_bind].
  eexists _, n. intros fuel Hf. rewrite Hw by done. reflexivity.
Qed.

Definition sample_rank (_ : string) : nat := 0.

Lemma sample_not_recursive : not_recursive sample_ir.
Proof.
  exists sample_rank. intros name fields Hf g Hg c Hc. exfalso.
  apply find_map_some in Hf as (l1 & t & l2 & El & Ht & _).
  assert (Hall : forallb (fun t => match t with
    | Type_Struct _ fs _ | Type_PubQueueMessage _ fs _ => forallb (fun f => bool_decide (customs (snd f) = [])) fs
    | _ => true end) (types sample_ir) = true) by (vm_compute; reflexivity).
  rewrite El, forallb_app in Hall. apply andb_true_iff in Hall as [_ Hall]. cbn in Hall. apply andb_true_iff in Hall as [Hall _].
  assert (Hfs : forallb (fun f : string * Type_ => bool_decide (customs (snd f) = [])) fields = true)
    by (destruct t; cbn in Ht; try done; case_decide; try done; by injection Ht as <-).
  rewrite forallb_forall in Hfs. specialize (Hfs g (proj1 (list_elem_of_In _ _) Hg)). apply bool_decide_eq_true in Hfs.
  rewrite Hfs in Hc. by apply elem_of_nil in Hc.
Qed.

Lemma sample_assigns_frame : assigns_frame sample_ir.
Proof.
  assert (Hall : map_Forall (fun _ fiber => map_Forall (fun _ f => Forall (fun s => Forall (fun x =>
    x ∈ (init_vars fiber).*1 -> x ∈ frame_names f) (assigned (snd s))) (steps f)) (funcs fiber)) (fibers sample_ir))
    by (apply (bool_decide_unpack _); vm_compute; reflexivity).
  intros name fiber fname f Hfib Hf s x Hs Hx. specialize (Hall _ _ Hfib _ _ Hf).
  eapply Forall_forall in Hall; [|exact Hs]. by eapply Forall_forall in Hall.
Qed.

Lemma sample_well_formed : well_formed sample_ir.
Proof. apply (@messages_nil sample_ir list_order). vm_compute. reflexivity. Qed.

Lemma codegen_total_witness :
  exists text n, forall fuel, (n <= fuel)%nat -> @generate_rust_types list_order sample_ir fuel = Ok text.
Proof. exact (@codegen_total list_order sample_ir sample_well_formed sample_not_recursive sample_assigns_frame). Defined.

(** ** Programs the validator accepts and the generator does not print *)
Definition one_function (vars : list InVar) (f : Func) : IR :=
  mkIR [] {["root" := mkFiber ∅ vars {["main" := f]}]}.

(** A step assigns a variable of the fiber. *)
Definition assigns_outer : IR :=
  one_function [("x", Type_UInt64)]
    (mkFunc [] Type_Void [] [("entry", Step_Let "x" (Expr_UInt64 1) "return"); ("return", Step_ReturnVoid)]).

(** A list: a structure with a field of its own type. *)
Definition recursive_type : IR :=
  mkIR [Type_Struct "Node" [("next", Type_Option (Type_Custom "Node"))] ""]
    (fibers (one_function [] (mkFunc [] Type_Void [] [("entry", Step_ReturnVoid)]))).

Lemma node_diverges fuel : forall acc,
  collect_future_wrappers recursive_type fuel (Type_Custom "Node") acc = OutOfFuel /\
  collect_future_wrappers recursive_type fuel (Type_Option (Type_Custom "Node")) acc = OutOfFuel.
Proof.
  induction fuel as [|fuel IH]; intros acc; [done|]. split.
  - change (collect_future_wrappers recursive_type (S fuel) (Type_Custom "Node") acc) with
      (for_each [("next", Type_Option (Type_Custom "Node"))]
        (fun acc f => collect_future_wrappers recursive_type fuel (snd f) acc) acc).
    cbn [for_each snd]. by rewrite (proj2 (IH acc)).
  - cbn [collect_future_wrappers]. apply IH.
Qed.

(** C40: validation does not protect the generator: a valid program that assigns a variable
    of its fiber makes it panic, and a valid program with a recursive structure makes it
    recurse without end. *)
Theorem generator_fails_on_valid `{HashOrder} :
  (well_formed assigns_outer /\
   forall fuel, (0 < fuel)%nat -> generate_rust_types assigns_outer fuel = Panic "unknown local var in Let") /\
  (well_formed recursive_type /\ forall fuel, generate_rust_types recursive_type fuel = OutOfFuel).
Proof.
  split; (split; [apply (@messages_nil _ list_order); vm_compute; reflexivity|]).
  - intros [|fuel] Hf; [lia|]. unfold generate_rust_types, generate_global_step.
    rewrite (future_wrappers_order _ list_order), (all_funcs_order _ list_order). vm_compute. reflexivity.
  - intros fuel. unfold generate_rust_types, future_wrappers. cbn [types recursive_type for_each collect_top_level snd].
    by rewrite (proj2 (node_diverges fuel [])).
Qed.

(** ** States and arms *)

(** An arm of a state: the text that starts with its name. *)
Definition arm_of (v text : string) : Prop := exists body, text = line ["    State::"; v; " => {"] +:+ body.

Lemma btree_insert_elem x y l : y ∈ btree_insert x l <-> y = x \/ y ∈ l.
Proof.
  induction l as [|z l IH]; cbn; [rewrite list_elem_of_singleton, elem_of_nil; tauto|].
  case_decide; [subst; rewrite elem_of_cons; tauto|]. destruct (str_ltb x z); rewrite !elem_of_cons, ?IH, ?elem_of_cons; tauto.
Qed.

Lemma dedup_elem x l : x ∈ dedup l <-> x ∈ l.
Proof.
  induction l as [|y [|z l] IH]; [done|done|]. cbn [dedup]. case_decide; [subst; rewrite IH; set_solver|].
  rewrite elem_of_cons, IH. set_solver.
Qed.

Lemma arm_text v (rest : list string) text : cat (line ["    State::"; v; " => {"] :: rest) = text -> arm_of v text.
Proof.
  intros <-. destruct rest as [|r rest]; unfold cat; cbn [String.concat].
  - exists "". by rewrite string_app_nil.
  - by eexists.
Qed.

Lemma filter_elem {A} (p : A -> bool) l x : x ∈ List.filter p l <-> x ∈ l /\ p x = true.
Proof. by rewrite !list_elem_of_In, filter_In. Qed.

Lemma state_ids_elem f id :
  id ∈ state_ids f <-> id = "entry" \/ exists s, s ∈ steps f /\ suppress_this f s = false /\ id = fst s.
Proof.
  unfold state_ids. rewrite dedup_elem, sort_by_elem, elem_of_cons, list_elem_of_fmap. setoid_rewrite filter_elem.
  setoid_rewrite negb_true_iff. naive_solver.
Qed.

Section arms.
Context (ir : IR) (fiber_name : string) (fiber : Fiber) (func_name : string) (f : Func).
Let state_of := state_of fiber_name func_name.

(** The arms printed for a prefix of the steps, with their states. *)
Definition arms_for (done : list (StepId * Step)) (seen arms : list string) : Prop :=
  exists names, Forall2 arm_of names arms /\ NoDup names /\ (forall v, v ∈ seen <-> v ∈ names) /\
    forall v, v ∈ names <-> v = state_of "entry" \/ exists s, s ∈ done /\ suppress_this f s = false /\ v = state_of (fst s).

Lemma next_arm done s seen arms seen' arms' :
  arms_for done seen arms -> render_next ir fiber_name fiber func_name f (seen, arms) s = Ok (seen', arms') ->
  arms_for (done ++ [s]) seen' arms'.
Proof.
  intros (names & Hf & Hnd & Hseen & Hnames) H. unfold render_next in H.
  assert (Hsame : suppress_this f s = true \/ state_of (fst s) ∈ names -> seen' = seen -> arms' = arms -> arms_for (done ++ [s]) seen' arms').
  { intros Hs -> ->. exists names. split_and!; [done|done|done|]. intros v. rewrite Hnames. setoid_rewrite elem_of_app.
    setoid_rewrite list_elem_of_singleton. split; [naive_solver|]. intros [->|(s' & [Hd| ->] & Hs' & ->)]; [by left|right; by exists s'|].
    destruct Hs as [Hs|Hs]; [congruence|]. by apply Hnames in Hs. }
  destruct (suppress_this f s) eqn:Es; [injection H as <- <-; apply Hsame; [by left|done|done]|].
  case_decide as Hin; [injection H as <- <-; apply Hsame; [right; by apply Hseen|done|done]|].
  inv_ok. exists (names ++ [state_of (fst s)]). split_and!.
  - apply Forall2_app; [done|]. constructor; [|constructor]. unfold step_arm in Ha. destruct s as [id step]. inv_ok.
    by eapply (arm_text (state_of id)).
  - apply NoDup_app. split_and!; [done| |apply NoDup_singleton]. intros v Hv ->%list_elem_of_singleton. by apply Hin, Hseen.
  - intros v. rewrite btree_insert_elem, elem_of_app, list_elem_of_singleton, Hseen. tauto.
  - intros v. rewrite elem_of_app, list_elem_of_singleton, Hnames. setoid_rewrite elem_of_app.
    setoid_rewrite list_elem_of_singleton. naive_solver.
Qed.

Lemma func_arms_spec arms : func_arms ir fiber_name fiber func_name f = Ok arms ->
  exists names, Forall2 arm_of names arms /\ NoDup names /\
    forall v, v ∈ names <-> v ∈ map (fun id => state_of id) (state_ids f).
Proof.
  unfold func_arms. intros H. inv_ok. destruct a0 as [seen arms']. injection H as ->.
  assert (Hspec : arms_for (sort_by fst (steps f)) seen arms).
  { eapply (for_each_inv_ok (fun done s => arms_for done s.1 s.2) _ _ _ (seen, arms)); [exact Ha0| |].
    - exists [state_of "entry"]. cbn. split_and!.
      + constructor; [|constructor]. unfold entry_arm in Ha. inv_ok. unfold arm_of, cat. cbn [String.concat].
        eexists. rewrite <-!string_app_assoc. reflexivity.
      + apply NoDup_singleton.
      + done.
      + intros v. rewrite list_elem_of_singleton. split; [by left|]. intros [?|(s & Hs & _)]; [done|by apply elem_of_nil in Hs].
    - intros done s [seen1 arms1] [seen2 arms2] _ Hn Hd. by eapply next_arm. }
  destruct Hspec as (names & Hf & Hnd & _ & Hnames). exists names. split_and!; [done|done|]. intros v. rewrite Hnames.
  rewrite list_elem_of_fmap. setoid_rewrite state_ids_elem. setoid_rewrite sort_by_elem. split.
  - intros [->|(s & Hs & Hn & ->)]; [by exists "entry"; split; [|left]|]. exists (fst s). split; [done|]. right. by exists s.
  - intros (x & -> & [->|(s & Hs & Hn & ->)]); [by left|]. right. by exists s.
Qed.
End arms.
