(* ===== verification/CodegenFrames.v ===== *)
(** * Code generation and the runtime

    Where the generated code and the runtime must agree: every declared state has one arm
    in the step function and one in [func_args_count]; the slots and offsets that are
    printed are where [Fiber] finds the variable, but for assignments to parameters; and what is printed for the sample
    program has the states, frame sizes and initial stacks of [Assembler]. *)
From S2P Require Import Prelude Values Assembler Fiber Ir IrRules SampleIr Codegen CodegenStep CodegenSpec.
Local Open Scope string_scope.
Local Open Scope list_scope.

(** ** States and arms *)

(** An arm of [func_args_count]. *)
Definition count_arm (f : Func) (v : string) : string := line ["    State::"; v; " => "; pretty.pretty (frame_size f); ","].

Lemma args_count_arms_elem fiber_name func_name f text :
  text ∈ args_count_arms fiber_name (func_name, f) <->
  exists id, id ∈ state_ids f /\ text = count_arm f (variant_name [fiber_name; func_name; id]).
Proof.
  cbn [args_count_arms]. rewrite elem_of_cons, list_elem_of_fmap. setoid_rewrite filter_elem.
  setoid_rewrite andb_true_iff. setoid_rewrite negb_true_iff. setoid_rewrite sort_by_elem. setoid_rewrite state_ids_elem. split.
  - intros [->|(s & -> & Hs & _ & Hn)]; [exists "entry"; by split; [left|]|]. exists (fst s). split; [right; by exists s|done].
  - intros (id & [->|(s & Hs & Hn & ->)] & ->); [by left|]. destruct (decide (fst s = "entry")) as [->|He]; [by left|].
    right. exists s. by rewrite (bool_decide_eq_false_2 _ He).
Qed.

(** The arms printed for a function are those of its declared states: they are in
    bijection with a list of names without duplicates that has exactly the declared variants
    of the function, and [func_args_count] has an arm for exactly these. *)
Lemma states_have_arms ir fiber_name fiber func_name f arms :
  func_arms ir fiber_name fiber func_name f = Ok arms ->
  exists names, Forall2 arm_of names arms /\ NoDup names /\
    (forall v, v ∈ names <-> v ∈ map (fun id => variant_name [fiber_name; func_name; id]) (state_ids f)) /\
    (forall text, text ∈ args_count_arms fiber_name (func_name, f) <-> exists v, v ∈ names /\ text = count_arm f v).
Proof.
  intros (names & Hf & Hnd & Hn)%func_arms_spec. exists names. split_and!; [done|done|exact Hn|].
  intros text. rewrite args_count_arms_elem. setoid_rewrite Hn. setoid_rewrite list_elem_of_fmap.
  split; [intros (id & Hid & ->)|intros (v & (id & -> & Hid) & ->)]; [|by exists id].
  by exists (variant_name [fiber_name; func_name; id]); split; [exists id|].
Qed.

Lemma states_have_arms_witness : exists arms,
  func_arms sample_ir "testFunctionsCall" testFunctionsCall_fiber "binary_search" testFunctionsCall_binary_search = Ok arms /\
  exists names, Forall2 arm_of names arms /\ NoDup names /\
    (forall v, v ∈ names <-> v ∈ map (fun id => variant_name ["testFunctionsCall"; "binary_search"; id])
                              (state_ids testFunctionsCall_binary_search)) /\
    (forall text, text ∈ args_count_arms "testFunctionsCall" ("binary_search", testFunctionsCall_binary_search) <->
       exists v, v ∈ names /\ text = count_arm testFunctionsCall_binary_search v).
Proof.
  destruct (func_arms sample_ir "testFunctionsCall" testFunctionsCall_fiber "binary_search" testFunctionsCall_binary_search)
    as [arms|msg|] eqn:E; [|exfalso; vm_compute in E; discriminate E..].
  exists arms. split; [done|]. exact (states_have_arms _ _ _ _ _ _ E).
Defined.

(** ** Slots of a frame *)

(** The entries of a frame: its variables with their values. *)
Definition frame_entries (vals : list (string * Value)) : list StackEntry := map (fun '(n, v) => StackEntry_Value n v) vals.

Lemma position_spec x (l : list (string * Type_)) i :
  position x l = Some i <-> l.*1 !! i = Some x /\ forall j y, (j < i)%nat -> l.*1 !! j = Some y -> y <> x.
Proof.
  unfold position. split.
  - intros ([j [y t]] & Hj & ->)%fmap_Some. cbn [fst]. apply list_find_Some in Hj as (Hl & E & Hf). cbn in *. subst.
    split; [by rewrite list_lookup_fmap, Hl|]. intros j' y Hlt Hy. rewrite list_lookup_fmap in Hy.
    apply fmap_Some in Hy as ([y' t'] & Hy & ->). by eapply Hf.
  - intros [Hl Hf]. rewrite list_lookup_fmap in Hl. apply fmap_Some in Hl as ([y t] & Hl & ->).
    apply fmap_Some. exists (i, (y, t)). split; [|done]. apply list_find_Some. split_and!; [done|done|].
    intros j [z u] Hz Hlt E. cbn in *. eapply Hf; [done| |exact E]. by rewrite list_lookup_fmap, Hz.
Qed.

Lemma position_none x (l : list (string * Type_)) : position x l = None <-> x ∉ l.*1.
Proof.
  unfold position. rewrite fmap_None, list_find_None, Forall_forall, list_elem_of_fmap. split.
  - intros Hf ([y t] & -> & Hy). by apply (Hf _ Hy).
  - intros Hn [y t] Hy E. apply Hn. cbn in E. subst. by exists (x, t).
Qed.

(** The slot is the first occurrence of the name in the frame. *)
Lemma frame_slot_position f x : frame_slot f x = position x (in_vars f ++ locals f).
Proof.
  unfold frame_slot. destruct (position x (in_vars f)) as [i|] eqn:Ei.
  - symmetry. apply position_spec in Ei as [Hl Hf]. apply position_spec. rewrite fmap_app.
    assert (Hi : (i < length (in_vars f).*1)%nat) by (by eapply lookup_lt_Some). split; [by rewrite lookup_app_l|].
    intros j y Hj. rewrite lookup_app_l by lia. by apply Hf.
  - destruct (position x (locals f)) as [i|] eqn:El; cbn [fmap option_fmap option_map].
    + symmetry. apply position_none in Ei. apply position_spec in El as [Hl Hf]. apply position_spec. rewrite fmap_app.
      rewrite lookup_app_r by (rewrite length_fmap; lia). rewrite length_fmap.
      replace (length (in_vars f) + i - length (in_vars f))%nat with i by lia. split; [done|]. intros j y Hj Hy ->.
      apply lookup_app_Some in Hy as [Hy|[Hle Hy]]; [by apply Ei, list_elem_of_lookup; exists j|].
      rewrite length_fmap in Hle, Hy. eapply Hf; [|exact Hy|done]. lia.
    + symmetry. rewrite position_none in *. rewrite fmap_app, elem_of_app. tauto.
Qed.

Lemma frame_slot_some f x : x ∈ frame_names f -> exists i, frame_slot f x = Some i /\ frame_names f !! i = Some x.
Proof.
  intros Hx. rewrite frame_slot_position. destruct (position x (in_vars f ++ locals f)) as [i|] eqn:E.
  - exists i. split; [done|]. by apply position_spec in E as [Hl _].
  - by apply position_none in E.
Qed.

Section frames.
Context `{Profile}.

Lemma overwrite_entry below vals above i x v0 v d :
  vals !! i = Some (x, v0) ->
  overwrite (length below + i) d v (below ++ frame_entries vals ++ above) =
    Ok (below ++ frame_entries (<[i:=(x, v)]> vals) ++ above).
Proof.
  intros Hi. unfold overwrite. assert (Hf : frame_entries vals !! i = Some (StackEntry_Value x v0))
    by (unfold frame_entries; by rewrite list_lookup_fmap, Hi).
  assert (Hlt := lookup_lt_Some _ _ _ Hf). rewrite lookup_app_r by lia.
  replace (length below + i - length below)%nat with i by lia. rewrite lookup_app_l by done. rewrite Hf.
  cbn [expect mbind result_bind]. f_equal. rewrite insert_app_r, insert_app_l by done. unfold frame_entries.
  by rewrite list_fmap_insert.
Qed.

Lemma assign_entry below vals i x v0 v :
  vals !! i = Some (x, v0) ->
  apply_entry (length below) (below ++ frame_entries vals) (StackEntry_FrameAssign [(i, v)]) =
    Ok (below ++ frame_entries (<[i:=(x, v)]> vals)).
Proof.
  intros Hi. cbn [apply_entry for_each]. rewrite <-(app_nil_r (frame_entries vals)).
  rewrite (overwrite_entry _ _ [] _ _ _ _ _ Hi). cbn [mbind result_bind]. by rewrite app_nil_r.
Qed.
End frames.

(** ** What is printed *)
Section printed.
Context (ir : IR) (fiber_name : string) (fiber : Ir.Fiber) (func_name : string) (f : Func).

(** The text of an assignment of [code] to a slot; of a block of Rust code whose value goes to
    a slot; and of a call whose result is bound [offset] entries below the top. *)
Definition let_text (slot : nat) (ty : Type_) (code : string) (next : StepId) : string :=
  cat [line ["      StepResult::Next(vec!["];
       frame_assign fiber_name func_name (cat ["( "; pretty.pretty slot; ", Value::"; type_variant_name ty; "("; code; ") )"]) next;
       line ["      ])"]].

Definition block_text (slot : nat) (ty : Type_) (code : string) (next : StepId) : string :=
  cat [block_header code; line ["      }; StepResult::Next(vec!["];
       line ["          StackEntry::FrameAssign(vec![( "; pretty.pretty slot; ", Value::"; type_variant_name ty; "(out) )]),"];
       line ["          StackEntry::State(State::"; state_of fiber_name func_name next; "),"]; line ["        ]) }"]].

Definition call_text (target : FuncRef) (args : list Expr) (ret_to : StepId) (callee : Func) (offset : nat) : string :=
  cat [line ["      StepResult::Next(vec!["]; line ["        StackEntry::State(State::"; state_of fiber_name func_name ret_to; "),"];
       line ["        StackEntry::Retrn(Some("; pretty.pretty offset; ")),"]; cat (call_args args callee);
       cat (map (fun '(n, t) => stack_value n (type_variant_name t) (default_value_expr t)) (locals callee));
       line ["        StackEntry::State(State::"; variant_name [target_fiber target; target_func target; "entry"]; "),"]; line ["      ])"]].

(** Everywhere the generator prints where the variable [x] is, it prints [slot], but for an
    assignment to a parameter, where it prints 0. *)
Record slot_printed (x : string) (ty : Type_) (slot : nat) : Prop := {
  printed_read : step_bind fiber_name fiber f x = bind_slot (camel_ident x) ty slot;
  printed_entry_local : x ∈ (locals f).*1 -> entry_bind fiber_name fiber f x = bind_slot (camel_ident x) ty slot;
  printed_entry_param : x ∈ (in_vars f).*1 ->
    exists before after, entry_params f = before +:+ bind_slot x ty slot +:+ after;
  printed_fiber_arg : create_fibers_arg f x =
    cat ["Value::"; type_variant_name ty; "("; read_slot (type_variant_name ty) (pretty.pretty slot); ")"];
  printed_queue public : create_part f (RuntimePrimitive_Queue x public) =
    cat ["CreatePrimitiveValue::Queue { name: "; read_slot "String" (pretty.pretty slot); ", public: "; render_bool public; " }"];
  printed_schedule : create_part f (RuntimePrimitive_Schedule x) =
    cat ["CreatePrimitiveValue::Schedule { ms: "; read_slot "U64" (pretty.pretty slot); " }"];
  printed_block code next : direct_return f x next = false ->
    render_rust_block fiber_name func_name f [x] code next = Ok (block_text slot ty code next);
  printed_blocks types i t : types !! i = Some t ->
    block_assign f types i x =
      Ok (line ["            ( "; pretty.pretty slot; ", Value::"; type_variant_name t; "("; tuple_name i; ") ),"]);
  printed_let expr next :
    render_let fiber_name func_name f x expr next =
      Ok (let_text (if decide (x ∈ (in_vars f).*1) then 0%nat else slot) ty (render_expr_code expr) next);
  printed_call target args ret_to callee : find_func ir (target_fiber target) (target_func target) = Some callee ->
    render_call_step ir fiber_name func_name f target args ret_to (Some x) =
      call_text target args ret_to callee (frame_size f + 1 - slot)
}.

Lemma var_is_param_elem x : var_is_param f x = true <-> x ∈ (in_vars f).*1.
Proof.
  unfold var_is_param. rewrite existsb_exists, list_elem_of_fmap. setoid_rewrite bool_decide_eq_true.
  split; intros ([y t] & H1 & H2); exists (y, t); rewrite <-list_elem_of_In in *; by cbn in *; subst.
Qed.

Lemma cat_cons x l : cat (x :: l) = x +:+ cat l.
Proof. destruct l as [|y l]; [symmetry; apply string_app_nil|done]. Qed.

Lemma cat_app l k : cat (l ++ k) = cat l +:+ cat k.
Proof. induction l as [|x l IH]; [done|]. rewrite <-app_comm_cons, !cat_cons, IH. apply string_app_assoc. Qed.

Lemma find_type x (l : list (string * Type_)) i t : NoDup l.*1 -> l !! i = Some (x, t) ->
  find_map (fun '(n, t) => if decide (n = x) then Some t else None) l = Some t.
Proof.
  unfold find_map in *. revert i. induction l as [|[y u] l IH]; intros i Hnd Hi; [done|]. apply NoDup_cons in Hnd as [Hn Hnd]. cbn.
  destruct i as [|i]; cbn in Hi; [injection Hi as -> ->; by rewrite decide_True|].
  rewrite decide_False; [by eapply IH|]. intros ->. apply Hn, list_elem_of_fmap. exists (x, t). split; [done|].
  by eapply list_elem_of_lookup_2.
Qed.

Lemma find_type_none x (l : list (string * Type_)) : x ∉ l.*1 ->
  find_map (fun '(n, t) => if decide (n = x) then Some t else None) l = None.
Proof.
  unfold find_map in *. induction l as [|[y u] l IH]; intros Hx; [done|]. cbn in *. apply not_elem_of_cons in Hx as [Hy Hx].
  rewrite decide_False by done. by apply IH.
Qed.

(** The two kinds of variables of a frame. *)
Lemma frame_variable x : NoDup (frame_names f) -> x ∈ frame_names f ->
  exists ty slot, frame_slot f x = Some slot /\ var_type_of f x = Some ty /\
    ((in_vars f !! slot = Some (x, ty) /\ position x (in_vars f) = Some slot /\ var_is_param f x = true /\ x ∈ (in_vars f).*1 /\
      x ∉ (locals f).*1) \/
     (let_slot f x = Some slot /\ var_is_param f x = false /\ x ∉ (in_vars f).*1)).
Proof.
  unfold frame_names. rewrite fmap_app. intros Hnd Hx. pose proof Hnd as (Hnp & Hdis & Hnl)%NoDup_app.
  destruct (decide (x ∈ (in_vars f).*1)) as [Hp|Hp].
  - destruct (position x (in_vars f)) as [i|] eqn:E; [|by apply position_none in E].
    pose proof E as [Hl _]%position_spec. rewrite list_lookup_fmap in Hl. apply fmap_Some in Hl as ([y t] & Hl & ->). cbn [fst] in *.
    exists t, i. unfold frame_slot, var_type_of. rewrite E, (find_type _ _ _ _ Hnp Hl). do 2 (split; [done|]). left.
    split; [done|]. split; [done|]. split; [by apply var_is_param_elem|]. split; [done|]. by apply Hdis.
  - assert (Hloc : x ∈ (locals f).*1) by set_solver.
    destruct (position x (locals f)) as [i|] eqn:E; [|by apply position_none in E].
    pose proof E as [Hl _]%position_spec. rewrite list_lookup_fmap in Hl. apply fmap_Some in Hl as ([y t] & Hl & ->). cbn [fst] in *.
    exists t, (length (in_vars f) + i)%nat. unfold frame_slot, let_slot, var_type_of.
    rewrite (proj2 (position_none _ _) Hp), E, (find_type_none _ _ Hp), (find_type _ _ _ _ Hnl Hl). do 2 (split; [done|]). right.
    split; [done|]. split; [|done]. apply not_true_iff_false. by rewrite var_is_param_elem.
Qed.

Lemma cat_lookup (l : list string) i x : l !! i = Some x -> exists before after, cat l = before +:+ x +:+ after.
Proof.
  intros Hi. exists (cat (take i l)), (cat (drop (S i) l)).
  transitivity (cat (take i l ++ x :: drop (S i) l)); [by rewrite take_drop_middle|]. by rewrite cat_app, cat_cons.
Qed.

Lemma slots_printed x : NoDup (frame_names f) -> x ∈ frame_names f ->
  exists ty slot, frame_slot f x = Some slot /\ slot_printed x ty slot.
Proof.
  intros Hnd Hx. destruct (frame_variable x Hnd Hx) as (ty & slot & Hs & Ht & Hcase). exists ty, slot. split; [done|].
  assert (Hlocal : let_slot f x = Some slot -> bind_local f x ty = bind_slot (camel_ident x) ty slot).
  { unfold let_slot, bind_local. intros (i & E & ->)%fmap_Some; by rewrite E. }
  split.
  - unfold step_bind. rewrite Ht. destruct Hcase as [(_ & -> & -> & _)|(Hl & -> & _)]; [done|by apply Hlocal].
  - intros Hx'. unfold entry_bind. rewrite Ht. destruct Hcase as [(_ & _ & _ & _ & ?)|(Hl & -> & _)]; [done|by apply Hlocal].
  - intros Hx'. destruct Hcase as [(Hi & _)|(_ & _ & ?)]; [|done]. unfold entry_params. apply (cat_lookup _ slot).
    by rewrite list_lookup_imap, Hi.
  - unfold create_fibers_arg. by rewrite Ht, Hs.
  - intros public. cbn [create_part]. by rewrite Hs.
  - cbn [create_part]. by rewrite Hs.
  - intros code next Hd. unfold render_rust_block. cbn [for_each]. rewrite Ht. cbn [expect mbind result_bind app]. rewrite Hd, Hs.
    reflexivity.
  - intros types i t E. unfold block_assign. rewrite E, Hs. reflexivity.
  - intros expr next. unfold render_let. rewrite Ht. cbn [expect mbind result_bind].
    destruct Hcase as [(_ & _ & _ & Hp & Hl)|(-> & _ & Hp)]; [rewrite decide_True by done|rewrite decide_False by done; reflexivity].
    unfold let_slot. by rewrite (proj2 (position_none _ _) Hl).
  - intros target args ret_to callee E. unfold render_call_step. rewrite E. unfold call_offset. cbn [mbind option_bind].
    rewrite Hs. reflexivity.
Qed.

End printed.

Section runtime.
Context `{Profile} (ir : IR) (fiber_name : string) (fiber : Ir.Fiber) (func_name : string) (f : Func).

(** C37: the positions that the generator prints for a variable of a valid function (one whose
    parameters and locals have different names, as the validator requires) are the positions
    where the runtime has it, but for the assignments to parameters. In a frame with the values
    of the function's parameters and locals there is a slot that holds the variable. It is the
    number printed wherever the variable is read, passed to a new fiber or to [Create], or
    given the value of a block of Rust code, and the step function of the program finds the
    variable there. A [Let] of a local is printed with it too, and the runtime replaces the
    local and nothing else. A [Let] of a parameter is printed with 0 whatever the parameter,
    so that the runtime replaces the first parameter (a bug, see [CodegenStep.let_slot]). When a
    call returns, the offset printed for its binding makes the runtime replace the bound
    variable and nothing else. *)
Theorem slots_agree_with_runtime x vals :
  NoDup (frame_names f) -> x ∈ frame_names f -> vals.*1 = frame_names f ->
  exists ty slot v0, slot_printed ir fiber_name fiber func_name f x ty slot /\
    vals !! slot = Some (x, v0) /\
    (forall below, let st := below ++ frame_entries vals in
       drop (length st - frame_size f) st !! slot = Some (StackEntry_Value x v0)) /\
    (forall below v, apply_entry (length below) (below ++ frame_entries vals) (StackEntry_FrameAssign [(slot, v)]) =
       Ok (below ++ frame_entries (<[slot:=(x, v)]> vals))) /\
    (forall below v first rest, in_vars f = first :: rest ->
       apply_entry (length below) (below ++ frame_entries vals) (StackEntry_FrameAssign [(0%nat, v)]) =
         Ok (below ++ frame_entries (<[0%nat:=(fst first, v)]> vals))) /\
    (forall below ret v,
       bind_return (Some (frame_size f + 1 - slot)%nat) v (below ++ frame_entries vals ++ [StackEntry_State ret]) =
         Ok (below ++ frame_entries (<[slot:=(x, v)]> vals) ++ [StackEntry_State ret])).
Proof.
  intros Hnd Hx Hv. destruct (slots_printed ir fiber_name fiber func_name f x Hnd Hx) as (ty & i & Hs & Hp).
  assert (Hn : frame_names f !! i = Some x).
  { destruct (frame_slot_some f x Hx) as (j & Hj & Hn). rewrite Hs in Hj. by injection Hj as ->. }
  rewrite <-Hv, list_lookup_fmap in Hn. apply fmap_Some in Hn as ([y v0] & Hi & ->). cbn [fst] in *.
  assert (Hlen : length vals = frame_size f).
  { rewrite <-(length_fmap fst vals), Hv. unfold frame_names, frame_size. by rewrite length_fmap, length_app. }
  assert (Hlt := lookup_lt_Some _ _ _ Hi).
  assert (Hfl : length (frame_entries vals) = frame_size f) by (unfold frame_entries; by rewrite length_map).
  exists ty, i, v0. split; [done|]. split; [done|]. split; [|split; [|split]].
  - intros below. cbn. rewrite length_app, Hfl. replace (length below + frame_size f - frame_size f)%nat with (length below) by lia.
    rewrite drop_app_length. unfold frame_entries. by rewrite list_lookup_fmap, Hi.
  - intros below v. by apply assign_entry with (v0 := v0).
  - intros below v [p t] rest E. cbn [fst]. assert (exists u, vals !! 0%nat = Some (p, u)) as [u Hu].
    { assert (Hz : vals.*1 !! 0%nat = Some p) by (rewrite Hv; unfold frame_names; by rewrite E).
      rewrite list_lookup_fmap in Hz. apply fmap_Some in Hz as ([q u] & Hz & ->). by exists u. }
    by apply assign_entry with (v0 := u).
  - intros below ret v. unfold bind_return, bind_index. rewrite !length_app. cbn [length]. rewrite decide_True by lia.
    cbn [mbind result_bind].
    replace (length below + (length (frame_entries vals) + 1) - (frame_size f + 1 - i))%nat with (length below + i)%nat by lia.
    by eapply overwrite_entry.
Qed.
End runtime.


Definition search_values : list (string * Value) :=
  [("e", Value_U64 5); ("left", Value_U64 0); ("right", Value_U64 8); ("div", Value_U64 4); ("v_by_index_div", Value_U64 3);
   ("fac_call_res", Value_OptionU64 None)].

Lemma slots_agree_with_runtime_witness : exists ty slot,
  slot_printed sample_ir "testFunctionsCall" testFunctionsCall_fiber "binary_search" testFunctionsCall_binary_search
    "fac_call_res" ty slot /\
  forall below ret, @bind_return dev_profile (Some (7 - slot)%nat) (Value_OptionU64 (Some 6%Z))
      (below ++ frame_entries search_values ++ [StackEntry_State ret]) =
    Ok (below ++ frame_entries (<[slot:=("fac_call_res", Value_OptionU64 (Some 6%Z))]> search_values) ++ [StackEntry_State ret]).
Proof.
  destruct (@slots_agree_with_runtime dev_profile sample_ir "testFunctionsCall" testFunctionsCall_fiber "binary_search"
    testFunctionsCall_binary_search "fac_call_res" search_values) as (ty & slot & v0 & Hp & _ & _ & _ & _ & Hr);
    [apply (bool_decide_unpack _); vm_compute; exact I|apply (bool_decide_unpack _); vm_compute; exact I|reflexivity|].
  exists ty, slot. split; [exact Hp|]. intros below ret. apply Hr.
Defined.

(** A [Let] of the second parameter is printed with the slot of the first. *)
Example let_of_parameter :
  let f := mkFunc [("a", Type_UInt64); ("b", Type_UInt64)] Type_UInt64 [] [("entry", Step_Let "b" (Expr_UInt64 1) "entry")] in
  render_let "main" "f" f "b" (Expr_UInt64 1) "entry" = Ok (let_text "main" "f" 0 Type_UInt64 "1u64" "entry") /\
  frame_slot f "b" = Some 1%nat.
Proof. split; vm_compute; reflexivity. Qed.
