(* ===== verification/CodegenSample.v ===== *)
(** * Code generation: the sample program

    What [generate_rust_types] prints for [SampleIr.sample_ir] is the program that
    [Assembler] models: the same states with the same frame sizes, and the same initial
    stacks for calls of its functions. *)
From S2P Require Import Prelude Values Assembler Ir IrRules SampleIr Codegen CodegenStep CodegenSpec.
Local Open Scope string_scope.
Local Open Scope list_scope.

(** ** The names of the generated enums *)
Definition state_name (s : State) : string :=
  match s with
  | State_Completed => "Completed"
  | State_Idle => "Idle"
  | State_RootMainEntry => "RootMainEntry"
  | State_RootMainReturn => "RootMainReturn"
  | State_TestCalculatorMainCalculate => "TestCalculatorMainCalculate"
  | State_TestCalculatorMainDebugGottenTask => "TestCalculatorMainDebugGottenTask"
  | State_TestCalculatorMainDebugVars => "TestCalculatorMainDebugVars"
  | State_TestCalculatorMainEntry => "TestCalculatorMainEntry"
  | State_TestCalculatorMainResponse => "TestCalculatorMainResponse"
  | State_TestCalculatorMainReturn => "TestCalculatorMainReturn"
  | State_TestCalculatorMainSelectQueue => "TestCalculatorMainSelectQueue"
  | State_TestCreateQueueMainAnswer => "TestCreateQueueMainAnswer"
  | State_TestCreateQueueMainAwaitOnQueue => "TestCreateQueueMainAwaitOnQueue"
  | State_TestCreateQueueMainCleanUp => "TestCreateQueueMainCleanUp"
  | State_TestCreateQueueMainCorrectCreation => "TestCreateQueueMainCorrectCreation"
  | State_TestCreateQueueMainDebugVars => "TestCreateQueueMainDebugVars"
  | State_TestCreateQueueMainDebugVars2 => "TestCreateQueueMainDebugVars2"
  | State_TestCreateQueueMainDebugVars3 => "TestCreateQueueMainDebugVars3"
  | State_TestCreateQueueMainEntry => "TestCreateQueueMainEntry"
  | State_TestCreateQueueMainExtractFutAndInc => "TestCreateQueueMainExtractFutAndInc"
  | State_TestCreateQueueMainReturn => "TestCreateQueueMainReturn"
  | State_TestCreateQueueMainWrongQueueCreation => "TestCreateQueueMainWrongQueueCreation"
  | State_TestFunctionsCallBinarySearchCalculateDiv => "TestFunctionsCallBinarySearchCalculateDiv"
  | State_TestFunctionsCallBinarySearchCmpLess => "TestFunctionsCallBinarySearchCmpLess"
  | State_TestFunctionsCallBinarySearchEntry => "TestFunctionsCallBinarySearchEntry"
  | State_TestFunctionsCallBinarySearchGoLeft => "TestFunctionsCallBinarySearchGoLeft"
  | State_TestFunctionsCallBinarySearchGoLeftCheckOverflow => "TestFunctionsCallBinarySearchGoLeftCheckOverflow"
  | State_TestFunctionsCallBinarySearchGoRight => "TestFunctionsCallBinarySearchGoRight"
  | State_TestFunctionsCallBinarySearchRecursiveCall => "TestFunctionsCallBinarySearchRecursiveCall"
  | State_TestFunctionsCallBinarySearchReturnNone => "TestFunctionsCallBinarySearchReturnNone"
  | State_TestFunctionsCallBinarySearchReturnFound => "TestFunctionsCallBinarySearchReturnFound"
  | State_TestFunctionsCallBinarySearchReturnIfEqual => "TestFunctionsCallBinarySearchReturnIfEqual"
  | State_TestFunctionsCallBinarySearchReturnResult => "TestFunctionsCallBinarySearchReturnResult"
  | State_TestFunctionsCallFactorialEntry => "TestFunctionsCallFactorialEntry"
  | State_TestFunctionsCallFactorialFactorialCall => "TestFunctionsCallFactorialFactorialCall"
  | State_TestFunctionsCallFactorialMultiply => "TestFunctionsCallFactorialMultiply"
  | State_TestFunctionsCallFactorialReturn => "TestFunctionsCallFactorialReturn"
  | State_TestFunctionsCallFactorialReturn1 => "TestFunctionsCallFactorialReturn1"
  | State_TestFunctionsCallFactorialSubtract => "TestFunctionsCallFactorialSubtract"
  | State_TestFunctionsCallMainAfterBinary => "TestFunctionsCallMainAfterBinary"
  | State_TestFunctionsCallMainAfterFactorial => "TestFunctionsCallMainAfterFactorial"
  | State_TestFunctionsCallMainAfterMultiply => "TestFunctionsCallMainAfterMultiply"
  | State_TestFunctionsCallMainBinarySearch => "TestFunctionsCallMainBinarySearch"
  | State_TestFunctionsCallMainEntry => "TestFunctionsCallMainEntry"
  | State_TestFunctionsCallMainFactorial => "TestFunctionsCallMainFactorial"
  | State_TestFunctionsCallMainFinish => "TestFunctionsCallMainFinish"
  | State_TestFunctionsCallMainMultiply => "TestFunctionsCallMainMultiply"
  | State_TestFunctionsCallMainSetBSearchValues => "TestFunctionsCallMainSetBSearchValues"
  | State_TestFunctionsCallMultEntry => "TestFunctionsCallMultEntry"
  | State_TestFunctionsCallSubEntry => "TestFunctionsCallSubEntry"
  | State_TestInfiniteSummatorMainCalculate => "TestInfiniteSummatorMainCalculate"
  | State_TestInfiniteSummatorMainCreateQueue => "TestInfiniteSummatorMainCreateQueue"
  | State_TestInfiniteSummatorMainEntry => "TestInfiniteSummatorMainEntry"
  | State_TestInfiniteSummatorMainResponse => "TestInfiniteSummatorMainResponse"
  | State_TestInfiniteSummatorMainReturn => "TestInfiniteSummatorMainReturn"
  | State_TestInfiniteSummatorMainSelectQueue => "TestInfiniteSummatorMainSelectQueue"
  | State_TestRootFiberMainAwaitResponse => "TestRootFiberMainAwaitResponse"
  | State_TestRootFiberMainAwaitResponse2 => "TestRootFiberMainAwaitResponse2"
  | State_TestRootFiberMainCreateFiber => "TestRootFiberMainCreateFiber"
  | State_TestRootFiberMainCreateFuture => "TestRootFiberMainCreateFuture"
  | State_TestRootFiberMainCreateQueueues => "TestRootFiberMainCreateQueueues"
  | State_TestRootFiberMainEntry => "TestRootFiberMainEntry"
  | State_TestRootFiberMainPrepareCalculationRequests => "TestRootFiberMainPrepareCalculationRequests"
  | State_TestRootFiberMainReturn => "TestRootFiberMainReturn"
  | State_TestRootFiberMainReturnDbg => "TestRootFiberMainReturnDbg"
  | State_TestRootFiberMainSendCalculationRequest => "TestRootFiberMainSendCalculationRequest"
  | State_TestRootFiberSleepTestMainCreatePrimitives => "TestRootFiberSleepTestMainCreatePrimitives"
  | State_TestRootFiberSleepTestMainEntry => "TestRootFiberSleepTestMainEntry"
  | State_TestRootFiberSleepTestMainReturn => "TestRootFiberSleepTestMainReturn"
  | State_TestRootFiberSleepTestMainReturnDbg => "TestRootFiberSleepTestMainReturnDbg"
  | State_TestRootFiberSleepTestMainSeelect => "TestRootFiberSleepTestMainSeelect"
  | State_TestSelectQueueMainCompare => "TestSelectQueueMainCompare"
  | State_TestSelectQueueMainEntry => "TestSelectQueueMainEntry"
  | State_TestSelectQueueMainIncFromFut => "TestSelectQueueMainIncFromFut"
  | State_TestSelectQueueMainInitFutureId => "TestSelectQueueMainInitFutureId"
  | State_TestSelectQueueMainPrepareCond => "TestSelectQueueMainPrepareCond"
  | State_TestSelectQueueMainReturn => "TestSelectQueueMainReturn"
  | State_TestSelectQueueMainSelectCounter => "TestSelectQueueMainSelectCounter"
  | State_TestSelectQueueMainStartWork => "TestSelectQueueMainStartWork"
  | State_TestTaskExecutorIncrementerMainAwait => "TestTaskExecutorIncrementerMainAwait"
  | State_TestTaskExecutorIncrementerMainDebug2 => "TestTaskExecutorIncrementerMainDebug2"
  | State_TestTaskExecutorIncrementerMainDebugVars => "TestTaskExecutorIncrementerMainDebugVars"
  | State_TestTaskExecutorIncrementerMainDebugVars2 => "TestTaskExecutorIncrementerMainDebugVars2"
  | State_TestTaskExecutorIncrementerMainEntry => "TestTaskExecutorIncrementerMainEntry"
  | State_TestTaskExecutorIncrementerMainIncrement => "TestTaskExecutorIncrementerMainIncrement"
  | State_TestTaskExecutorIncrementerMainInitQueueName => "TestTaskExecutorIncrementerMainInitQueueName"
  | State_TestTaskExecutorIncrementerMainReturn => "TestTaskExecutorIncrementerMainReturn"
  | State_TestTaskExecutorIncrementerMainReturnResult => "TestTaskExecutorIncrementerMainReturnResult"
  end.

Definition all_states : list State :=
  [State_Completed; State_Idle; State_RootMainEntry; State_RootMainReturn;
   State_TestCalculatorMainCalculate; State_TestCalculatorMainDebugGottenTask;
   State_TestCalculatorMainDebugVars; State_TestCalculatorMainEntry; State_TestCalculatorMainResponse;
   State_TestCalculatorMainReturn; State_TestCalculatorMainSelectQueue;
   State_TestCreateQueueMainAnswer; State_TestCreateQueueMainAwaitOnQueue;
   State_TestCreateQueueMainCleanUp; State_TestCreateQueueMainCorrectCreation;
   State_TestCreateQueueMainDebugVars; State_TestCreateQueueMainDebugVars2;
   State_TestCreateQueueMainDebugVars3; State_TestCreateQueueMainEntry;
   State_TestCreateQueueMainExtractFutAndInc; State_TestCreateQueueMainReturn;
   State_TestCreateQueueMainWrongQueueCreation; State_TestFunctionsCallBinarySearchCalculateDiv;
   State_TestFunctionsCallBinarySearchCmpLess; State_TestFunctionsCallBinarySearchEntry;
   State_TestFunctionsCallBinarySearchGoLeft; State_TestFunctionsCallBinarySearchGoLeftCheckOverflow;
   State_TestFunctionsCallBinarySearchGoRight; State_TestFunctionsCallBinarySearchRecursiveCall;
   State_TestFunctionsCallBinarySearchReturnNone; State_TestFunctionsCallBinarySearchReturnFound;
   State_TestFunctionsCallBinarySearchReturnIfEqual; State_TestFunctionsCallBinarySearchReturnResult;
   State_TestFunctionsCallFactorialEntry; State_TestFunctionsCallFactorialFactorialCall;
   State_TestFunctionsCallFactorialMultiply; State_TestFunctionsCallFactorialReturn;
   State_TestFunctionsCallFactorialReturn1; State_TestFunctionsCallFactorialSubtract;
   State_TestFunctionsCallMainAfterBinary; State_TestFunctionsCallMainAfterFactorial;
   State_TestFunctionsCallMainAfterMultiply; State_TestFunctionsCallMainBinarySearch;
   State_TestFunctionsCallMainEntry; State_TestFunctionsCallMainFactorial;
   State_TestFunctionsCallMainFinish; State_TestFunctionsCallMainMultiply;
   State_TestFunctionsCallMainSetBSearchValues; State_TestFunctionsCallMultEntry;
   State_TestFunctionsCallSubEntry; State_TestInfiniteSummatorMainCalculate;
   State_TestInfiniteSummatorMainCreateQueue; State_TestInfiniteSummatorMainEntry;
   State_TestInfiniteSummatorMainResponse; State_TestInfiniteSummatorMainReturn;
   State_TestInfiniteSummatorMainSelectQueue; State_TestRootFiberMainAwaitResponse;
   State_TestRootFiberMainAwaitResponse2; State_TestRootFiberMainCreateFiber;
   State_TestRootFiberMainCreateFuture; State_TestRootFiberMainCreateQueueues;
   State_TestRootFiberMainEntry; State_TestRootFiberMainPrepareCalculationRequests;
   State_TestRootFiberMainReturn; State_TestRootFiberMainReturnDbg;
   State_TestRootFiberMainSendCalculationRequest; State_TestRootFiberSleepTestMainCreatePrimitives;
   State_TestRootFiberSleepTestMainEntry; State_TestRootFiberSleepTestMainReturn;
   State_TestRootFiberSleepTestMainReturnDbg; State_TestRootFiberSleepTestMainSeelect;
   State_TestSelectQueueMainCompare; State_TestSelectQueueMainEntry;
   State_TestSelectQueueMainIncFromFut; State_TestSelectQueueMainInitFutureId;
   State_TestSelectQueueMainPrepareCond; State_TestSelectQueueMainReturn;
   State_TestSelectQueueMainSelectCounter; State_TestSelectQueueMainStartWork;
   State_TestTaskExecutorIncrementerMainAwait; State_TestTaskExecutorIncrementerMainDebug2;
   State_TestTaskExecutorIncrementerMainDebugVars; State_TestTaskExecutorIncrementerMainDebugVars2;
   State_TestTaskExecutorIncrementerMainEntry; State_TestTaskExecutorIncrementerMainIncrement;
   State_TestTaskExecutorIncrementerMainInitQueueName; State_TestTaskExecutorIncrementerMainReturn;
   State_TestTaskExecutorIncrementerMainReturnResult].

(** The variant of a value. *)
Definition value_name (v : Value) : string :=
  match v with
  | Value_ArrayU64 _ => "ArrayU64"
  | Value_Bool _ => "Bool"
  | Value_FutureTestIncrementTask _ => "FutureTestIncrementTask"
  | Value_FutureU64 _ => "FutureU64"
  | Value_FutureUnit _ => "FutureUnit"
  | Value_OptionString _ => "OptionString"
  | Value_OptionU64 _ => "OptionU64"
  | Value_String _ => "String"
  | Value_TestCalculatorTask _ => "TestCalculatorTask"
  | Value_TestCreateQueueMessage _ => "TestCreateQueueMessage"
  | Value_TestCreateQueueMessagePub _ => "TestCreateQueueMessagePub"
  | Value_TestIncrementTask _ => "TestIncrementTask"
  | Value_TestInfiniteSummatorQueueMessage _ => "TestInfiniteSummatorQueueMessage"
  | Value_TestInfiniteSummatorQueueMessagePub _ => "TestInfiniteSummatorQueueMessagePub"
  | Value_U64 _ => "U64"
  | Value_Unit => "Unit"
  end.

(** ** States and frames *)

(** The declared states of a program with the sizes of their frames. *)
Definition declared `{HashOrder} (ir : IR) : list (string * nat) :=
  concat (map (fun '(fiber_name, _, func_name, f) =>
    map (fun id => (variant_name [fiber_name; func_name; id], frame_size f)) (state_ids f)) (all_funcs ir)).

Lemma all_states_complete s : s ∈ all_states.
Proof. destruct s; unfold all_states; repeat first [apply list_elem_of_here | apply list_elem_of_further]. Qed.

Lemma declared_order `{HashOrder} ir : declared ir = @declared list_order ir.
Proof. unfold declared. by rewrite (all_funcs_order _ list_order). Qed.

(** The states [Assembler] lists, with their frame sizes. *)
Definition assembled : list (string * nat) := map (fun s => (state_name s, func_args_count s)) all_states.

(** The states printed for the sample program are those of the assembled program: besides
    [Completed] and [Idle], every state is declared, nothing else is, no name is declared
    twice, and the size of a state's frame is the number of parameters and locals of the
    function it belongs to. *)
Lemma sample_states_agree `{HashOrder} :
  ("Completed", 0%nat) :: ("Idle", 0%nat) :: declared sample_ir ≡ₚ assembled /\ NoDup assembled.*1.
Proof.
  rewrite declared_order. split; [|apply (bool_decide_unpack _); vm_compute; exact I].
  apply (bool_decide_unpack _). vm_compute. exact I.
Qed.

(** ** Initial stacks *)
Definition entry_shape (e : StackEntry) : string * string :=
  match e with
  | StackEntry_State s => ("State", state_name s)
  | StackEntry_Retrn None => ("Retrn", "None")
  | StackEntry_Retrn (Some offset) => ("Retrn", pretty.pretty offset)
  | StackEntry_Value name v => (name, value_name v)
  | StackEntry_FrameAssign _ => ("FrameAssign", "")
  end.

(** What [prepare_fn] prints. *)
Definition prepared_shape (fiber_name func_name : string) (f : Func) : list (string * string) :=
  let vars := map (fun '(n, t) => (n, type_variant_name t)) in
  match out f with Type_Void => [] | t => [("ret", type_variant_name t)] end ++
  [("Retrn", "1")] ++ vars (in_vars f) ++ vars (locals f) ++ [("State", variant_name [fiber_name; func_name; "entry"])].

(** The shape of the initial stack of one function. *)
Definition stack_agrees (fiber_name func_name : string) (f : Func) : Prop :=
  forall args, map value_name args = map (fun p => type_variant_name (snd p)) (in_vars f) ->
  exists prepare stack, get_prepare_fn (cat [fiber_name; "."; func_name]) = Ok prepare /\ prepare args = Ok stack /\
    map entry_shape stack = prepared_shape fiber_name func_name f.

Lemma u64_named v : value_name v = "U64" -> exists x, v = Value_U64 x.
Proof. destruct v; try discriminate. by eexists. Qed.

Ltac check_stack :=
  intros args Hargs; cbn in Hargs;
  repeat (destruct args as [|? args]; [try discriminate Hargs|try discriminate Hargs; injection Hargs as ?Hv Hargs];
    repeat match goal with H : value_name _ = "U64" |- _ => apply u64_named in H as [? ->] end);
  eexists _, _; split; [vm_compute; reflexivity|]; split; reflexivity.

Lemma in_list_to_map {V} (l : list (string * V)) k v : (list_to_map l : gmap string V) !! k = Some v -> (k, v) ∈ l.
Proof. apply elem_of_list_to_map_2. Qed.

(** Every function of the sample program, by name. *)
Lemma sample_function fiber_name fiber func_name f :
  fibers sample_ir !! fiber_name = Some fiber -> funcs fiber !! func_name = Some f ->
  (fiber_name, func_name, f) ∈
    [("root", "main", root_main); ("testSelectQueue", "main", testSelectQueue_main);
     ("testTaskExecutorIncrementer", "main", testTaskExecutorIncrementer_main);
     ("testCreateQueue", "main", testCreateQueue_main); ("testRootFiber", "main", testRootFiber_main);
     ("testCalculator", "main", testCalculator_main); ("testRootFiberSleepTest", "main", testRootFiberSleepTest_main);
     ("testInfiniteSummator", "main", testInfiniteSummator_main); ("testFunctionsCall", "main", testFunctionsCall_main);
     ("testFunctionsCall", "mult", testFunctionsCall_mult); ("testFunctionsCall", "sub", testFunctionsCall_sub);
     ("testFunctionsCall", "factorial", testFunctionsCall_factorial);
     ("testFunctionsCall", "binary_search", testFunctionsCall_binary_search)].
Proof.
  intros Hfib Hf. apply in_list_to_map in Hfib. rewrite !elem_of_cons, elem_of_nil in Hfib.
  repeat destruct Hfib as [Hfib|Hfib]; try contradiction; injection Hfib as -> ->;
    apply in_list_to_map in Hf; rewrite !elem_of_cons, elem_of_nil in Hf;
    repeat destruct Hf as [Hf|Hf]; try contradiction; injection Hf as -> ->;
    repeat first [apply list_elem_of_here | apply list_elem_of_further].
Qed.

(** The stack the assembled program prepares for a call, for every function of the sample
    program and every list of arguments of the declared types, has the entries that
    are printed: the place of the result with its type, the marker, the parameters and locals
    by name and type, and the entry state. *)
Theorem sample_stacks_agree fiber_name fiber func_name f args :
  fibers sample_ir !! fiber_name = Some fiber -> funcs fiber !! func_name = Some f ->
  map value_name args = map (fun p => type_variant_name (snd p)) (in_vars f) ->
  exists prepare stack, get_prepare_fn (cat [fiber_name; "."; func_name]) = Ok prepare /\ prepare args = Ok stack /\
    map entry_shape stack = prepared_shape fiber_name func_name f.
Proof.
  intros Hfib Hf. revert args. change (stack_agrees fiber_name func_name f).
  apply (sample_function _ _ _ _ Hfib) in Hf. rewrite !elem_of_cons, elem_of_nil in Hf.
  repeat destruct Hf as [Hf|Hf]; try contradiction; injection Hf as -> -> ->; check_stack.
Qed.

Lemma sample_stacks_agree_witness : exists prepare stack,
  get_prepare_fn "testFunctionsCall.mult" = Ok prepare /\ prepare [Value_U64 6; Value_U64 7] = Ok stack /\
  map entry_shape stack =
    [("ret", "U64"); ("Retrn", "1"); ("a", "U64"); ("b", "U64"); ("mult", "U64"); ("State", "TestFunctionsCallMultEntry")].
Proof. exact (sample_stacks_agree "testFunctionsCall" _ "mult" _ [Value_U64 6; Value_U64 7] eq_refl eq_refl eq_refl). Defined.

(** ** Calls *)
Definition step_call (s : StepId * Step) : option (StepId * FuncRef * list Expr * StepId) :=
  match snd s with Step_Call target args _ ret_to => Some (fst s, target, args, ret_to) | _ => None end.

Definition calls (f : Func) : list (StepId * FuncRef * list Expr * StepId) := omap step_call (steps f).

(** The callee exists and takes the arguments that are given. *)
Definition call_resolves (ir : IR) (target : FuncRef) (args : list Expr) : bool :=
  match find_func ir (target_fiber target) (target_func target) with
  | Some callee => bool_decide (length (in_vars callee) = length args)
  | None => false
  end.

Lemma valid_well_formed `{HashOrder} ir : well_formed ir -> is_valid ir = (true, "").
Proof. intros Hm. apply (messages_nil ir) in Hm. unfold is_valid. by rewrite Hm. Qed.

(** Validation accepts the sample program, in which every call but one finds a function
    with as many parameters as the call has arguments; the one that does not, in the
    binary search, is printed as a jump to the step after the call. *)
Lemma sample_accepted_with_missing_callee `{HashOrder} :
  is_valid sample_ir = (true, "") /\
  (forall fiber_name fiber func_name f id target args ret_to,
     fibers sample_ir !! fiber_name = Some fiber -> funcs fiber !! func_name = Some f ->
     (id, target, args, ret_to) ∈ calls f ->
     call_resolves sample_ir target args = true \/
     (func_name = "binary_search" /\ id = "go_right" /\ target_func target = "add" /\
      forall bind, render_call_step sample_ir fiber_name func_name f target args ret_to bind =
        line ["      StepResult::GoTo(State::TestFunctionsCallBinarySearchRecursiveCall)"])) /\
  exists target args, ("go_right", target, args, "recursive_call") ∈ calls testFunctionsCall_binary_search.
Proof.
  split_and!.
  - apply valid_well_formed, sample_well_formed.
  - intros fiber_name fiber func_name f id target args ret_to Hfib Hf Hc. apply (sample_function _ _ _ _ Hfib) in Hf.
    rewrite !elem_of_cons, elem_of_nil in Hf.
    repeat destruct Hf as [Hf|Hf]; try contradiction; injection Hf as -> -> ->; cbn in Hc;
      rewrite ?elem_of_cons, ?elem_of_nil in Hc; repeat destruct Hc as [Hc|Hc]; try contradiction; injection Hc as -> -> -> ->;
      (left; vm_compute; reflexivity) || (right; split_and!; [done..|]; intros [b|]; vm_compute; reflexivity).
  - eexists _, _. cbn. repeat first [apply list_elem_of_here | apply list_elem_of_further].
Qed.
