(* ===== verification/Grammar.v ===== *)
(** * The grammar of the language

    dsl/src/grammar.pest as a value, and the documented behaviour of pest, the library that
    derives a parser from it, as a class: a successful parse is a tree of the grammar, that
    is, the pairs inside a pair are those its rule's expression matched, in order, and its
    text is what the expression consumed. [peg] is a concrete instance, an interpreter of
    parsing expression grammars with ordered choice and implicit white space; the tests of
    the crate run on it. *)
From S2P Require Import Prelude.
From Stdlib Require Import Ascii.
Local Open Scope string_scope.
Local Open Scope list_scope.

(** ** Rules *)
Inductive Rule : Type :=
| Rule_EOI | Rule_WHITESPACE | Rule_COMMENT | Rule_program | Rule_item | Rule_struct_def | Rule_struct_fields
| Rule_struct_field | Rule_function | Rule_param_list | Rule_param | Rule_block | Rule_statement | Rule_binding_stmt
| Rule_binding_kind | Rule_return_stmt | Rule_if_stmt | Rule_expr | Rule_equality | Rule_equality_op | Rule_add
| Rule_add_op | Rule_mul | Rule_mul_op | Rule_primary | Rule_atom | Rule_method_call_suffix | Rule_call
| Rule_sync_call | Rule_arg_list | Rule_array_lit | Rule_map_lit | Rule_map_entry | Rule_struct_lit
| Rule_struct_lit_field | Rule_type_name | Rule_type_ref | Rule_base_type | Rule_array_type | Rule_map_type
| Rule_option_type | Rule_custom_type | Rule_type_ident | Rule_identifier | Rule_string | Rule_int
| Rule_comma_trailing.

#[export] Instance Rule_eq_dec : EqDecision Rule.
Proof. solve_decision. Defined.

(** A token pair: the rule, the text it matched and the pairs inside. *)
Inductive Pair : Type := mkPair { as_rule : Rule; as_str : string; into_inner : list Pair }.

(** Parsing expressions. *)
Inductive pexpr : Type :=
| Str (s : string)
| Char (allowed : ascii -> bool)
| Soi
| Eoi
| Ref (r : Rule)
| Seq (e1 e2 : pexpr)
| Choice (e1 e2 : pexpr)
| Star (e : pexpr)
| Opt (e : pexpr)
| Not (e : pexpr).

Declare Scope peg_scope.
Infix "~~" := Seq (at level 60, right associativity) : peg_scope.
Infix "</>" := Choice (at level 65, right associativity) : peg_scope.
Local Open Scope peg_scope.

Definition Plus (e : pexpr) : pexpr := e ~~ Star e.

Definition between (lo hi : N) (c : ascii) : bool := bool_decide (lo <= N_of_ascii c <= hi)%N.
Definition is_digit : ascii -> bool := between 48 57.
Definition is_alpha (c : ascii) : bool := between 65 90 c || between 97 122 c.
Definition is_alphanumeric (c : ascii) : bool := is_alpha c || is_digit c.
Definition ANY : pexpr := Char (fun _ => true).

Definition dquote : string := String "034"%char "".
Definition tab : string := String "009"%char "".
Definition lf : string := String "010"%char "".
Definition cr : string := String "013"%char "".

(** ** The grammar *)
Inductive Kind : Type := Normal | Silent | Atomic.

#[export] Instance Kind_eq_dec : EqDecision Kind.
Proof. solve_decision. Defined.

Definition comma_list (r : Rule) : pexpr := Ref r ~~ Star (Str "," ~~ Ref r) ~~ Opt (Ref Rule_comma_trailing).
Definition ident : pexpr := Char is_alpha ~~ Star (Char is_alphanumeric </> Str "_").

Definition grammar (r : Rule) : Kind * pexpr :=
  match r with
  | Rule_EOI => (Normal, Eoi)
  | Rule_WHITESPACE => (Silent, Str " " </> Str tab </> Str lf </> Str cr </> Ref Rule_COMMENT)
  | Rule_COMMENT =>
      (Silent, (Str "//" ~~ Star (Not (Str lf) ~~ ANY) ~~ (Str lf </> Eoi)) </>
               (Str "/*" ~~ Star (Not (Str "*/") ~~ ANY) ~~ Str "*/"))
  | Rule_program => (Normal, Soi ~~ Star (Ref Rule_item) ~~ Eoi)
  | Rule_item => (Normal, Ref Rule_struct_def </> Ref Rule_function </> Ref Rule_statement)
  | Rule_struct_def =>
      (Normal, Str "struct" ~~ Ref Rule_type_ident ~~ Str "{" ~~ Opt (Ref Rule_struct_fields) ~~ Str "}")
  | Rule_struct_fields => (Normal, comma_list Rule_struct_field)
  | Rule_struct_field => (Normal, Ref Rule_identifier ~~ Str ":" ~~ Ref Rule_type_name)
  | Rule_function =>
      (Normal, Str "fn" ~~ Ref Rule_identifier ~~ Str "(" ~~ Opt (Ref Rule_param_list) ~~ Str ")" ~~
               Opt (Str "->" ~~ Ref Rule_type_name) ~~ Ref Rule_block)
  | Rule_param_list => (Normal, comma_list Rule_param)
  | Rule_param => (Normal, Ref Rule_identifier ~~ Str ":" ~~ Ref Rule_type_name)
  | Rule_block => (Normal, Str "{" ~~ Star (Ref Rule_statement) ~~ Str "}")
  | Rule_statement =>
      (Normal, Ref Rule_binding_stmt </> Ref Rule_return_stmt </> Ref Rule_if_stmt </> Ref Rule_expr)
  | Rule_binding_stmt =>
      (Normal, Ref Rule_binding_kind ~~ Ref Rule_identifier ~~ Str ":" ~~ Ref Rule_type_name ~~
               Opt (Str "=" ~~ Ref Rule_expr))
  | Rule_binding_kind => (Normal, Str "let" </> Str "var")
  | Rule_return_stmt => (Normal, Str "return" ~~ Ref Rule_expr)
  | Rule_if_stmt =>
      (Normal, Str "if" ~~ Ref Rule_expr ~~ Ref Rule_block ~~ Opt (Str "else" ~~ Ref Rule_block))
  | Rule_expr => (Normal, Ref Rule_equality)
  | Rule_equality => (Normal, Ref Rule_add ~~ Star (Ref Rule_equality_op ~~ Ref Rule_add))
  | Rule_equality_op =>
      (Normal, Str "==" </> Str "!=" </> Str ">=" </> Str "<=" </> Str ">" </> Str "<")
  | Rule_add => (Normal, Ref Rule_mul ~~ Star (Ref Rule_add_op ~~ Ref Rule_mul))
  | Rule_add_op => (Normal, Str "+" </> Str "-")
  | Rule_mul => (Normal, Ref Rule_primary ~~ Star (Ref Rule_mul_op ~~ Ref Rule_primary))
  | Rule_mul_op => (Normal, Str "*" </> Str "/")
  | Rule_primary => (Normal, Ref Rule_atom ~~ Star (Ref Rule_method_call_suffix))
  | Rule_atom =>
      (Normal, Ref Rule_sync_call </> Ref Rule_call </> Ref Rule_int </> Ref Rule_string </> Ref Rule_array_lit </>
               Ref Rule_map_lit </> Ref Rule_struct_lit </> Ref Rule_identifier </> (Str "(" ~~ Ref Rule_expr ~~ Str ")"))
  | Rule_method_call_suffix => (Normal, Str "." ~~ Ref Rule_call)
  | Rule_call => (Normal, Ref Rule_identifier ~~ Str "(" ~~ Opt (Ref Rule_arg_list) ~~ Str ")")
  | Rule_sync_call => (Normal, Str "sync" ~~ Ref Rule_call)
  | Rule_arg_list => (Normal, comma_list Rule_expr)
  | Rule_array_lit => (Normal, Str "[" ~~ Opt (comma_list Rule_expr) ~~ Str "]")
  | Rule_map_lit => (Normal, Str "{" ~~ Opt (comma_list Rule_map_entry) ~~ Str "}")
  | Rule_map_entry => (Normal, Ref Rule_expr ~~ Str ":" ~~ Ref Rule_expr)
  | Rule_struct_lit =>
      (Normal, Ref Rule_type_ident ~~ Str "{" ~~ Opt (comma_list Rule_struct_lit_field) ~~ Str "}")
  | Rule_struct_lit_field => (Normal, Ref Rule_identifier ~~ Str ":" ~~ Ref Rule_expr)
  | Rule_type_name => (Normal, Ref Rule_type_ref)
  | Rule_type_ref =>
      (Silent, Ref Rule_base_type </> Ref Rule_array_type </> Ref Rule_map_type </> Ref Rule_option_type </>
               Ref Rule_custom_type)
  | Rule_base_type => (Atomic, Str "String" </> Str "i32" </> Str "i64")
  | Rule_array_type => (Normal, Str "[]" ~~ Ref Rule_type_ref)
  | Rule_map_type => (Normal, Str "map" ~~ Str "[" ~~ Ref Rule_type_ref ~~ Str "]" ~~ Ref Rule_type_ref)
  | Rule_option_type => (Normal, Str "Option" ~~ Str "<" ~~ Ref Rule_type_ref ~~ Str ">")
  | Rule_custom_type => (Normal, Ref Rule_type_ident)
  | Rule_type_ident => (Atomic, ident)
  | Rule_identifier => (Atomic, ident)
  | Rule_string => (Atomic, Str dquote ~~ Star (Not (Str dquote) ~~ ANY) ~~ Str dquote)
  | Rule_int => (Atomic, Opt (Str "-") ~~ Plus (Char is_digit))
  | Rule_comma_trailing => (Silent, Str ",")
  end.

Definition kind (r : Rule) : Kind := fst (grammar r).
Definition body (r : Rule) : pexpr := snd (grammar r).

(** ** Trees of the grammar *)

(** What a reference to a rule adds to the tree; nothing inside an atomic rule. *)
Definition token (atomic : bool) (r : Rule) (text : string) (inner : list Pair) : list Pair :=
  if atomic then [] else match kind r with
                         | Normal => [mkPair r text inner]
                         | Silent => inner
                         | Atomic => [mkPair r text []]
                         end.

(** [yields atomic e text pairs]: the expression can consume the text and give the pairs.
    Outside of atomic rules, white space and comments are skipped between the parts of a
    sequence. What the expression does not match, in a lookahead or in an earlier choice,
    is left open. *)
Inductive yields : bool -> pexpr -> string -> list Pair -> Prop :=
| y_str a s : yields a (Str s) s []
| y_char a (p : ascii -> bool) c : p c = true -> yields a (Char p) (String c "") []
| y_soi a : yields a Soi "" []
| y_eoi a : yields a Eoi "" (token a Rule_EOI "" [])
| y_ref a r s ps :
    yields (a || bool_decide (kind r = Atomic)) (body r) s ps -> yields a (Ref r) s (token a r s ps)
| y_seq a e1 e2 s1 w s2 p1 p2 :
    yields a e1 s1 p1 -> skipped a w -> yields a e2 s2 p2 -> yields a (Seq e1 e2) (s1 +:+ w +:+ s2) (p1 ++ p2)
| y_choice_l a e1 e2 s ps : yields a e1 s ps -> yields a (Choice e1 e2) s ps
| y_choice_r a e1 e2 s ps : yields a e2 s ps -> yields a (Choice e1 e2) s ps
| y_star_nil a e : yields a (Star e) "" []
| y_star_one a e s ps : yields a e s ps -> yields a (Star e) s ps
| y_star_cons a e s1 w s2 p1 p2 :
    yields a e s1 p1 -> skipped a w -> yields a (Star e) s2 p2 -> yields a (Star e) (s1 +:+ w +:+ s2) (p1 ++ p2)
| y_opt_none a e : yields a (Opt e) "" []
| y_opt_some a e s ps : yields a e s ps -> yields a (Opt e) s ps
| y_not a e : yields a (Not e) "" []
with skipped : bool -> string -> Prop :=
| skip_nil a : skipped a ""
| skip_cons s w ps : yields true (body Rule_WHITESPACE) s ps -> skipped false w -> skipped false (s +:+ w).

Scheme yields_ind' := Induction for yields Sort Prop
  with skipped_ind' := Induction for skipped Sort Prop.

(** The parser that pest derives: a list of pairs or an error message. *)
Class Pest := {
  pest_parse : Rule -> string -> list Pair + string;
  pest_tree r input pairs : pest_parse r input = inl pairs ->
    exists text rest, input = text +:+ rest /\ yields false (Ref r) text pairs
}.

(** ** An interpreter *)

(** The text after a prefix. *)
Fixpoint strip (prefix s : string) : option string :=
  match prefix, s with
  | EmptyString, _ => Some s
  | String c p, String d s' => if decide (c = d) then strip p s' else None
  | _, EmptyString => None
  end.

(** What was consumed, the rest and the pairs; [None] when the expression does not match. *)
Notation outcome := (option (string * string * list Pair)) (only parsing).

(** A match after other text and pairs. *)
Definition after (text : string) (pairs : list Pair) (m : outcome) : outcome :=
  match m with Some (s, rest, ps) => Some (text +:+ s, rest, pairs ++ ps) | None => None end.

Definition enclose (atomic : bool) (r : Rule) (m : outcome) : outcome :=
  match m with Some (s, rest, ps) => Some (s, rest, token atomic r s ps) | None => None end.

(** [Ok None] is a failure to match, [OutOfFuel] the end of the fuel. *)
Fixpoint peg (fuel : nat) (atomic : bool) (e : pexpr) (s : string) : result outcome :=
  match fuel with
  | O => OutOfFuel
  | S fuel' =>
      match e with
      | Str p => Ok ((fun rest => (p, rest, [])) <$> strip p s)
      | Char allowed =>
          Ok match s with
             | String c rest => if allowed c then Some (String c "", rest, []) else None
             | EmptyString => None
             end
      | Soi => Ok (Some ("", s, []))
      | Eoi => Ok match s with EmptyString => Some ("", "", token atomic Rule_EOI "" []) | _ => None end
      | Ref r =>
          m ← peg fuel' (atomic || bool_decide (kind r = Atomic)) (body r) s;
          Ok (enclose atomic r m)
      | Seq e1 e2 =>
          m1 ← peg fuel' atomic e1 s;
          match m1 with
          | None => Ok None
          | Some (s1, rest1, p1) =>
              '(w, rest2) ← skip fuel' atomic rest1;
              m2 ← peg fuel' atomic e2 rest2;
              Ok (after (s1 +:+ w) p1 m2)
          end
      | Choice e1 e2 =>
          m1 ← peg fuel' atomic e1 s;
          match m1 with None => peg fuel' atomic e2 s | Some _ => Ok m1 end
      | Star e1 =>
          m1 ← peg fuel' atomic e1 s;
          match m1 with
          | None => Ok (Some ("", s, []))
          | Some (s1, rest1, p1) =>
              '(w, rest2) ← skip fuel' atomic rest1;
              m2 ← peg fuel' atomic (Star e1) rest2;
              (* white space after the last repetition is given back *)
              Ok match m2 with
                 | Some (s2, _, _) =>
                     if decide (s2 = "") then m1 else after (s1 +:+ w) p1 m2
                 | None => m1
                 end
          end
      | Opt e1 =>
          m1 ← peg fuel' atomic e1 s;
          Ok match m1 with None => Some ("", s, []) | Some _ => m1 end
      | Not e1 =>
          m1 ← peg fuel' atomic e1 s;
          Ok match m1 with None => Some ("", s, []) | Some _ => None end
      end
  end
with skip (fuel : nat) (atomic : bool) (s : string) : result (string * string) :=
  match fuel with
  | O => OutOfFuel
  | S fuel' =>
      if atomic then Ok ("", s)
      else
        m ← peg fuel' true (body Rule_WHITESPACE) s;
        match m with
        | None => Ok ("", s)
        | Some (s1, rest1, _) => '(w, rest) ← skip fuel' false rest1; Ok (s1 +:+ w, rest)
        end
  end.

Definition peg_parse (r : Rule) (input : string) : list Pair + string :=
  match peg (100 + 50 * String.length input) false (Ref r) input with
  | Ok (Some (_, _, pairs)) => inl pairs
  | Ok None => inr "no match"
  | _ => inr "out of fuel"
  end.

Lemma strip_spec p s rest : strip p s = Some rest -> s = p +:+ rest.
Proof.
  revert s. induction p as [|c p IH]; intros s H; [by injection H as ->|].
  destruct s as [|d s]; [done|]. cbn [strip] in H. case_decide; [|done]. subst. change (String d s = String d (p +:+ rest)).
  by rewrite <-(IH s H).
Qed.

(** What is recognised is a prefix of the text and has a tree. *)
Definition recognised (atomic : bool) (e : pexpr) (s : string) (m : outcome) : Prop :=
  match m with Some (text, rest, ps) => s = text +:+ rest /\ yields atomic e text ps | None => True end.

Lemma peg_sound fuel :
  (forall a e s m, peg fuel a e s = Ok m -> recognised a e s m) /\
  (forall a s w rest, skip fuel a s = Ok (w, rest) -> s = w +:+ rest /\ skipped a w).
Proof.
  induction fuel as [|fuel [IHp IHs]]; [done|]. split.
  - intros a e s m H. cbn [peg] in H. destruct e as [p|allowed| | |r|e1 e2|e1 e2|e1|e1|e1]; inv_ok; unfold recognised.
    + destruct (strip p s) as [rest|] eqn:Es; [|done]. cbn. split; [by apply strip_spec|constructor].
    + destruct s as [|c s]; [done|]. destruct (allowed c) eqn:Ec; [|done]. split; [done|by constructor].
    + split; [done|constructor].
    + destruct s; [|done]. split; [done|constructor].
    + apply IHp in Ha. destruct a0 as [[[text rest] ps]|]; [|done]. destruct Ha as [-> Hy]. split; [done|by constructor].
    + apply IHp in Ha. destruct a0 as [[[s1 rest1] p1]|]; [|by inv_ok]. destruct Ha as [-> Hy1]. inv_ok.
      destruct a0 as [w rest2]. inv_ok. apply IHs in Ha as [-> Hw]. apply IHp in Ha0.
      destruct a0 as [[[s2 rest] p2]|]; [|done]. destruct Ha0 as [-> Hy2]. split; [by rewrite !string_app_assoc|rewrite <-string_app_assoc; by constructor].
    + apply IHp in Ha. destruct a0 as [[[s1 rest1] p1]|].
      * inv_ok. destruct Ha as [-> Hy]. split; [done|by constructor].
      * apply IHp in H. destruct m as [[[s2 rest2] p2]|]; [|done]. destruct H as [-> Hy]. split; [done|by apply y_choice_r].
    + apply IHp in Ha. destruct a0 as [[[s1 rest1] p1]|]; [|inv_ok; split; [done|constructor]]. destruct Ha as [-> Hy1].
      assert (Hone : s1 +:+ rest1 = s1 +:+ rest1 /\ yields a (Star e1) s1 p1) by (split; [done|by constructor]).
      inv_ok. destruct a0 as [w rest2]. inv_ok. apply IHs in Ha as [-> Hw]. apply IHp in Ha0.
      destruct a0 as [[[s2 rest] p2]|]; [|done]. case_decide; [done|]. destruct Ha0 as [-> Hy2].
      split; [by rewrite !string_app_assoc|rewrite <-string_app_assoc; by constructor].
    + apply IHp in Ha. destruct a0 as [[[s1 rest1] p1]|]; [|split; [done|constructor]]. destruct Ha as [-> Hy].
      split; [done|by constructor].
    + destruct a0; [done|]. split; [done|constructor].
  - intros a s w rest H. cbn [skip] in H. destruct a; [inv_ok; by split; [|constructor]|]. inv_ok. apply IHp in Ha.
    destruct a as [[[s1 rest1] p1]|]; [|inv_ok; by split; [|constructor]]. destruct Ha as [-> Hy]. inv_ok.
    destruct a as [w' rest']. inv_ok. apply IHs in Ha as [-> Hw]. split; [by rewrite string_app_assoc|by econstructor].
Qed.

Lemma peg_parse_tree r input pairs : peg_parse r input = inl pairs ->
  exists text rest, input = text +:+ rest /\ yields false (Ref r) text pairs.
Proof.
  unfold peg_parse. generalize (100 + 50 * String.length input)%nat as fuel. intros fuel H.
  destruct (peg fuel false (Ref r) input) as [m| |] eqn:E; [|done..]. apply (proj1 (peg_sound _)) in E.
  destruct m as [[[text rest] ps]|]; [|done]. injection H as ->. by exists text, rest.
Qed.

Definition peg_pest : Pest := {| pest_parse := peg_parse; pest_tree := peg_parse_tree |}.
