(* ===== verification/Peg.v ===== *)
(** * Parsing expressions, exactly

    [Grammar.yields] leaves the order of choices and what a lookahead forbids aside. Here
    [gives] is all that the interpreter [Grammar.peg] answers with enough fuel: ordered
    choices, greedy repetitions, lookaheads and implicit white space, with the rules to derive
    it. [ExactPest] is a parser that answers so, as pest documents of the parsers it derives. *)
From S2P Require Import Prelude Grammar.
From Stdlib Require Import Ascii.
Local Open Scope string_scope.
Local Open Scope list_scope.
Local Open Scope peg_scope.

Notation outcome := (option (string * string * list Pair)) (only parsing).

(** ** More fuel changes nothing *)
Lemma peg_mono fuel : forall fuel', (fuel <= fuel')%nat ->
  (forall a e s m, peg fuel a e s = Ok m -> peg fuel' a e s = Ok m) /\
  (forall a s m, skip fuel a s = Ok m -> skip fuel' a s = Ok m).
Proof.
  induction fuel as [|fuel IH]; [done|]. intros [|fuel'] Hle; [lia|].
  destruct (IH fuel' ltac:(lia)) as [IHp IHs]. split.
  - intros a e s m. cbn [peg]. destruct e as [p|allowed| | |r|e1 e2|e1 e2|e1|e1|e1]; try done; intros Hrun;
      apply bind_ok in Hrun as (m1 & H1 & Hrun); rewrite (IHp _ _ _ _ H1); cbn [mbind result_bind]; try done.
    + destruct m1 as [[[s1 r1] p1]|]; [|done]. apply bind_ok in Hrun as ([w r2] & H2 & Hrun). rewrite (IHs _ _ _ H2).
      cbn [mbind result_bind]. apply bind_ok in Hrun as (m2 & H3 & Hrun). by rewrite (IHp _ _ _ _ H3).
    + destruct m1; [done|by apply IHp].
    + destruct m1 as [[[s1 r1] p1]|]; [|done]. apply bind_ok in Hrun as ([w r2] & H2 & Hrun). rewrite (IHs _ _ _ H2).
      cbn [mbind result_bind]. apply bind_ok in Hrun as (m2 & H3 & Hrun). by rewrite (IHp _ _ _ _ H3).
  - intros a s m. cbn [skip]. destruct a; [done|]. intros Hrun. apply bind_ok in Hrun as (m1 & H1 & Hrun).
    rewrite (IHp _ _ _ _ H1). cbn [mbind result_bind]. destruct m1 as [[[s1 r1] p1]|]; [|done].
    apply bind_ok in Hrun as ([w r2] & H2 & Hrun). by rewrite (IHs _ _ _ H2).
Qed.

(** What an expression gives on a text, and what is skipped. *)
Definition gives (a : bool) (e : pexpr) (s : string) (m : outcome) : Prop := exists fuel, peg fuel a e s = Ok m.
Definition skips (a : bool) (s w rest : string) : Prop := exists fuel, skip fuel a s = Ok (w, rest).

Lemma gives_unique a e s m m' : gives a e s m -> gives a e s m' -> m = m'.
Proof.
  intros [f H] [f' H']. apply (proj1 (peg_mono f (f `max` f') ltac:(lia))) in H.
  apply (proj1 (peg_mono f' (f `max` f') ltac:(lia))) in H'. congruence.
Qed.

(** The parser that pest derives, exactly. *)
Class ExactPest `{Pest} := pest_exact r input pairs :
  pest_parse r input = inl pairs <-> exists text rest, gives false (Ref r) input (Some (text, rest, pairs)).

(** ** Rules *)

(** Two computations, and one after the other, with fuel for both. *)
Ltac with_fuel f :=
  exists (S f); cbn [peg skip];
  repeat match goal with
         | H : peg ?g _ _ _ = Ok _ |- _ => apply (proj1 (peg_mono g f ltac:(lia))) in H; rewrite H; clear H; cbn [mbind result_bind]
         | H : skip ?g _ _ = Ok _ |- _ => apply (proj2 (peg_mono g f ltac:(lia))) in H; rewrite H; clear H; cbn [mbind result_bind]
         end.

Lemma gives_str a p s : gives a (Str p) s ((fun rest => (p, rest, [])) <$> strip p s).
Proof. by exists 1%nat. Qed.

Lemma gives_char a (p : ascii -> bool) c s : p c = true -> gives a (Char p) (String c s) (Some (String c "", s, [])).
Proof. intros Hp. exists 1%nat. cbn. by rewrite Hp. Qed.

Lemma char_fails a (p : ascii -> bool) s : match s with String c _ => p c = false | "" => True end -> gives a (Char p) s None.
Proof. intros Hp. exists 1%nat. cbn. destruct s as [|c s]; [done|]. by rewrite Hp. Qed.

Lemma gives_ref a r s m : gives (a || bool_decide (kind r = Atomic)) (body r) s m -> gives a (Ref r) s (enclose a r m).
Proof. intros [f H]. with_fuel f. done. Qed.

Lemma ref_fails a r s : gives (a || bool_decide (kind r = Atomic)) (body r) s None -> gives a (Ref r) s None.
Proof. apply gives_ref. Qed.

Lemma gives_seq a e1 e2 s s1 r1 p1 w r2 m : gives a e1 s (Some (s1, r1, p1)) -> skips a r1 w r2 -> gives a e2 r2 m ->
  gives a (e1 ~~ e2) s (after (s1 +:+ w) p1 m).
Proof. intros [f H] [f' H'] [f'' H'']. with_fuel (f `max` (f' `max` f''))%nat. done. Qed.

Lemma seq_fails a e1 e2 s : gives a e1 s None -> gives a (e1 ~~ e2) s None.
Proof. intros [f H]. with_fuel f. done. Qed.

Lemma gives_first a e1 e2 s m : gives a e1 s (Some m) -> gives a (e1 </> e2) s (Some m).
Proof. intros [f H]. with_fuel f. done. Qed.

Lemma gives_second a e1 e2 s m : gives a e1 s None -> gives a e2 s m -> gives a (e1 </> e2) s m.
Proof. intros [f H] [f' H']. exists (S (f `max` f')). cbn [peg]. apply (proj1 (peg_mono f (f `max` f') ltac:(lia))) in H.
  rewrite H. cbn [mbind result_bind]. by apply (proj1 (peg_mono f' (f `max` f') ltac:(lia))). Qed.

Lemma gives_opt a e s m : gives a e s (Some m) -> gives a (Opt e) s (Some m).
Proof. intros [f H]. with_fuel f. done. Qed.

Lemma opt_nothing a e s : gives a e s None -> gives a (Opt e) s (Some ("", s, [])).
Proof. intros [f H]. with_fuel f. done. Qed.

Lemma star_nothing a e s : gives a e s None -> gives a (Star e) s (Some ("", s, [])).
Proof. intros [f H]. with_fuel f. done. Qed.

Lemma star_last a e s s1 r1 p1 w r2 : gives a e s (Some (s1, r1, p1)) -> skips a r1 w r2 -> gives a e r2 None ->
  gives a (Star e) s (Some (s1, r1, p1)).
Proof. intros H1 H2 H3%star_nothing. destruct H1 as [f H1], H2 as [f' H2], H3 as [f'' H3].
  with_fuel (f `max` (f' `max` f''))%nat. by rewrite decide_True. Qed.

Lemma star_more a e s s1 r1 p1 w r2 s2 r3 p2 : gives a e s (Some (s1, r1, p1)) -> skips a r1 w r2 ->
  gives a (Star e) r2 (Some (s2, r3, p2)) -> s2 <> "" ->
  gives a (Star e) s (Some ((s1 +:+ w) +:+ s2, r3, p1 ++ p2)).
Proof. intros [f H] [f' H'] [f'' H''] Hs. with_fuel (f `max` (f' `max` f''))%nat. by rewrite decide_False. Qed.

Lemma gives_not a e s : gives a e s None -> gives a (Not e) s (Some ("", s, [])).
Proof. intros [f H]. with_fuel f. done. Qed.

Lemma not_fails a e s m : gives a e s (Some m) -> gives a (Not e) s None.
Proof. intros [f H]. with_fuel f. done. Qed.

Lemma atomic_skips s : skips true s "" s.
Proof. by exists 1%nat. Qed.

Lemma str_fails a p s : strip p s = None -> gives a (Str p) s None.
Proof. intros H. exists 1%nat. cbn. by rewrite H. Qed.

Lemma strip_app p s : strip p (p +:+ s) = Some s.
Proof. induction p as [|c p IH]; [done|]. change (strip (String c p) (String c (p +:+ s)) = Some s). cbn [strip]. by rewrite decide_True. Qed.

Lemma str_gives a p s : gives a (Str p) (p +:+ s) (Some (p, s, [])).
Proof. exists 1%nat. cbn [peg]. by rewrite strip_app. Qed.

(** ** White space *)
Definition blank (c : ascii) : bool :=
  bool_decide (c = " "%char) || bool_decide (c = "009"%char) || bool_decide (c = "010"%char) || bool_decide (c = "013"%char).

(** The text starts with neither white space nor a comment. *)
Definition solid (s : string) : bool :=
  match s with
  | EmptyString => true
  | String c s' =>
      negb (blank c) &&
      negb (bool_decide (c = "/"%char) && match s' with String d _ => bool_decide (d = "/"%char) || bool_decide (d = "*"%char) | _ => false end)
  end.

Lemma strip_char c s d : c <> d -> strip (String c "") (String d s) = None.
Proof. intros Hc. cbn. by rewrite decide_False. Qed.

Lemma solid_stops s : solid s = true -> gives true (body Rule_WHITESPACE) s None.
Proof.
  intros Hs. change (body Rule_WHITESPACE) with (Str " " </> Str tab </> Str lf </> Str cr </> Ref Rule_COMMENT).
  assert (Hc : gives true (Ref Rule_COMMENT) s None).
  { apply ref_fails. apply gives_second; apply seq_fails, str_fails; (destruct s as [|c [|d s]]; [done|..]); cbn [strip];
      repeat case_decide; subst; done. }
  destruct s as [|c s].
  { repeat (apply gives_second; [by apply str_fails|]). done. }
  unfold solid, blank in Hs. repeat setoid_rewrite andb_true_iff in Hs. rewrite !negb_true_iff, !orb_false_iff, !bool_decide_eq_false in Hs.
  repeat (apply gives_second; [apply str_fails, strip_char; naive_solver|]). done.
Qed.

Lemma solid_skips s : solid s = true -> skips false s "" s.
Proof. intros [f H]%solid_stops. with_fuel f. done. Qed.

Lemma skips_more s s1 r1 p w rest : gives true (body Rule_WHITESPACE) s (Some (s1, r1, p)) -> skips false r1 w rest ->
  skips false s (s1 +:+ w) rest.
Proof. intros [f H] [f' H']. with_fuel (f `max` f')%nat. done. Qed.

Lemma space_skips s : solid s = true -> skips false (" " +:+ s) " " s.
Proof.
  intros Hs. apply (skips_more _ " " s [] ""); [|by apply solid_skips]. apply gives_first, str_gives.
Qed.

(** ** The interpreter always answers

    Every rule consumes something but the end of the input, no rule starts with itself, and
    nothing empty is repeated, so the depth of a match is bounded by the length of the text. *)
Definition empty_rule (r : Rule) : bool := match r with Rule_EOI | Rule_program => true | _ => false end.

Fixpoint nullable (e : pexpr) : bool :=
  match e with
  | Str s => match s with EmptyString => true | _ => false end
  | Char _ => false
  | Soi | Eoi => true
  | Ref r => empty_rule r
  | Seq e1 e2 => nullable e1 && nullable e2
  | Choice e1 e2 => nullable e1 || nullable e2
  | Star _ | Opt _ | Not _ => true
  end.

(** How deep a rule can go before it consumes something. *)
Definition level (r : Rule) : nat :=
  match r with
  | Rule_program => 37 | Rule_item => 33 | Rule_statement => 30 | Rule_arg_list | Rule_map_entry => 28 | Rule_expr => 26
  | Rule_equality => 25 | Rule_add => 23 | Rule_mul => 21 | Rule_primary => 19 | Rule_atom => 17 | Rule_int => 13
  | Rule_type_name => 9 | Rule_WHITESPACE | Rule_type_ref => 8 | Rule_struct_fields | Rule_param_list | Rule_equality_op => 6
  | Rule_struct_field | Rule_param | Rule_binding_stmt | Rule_call | Rule_struct_lit | Rule_struct_lit_field => 4
  | Rule_COMMENT | Rule_base_type | Rule_custom_type => 3
  | _ => 2
  end.

Definition skip_rank : nat := 10.
Fixpoint rank (e : pexpr) : nat :=
  match e with
  | Str _ | Char _ | Soi | Eoi => 1
  | Ref r => S (level r)
  | Seq e1 e2 => S (rank e1 `max` (if nullable e1 then rank e2 `max` skip_rank else 0))
  | Choice e1 e2 => S (rank e1 `max` rank e2)
  | Star e | Opt e | Not e => S (rank e)
  end.

Definition step_rank : nat := 50.
Fixpoint bounded (e : pexpr) : bool :=
  (rank e <=? step_rank)%nat &&
  match e with
  | Seq e1 e2 | Choice e1 e2 => bounded e1 && bounded e2
  | Star e => negb (nullable e) && bounded e
  | Opt e | Not e => bounded e
  | _ => true
  end.

Lemma rule_bounded r : bounded (body r) = true /\ (rank (body r) <= level r)%nat /\ (nullable (body r) = true -> empty_rule r = true).
Proof. destruct r; (split; [reflexivity|]); (split; [apply Nat.leb_le; reflexivity|done]). Qed.

Lemma bounded_rank e : bounded e = true -> (rank e <= step_rank)%nat.
Proof. destruct e; cbn [bounded]; rewrite andb_true_iff; intros [H%Nat.leb_le _]; exact H. Qed.

Lemma rank_pos e : (1 <= rank e)%nat.
Proof. destruct e; cbn; lia. Qed.

Lemma empty_app s t : s +:+ t = "" -> s = "" /\ t = "".
Proof. by destruct s. Qed.

(** What consumes nothing is nullable. *)
Lemma yields_nullable a e s ps : yields a e s ps -> s = "" -> nullable e = true.
Proof.
  induction 1 as [a s|a p c Hp|a|a|a r s ps Hy IH|a e1 e2 s1 w s2 p1 p2 H1 IH1 Hw H2 IH2|a e1 e2 s ps H IH|a e1 e2 s ps H IH| | | | | |];
    intros Es; cbn [nullable]; try done.
  - by subst.
  - by apply rule_bounded, IH.
  - apply empty_app in Es as [-> [_ ->]%empty_app]. by rewrite IH1, IH2.
  - by rewrite IH.
  - rewrite IH by done. by destruct (nullable e1).
Qed.

Lemma consumed fuel a e s t rest ps : peg fuel a e s = Ok (Some (t, rest, ps)) ->
  s = t +:+ rest /\ (nullable e = false -> (String.length rest < String.length s)%nat) /\ (String.length rest <= String.length s)%nat.
Proof.
  intros H. apply (proj1 (peg_sound fuel)) in H as [-> Hy]. rewrite string_length_app. split; [done|]. split; [|lia].
  intros Hn. destruct t as [|c t]; [|cbn; lia]. by rewrite (yields_nullable _ _ _ _ Hy eq_refl) in Hn.
Qed.

Lemma skipped_length fuel a s w rest : skip fuel a s = Ok (w, rest) -> (String.length rest <= String.length s)%nat.
Proof. intros H. apply (proj2 (peg_sound fuel)) in H as [-> _]. rewrite string_length_app. lia. Qed.

Lemma peg_total n :
  (forall a e s, bounded e = true -> (step_rank * String.length s + rank e <= n)%nat -> is_ok (peg n a e s)) /\
  (forall a s, (step_rank * String.length s + skip_rank <= n)%nat -> is_ok (skip n a s)).
Proof.
  unfold step_rank, skip_rank. induction n as [|n [IHp IHs]].
  { split; [intros a e s _ H; pose proof (rank_pos e); lia|intros a s H; lia]. }
  split.
  - intros a e s Hb Hn. cbn [peg]. destruct e as [p|allowed| | |r|e1 e2|e1 e2|e1|e1|e1]; pose proof Hb as Hself;
      cbn [bounded rank] in Hb, Hn; try apply andb_true_iff in Hb as [_ Hb]; try by eexists.
    + destruct (rule_bounded r) as (Hbr & Hr & _).
      destruct (IHp (a || bool_decide (kind r = Atomic)) (body r) s Hbr ltac:(lia)) as [m ->]. by eexists.
    + apply andb_true_iff in Hb as [Hb1 Hb2]. pose proof (bounded_rank _ Hb2) as Hr2. unfold step_rank, skip_rank in *.
      destruct (IHp a e1 s Hb1 ltac:(lia)) as [m E]. rewrite E. cbn [mbind result_bind].
      destruct m as [[[s1 r1] p1]|]; [|by eexists]. apply consumed in E as (_ & Hc & Hle).
      destruct (IHs a r1) as [[w r2] E']; [destruct (nullable e1); [lia|specialize (Hc eq_refl); lia]|]. rewrite E'.
      cbn [mbind result_bind]. apply skipped_length in E'.
      destruct (IHp a e2 r2 Hb2) as [m2 ->]; [destruct (nullable e1); [lia|specialize (Hc eq_refl); lia]|]. by eexists.
    + apply andb_true_iff in Hb as [Hb1 Hb2]. destruct (IHp a e1 s Hb1 ltac:(lia)) as [m ->]. cbn [mbind result_bind].
      destruct m; [by eexists|]. apply IHp; [done|lia].
    + apply andb_true_iff in Hb as [Hn1%negb_true_iff Hb]. pose proof (bounded_rank _ Hb) as Hr. unfold step_rank in *.
      destruct (IHp a e1 s Hb ltac:(lia)) as [m E]. rewrite E. cbn [mbind result_bind].
      destruct m as [[[s1 r1] p1]|]; [|by eexists]. apply consumed in E as (_ & Hc & Hle). specialize (Hc Hn1).
      destruct (IHs a r1 ltac:(lia)) as [[w r2] E']. rewrite E'. cbn [mbind result_bind]. apply skipped_length in E'.
      destruct (IHp a (Star e1) r2) as [m2 ->]; [done|cbn [rank]; lia|]. by eexists.
    + destruct (IHp a e1 s Hb ltac:(lia)) as [m ->]. by eexists.
    + destruct (IHp a e1 s Hb ltac:(lia)) as [m ->]. by eexists.
  - intros a s Hn. cbn [skip]. destruct a; [by eexists|]. assert (Hr : rank (body Rule_WHITESPACE) = 8%nat) by reflexivity.
    destruct (rule_bounded Rule_WHITESPACE) as [Hb _]. destruct (IHp true _ s Hb ltac:(lia)) as [m E]. rewrite E. cbn [mbind result_bind].
    destruct m as [[[s1 r1] p1]|]; [|by eexists]. apply consumed in E as (_ & Hc & Hle). specialize (Hc eq_refl).
    destruct (IHs false r1 ltac:(lia)) as [[w r2] ->]. by eexists.
Qed.

(** On every text, whether it belongs to the language or not. *)
Lemma peg_answers a r s : exists m, peg (100 + 50 * String.length s) a (Ref r) s = Ok m.
Proof.
  destruct (proj1 (peg_total (100 + 50 * String.length s)) a (Ref r) s) as [m Hm]; [by destruct r| |by exists m].
  assert (rank (Ref r) <= 100)%nat by (apply Nat.leb_le; by destruct r). unfold step_rank. lia.
Qed.

Lemma peg_pest_exact : @ExactPest peg_pest.
Proof.
  intros r input pairs. change (pest_parse r input) with (peg_parse r input). unfold peg_parse.
  destruct (peg_answers false r input) as [m E]. rewrite E. split.
  - destruct m as [[[text rest] ps]|]; [|done]. intros [= <-]. exists text, rest. by eexists.
  - intros (text & rest & Hg). assert (Hm : gives false (Ref r) input m) by by eexists.
    by rewrite (gives_unique _ _ _ _ _ Hm Hg).
Qed.
