(* ===== verification/Parser.v ===== *)
(** * The parser of the language

    Models dsl/src/ast.rs and dsl/src/parser.rs, which turns the token pairs of pest into
    syntax trees. A walker returns a Rust [Result]: a tree or an error message; it can also
    panic, where the code slices a string or asserts. The walkers call each other on pairs
    inside their argument, or on the argument itself; their fuel is twice the height of the
    tree, which [ParserSpec] shows to be enough. *)
From S2P Require Import Prelude Grammar.
From Stdlib Require Import Ascii.
Local Open Scope string_scope.
Local Open Scope list_scope.

(** ** Syntax trees *)
Inductive BinOp : Type :=
| BinOp_Add | BinOp_Sub | BinOp_Mul | BinOp_Div | BinOp_Eq | BinOp_Ne | BinOp_Gt | BinOp_Lt | BinOp_Ge | BinOp_Le.

Inductive Expr : Type :=
| Expr_Int (n : Z)
| Expr_Str (s : string)
| Expr_Ident (name : string)
| Expr_ArrayLit (elems : list Expr)
| Expr_MapLit (entries : list (Expr * Expr))
| Expr_StructLit (name : string) (fields : list (string * Expr))
| Expr_Call (name : string) (args : list Expr)
| Expr_SyncCall (name : string) (args : list Expr)
| Expr_MethodCall (receiver : Expr) (name : string) (args : list Expr)
| Expr_Binary (left : Expr) (op : BinOp) (right : Expr).

Inductive TypeName : Type :=
| TypeName_StringTy
| TypeName_I32
| TypeName_I64
| TypeName_Void
| TypeName_Array (t : TypeName)
| TypeName_Map (k v : TypeName)
| TypeName_Option (t : TypeName)
| TypeName_Custom (name : string).

#[export] Instance TypeName_eq_dec : EqDecision TypeName.
Proof. solve_decision. Defined.

Inductive Mutability : Type := Mutability_Immutable | Mutability_Mutable.

Record VarDecl := mkVarDecl { mutability : Mutability; var_name : string; var_ty : TypeName; init : option Expr }.

Inductive Statement : Type :=
| Statement_VarDecl (decl : VarDecl)
| Statement_Return (e : Expr)
| Statement_If (cond : Expr) (then_blk : Block) (else_blk : option Block)
| Statement_Expr (e : Expr)
with Block : Type :=
| mkBlock (statements : list Statement).

Record StructField := mkStructField { field_name : string; field_ty : TypeName }.
Record StructDef := mkStructDef { struct_name : string; fields : list StructField }.
Record Param := mkParam { param_name : string; param_ty : TypeName }.
Record FunctionDef := mkFunctionDef { func_name : string; params : list Param; ret : TypeName; func_body : Block }.

Inductive Item : Type :=
| Item_Struct (d : StructDef)
| Item_Function (f : FunctionDef)
| Item_Statement (s : Statement).

Record Program := mkProgram { items : list Item }.

(** ** Results *)

(** [Result<A, String>] of code that can panic. *)
Definition parsed (A : Type) : Type := result (string + A).

#[export] Instance parsed_ret : MRet parsed := fun A a => Ok (inr a).
#[export] Instance parsed_bind : MBind parsed := fun A B k m =>
  match m with
  | Ok (inr a) => k a
  | Ok (inl e) => Ok (inl e)
  | Panic msg => Panic msg
  | OutOfFuel => OutOfFuel
  end.

Definition err {A} (msg : string) : parsed A := Ok (inl msg).

(** [inner.next().ok_or_else(..)?]: the pair and those after it. *)
Definition next (msg : string) (inner : list Pair) : parsed (Pair * list Pair) :=
  match inner with p :: rest => mret (p, rest) | [] => err msg end.

(** A [for] loop that pushes what it parses of the pairs with one rule. *)
Fixpoint collect {A} (r : Rule) (parse : Pair -> parsed A) (pairs : list Pair) : parsed (list A) :=
  match pairs with
  | [] => mret []
  | p :: rest =>
      if decide (as_rule p = r) then
        x ← parse p;
        xs ← collect r parse rest;
        mret (x :: xs)
      else collect r parse rest
  end.

(** ** Integers *)

(** [str::parse::<i64>]. *)
Definition i64_min : Z := -2 ^ 63.
Definition i64_max : Z := 2 ^ 63 - 1.

Fixpoint digits (acc : Z) (s : string) : option Z :=
  match s with
  | EmptyString => Some acc
  | String c s' => if is_digit c then digits (acc * 10 + (Z.of_N (N_of_ascii c) - 48)) s' else None
  end.

Definition parse_i64 (s : string) : string + Z :=
  let '(negative, unsigned) :=
    match s with
    | String c s' => if decide (c = "-"%char) then (true, s') else if decide (c = "+"%char) then (false, s') else (false, s)
    | EmptyString => (false, s)
    end in
  match s, unsigned with
  | EmptyString, _ => inl "cannot parse integer from empty string"
  | _, EmptyString => inl "invalid digit found in string"
  | _, _ =>
      match digits 0 unsigned with
      | None => inl "invalid digit found in string"
      | Some n =>
          if negative then if decide (- n < i64_min)%Z then inl "number too small to fit in target type" else inr (- n)%Z
          else if decide (i64_max < n)%Z then inl "number too large to fit in target type" else inr n
      end
  end.

(** [&s[1..s.len() - 1]]. *)
Definition unquote (s : string) : parsed string :=
  if decide (2 <= String.length s)%nat then mret (String.substring 1 (String.length s - 2) s)
  else Panic "begin or end of the slice is out of range".

(** [{:?}] of a rule. *)
Definition debug_rule (r : Rule) : string :=
  match r with
  | Rule_EOI => "EOI"
  | Rule_WHITESPACE => "WHITESPACE"
  | Rule_COMMENT => "COMMENT"
  | Rule_program => "program"
  | Rule_item => "item"
  | Rule_struct_def => "struct_def"
  | Rule_struct_fields => "struct_fields"
  | Rule_struct_field => "struct_field"
  | Rule_function => "function"
  | Rule_param_list => "param_list"
  | Rule_param => "param"
  | Rule_block => "block"
  | Rule_statement => "statement"
  | Rule_binding_stmt => "binding_stmt"
  | Rule_binding_kind => "binding_kind"
  | Rule_return_stmt => "return_stmt"
  | Rule_if_stmt => "if_stmt"
  | Rule_expr => "expr"
  | Rule_equality => "equality"
  | Rule_equality_op => "equality_op"
  | Rule_add => "add"
  | Rule_add_op => "add_op"
  | Rule_mul => "mul"
  | Rule_mul_op => "mul_op"
  | Rule_primary => "primary"
  | Rule_atom => "atom"
  | Rule_method_call_suffix => "method_call_suffix"
  | Rule_call => "call"
  | Rule_sync_call => "sync_call"
  | Rule_arg_list => "arg_list"
  | Rule_array_lit => "array_lit"
  | Rule_map_lit => "map_lit"
  | Rule_map_entry => "map_entry"
  | Rule_struct_lit => "struct_lit"
  | Rule_struct_lit_field => "struct_lit_field"
  | Rule_type_name => "type_name"
  | Rule_type_ref => "type_ref"
  | Rule_base_type => "base_type"
  | Rule_array_type => "array_type"
  | Rule_map_type => "map_type"
  | Rule_option_type => "option_type"
  | Rule_custom_type => "custom_type"
  | Rule_type_ident => "type_ident"
  | Rule_identifier => "identifier"
  | Rule_string => "string"
  | Rule_int => "int"
  | Rule_comma_trailing => "comma_trailing"
  end.

(** ** Types *)
Fixpoint parse_type_ref (fuel : nat) (p : Pair) : parsed TypeName :=
  match fuel with
  | O => OutOfFuel
  | S fuel' =>
      match as_rule p with
      | Rule_base_type =>
          if decide (as_str p = "String") then mret TypeName_StringTy
          else if decide (as_str p = "i32") then mret TypeName_I32
          else if decide (as_str p = "i64") then mret TypeName_I64
          else err "unknown base type"
      | Rule_array_type =>
          '(inner, _) ← next "array_type: missing inner type" (into_inner p);
          t ← parse_type_ref fuel' inner;
          mret (TypeName_Array t)
      | Rule_map_type =>
          '(key, it) ← next "map_type: missing key" (into_inner p);
          key_t ← parse_type_ref fuel' key;
          '(val, _) ← next "map_type: missing value" it;
          val_t ← parse_type_ref fuel' val;
          mret (TypeName_Map key_t val_t)
      | Rule_option_type =>
          '(inner, _) ← next "option_type: missing inner type" (into_inner p);
          t ← parse_type_ref fuel' inner;
          mret (TypeName_Option t)
      | Rule_custom_type =>
          '(name, _) ← next "custom_type: missing ident" (into_inner p);
          mret (TypeName_Custom (as_str name))
      | Rule_type_ref =>
          '(inner, _) ← next "type_ref: missing inner" (into_inner p);
          parse_type_ref fuel' inner
      | r => err ("type_ref: unexpected rule " +:+ debug_rule r)
      end
  end.

Definition parse_type_name (fuel : nat) (p : Pair) : parsed TypeName :=
  '(inner, _) ← next "type_name: missing type_ref" (into_inner p);
  parse_type_ref fuel inner.

(** ** Expressions *)
Definition equality_op (o : Pair) : parsed BinOp :=
  match as_rule o with
  | Rule_equality_op =>
      if decide (as_str o = "==") then mret BinOp_Eq
      else if decide (as_str o = "!=") then mret BinOp_Ne
      else if decide (as_str o = ">") then mret BinOp_Gt
      else if decide (as_str o = "<") then mret BinOp_Lt
      else if decide (as_str o = ">=") then mret BinOp_Ge
      else if decide (as_str o = "<=") then mret BinOp_Le
      else err "equality: bad op"
  | _ => err "equality: expected op"
  end.

Definition add_op (o : Pair) : parsed BinOp :=
  match as_rule o with
  | Rule_add_op =>
      if decide (as_str o = "+") then mret BinOp_Add
      else if decide (as_str o = "-") then mret BinOp_Sub
      else err "add: bad op"
  | _ => err "add: expected op"
  end.

Definition mul_op (o : Pair) : parsed BinOp :=
  match as_rule o with
  | Rule_mul_op =>
      if decide (as_str o = "*") then mret BinOp_Mul
      else if decide (as_str o = "/") then mret BinOp_Div
      else err "mul: bad op"
  | _ => err "mul: expected op"
  end.

(** The [while] loop over the operators of one level. *)
Fixpoint operations (operator : Pair -> parsed BinOp) (operand : Pair -> parsed Expr) (missing : string)
    (left : Expr) (inner : list Pair) : parsed Expr :=
  match inner with
  | [] => mret left
  | op_or_rest :: rest =>
      op ← operator op_or_rest;
      match rest with
      | [] => err missing
      | rhs_pair :: rest' =>
          rhs ← operand rhs_pair;
          operations operator operand missing (Expr_Binary left op rhs) rest'
      end
  end.

(** One level of operators, applied from the left. *)
Definition level (operator : Pair -> parsed BinOp) (operand : Pair -> parsed Expr) (no_left no_right : string) (p : Pair)
    : parsed Expr :=
  '(first, inner) ← next no_left (into_inner p);
  left ← operand first;
  operations operator operand no_right left inner.

(** The calls after a receiver. *)
Fixpoint method_calls (call : Pair -> parsed Expr) (expr : Expr) (inner : list Pair) : parsed Expr :=
  match inner with
  | [] => mret expr
  | p :: rest =>
      match as_rule p with
      | Rule_method_call_suffix =>
          '(call_pair, _) ← next "method: missing call" (into_inner p);
          call_expr ← call call_pair;
          match call_expr with
          | Expr_Call name args => method_calls call (Expr_MethodCall expr name args) rest
          | _ => err "method: expected call"
          end
      | _ => method_calls call expr rest
      end
  end.

Definition parse_map_entry (parse_expr : Pair -> parsed Expr) (p : Pair) : parsed (Expr * Expr) :=
  '(key, m) ← next "map_entry: missing key" (into_inner p);
  k ← parse_expr key;
  '(val, _) ← next "map_entry: missing value" m;
  v ← parse_expr val;
  mret (k, v).

Definition parse_struct_lit_field (parse_expr : Pair -> parsed Expr) (p : Pair) : parsed (string * Expr) :=
  '(name, field_inner) ← next "struct_lit_field: missing name" (into_inner p);
  '(val, _) ← next "struct_lit_field: missing value" field_inner;
  v ← parse_expr val;
  mret (as_str name, v).

(** The arguments of a call, if there are any. *)
Definition parse_args (parse_expr : Pair -> parsed Expr) (inner : list Pair) : parsed (list Expr) :=
  match inner with
  | a :: _ => if decide (as_rule a = Rule_arg_list) then collect Rule_expr parse_expr (into_inner a) else mret []
  | [] => mret []
  end.

Section walkers.
Context `{Profile}.

(** The [debug_assert_eq!] of [parse_expr] is checked where overflows are: cargo's profiles set
    the two alike. *)
Fixpoint parse_expr (fuel : nat) (p : Pair) : parsed Expr :=
  match fuel with
  | O => OutOfFuel
  | S fuel' =>
      if overflow_checks && negb (bool_decide (as_rule p = Rule_expr)) then Panic "assertion `left == right` failed"
      else
        '(equality, _) ← next "expr: missing equality" (into_inner p);
        parse_equality fuel' equality
  end
with parse_equality (fuel : nat) (p : Pair) : parsed Expr :=
  match fuel with
  | O => OutOfFuel
  | S fuel' => level equality_op (parse_add fuel') "equality: missing left" "equality: missing right" p
  end
with parse_add (fuel : nat) (p : Pair) : parsed Expr :=
  match fuel with
  | O => OutOfFuel
  | S fuel' => level add_op (parse_mul fuel') "add: missing left" "add: missing right" p
  end
with parse_mul (fuel : nat) (p : Pair) : parsed Expr :=
  match fuel with
  | O => OutOfFuel
  | S fuel' => level mul_op (parse_primary fuel') "mul: missing left" "mul: missing right" p
  end
with parse_primary (fuel : nat) (p : Pair) : parsed Expr :=
  match fuel with
  | O => OutOfFuel
  | S fuel' =>
      match as_rule p with
      | Rule_primary =>
          '(first, inner) ← next "primary: empty" (into_inner p);
          expr ← parse_primary fuel' first;
          method_calls (parse_call fuel') expr inner
      | Rule_atom =>
          '(first, _) ← next "atom: empty" (into_inner p);
          parse_primary fuel' first
      | Rule_call => parse_call fuel' p
      | Rule_sync_call => parse_sync_call fuel' p
      | Rule_identifier => mret (Expr_Ident (as_str p))
      | Rule_int =>
          match parse_i64 (as_str p) with
          | inr n => mret (Expr_Int n)
          | inl e => err ("invalid int: " +:+ e)
          end
      | Rule_string => s ← unquote (as_str p); mret (Expr_Str s)
      | Rule_array_lit => parse_array_lit fuel' p
      | Rule_map_lit => parse_map_lit fuel' p
      | Rule_struct_lit => parse_struct_lit fuel' p
      | Rule_expr => parse_expr fuel' p
      | r => err ("primary: unexpected rule " +:+ debug_rule r)
      end
  end
with parse_call (fuel : nat) (p : Pair) : parsed Expr :=
  match fuel with
  | O => OutOfFuel
  | S fuel' =>
      '(name, inner) ← next "call: missing name" (into_inner p);
      args ← parse_args (parse_expr fuel') inner;
      mret (Expr_Call (as_str name) args)
  end
with parse_sync_call (fuel : nat) (p : Pair) : parsed Expr :=
  match fuel with
  | O => OutOfFuel
  | S fuel' =>
      '(call_pair, _) ← next "sync_call: missing call" (into_inner p);
      call_expr ← parse_call fuel' call_pair;
      match call_expr with
      | Expr_Call name args => mret (Expr_SyncCall name args)
      | _ => err "sync_call: expected call"
      end
  end
with parse_array_lit (fuel : nat) (p : Pair) : parsed Expr :=
  match fuel with
  | O => OutOfFuel
  | S fuel' => elems ← collect Rule_expr (parse_expr fuel') (into_inner p); mret (Expr_ArrayLit elems)
  end
with parse_map_lit (fuel : nat) (p : Pair) : parsed Expr :=
  match fuel with
  | O => OutOfFuel
  | S fuel' =>
      entries ← collect Rule_map_entry (parse_map_entry (parse_expr fuel')) (into_inner p);
      mret (Expr_MapLit entries)
  end
with parse_struct_lit (fuel : nat) (p : Pair) : parsed Expr :=
  match fuel with
  | O => OutOfFuel
  | S fuel' =>
      '(name, inner) ← next "struct_lit: missing name" (into_inner p);
      fields ← collect Rule_struct_lit_field (parse_struct_lit_field (parse_expr fuel')) inner;
      mret (Expr_StructLit (as_str name) fields)
  end.

(** ** Statements *)
Definition parse_binding_stmt (fuel : nat) (p : Pair) : parsed VarDecl :=
  '(kind, inner) ← next "binding: missing kind" (into_inner p);
  mutability ← (if decide (as_str kind = "let") then mret Mutability_Immutable
                else if decide (as_str kind = "var") then mret Mutability_Mutable
                else err "binding: invalid kind" : parsed Mutability);
  '(name, inner) ← next "binding: missing name" inner;
  '(ty_pair, inner) ← next "binding: missing type" inner;
  ty ← parse_type_name fuel ty_pair;
  init ← (match inner with
          | expr_or_rest :: _ => e ← parse_expr fuel expr_or_rest; mret (Some e)
          | [] => mret None
          end : parsed (option Expr));
  mret (mkVarDecl mutability (as_str name) ty init).

Fixpoint parse_statement (fuel : nat) (p : Pair) : parsed Statement :=
  match fuel with
  | O => OutOfFuel
  | S fuel' =>
      '(p, _) ← next "statement: missing inner" (into_inner p);
      match as_rule p with
      | Rule_binding_stmt => decl ← parse_binding_stmt fuel' p; mret (Statement_VarDecl decl)
      | Rule_return_stmt =>
          '(expr_pair, _) ← next "return: missing expr" (into_inner p);
          expr ← parse_expr fuel' expr_pair;
          mret (Statement_Return expr)
      | Rule_if_stmt => parse_if_stmt fuel' p
      | Rule_expr => expr ← parse_expr fuel' p; mret (Statement_Expr expr)
      | r => err ("statement: unexpected rule " +:+ debug_rule r)
      end
  end
with parse_if_stmt (fuel : nat) (p : Pair) : parsed Statement :=
  match fuel with
  | O => OutOfFuel
  | S fuel' =>
      '(cond_pair, inner) ← next "if: missing condition" (into_inner p);
      cond ← parse_expr fuel' cond_pair;
      '(then_pair, inner) ← next "if: missing then block" inner;
      then_blk ← parse_block fuel' then_pair;
      else_blk ← (match inner with
                  | n :: _ => b ← parse_block fuel' n; mret (Some b)
                  | [] => mret None
                  end : parsed (option Block));
      mret (Statement_If cond then_blk else_blk)
  end
with parse_block (fuel : nat) (p : Pair) : parsed Block :=
  match fuel with
  | O => OutOfFuel
  | S fuel' => statements ← collect Rule_statement (parse_statement fuel') (into_inner p); mret (mkBlock statements)
  end.

(** ** Items *)
Definition parse_struct_field (fuel : nat) (p : Pair) : parsed StructField :=
  '(name, inner) ← next "struct_field: missing name" (into_inner p);
  '(ty_pair, _) ← next "struct_field: missing type" inner;
  ty ← parse_type_name fuel ty_pair;
  mret (mkStructField (as_str name) ty).

Definition parse_struct_def (fuel : nat) (p : Pair) : parsed StructDef :=
  '(name, inner) ← next "struct_def: missing name" (into_inner p);
  fields ← (match inner with
            | fields_pair :: _ =>
                if decide (as_rule fields_pair = Rule_struct_fields)
                then collect Rule_struct_field (parse_struct_field fuel) (into_inner fields_pair) else mret []
            | [] => mret []
            end : parsed (list StructField));
  mret (mkStructDef (as_str name) fields).

Definition parse_param (fuel : nat) (p : Pair) : parsed Param :=
  '(name, inner) ← next "param: missing name" (into_inner p);
  '(ty_pair, _) ← next "param: missing type" inner;
  ty ← parse_type_name fuel ty_pair;
  mret (mkParam (as_str name) ty).

Definition parse_function (fuel : nat) (p : Pair) : parsed FunctionDef :=
  '(name, inner) ← next "function: missing name" (into_inner p);
  '(n, inner) ← next "function: missing after name" inner;
  '(params, n, inner) ←
    (if decide (as_rule n = Rule_param_list) then
       params ← collect Rule_param (parse_param fuel) (into_inner n);
       '(n, inner) ← next "function: missing after params" inner;
       mret (params, n, inner)
     else mret ([], n, inner) : parsed (list Param * Pair * list Pair));
  '(ret_ty, n) ←
    (match as_rule n with
     | Rule_type_name =>
         ret ← parse_type_name fuel n;
         '(n, _) ← next "function: missing body block" inner;
         mret (ret, n)
     | Rule_block => mret (TypeName_Void, n)
     | _ => err "function: unexpected token after params"
     end : parsed (TypeName * Pair));
  body ← parse_block fuel n;
  mret (mkFunctionDef (as_str name) params ret_ty body).

Definition parse_item (fuel : nat) (p : Pair) : parsed Item :=
  '(p, _) ← next "item: missing inner" (into_inner p);
  match as_rule p with
  | Rule_struct_def => d ← parse_struct_def fuel p; mret (Item_Struct d)
  | Rule_function => f ← parse_function fuel p; mret (Item_Function f)
  | Rule_statement => s ← parse_statement fuel p; mret (Item_Statement s)
  | _ => err "item: unexpected rule"
  end.

(** The height of a tree. *)
Fixpoint height (p : Pair) : nat := S (fold_right (fun q n => Nat.max (height q) n) 0%nat (into_inner p)).

Definition parse_program `{Pest} (input : string) : parsed Program :=
  match pest_parse Rule_program input with
  | inr e => err e
  | inl pairs =>
      '(root, _) ← next "program: missing root" pairs;
      items ← collect Rule_item (parse_item (2 * height root)) (into_inner root);
      mret (mkProgram items)
  end.
End walkers.
