(* ===== verification/ParserTests.v ===== *)
(** * Tests of the parser

    dsl/src/parsed_ast_test.rs: the inputs and the trees the crate's tests expect, checked
    with [peg_pest] as the parser that pest derives. *)
From S2P Require Import Prelude Grammar Parser.
Local Open Scope string_scope.
Local Open Scope list_scope.
Local Open Scope Z_scope.

Definition parse_program_input : string :=
  "
        fn factorial(n: i32) -> i32 {
            if n <= 1 {
                return 1
            }
            return n * factorial(n - 1)
        }

        fn multiply(a: i32, b: i32) -> i32 {
          return a * b
        }

        fn noReturnFunction(a: i32) {
          print(a)
        }

        // calls and expression assignment
        let six: i32 = multiply(2,3)
        let result: i32 = factorial(five)

        struct Account {
          id: String,
          amount: i64,
        }

        struct User {
            email: String,
            age: i32,
            bank_account: Account,
            some_array: []i32,
            some_map: map[i32]String
        }

        let users: []User
        var index: map[String]User = {}
    ".

Definition parse_program_expected : Program :=
  mkProgram [Item_Function
               (mkFunctionDef "factorial" [mkParam "n" TypeName_I32] TypeName_I32
                 (mkBlock [Statement_If
                             (Expr_Binary (Expr_Ident "n") BinOp_Le (Expr_Int 1))
                             (mkBlock [Statement_Return (Expr_Int 1)])
                             None;
                           Statement_Return
                             (Expr_Binary (Expr_Ident "n") BinOp_Mul
                               (Expr_Call "factorial" [Expr_Binary (Expr_Ident "n") BinOp_Sub (Expr_Int 1)]))]));
             Item_Function
               (mkFunctionDef "multiply"
                 [mkParam "a" TypeName_I32; mkParam "b" TypeName_I32]
                 TypeName_I32
                 (mkBlock [Statement_Return (Expr_Binary (Expr_Ident "a") BinOp_Mul (Expr_Ident "b"))]));
             Item_Function
               (mkFunctionDef "noReturnFunction" [mkParam "a" TypeName_I32] TypeName_Void
                 (mkBlock [Statement_Expr (Expr_Call "print" [Expr_Ident "a"])]));
             Item_Statement
               (Statement_VarDecl
                 (mkVarDecl Mutability_Immutable "six" TypeName_I32
                   (Some (Expr_Call "multiply" [Expr_Int 2; Expr_Int 3]))));
             Item_Statement
               (Statement_VarDecl
                 (mkVarDecl Mutability_Immutable "result" TypeName_I32
                   (Some (Expr_Call "factorial" [Expr_Ident "five"]))));
             Item_Struct
               (mkStructDef "Account"
                 [mkStructField "id" TypeName_StringTy; mkStructField "amount" TypeName_I64]);
             Item_Struct
               (mkStructDef "User"
                 [mkStructField "email" TypeName_StringTy;
                  mkStructField "age" TypeName_I32;
                  mkStructField "bank_account" (TypeName_Custom "Account");
                  mkStructField "some_array" (TypeName_Array TypeName_I32);
                  mkStructField "some_map" (TypeName_Map TypeName_I32 TypeName_StringTy)]);
             Item_Statement
               (Statement_VarDecl
                 (mkVarDecl Mutability_Immutable "users" (TypeName_Array (TypeName_Custom "User")) None));
             Item_Statement
               (Statement_VarDecl
                 (mkVarDecl Mutability_Mutable "index"
                   (TypeName_Map TypeName_StringTy (TypeName_Custom "User"))
                   (Some (Expr_MapLit []))))].

Example test_parse_program : @parse_program dev_profile peg_pest parse_program_input =
  mret parse_program_expected.
Proof. vm_compute. reflexivity. Qed.

Definition expression_in_statement_input : string :=
  "
        let s: i32 = 10
        if s == 5 {
          let a: i32 = 10 + s
          print(a)
        } else {
          print(4)
        }
    ".

Definition expression_in_statement_expected : Program :=
  mkProgram [Item_Statement
               (Statement_VarDecl (mkVarDecl Mutability_Immutable "s" TypeName_I32 (Some (Expr_Int 10))));
             Item_Statement
               (Statement_If
                 (Expr_Binary (Expr_Ident "s") BinOp_Eq (Expr_Int 5))
                 (mkBlock [Statement_VarDecl
                             (mkVarDecl Mutability_Immutable "a" TypeName_I32
                               (Some (Expr_Binary (Expr_Int 10) BinOp_Add (Expr_Ident "s"))));
                           Statement_Expr (Expr_Call "print" [Expr_Ident "a"])])
                 (Some (mkBlock [Statement_Expr (Expr_Call "print" [Expr_Int 4])])))].

Example test_expression_in_statement : @parse_program dev_profile peg_pest expression_in_statement_input =
  mret expression_in_statement_expected.
Proof. vm_compute. reflexivity. Qed.

Definition function_without_return_type_input : string :=
  "
        fn print_hello() {
            print(" +:+ dquote +:+
   "Hello" +:+ dquote +:+
   ")
        }
    ".

Definition function_without_return_type_expected : Program :=
  mkProgram [Item_Function
               (mkFunctionDef "print_hello" [] TypeName_Void
                 (mkBlock [Statement_Expr (Expr_Call "print" [Expr_Str "Hello"])]))].

Example test_function_without_return_type : @parse_program dev_profile peg_pest function_without_return_type_input =
  mret function_without_return_type_expected.
Proof. vm_compute. reflexivity. Qed.

Definition function_struct_construction_input : string :=
  "
        struct User {
          id: String,
          email: String,
          age: i32,
        }

        let id: String = " +:+ dquote +:+
   "123" +:+ dquote +:+
   "
        let email: String = " +:+ dquote +:+
   "test@test.com" +:+ dquote +:+
   "
        let age: i32 = 10

        let my_user: User = User { id: id, email: email, age: age }
        // map construction still work
        let my_map: map[String]i32 = { " +:+ dquote +:+
   "key" +:+ dquote +:+
   ": 42 }

        my_map.get(" +:+ dquote +:+
   "key" +:+ dquote +:+
   ")
    ".

Definition function_struct_construction_expected : Program :=
  mkProgram [Item_Struct
               (mkStructDef "User"
                 [mkStructField "id" TypeName_StringTy;
                  mkStructField "email" TypeName_StringTy;
                  mkStructField "age" TypeName_I32]);
             Item_Statement
               (Statement_VarDecl
                 (mkVarDecl Mutability_Immutable "id" TypeName_StringTy (Some (Expr_Str "123"))));
             Item_Statement
               (Statement_VarDecl
                 (mkVarDecl Mutability_Immutable "email" TypeName_StringTy (Some (Expr_Str "test@test.com"))));
             Item_Statement
               (Statement_VarDecl (mkVarDecl Mutability_Immutable "age" TypeName_I32 (Some (Expr_Int 10))));
             Item_Statement
               (Statement_VarDecl
                 (mkVarDecl Mutability_Immutable "my_user" (TypeName_Custom "User")
                   (Some
                     (Expr_StructLit "User"
                       [("id", Expr_Ident "id"); ("email", Expr_Ident "email"); ("age", Expr_Ident "age")]))));
             Item_Statement
               (Statement_VarDecl
                 (mkVarDecl Mutability_Immutable "my_map"
                   (TypeName_Map TypeName_StringTy TypeName_I32)
                   (Some (Expr_MapLit [(Expr_Str "key", Expr_Int 42)]))));
             Item_Statement (Statement_Expr (Expr_MethodCall (Expr_Ident "my_map") "get" [Expr_Str "key"]))].

Example test_function_struct_construction : @parse_program dev_profile peg_pest function_struct_construction_input =
  mret function_struct_construction_expected.
Proof. vm_compute. reflexivity. Qed.

Definition syn_function_call_input : string :=
  "
        fn someFunction() {
          let i: i32 = sync randomGenerator()
        }
    ".

Definition syn_function_call_expected : Program :=
  mkProgram [Item_Function
               (mkFunctionDef "someFunction" [] TypeName_Void
                 (mkBlock [Statement_VarDecl
                             (mkVarDecl Mutability_Immutable "i" TypeName_I32
                               (Some (Expr_SyncCall "randomGenerator" [])))]))].

Example test_syn_function_call : @parse_program dev_profile peg_pest syn_function_call_input =
  mret syn_function_call_expected.
Proof. vm_compute. reflexivity. Qed.

Definition option_types_input : string :=
  "
        fn findUser(id: String) -> Option<User> {
          return users.get(id)
        }

        fn findNumber() -> Option<i32> {
          return None
        }

        let maybe_string: Option<String>
    ".

Definition option_types_expected : Program :=
  mkProgram [Item_Function
               (mkFunctionDef "findUser" [mkParam "id" TypeName_StringTy]
                 (TypeName_Option (TypeName_Custom "User"))
                 (mkBlock [Statement_Return (Expr_MethodCall (Expr_Ident "users") "get" [Expr_Ident "id"])]));
             Item_Function
               (mkFunctionDef "findNumber" [] (TypeName_Option TypeName_I32)
                 (mkBlock [Statement_Return (Expr_Ident "None")]));
             Item_Statement
               (Statement_VarDecl
                 (mkVarDecl Mutability_Immutable "maybe_string" (TypeName_Option TypeName_StringTy) None))].

Example test_option_types : @parse_program dev_profile peg_pest option_types_input =
  mret option_types_expected.
Proof. vm_compute. reflexivity. Qed.

Definition nested_option_types_input : string :=
  "
        fn test() -> Option<Option<String>> {
          return None
        }
    ".

Definition nested_option_types_expected : Program :=
  mkProgram [Item_Function
               (mkFunctionDef "test" []
                 (TypeName_Option (TypeName_Option TypeName_StringTy))
                 (mkBlock [Statement_Return (Expr_Ident "None")]))].

Example test_nested_option_types : @parse_program dev_profile peg_pest nested_option_types_input =
  mret nested_option_types_expected.
Proof. vm_compute. reflexivity. Qed.


(** ** Words and their boundaries

    The grammar has no word boundaries: a keyword or the name of a base type also matches at
    the start of a longer word, and an expression before a block may take the block. *)
Definition reads_as (input : string) (its : list Item) : Prop :=
  @parse_program dev_profile peg_pest input = mret (mkProgram its).

Definition var_of (name : string) (ty : TypeName) : Item :=
  Item_Statement (Statement_VarDecl (mkVarDecl Mutability_Immutable name ty None)).
Definition expr_of (e : Expr) : Item := Item_Statement (Statement_Expr e).

(** A name that starts with a keyword is the keyword and a shorter name. *)
Example keyword_prefixes :
  reads_as "returned" [Item_Statement (Statement_Return (Expr_Ident "ed"))] /\
  reads_as "letter : i32" [var_of "ter" TypeName_I32] /\
  reads_as "syncing(1)" [expr_of (Expr_SyncCall "ing" [Expr_Int 1])].
Proof. split_and!; vm_compute; reflexivity. Qed.

(** A type whose name starts with the name of a base type is the base type; what is left of
    the name is the next statement, or, in a structure, makes the declaration two expressions. *)
Example type_name_prefixes :
  reads_as "let a : Stringy" [var_of "a" TypeName_StringTy; expr_of (Expr_Ident "y")] /\
  reads_as "struct X { a : Stringy }" [expr_of (Expr_Ident "struct"); expr_of (Expr_StructLit "X" [("a", Expr_Ident "Stringy")])].
Proof. split_and!; vm_compute; reflexivity. Qed.

(** A condition that ends with a name before an empty block takes the block: the statement
    is read as the name [if] and a comparison with an empty structure. *)
Example empty_block_is_structure :
  reads_as "if a == b { }" [expr_of (Expr_Ident "if"); expr_of (Expr_Binary (Expr_Ident "a") BinOp_Eq (Expr_StructLit "b" []))] /\
  reads_as "if a == b { f() }" [Item_Statement (Statement_If (Expr_Binary (Expr_Ident "a") BinOp_Eq (Expr_Ident "b"))
                                 (mkBlock [Statement_Expr (Expr_Call "f" [])]) None)].
Proof. split_and!; vm_compute; reflexivity. Qed.
