(* ===== verification/ParserSpec.v ===== *)
(** * The parser on trees of the grammar

    The walkers of [Parser] and the grammar fit together: on what pest returns, no walker
    runs into one of its messages about missing or unexpected pairs, panics or runs out of
    fuel; the only error left is an integer out of range. *)
From S2P Require Import Prelude Grammar Parser.
From Stdlib Require Import Ascii.
Local Open Scope string_scope.
Local Open Scope list_scope.

(** ** Shapes of trees *)

(** A pair is a tree of its rule. *)
Definition tree (p : Pair) : Prop :=
  match kind (as_rule p) with
  | Normal => yields false (body (as_rule p)) (as_str p) (into_inner p)
  | Atomic => into_inner p = [] /\ exists ps, yields true (body (as_rule p)) (as_str p) ps
  | Silent => False
  end.

Definition of_rule (r : Rule) (p : Pair) : Prop := as_rule p = r /\ tree p.

(** The pairs an expression can give. *)
Definition inside (e : pexpr) (ps : list Pair) : Prop := exists s, yields false e s ps.

Lemma inside_str s ps : inside (Str s) ps -> ps = [].
Proof. intros [t H]. by inversion H. Qed.

Lemma inside_ref r ps : inside (Ref r) ps -> kind r <> Silent -> exists p, ps = [p] /\ of_rule r p.
Proof.
  intros [s H] Hk. inversion H as [| | | |a r' s' qs Hy Ea Er Es Ep| | | | | | | | |]; subst. unfold token.
  destruct (kind r) eqn:E; [..|].
  - eexists. split; [done|]. split; [done|]. unfold tree. cbn. rewrite E in *.
    rewrite bool_decide_eq_false_2 in Hy by done. exact Hy.
  - done.
  - eexists. split; [done|]. split; [done|]. unfold tree. cbn. rewrite E in *. split; [done|]. rewrite bool_decide_eq_true_2 in Hy by done.
    by exists qs.
Qed.

Lemma inside_silent r ps : inside (Ref r) ps -> kind r = Silent -> inside (body r) ps.
Proof.
  intros [s H] Hk. inversion H as [| | | |a r' s' qs Hy Ea Er Es Ep| | | | | | | | |]; subst. unfold token.
  rewrite Hk in *. exists s. by rewrite bool_decide_eq_false_2 in Hy.
Qed.

Lemma inside_seq e1 e2 ps : inside (Seq e1 e2) ps -> exists p1 p2, ps = p1 ++ p2 /\ inside e1 p1 /\ inside e2 p2.
Proof. intros [s H]. inversion H; subst. eexists _, _. split; [done|]. by split; eexists. Qed.

Lemma inside_choice e1 e2 ps : inside (Choice e1 e2) ps -> inside e1 ps \/ inside e2 ps.
Proof. intros [s H]. inversion H; subst; [left|right]; by eexists. Qed.

Lemma inside_opt e ps : inside (Opt e) ps -> ps = [] \/ inside e ps.
Proof. intros [s H]. inversion H; subst; [by left|right]. by eexists. Qed.

Lemma inside_star e ps : inside (Star e) ps -> exists pss, ps = concat pss /\ Forall (inside e) pss.
Proof.
  intros [s H]. remember false as a eqn:Ea. remember (Star e) as f eqn:Ef. revert Ea Ef.
  induction H as [| | | | | | | |a e'|a e' s ps Hy _|a e' s1 w s2 p1 p2 Hy _ _ _ IH| | |]; intros Ea Ef; try discriminate Ef;
    injection Ef as ->; subst.
  - by exists [].
  - exists [ps]. cbn. rewrite app_nil_r. split; [done|]. constructor; [by exists s|constructor].
  - destruct (IH eq_refl eq_refl) as (pss & -> & Hpss). exists (p1 :: pss). split; [done|]. constructor; [by exists s1|done].
Qed.

Lemma inside_refs r ps : inside (Star (Ref r)) ps -> kind r <> Silent -> Forall (of_rule r) ps.
Proof.
  intros (pss & -> & Hf)%inside_star Hk. induction Hf as [|qs pss Hq Hf IH]; cbn; [constructor|].
  apply inside_ref in Hq as (p & -> & Hp); [|done]. by constructor.
Qed.

Lemma inside_comma_list r ps : inside (comma_list r) ps -> kind r <> Silent -> Forall (of_rule r) ps.
Proof.
  intros Hi Hk. unfold comma_list in Hi. apply inside_seq in Hi as (p1 & p2 & -> & H1 & H2).
  apply inside_seq in H2 as (p3 & p4 & -> & H3 & H4). apply inside_ref in H1 as (p & -> & Hp); [|done].
  assert (p4 = []) as ->.
  { apply inside_opt in H4 as [->|H4]; [done|]. apply inside_silent in H4; [|done]. by apply inside_str in H4. }
  rewrite app_nil_r. constructor; [done|]. apply inside_star in H3 as (pss & -> & Hf).
  induction Hf as [|qs pss Hq Hf IH]; cbn; [constructor|]. apply inside_seq in Hq as (q1 & q2 & -> & Hq1 & Hq2).
  apply inside_str in Hq1 as ->. apply inside_ref in Hq2 as (q & -> & Hq); [|done]. by constructor.
Qed.

(** The pairs a type can be. *)
Definition type_pair (p : Pair) : Prop :=
  of_rule Rule_base_type p \/ of_rule Rule_array_type p \/ of_rule Rule_map_type p \/ of_rule Rule_option_type p \/
  of_rule Rule_custom_type p.

Lemma inside_type ps : inside (Ref Rule_type_ref) ps -> exists p, ps = [p] /\ type_pair p.
Proof.
  intros H%inside_silent; [|done]. cbn [body grammar snd] in H. unfold type_pair.
  repeat apply inside_choice in H as [H|H]; apply inside_ref in H as (p & -> & Hp); try done; exists p; (split; [done|tauto]).
Qed.

(** Takes the shape of the inside of a tree apart. *)
Ltac shape :=
  repeat match goal with
  | H : inside (Str _) _ |- _ => apply inside_str in H; subst
  | H : inside (Seq _ _) _ |- _ => apply inside_seq in H as (? & ? & ? & ? & ?); subst
  | H : inside (comma_list _) _ |- _ => apply inside_comma_list in H; [|done]
  | H : inside (Star (Ref _)) _ |- _ => apply inside_refs in H; [|done]
  | H : inside (Opt _) _ |- _ => apply inside_opt in H as [?|?]; subst
  | H : inside (Choice _ _) _ |- _ => apply inside_choice in H as [?|?]
  | H : inside (Ref Rule_type_ref) _ |- _ => apply inside_type in H as (? & ? & ?); subst
  | H : inside (Ref _) _ |- _ => apply inside_ref in H as (? & ? & ?); [|done]; subst
  end; cbn [app] in *.

Lemma of_rule_inside r p : of_rule r p -> kind r = Normal -> as_rule p = r /\ inside (body r) (into_inner p).
Proof. intros [<- Ht] Hk. unfold tree in Ht. rewrite Hk in Ht. by split; [|eexists]. Qed.

(** ** Outcomes *)

(** The integer literals of a tree, in order. *)
Fixpoint ints (p : Pair) : list string :=
  if decide (as_rule p = Rule_int) then [as_str p] else concat (map ints (into_inner p)).

Definition all_ints (ps : list Pair) : list string := concat (map ints ps).

Fixpoint first_error (l : list string) : option string :=
  match l with
  | [] => None
  | s :: l' => match parse_i64 s with inl e => Some e | inr _ => first_error l' end
  end.

(** The first integer out of range is the error; without one there is a value. *)
Definition outcome {A} (l : list string) (r : parsed A) (P : A -> Prop) : Prop :=
  match first_error l with
  | Some e => r = err ("invalid int: " +:+ e)
  | None => exists v, r = mret v /\ P v
  end.

Lemma first_error_app l1 l2 :
  first_error (l1 ++ l2) = match first_error l1 with Some e => Some e | None => first_error l2 end.
Proof. induction l1 as [|s l1 IH]; [done|]. cbn. by destruct (parse_i64 s). Qed.

Lemma outcome_ret {A} (v : A) (P : A -> Prop) : P v -> outcome [] (mret v) P.
Proof. intros Hv. by exists v. Qed.

Lemma outcome_bind {A B} l1 l2 (r : parsed A) (k : A -> parsed B) P Q :
  outcome l1 r P -> (forall v, P v -> outcome l2 (k v) Q) -> outcome (l1 ++ l2) (r ≫= k) Q.
Proof.
  unfold outcome. rewrite first_error_app. destruct (first_error l1) as [e|]; [by intros ->|].
  intros (v & -> & Hv) Hk. exact (Hk v Hv).
Qed.

Lemma outcome_last {A B} l (r : parsed A) (k : A -> parsed B) P Q :
  outcome l r P -> (forall v, P v -> outcome [] (k v) Q) -> outcome l (r ≫= k) Q.
Proof. intros Hr Hk. rewrite <-(app_nil_r l). by eapply outcome_bind. Qed.

Lemma outcome_weaken {A} l (r : parsed A) (P Q : A -> Prop) : outcome l r P -> (forall v, P v -> Q v) -> outcome l r Q.
Proof. unfold outcome. destruct (first_error l); [done|]. intros (v & -> & Hv) HPQ. eauto. Qed.

Lemma outcome_collect {A} r (parse : Pair -> parsed A) ps P :
  Forall (of_rule r) ps -> (forall p, p ∈ ps -> of_rule r p -> outcome (ints p) (parse p) P) ->
  outcome (all_ints ps) (collect r parse ps) (Forall P).
Proof.
  induction 1 as [|p ps Hp Hps IH]; intros Hparse; [by apply outcome_ret|].
  cbn [collect]. rewrite decide_True by apply Hp. unfold all_ints. cbn [map concat].
  eapply outcome_bind; [apply Hparse; [left|done]|]. intros v Hv. eapply outcome_last; [|intros vs Hvs; apply outcome_ret; by constructor].
  apply IH. intros q Hq. apply Hparse. by right.
Qed.

Lemma ints_inner r p : of_rule r p -> r <> Rule_int -> ints p = all_ints (into_inner p).
Proof. intros [<- _] Hr. destruct p as [r s inner]. cbn in *. by rewrite decide_False. Qed.

Lemma height_inner p q : q ∈ into_inner p -> (height q < height p)%nat.
Proof.
  destruct p as [r s inner]. cbn. induction inner as [|x inner IH]; [by intros ?%elem_of_nil|].
  cbn. intros [->|Hq%IH]%elem_of_cons; lia.
Qed.

(** ** Types and operators *)
Definition fine {A} (_ : A) : Prop := True.

Lemma no_ints_atomic r p : of_rule r p -> kind r = Atomic -> r <> Rule_int -> ints p = [].
Proof. intros Hp Hk Hr. rewrite (ints_inner r) by done. destruct Hp as [<- Ht]. unfold tree in Ht. rewrite Hk in Ht. by destruct Ht as [-> _]. Qed.

Ltac texts := repeat match goal with H : yields _ (Choice _ _) _ _ |- _ => inversion H; clear H; subst | H : yields _ (Str _) _ _ |- _ => inversion H; clear H; subst end.

Lemma base_type_text p : of_rule Rule_base_type p -> as_str p = "String" \/ as_str p = "i32" \/ as_str p = "i64".
Proof. intros [E Ht]. unfold tree in Ht. rewrite E in Ht. destruct Ht as [_ [ps Hy]]. cbn in Hy. texts; tauto. Qed.

Lemma normal_text r p : of_rule r p -> kind r = Normal -> yields false (body r) (as_str p) (into_inner p).
Proof. intros [<- Ht] Hk. unfold tree in Ht. by rewrite Hk in Ht. Qed.

Lemma equality_op_fine o : of_rule Rule_equality_op o -> outcome (ints o) (equality_op o) fine.
Proof.
  intros Ho. rewrite (ints_inner _ _ Ho) by done. pose proof (normal_text _ _ Ho eq_refl) as Hy. cbn in Hy.
  destruct Ho as [E _]. destruct o as [r s inner]. cbn in *. subst r. texts; by apply outcome_ret.
Qed.

Lemma add_op_fine o : of_rule Rule_add_op o -> outcome (ints o) (add_op o) fine.
Proof.
  intros Ho. rewrite (ints_inner _ _ Ho) by done. pose proof (normal_text _ _ Ho eq_refl) as Hy. cbn in Hy.
  destruct Ho as [E _]. destruct o as [r s inner]. cbn in *. subst r. texts; by apply outcome_ret.
Qed.

Lemma mul_op_fine o : of_rule Rule_mul_op o -> outcome (ints o) (mul_op o) fine.
Proof.
  intros Ho. rewrite (ints_inner _ _ Ho) by done. pose proof (normal_text _ _ Ho eq_refl) as Hy. cbn in Hy.
  destruct Ho as [E _]. destruct o as [r s inner]. cbn in *. subst r. texts; by apply outcome_ret.
Qed.

(** What is known of a pair of a rule that is not atomic: its rule, the shape of its
    inside, and the integers of it. *)
Ltac open_pair Hp E :=
  match type of Hp with
  | of_rule ?r ?p =>
      rewrite (ints_inner _ _ Hp) by done;
      pose proof (fun q => height_inner p q) as Hlower;
      let Hi := fresh "Hi" in
      destruct (of_rule_inside _ _ Hp eq_refl) as [E Hi];
      cbn [body grammar snd] in Hi;
      let inner := fresh "inner" in
      remember (into_inner p) as inner eqn:Einner; clear Einner;
      shape
  end.

Ltac walk := cbn [next mbind parsed_bind mret parsed_ret].

(** The induction hypothesis on a pair inside. *)
Ltac below Hlower :=
  match goal with
  | |- context [height ?q] => let H := fresh in assert (H : (height q < _)%nat) by (apply Hlower; set_solver); lia
  end.

Lemma ints_one p : all_ints [p] = ints p.
Proof. unfold all_ints. cbn. apply app_nil_r. Qed.

Lemma ints_cons p ps : all_ints (p :: ps) = ints p ++ all_ints ps.
Proof. done. Qed.

(** The integers of the pairs inside, one by one. *)
Ltac spread := rewrite ?ints_cons; change (all_ints []) with (@nil string); rewrite ?app_nil_r.

Lemma parse_type_ref_fine fuel : forall p, type_pair p -> (height p <= fuel)%nat ->
  outcome (ints p) (parse_type_ref fuel p) fine.
Proof.
  induction fuel as [|fuel IH]; intros p Hp Hh; [destruct p; cbn in Hh; lia|]. cbn [parse_type_ref].
  destruct Hp as [Hp|[Hp|[Hp|[Hp|Hp]]]].
  - rewrite (no_ints_atomic _ _ Hp) by done. pose proof (base_type_text _ Hp) as Ht. destruct Hp as [-> _].
    destruct Ht as [-> | [-> | ->]]; by apply outcome_ret.
  - open_pair Hp E. rewrite E, ints_one. walk. eapply outcome_last; [apply IH; [done|below Hlower]|]. intros; by apply outcome_ret.
  - open_pair Hp E. rewrite E, ints_cons, ints_one. walk. eapply outcome_bind; [apply IH; [done|below Hlower]|]. intros k _.
    eapply outcome_last; [apply IH; [done|below Hlower]|]. intros; by apply outcome_ret.
  - open_pair Hp E. rewrite E, ints_one. walk. eapply outcome_last; [apply IH; [done|below Hlower]|]. intros; by apply outcome_ret.
  - open_pair Hp E. rewrite E, ints_one. walk. rewrite (no_ints_atomic Rule_type_ident) by done. by apply outcome_ret.
Qed.

Lemma parse_type_name_fine fuel p : of_rule Rule_type_name p -> (height p <= S fuel)%nat ->
  outcome (ints p) (parse_type_name fuel p) fine.
Proof. intros Hp Hh. unfold parse_type_name. open_pair Hp E. rewrite ints_one. walk. apply parse_type_ref_fine; [done|below Hlower]. Qed.

(** ** Expressions *)
Definition pairs_of (l : list (Pair * Pair)) : list Pair := concat (map (fun '(o, a) => [o; a]) l).

Lemma inside_alternating op arg ps : inside (Star (Seq (Ref op) (Ref arg))) ps -> kind op <> Silent -> kind arg <> Silent ->
  exists l, ps = pairs_of l /\ Forall (fun '(o, a) => of_rule op o /\ of_rule arg a) l.
Proof.
  intros (pss & -> & Hf)%inside_star Ho Ha. induction Hf as [|qs pss Hq Hf (l & El & Hl)]; [by exists []|].
  shape. cbn [concat]. rewrite El. eexists ((_, _) :: l). split; [done|]. by constructor.
Qed.

Section levels.
Context (op arg : Rule) (operator : Pair -> parsed BinOp) (operand : Pair -> parsed Expr).
Hypothesis operator_fine : forall o, of_rule op o -> outcome (ints o) (operator o) fine.

Lemma operations_fine missing l : forall lhs,
  Forall (fun '(o, a) => of_rule op o /\ of_rule arg a) l ->
  (forall a, a ∈ pairs_of l -> of_rule arg a -> outcome (ints a) (operand a) fine) ->
  outcome (all_ints (pairs_of l)) (operations operator operand missing lhs (pairs_of l)) fine.
Proof.
  induction l as [|[o a] l IH]; intros lhs Hl Hargs; [by apply outcome_ret|]. apply Forall_cons in Hl as [[Ho Ha] Hl'].
  change (pairs_of ((o, a) :: l)) with (o :: a :: pairs_of l). cbn [operations]. rewrite !ints_cons.
  eapply outcome_bind; [by apply operator_fine|]. intros v _.
  eapply outcome_bind; [apply Hargs; [right; left|done]|]. intros rhs _. apply IH; [done|].
  intros b Hb. apply Hargs. by do 2 right.
Qed.

Lemma level_fine r p no_left no_right :
  of_rule r p -> kind r = Normal -> r <> Rule_int -> body r = Seq (Ref arg) (Star (Seq (Ref op) (Ref arg))) ->
  kind op <> Silent -> kind arg <> Silent ->
  (forall a, (height a < height p)%nat -> of_rule arg a -> outcome (ints a) (operand a) fine) ->
  outcome (ints p) (level operator operand no_left no_right p) fine.
Proof.
  intros Hp Hk Hr Hb Ho Ha Hargs. rewrite (ints_inner _ _ Hp) by done.
  pose proof (fun q => height_inner p q) as Hlower. apply of_rule_inside in Hp as [_ Hi]; [|done]. rewrite Hb in Hi.
  unfold level. apply inside_seq in Hi as (p1 & p2 & Ei & H1 & H2). rewrite Ei in *.
  apply inside_ref in H1 as (a & -> & Hfirst); [|done].
  apply inside_alternating in H2 as (l & -> & Hl); [|done..]. cbn [app] in *. walk. rewrite ints_cons.
  eapply outcome_bind; [apply Hargs; [apply Hlower; left|done]|]. intros lhs _.
  apply operations_fine; [done|]. intros b Hb'. apply Hargs, Hlower. by right.
Qed.
End levels.

(** The pairs an atom can be. *)
Definition atom_pair (p : Pair) : Prop :=
  of_rule Rule_sync_call p \/ of_rule Rule_call p \/ of_rule Rule_int p \/ of_rule Rule_string p \/
  of_rule Rule_array_lit p \/ of_rule Rule_map_lit p \/ of_rule Rule_struct_lit p \/ of_rule Rule_identifier p \/
  of_rule Rule_expr p.

Definition primary_pair (p : Pair) : Prop := of_rule Rule_primary p \/ of_rule Rule_atom p \/ atom_pair p.

Definition is_call (e : Expr) : Prop := exists name args, e = Expr_Call name args.

Section walkers.
Context `{Profile}.

(** Every walker with some fuel on every tree it is called on that is low enough. *)
Record fine_with (fuel : nat) : Prop := mkFine {
  fine_expr p : of_rule Rule_expr p -> (2 * height p <= S fuel)%nat -> outcome (ints p) (parse_expr fuel p) fine;
  fine_equality p : of_rule Rule_equality p -> (2 * height p <= S fuel)%nat -> outcome (ints p) (parse_equality fuel p) fine;
  fine_add p : of_rule Rule_add p -> (2 * height p <= S fuel)%nat -> outcome (ints p) (parse_add fuel p) fine;
  fine_mul p : of_rule Rule_mul p -> (2 * height p <= S fuel)%nat -> outcome (ints p) (parse_mul fuel p) fine;
  fine_primary p : primary_pair p -> (2 * height p <= fuel)%nat -> outcome (ints p) (parse_primary fuel p) fine;
  fine_call p : of_rule Rule_call p -> (2 * height p <= S fuel)%nat -> outcome (ints p) (parse_call fuel p) is_call;
  fine_sync p : of_rule Rule_sync_call p -> (2 * height p <= S fuel)%nat -> outcome (ints p) (parse_sync_call fuel p) fine;
  fine_array p : of_rule Rule_array_lit p -> (2 * height p <= S fuel)%nat -> outcome (ints p) (parse_array_lit fuel p) fine;
  fine_map p : of_rule Rule_map_lit p -> (2 * height p <= S fuel)%nat -> outcome (ints p) (parse_map_lit fuel p) fine;
  fine_struct p : of_rule Rule_struct_lit p -> (2 * height p <= S fuel)%nat -> outcome (ints p) (parse_struct_lit fuel p) fine
}.

Lemma height_pos p : (0 < height p)%nat.
Proof. destruct p. cbn. lia. Qed.

Section step.
Context (fuel : nat) (IH : fine_with fuel).

Lemma expr_step p : of_rule Rule_expr p -> (2 * height p <= S (S fuel))%nat -> outcome (ints p) (parse_expr (S fuel) p) fine.
Proof.
  intros Hp Hh. cbn [parse_expr]. rewrite (bool_decide_eq_true_2 (as_rule p = _)) by apply Hp. rewrite andb_false_r.
  open_pair Hp E. rewrite ints_one. walk. apply (fine_equality _ IH); [done|below Hlower].
Qed.

Lemma equality_step p : of_rule Rule_equality p -> (2 * height p <= S (S fuel))%nat -> outcome (ints p) (parse_equality (S fuel) p) fine.
Proof.
  intros Hp Hh. cbn [parse_equality]. eapply level_fine; [apply equality_op_fine|done..|]. intros a Ha Hr.
  apply (fine_add _ IH); [done|lia].
Qed.

Lemma add_step p : of_rule Rule_add p -> (2 * height p <= S (S fuel))%nat -> outcome (ints p) (parse_add (S fuel) p) fine.
Proof.
  intros Hp Hh. cbn [parse_add]. eapply level_fine; [apply add_op_fine|done..|]. intros a Ha Hr.
  apply (fine_mul _ IH); [done|lia].
Qed.

Lemma mul_step p : of_rule Rule_mul p -> (2 * height p <= S (S fuel))%nat -> outcome (ints p) (parse_mul (S fuel) p) fine.
Proof.
  intros Hp Hh. cbn [parse_mul]. eapply level_fine; [apply mul_op_fine|done..|]. intros a Ha Hr.
  apply (fine_primary _ IH); [by left|lia].
Qed.

Lemma args_fine inner : inside (Seq (Opt (Ref Rule_arg_list)) (Str ")")) inner ->
  (forall q, q ∈ inner -> 2 * height q <= S fuel)%nat ->
  outcome (all_ints inner) (parse_args (parse_expr fuel) inner) fine.
Proof.
  intros Hi Hh. shape; [by apply outcome_ret|].
  match goal with Ht : of_rule Rule_arg_list _ |- _ => rename Ht into Ha end. rewrite ints_one. cbn [parse_args]. rewrite decide_True by apply Ha. specialize (Hh _ ltac:(left)).
  open_pair Ha E. eapply outcome_weaken; [eapply outcome_collect with (P := fine)|done]; [done|]. intros q Hq Hr.
  apply (fine_expr _ IH); [done|below Hlower].
Qed.

Lemma call_step p : of_rule Rule_call p -> (2 * height p <= S (S fuel))%nat -> outcome (ints p) (parse_call (S fuel) p) is_call.
Proof.
  intros Hp Hh. cbn [parse_call]. rewrite (ints_inner _ _ Hp) by done. pose proof (fun q => height_inner p q) as Hlower.
  apply of_rule_inside in Hp as [_ Hi]; [|done]. cbn [body grammar snd] in Hi.
  apply inside_seq in Hi as (p1 & p2 & Ei & H1 & H2). rewrite Ei in *. apply inside_seq in H2 as (p3 & p4 & -> & H3 & Hargs).
  apply inside_str in H3 as ->. apply inside_ref in H1 as (name & -> & Hname); [|done]. cbn [app] in *. walk.
  rewrite ints_cons, (no_ints_atomic Rule_identifier) by done. cbn [app].
  eapply outcome_last; [apply args_fine; [exact Hargs|]|].
  - intros q Hq. below Hlower.
  - intros args _. apply outcome_ret. by eexists _, _.
Qed.

Lemma sync_step p : of_rule Rule_sync_call p -> (2 * height p <= S (S fuel))%nat ->
  outcome (ints p) (parse_sync_call (S fuel) p) fine.
Proof.
  intros Hp Hh. cbn [parse_sync_call]. open_pair Hp E. rewrite ints_one. walk.
  eapply outcome_last; [apply (fine_call _ IH); [done|below Hlower]|]. intros v (name & args & ->). by apply outcome_ret.
Qed.

Lemma array_step p : of_rule Rule_array_lit p -> (2 * height p <= S (S fuel))%nat ->
  outcome (ints p) (parse_array_lit (S fuel) p) fine.
Proof.
  intros Hp Hh. cbn [parse_array_lit]. open_pair Hp E; [by apply outcome_ret|]. rewrite app_nil_r in *.
  eapply outcome_last; [eapply outcome_collect with (P := fine); [done|]|by intros; apply outcome_ret].
  intros q Hq Hr. apply (fine_expr _ IH); [done|below Hlower].
Qed.

Lemma map_entry_fine p : of_rule Rule_map_entry p -> (2 * height p <= S fuel)%nat ->
  outcome (ints p) (parse_map_entry (parse_expr fuel) p) fine.
Proof.
  intros Hp Hh. unfold parse_map_entry. open_pair Hp E. rewrite ints_cons, ints_one. walk.
  eapply outcome_bind; [apply (fine_expr _ IH); [done|below Hlower]|]. intros k _.
  eapply outcome_last; [apply (fine_expr _ IH); [done|below Hlower]|]. intros v _. by apply outcome_ret.
Qed.

Lemma map_step p : of_rule Rule_map_lit p -> (2 * height p <= S (S fuel))%nat ->
  outcome (ints p) (parse_map_lit (S fuel) p) fine.
Proof.
  intros Hp Hh. cbn [parse_map_lit]. open_pair Hp E; [by apply outcome_ret|]. rewrite app_nil_r in *.
  eapply outcome_last; [eapply outcome_collect with (P := fine); [done|]|by intros; apply outcome_ret].
  intros q Hq Hr. apply map_entry_fine; [done|below Hlower].
Qed.

Lemma struct_lit_field_fine p : of_rule Rule_struct_lit_field p -> (2 * height p <= S fuel)%nat ->
  outcome (ints p) (parse_struct_lit_field (parse_expr fuel) p) fine.
Proof.
  intros Hp Hh. unfold parse_struct_lit_field. open_pair Hp E.
  rewrite ints_cons, ints_one, (no_ints_atomic Rule_identifier) by done. walk.
  eapply outcome_last; [apply (fine_expr _ IH); [done|below Hlower]|]. intros v _. by apply outcome_ret.
Qed.

Lemma struct_step p : of_rule Rule_struct_lit p -> (2 * height p <= S (S fuel))%nat ->
  outcome (ints p) (parse_struct_lit (S fuel) p) fine.
Proof.
  intros Hp Hh. cbn [parse_struct_lit]. open_pair Hp E; rewrite ints_cons, (no_ints_atomic Rule_type_ident) by done; walk;
    [by apply outcome_ret|]. rewrite app_nil_r in *.
  eapply outcome_last; [eapply outcome_collect with (P := fine); [done|]|by intros; apply outcome_ret].
  intros q Hq Hr. apply struct_lit_field_fine; [done|below Hlower].
Qed.

Lemma method_calls_fine inner : forall e, Forall (of_rule Rule_method_call_suffix) inner ->
  (forall q, q ∈ inner -> 2 * height q <= S fuel)%nat ->
  outcome (all_ints inner) (method_calls (parse_call fuel) e inner) fine.
Proof.
  induction inner as [|p inner IHi]; intros e Hf Hh; [by apply outcome_ret|]. apply Forall_cons in Hf as [Hp Hf].
  specialize (IHi) as IHi'. cbn [method_calls]. rewrite (proj1 Hp), ints_cons. pose proof (Hh p ltac:(left)) as Hhp.
  pose proof Hp as Hp'. open_pair Hp' E. rewrite ints_one. walk.
  eapply outcome_bind; [apply (fine_call _ IH); [done|below Hlower]|]. intros v (name & args & ->).
  apply IHi; [done|]. intros q Hq. apply Hh. by right.
Qed.

Lemma string_fine p : of_rule Rule_string p -> exists s, unquote (as_str p) = mret s.
Proof.
  intros [E Ht]. unfold tree in Ht. rewrite E in Ht. destruct Ht as [_ [ps Hy]]. cbn [body grammar snd] in Hy.
  assert (Hl : (2 <= String.length (as_str p))%nat).
  { destruct p as [r text inner]. cbn in *. clear -Hy. inversion Hy as [| | | | |? ? ? s1 w s2 ? ? H1 H2 H3| | | | | | | |]; subst.
    inversion H3 as [| | | | |? ? ? t1 w' t2 ? ? H4 H5 H7| | | | | | | |]; subst.
    inversion H1; inversion H7; subst. rewrite !string_length_app. cbn. lia. }
  unfold unquote. rewrite decide_True by done. by eexists.
Qed.

Lemma primary_step p : primary_pair p -> (2 * height p <= S fuel)%nat -> outcome (ints p) (parse_primary (S fuel) p) fine.
Proof.
  intros Hp Hh. cbn [parse_primary]. destruct Hp as [Hp|[Hp|Hp]].
  - open_pair Hp E. rewrite E. walk. rewrite ints_cons.
    eapply outcome_bind; [apply (fine_primary _ IH); [by right; left|below Hlower]|]. intros e _.
    apply method_calls_fine; [done|]. intros q Hq. below Hlower.
  - rewrite (proj1 Hp). assert (Hatom : exists a, into_inner p = [a] /\ atom_pair a).
    { apply of_rule_inside in Hp as [_ Hi]; [|done]. cbn [body grammar snd] in Hi. unfold atom_pair. shape; eexists; (split; [done|tauto]). }
    destruct Hatom as (a & Ei & Ha). rewrite (ints_inner _ _ Hp) by done. pose proof (height_inner p a) as Hlow. rewrite Ei in *.
    walk. rewrite ints_one. apply (fine_primary _ IH); [by do 2 right|]. specialize (Hlow ltac:(left)). lia.
  - destruct Hp as [Hp|[Hp|[Hp|[Hp|[Hp|[Hp|[Hp|[Hp|Hp]]]]]]]]; rewrite (proj1 Hp).
    + apply (fine_sync _ IH); [done|lia].
    + eapply outcome_weaken; [apply (fine_call _ IH); [done|lia]|done].
    + destruct Hp as [E _]. destruct p as [r s inner]. cbn in E |- *. subst r. cbn [ints]. rewrite decide_True by done.
      unfold outcome. cbn [first_error]. destruct (parse_i64 s); [done|by eexists].
    + rewrite (no_ints_atomic Rule_string) by done. destruct (string_fine p Hp) as [s ->]. walk. by apply outcome_ret.
    + apply (fine_array _ IH); [done|lia].
    + apply (fine_map _ IH); [done|lia].
    + apply (fine_struct _ IH); [done|lia].
    + rewrite (no_ints_atomic Rule_identifier) by done. by apply outcome_ret.
    + apply (fine_expr _ IH); [done|lia].
Qed.
End step.

Lemma all_fine fuel : fine_with fuel.
Proof.
  induction fuel as [|fuel IH].
  - constructor; intros p Hp Hh; pose proof (height_pos p); lia.
  - constructor; [by apply expr_step|by apply equality_step|by apply add_step|by apply mul_step|by apply primary_step|
      by apply call_step|by apply sync_step|by apply array_step|by apply map_step|by apply struct_step].
Qed.

Lemma parse_expr_fine fuel p : of_rule Rule_expr p -> (2 * height p <= S fuel)%nat -> outcome (ints p) (parse_expr fuel p) fine.
Proof. apply all_fine. Qed.

(** ** Statements *)
Lemma binding_kind_text k : of_rule Rule_binding_kind k -> ints k = [] /\ (as_str k = "let" \/ as_str k = "var").
Proof.
  intros Hk. rewrite (ints_inner _ _ Hk) by done. pose proof (normal_text _ _ Hk eq_refl) as Hy. destruct k as [r s inner].
  cbn in *. texts; tauto.
Qed.

Lemma binding_stmt_fine fuel p : of_rule Rule_binding_stmt p -> (2 * height p <= S fuel)%nat ->
  outcome (ints p) (parse_binding_stmt fuel p) fine.
Proof.
  intros Hp Hh. unfold parse_binding_stmt.
  assert (Hm : forall k, as_str k = "let" \/ as_str k = "var" -> exists m,
    (if decide (as_str k = "let") then mret Mutability_Immutable
     else if decide (as_str k = "var") then mret Mutability_Mutable
     else err "binding: invalid kind" : parsed Mutability) = mret m).
  { intros k [-> | ->]; by eexists. }
  open_pair Hp E; match goal with Hk : of_rule Rule_binding_kind _ |- _ => apply binding_kind_text in Hk as [Hk1 Hk2] end;
    spread; rewrite Hk1, (no_ints_atomic Rule_identifier) by done; walk; destruct (Hm _ Hk2) as [m ->]; walk; cbn [app].
  - eapply outcome_last; [apply parse_type_name_fine; [done|below Hlower]|]. intros ty _. by apply outcome_ret.
  - eapply outcome_bind; [apply parse_type_name_fine; [done|below Hlower]|]. intros ty _.
    eapply outcome_last with (P := fine); [eapply outcome_last with (P := fine)|intros init _; by apply outcome_ret].
    + apply parse_expr_fine; [done|below Hlower].
    + intros e _. by apply outcome_ret.
Qed.

Record statements_fine (fuel : nat) : Prop := mkStatementsFine {
  fine_statement p : of_rule Rule_statement p -> (2 * height p <= S fuel)%nat -> outcome (ints p) (parse_statement fuel p) fine;
  fine_if p : of_rule Rule_if_stmt p -> (2 * height p <= S fuel)%nat -> outcome (ints p) (parse_if_stmt fuel p) fine;
  fine_block p : of_rule Rule_block p -> (2 * height p <= S fuel)%nat -> outcome (ints p) (parse_block fuel p) fine
}.

Section step.
Context (fuel : nat) (IH : statements_fine fuel).

Lemma statement_step p : of_rule Rule_statement p -> (2 * height p <= S (S fuel))%nat ->
  outcome (ints p) (parse_statement (S fuel) p) fine.
Proof.
  intros Hp Hh. cbn [parse_statement]. open_pair Hp E; spread; walk;
    match goal with Hx : of_rule _ ?x |- _ => pose proof Hx as Hq; rewrite (proj1 Hx); assert (Hl : (height x < height p)%nat) by (apply Hlower; left); clear Hlower end.
  - eapply outcome_last; [apply binding_stmt_fine; [done|lia]|]. intros d _. by apply outcome_ret.
  - open_pair Hq E'. spread. walk. eapply outcome_last; [apply parse_expr_fine; [done|below Hlower]|].
    intros e _. by apply outcome_ret.
  - apply (fine_if _ IH); [done|lia].
  - eapply outcome_last; [apply parse_expr_fine; [done|lia]|]. intros e _. by apply outcome_ret.
Qed.

Lemma if_step p : of_rule Rule_if_stmt p -> (2 * height p <= S (S fuel))%nat ->
  outcome (ints p) (parse_if_stmt (S fuel) p) fine.
Proof.
  intros Hp Hh. cbn [parse_if_stmt]. open_pair Hp E; spread; walk;
    (eapply outcome_bind; [apply parse_expr_fine; [done|below Hlower]|]; intros c _).
  - eapply outcome_last; [apply (fine_block _ IH); [done|below Hlower]|]. intros t _. by apply outcome_ret.
  - eapply outcome_bind; [apply (fine_block _ IH); [done|below Hlower]|]. intros t _.
    eapply outcome_last with (P := fine); [eapply outcome_last with (P := fine)|intros els _; by apply outcome_ret].
    + apply (fine_block _ IH); [done|below Hlower].
    + intros b _. by apply outcome_ret.
Qed.

Lemma block_step p : of_rule Rule_block p -> (2 * height p <= S (S fuel))%nat ->
  outcome (ints p) (parse_block (S fuel) p) fine.
Proof.
  intros Hp Hh. cbn [parse_block]. open_pair Hp E. rewrite app_nil_r in *.
  eapply outcome_last; [eapply outcome_collect with (P := fine); [done|]|by intros; apply outcome_ret].
  intros q Hq Hr. apply (fine_statement _ IH); [done|below Hlower].
Qed.
End step.

Lemma all_statements_fine fuel : statements_fine fuel.
Proof.
  induction fuel as [|fuel IH].
  - constructor; intros p Hp Hh; pose proof (height_pos p); lia.
  - constructor; [by apply statement_step|by apply if_step|by apply block_step].
Qed.

(** ** Items *)
Lemma struct_field_fine fuel p : of_rule Rule_struct_field p -> (2 * height p <= S fuel)%nat ->
  outcome (ints p) (parse_struct_field fuel p) fine.
Proof.
  intros Hp Hh. unfold parse_struct_field. open_pair Hp E. spread. rewrite (no_ints_atomic Rule_identifier) by done. walk.
  eapply outcome_last; [apply parse_type_name_fine; [done|below Hlower]|]. intros ty _. by apply outcome_ret.
Qed.

Lemma param_fine fuel p : of_rule Rule_param p -> (2 * height p <= S fuel)%nat -> outcome (ints p) (parse_param fuel p) fine.
Proof.
  intros Hp Hh. unfold parse_param. open_pair Hp E. spread. rewrite (no_ints_atomic Rule_identifier) by done. walk.
  eapply outcome_last; [apply parse_type_name_fine; [done|below Hlower]|]. intros ty _. by apply outcome_ret.
Qed.

Lemma struct_def_fine fuel p : of_rule Rule_struct_def p -> (2 * height p <= S fuel)%nat ->
  outcome (ints p) (parse_struct_def fuel p) fine.
Proof.
  intros Hp Hh. unfold parse_struct_def. open_pair Hp E; spread; rewrite (no_ints_atomic Rule_type_ident) by done; walk;
    [by apply outcome_ret|]. cbn [app].
  match goal with Hx : of_rule Rule_struct_fields ?x |- _ => rewrite decide_True by apply Hx; rename Hx into Hq;
    assert (Hl : (height x < height p)%nat) by (apply Hlower; set_solver); clear Hlower end.
  open_pair Hq E'. eapply outcome_last; [eapply outcome_collect with (P := fine); [done|]|by intros; apply outcome_ret].
  intros q Hq' Hr. apply struct_field_fine; [done|below Hlower].
Qed.

(** The part of a function after its parameters. *)
Definition rest_of_function (fuel : nat) (name : string) (ps : list Param) (n : Pair) (inner : list Pair) : parsed FunctionDef :=
  '(ret_ty, n) ←
    (match as_rule n with
     | Rule_type_name =>
         ret ← parse_type_name fuel n;
         '(n, _) ← next "function: missing body block" inner;
         mret (ret, n)
     | Rule_block => mret (TypeName_Void, n)
     | _ => err "function: unexpected token after params"
     end : parsed (TypeName * Pair));
  body ← parse_block fuel n;
  mret (mkFunctionDef name ps ret_ty body).

Lemma function_block_fine fuel name ps n : of_rule Rule_block n -> (2 * height n <= S fuel)%nat ->
  outcome (ints n) (rest_of_function fuel name ps n []) fine.
Proof.
  intros Hn Hh. unfold rest_of_function. rewrite (proj1 Hn). walk.
  eapply outcome_last; [apply all_statements_fine; done|]. intros b _. by apply outcome_ret.
Qed.

Lemma function_type_fine fuel name ps t n : of_rule Rule_type_name t -> of_rule Rule_block n ->
  (2 * height t <= S fuel)%nat -> (2 * height n <= S fuel)%nat ->
  outcome (ints t ++ ints n) (rest_of_function fuel name ps t [n]) fine.
Proof.
  intros Ht Hn Hht Hhn. unfold rest_of_function. rewrite (proj1 Ht).
  eapply outcome_bind with (P := fun r => snd r = n).
  - eapply outcome_last; [apply parse_type_name_fine; [done|lia]|]. intros ty _. by apply outcome_ret.
  - intros [ty m] Em. cbn in Em. subst m. eapply outcome_last; [apply all_statements_fine; done|]. intros b _. by apply outcome_ret.
Qed.

Lemma params_fine fuel p : of_rule Rule_param_list p -> (2 * height p <= S fuel)%nat ->
  outcome (ints p) (collect Rule_param (parse_param fuel) (into_inner p)) fine.
Proof.
  intros Hp Hh. open_pair Hp E. eapply outcome_weaken; [eapply outcome_collect with (P := fine)|done]; [done|].
  intros q Hq Hr. apply param_fine; [done|below Hlower].
Qed.

Lemma function_fine fuel p : of_rule Rule_function p -> (2 * height p <= S fuel)%nat ->
  outcome (ints p) (parse_function fuel p) fine.
Proof.
  intros Hp Hh. unfold parse_function. open_pair Hp E; spread; rewrite (no_ints_atomic Rule_identifier) by done; walk; cbn [app].
  all: match goal with |- context [decide (as_rule ?n = Rule_param_list)] =>
    match goal with Hx : of_rule _ n |- _ => rewrite (proj1 Hx) end end;
    first [rewrite decide_False by done | rewrite decide_True by done]; walk.
  - apply function_block_fine; [done|below Hlower].
  - match goal with |- context [mret (_, ?n, ?l)] =>
      eapply outcome_bind with (P := fun r => exists ps, r = (ps, n, l)); [eapply outcome_last; [apply params_fine; [done|below Hlower]|]|] end.
    + intros ps _. apply outcome_ret. by eexists.
    + intros r [ps ->]. apply function_block_fine; [done|below Hlower].
  - apply function_type_fine; [done..|below Hlower|below Hlower].
  - match goal with |- context [mret (_, ?n, ?l)] =>
      eapply outcome_bind with (P := fun r => exists ps, r = (ps, n, l)); [eapply outcome_last; [apply params_fine; [done|below Hlower]|]|] end.
    + intros ps _. apply outcome_ret. by eexists.
    + intros r [ps ->]. apply function_type_fine; [done..|below Hlower|below Hlower].
Qed.

Lemma item_fine fuel p : of_rule Rule_item p -> (2 * height p <= fuel)%nat -> outcome (ints p) (parse_item fuel p) fine.
Proof.
  intros Hp Hh. unfold parse_item. open_pair Hp E; spread; walk;
    match goal with Hx : of_rule _ ?x |- _ => rewrite (proj1 Hx); assert (Hl : (height x < height p)%nat) by (apply Hlower; left) end.
  - eapply outcome_last; [apply struct_def_fine; [done|lia]|]. intros d _. by apply outcome_ret.
  - eapply outcome_last; [apply function_fine; [done|lia]|]. intros f _. by apply outcome_ret.
  - eapply outcome_last; [apply all_statements_fine; [done|lia]|]. intros st _. by apply outcome_ret.
Qed.

(** The root, its items and the end of the input. *)
Lemma program_shape p : of_rule Rule_program p ->
  exists items, into_inner p = items ++ [mkPair Rule_EOI "" []] /\ Forall (of_rule Rule_item) items.
Proof.
  intros Hp. apply of_rule_inside in Hp as [_ Hi]; [|done]. cbn [body grammar snd] in Hi.
  apply inside_seq in Hi as (p1 & p2 & Ei & [s1 H1] & H2). apply inside_seq in H2 as (p3 & p4 & -> & H3 & [s4 H4]).
  inversion H1; inversion H4; subst. rewrite Ei. apply inside_refs in H3; [|done]. by exists p3.
Qed.

Lemma collect_app {A} r (parse : Pair -> parsed A) ps q : as_rule q <> r -> collect r parse (ps ++ [q]) = collect r parse ps.
Proof.
  intros Hq. induction ps as [|p ps IH]; cbn [app collect]; [by rewrite decide_False|]. by rewrite IH.
Qed.
End walkers.

(** ** Integer literals *)
Lemma skipped_atomic w : skipped true w -> w = "".
Proof. intros H. by inversion H. Qed.

Lemma digits_star s ps : yields true (Star (Char is_digit)) s ps -> forall acc, is_Some (digits acc s).
Proof.
  remember true as a eqn:Ea. remember (Star (Char is_digit)) as e eqn:Ee. intros Hy. revert Ea Ee.
  induction Hy as [| | | | | | | |a e|a e s ps Hy _|a e s1 w s2 p1 p2 Hy _ Hw _ IH| | |]; intros -> Ee acc; try discriminate Ee;
    injection Ee as ->; [by eexists| |]; inversion Hy as [|? ? c Hc| | | | | | | | | | | |]; subst.
  - cbn [digits]. rewrite Hc. by eexists.
  - apply skipped_atomic in Hw as ->. change (is_Some (digits acc (String c s2))). cbn [digits]. rewrite Hc. by apply IH.
Qed.

(** What can go wrong with an integer literal. *)
Definition range_error (e : string) : Prop :=
  e = "number too small to fit in target type" \/ e = "number too large to fit in target type".

Lemma digit_not_sign c : is_digit c = true -> c <> "-"%char /\ c <> "+"%char.
Proof. intros H. split; intros ->; vm_compute in H; discriminate H. Qed.

Lemma int_literal s ps : yields true (body Rule_int) s ps -> forall e, parse_i64 s = inl e -> range_error e.
Proof.
  intros Hy e He. cbn [body grammar snd] in Hy. inversion Hy as [| | | | |? ? ? s1 w s2 ? ? H1 Hw H2| | | | | | | |]; subst.
  apply skipped_atomic in Hw as ->. unfold Plus in H2.
  inversion H2 as [| | | | |? ? ? t1 w t2 ? ? H3 Hw H4| | | | | | | |]; subst. apply skipped_atomic in Hw as ->.
  inversion H3 as [|? ? c Hc| | | | | | | | | | | |]; subst. destruct (digit_not_sign c Hc) as [Hm Hp].
  change ("" +:+ String c "" +:+ "" +:+ t2) with (String c t2) in He.
  destruct (digits_star _ _ H4 (0 * 10 + (Z.of_N (N_of_ascii c) - 48))%Z) as [n Hn].
  assert (Hd : digits 0 (String c t2) = Some n) by (cbn [digits]; by rewrite Hc).
  unfold range_error. inversion H1 as [| | | | | | | | | | |?|? ? ? ? Hs|]; subst.
  - change ("" +:+ String c t2) with (String c t2) in He. unfold parse_i64 in He.
    rewrite decide_False, decide_False, Hd in He by done. case_decide; [|done]. injection He as <-. tauto.
  - inversion Hs; subst. change ("-" +:+ String c t2) with (String "-" (String c t2)) in He. unfold parse_i64 in He.
    rewrite decide_True, Hd in He by done. case_decide; [|done]. injection He as <-. tauto.
Qed.

Lemma tree_ints a e s ps : yields a e s ps -> a = false ->
  Forall (fun t => exists qs, yields true (body Rule_int) t qs) (all_ints ps).
Proof.
  intros Hy. induction Hy as [| | |a|a r s ps Hy IH|a e1 e2 s1 w s2 p1 p2 _ IH1 _ _ IH2| | | | |a e s1 w s2 p1 p2 _ IH1 _ _ IH2| | |];
    intros ->; try (constructor; fail); try (by auto).
  - unfold token. destruct (kind r) eqn:Ek.
    + rewrite ints_one. cbn [ints as_rule into_inner]. rewrite decide_False by (by intros ->). apply IH.
      by rewrite bool_decide_eq_false_2.
    + apply IH. by rewrite bool_decide_eq_false_2.
    + rewrite ints_one. cbn [ints as_rule into_inner as_str]. destruct (decide (r = Rule_int)) as [->|]; [|constructor].
      constructor; [|constructor]. by exists ps.
  - unfold all_ints. rewrite map_app, concat_app. apply Forall_app. auto.
  - unfold all_ints. rewrite map_app, concat_app. apply Forall_app. auto.
Qed.

Lemma first_error_in l e : first_error l = Some e -> exists s, s ∈ l /\ parse_i64 s = inl e.
Proof.
  induction l as [|s l IH]; [done|]. cbn. destruct (parse_i64 s) as [e'|] eqn:E; [|intros (t & Ht & Hp)%IH; exists t; split; [by right|done]].
  intros [= ->]. exists s. split; [left|done].
Qed.

(** C35: the walkers and the grammar fit together: when pest rejects the input its message is
    returned; when pest accepts it, the walkers never meet a missing or unexpected pair, never
    panic and never run out of fuel: the answer is a program, unless an integer literal
    does not fit in 64 bits, and then the first one decides the message. *)
Theorem parser_total `{Profile} `{Pest} input :
  match pest_parse Rule_program input with
  | inr e => parse_program input = err e
  | inl pairs =>
      match first_error (all_ints pairs) with
      | None => exists program, parse_program input = mret program
      | Some e => parse_program input = err ("invalid int: " +:+ e) /\ range_error e
      end
  end.
Proof.
  unfold parse_program. destruct (pest_parse Rule_program input) as [pairs|e] eqn:E; [|done].
  apply pest_tree in E as (text & rest & _ & Hy). pose proof (tree_ints _ _ _ _ Hy eq_refl) as Hints.
  assert (Hi : inside (Ref Rule_program) pairs) by by exists text. apply inside_ref in Hi as (p & -> & Hp); [|done].
  destruct (program_shape p Hp) as (items & Ei & Hf). walk. rewrite ints_one, (ints_inner _ _ Hp) in * by done.
  rewrite Ei, collect_app by done.
  assert (Ho : outcome (all_ints items) (collect Rule_item (parse_item (2 * height p)) items) (Forall fine)).
  { apply outcome_collect; [done|]. intros q Hq Hr. apply item_fine; [done|].
    assert ((height q < height p)%nat) by (apply height_inner; rewrite Ei; set_solver). lia. }
  assert (Ea : all_ints (items ++ [mkPair Rule_EOI "" []]) = all_ints items)
    by (unfold all_ints; rewrite map_app, concat_app; cbn; by rewrite app_nil_r).
  rewrite Ei, Ea in Hints. rewrite Ea. unfold outcome in Ho. destruct (first_error (all_ints items)) as [e|] eqn:Ee.
  - rewrite Ho. split; [done|]. apply first_error_in in Ee as (s & Hs & He).
    rewrite Forall_forall in Hints. destruct (Hints s Hs) as [qs Hq]. by eapply int_literal.
  - destruct Ho as (v & -> & _). by eexists.
Qed.
