(* ===== verification/ParserTrees.v ===== *)
(** * Concrete syntax for every program

    A printer of syntax trees, with parentheses only where precedence or associativity needs
    them, that builds the text together with its tree of the grammar. The walkers read the
    tree of every program back as that program. *)
From S2P Require Import Prelude Grammar Parser ParserSpec ParserTests.
From Stdlib Require Import Ascii.
From stdpp Require Import pretty.
Local Open Scope string_scope.
Local Open Scope list_scope.

(** ** Text with its pairs *)
Definition span : Type := string * list Pair.

Definition word (s : string) : span := (s, []).
Definition leaf (r : Rule) (s : string) : span := (s, [mkPair r s []]).
Definition node (r : Rule) (sp : span) : span := (fst sp, [mkPair r (fst sp) (snd sp)]).
Definition empty : span := ("", []).

(** One after the other, with a space after the first unless it ends with one: pest skips
    white space before it tries the next part of a sequence, so the space belongs to the
    sequence even when that part turns out to be empty. *)
Fixpoint ends_with_space (s : string) : bool :=
  match s with
  | EmptyString => false
  | String c EmptyString => bool_decide (c = " "%char)
  | String _ s' => ends_with_space s'
  end.
Definition gap (a : span) : string := if decide (fst a = "") then "" else if ends_with_space (fst a) then "" else " ".
Definition seq (a b : span) : span := (fst a +:+ gap a +:+ fst b, snd a ++ snd b).
Infix "+++" := seq (at level 60, right associativity).

(** Repetitions. *)
Fixpoint many (l : list span) : span :=
  match l with
  | [] => empty
  | [a] => a
  | a :: l' => a +++ many l'
  end.

(** The first, then the others each after a comma. *)
Definition commas (l : list span) : span :=
  match l with
  | [] => empty
  | a :: l' => a +++ many (map (fun b => word "," +++ b) l') +++ empty
  end.

(** ** Expressions *)

(** The operands of one level of operators: the first, and the others after their operators. *)
Record chain := mkChain { first : span; others : list (span * span) }.
Definition chain_span (c : chain) : span := first c +++ many (map (fun '(o, a) => o +++ a) (others c)).

(** A primary: an atom and the calls after it. *)
Definition primary : Type := span * list span.
Definition primary_span (p : primary) : span := fst p +++ many (snd p).

(** The syntax of an expression at each level. *)
Record forms := mkForms { equality : chain; sum : chain; product : chain; prim : primary }.

Definition up_primary (p : primary) : chain := mkChain (node Rule_primary (primary_span p)) [].
Definition up_product (c : chain) : chain := mkChain (node Rule_mul (chain_span c)) [].
Definition up_sum (c : chain) : chain := mkChain (node Rule_add (chain_span c)) [].

Definition expr_span (c : chain) : span := node Rule_expr (node Rule_equality (chain_span c)).
Definition parens (c : chain) : primary := (node Rule_atom (word "(" +++ expr_span c +++ word ")"), []).

Definition of_primary (p : primary) : forms :=
  let m := up_primary p in let s := up_product m in mkForms (up_sum s) s m p.
Definition of_product (c : chain) : forms :=
  let s := up_product c in let q := up_sum s in let p := parens q in mkForms q s c p.
Definition of_sum (c : chain) : forms :=
  let q := up_sum c in let p := parens q in mkForms q c (up_primary p) p.
Definition of_equality (c : chain) : forms :=
  let p := parens c in let m := up_primary p in mkForms c (up_product m) m p.

Definition of_atom (a : span) : forms := of_primary (node Rule_atom a, []).
Definition more (c : chain) (o a : span) : chain := mkChain (first c) (others c ++ [(o, a)]).

Definition call_span (name : string) (args : list span) : span :=
  node Rule_call (leaf Rule_identifier name +++ word "(" +++
                  match args with [] => empty | _ => node Rule_arg_list (commas args) end +++ word ")").

Definition op_text (op : BinOp) : string :=
  match op with
  | BinOp_Add => "+" | BinOp_Sub => "-" | BinOp_Mul => "*" | BinOp_Div => "/" | BinOp_Eq => "==" | BinOp_Ne => "!="
  | BinOp_Gt => ">" | BinOp_Lt => "<" | BinOp_Ge => ">=" | BinOp_Le => "<="
  end.

Definition binary (op : BinOp) (l r : forms) : forms :=
  match op with
  | BinOp_Mul | BinOp_Div =>
      of_product (more (product l) (leaf Rule_mul_op (op_text op)) (first (up_primary (prim r))))
  | BinOp_Add | BinOp_Sub => of_sum (more (sum l) (leaf Rule_add_op (op_text op)) (first (up_product (product r))))
  | _ => of_equality (more (equality l) (leaf Rule_equality_op (op_text op)) (first (up_sum (sum r))))
  end.

Fixpoint syntax (e : Expr) : forms :=
  let expr e := expr_span (equality (syntax e)) in
  match e with
  | Expr_Int n => of_atom (leaf Rule_int (pretty n))
  | Expr_Str s => of_atom (leaf Rule_string (dquote +:+ s +:+ dquote))
  | Expr_Ident name => of_atom (leaf Rule_identifier name)
  | Expr_ArrayLit elems => of_atom (node Rule_array_lit (word "[" +++ commas (map expr elems) +++ word "]"))
  | Expr_MapLit entries =>
      of_atom (node Rule_map_lit (word "{" +++
        commas (map (fun '(k, v) => node Rule_map_entry (expr k +++ word ":" +++ expr v)) entries) +++ word "}"))
  | Expr_StructLit name fields =>
      of_atom (node Rule_struct_lit (leaf Rule_type_ident name +++ word "{" +++
        commas (map (fun '(f, v) => node Rule_struct_lit_field (leaf Rule_identifier f +++ word ":" +++ expr v)) fields) +++
        word "}"))
  | Expr_Call name args => of_atom (call_span name (map expr args))
  | Expr_SyncCall name args => of_atom (node Rule_sync_call (word "sync" +++ call_span name (map expr args)))
  | Expr_MethodCall receiver name args =>
      let '(atom, calls) := prim (syntax receiver) in
      of_primary (atom, calls ++ [node Rule_method_call_suffix (word "." +++ call_span name (map expr args))])
  | Expr_Binary l op r => binary op (syntax l) (syntax r)
  end.

Definition expr_syntax (e : Expr) : span := expr_span (equality (syntax e)).

(** In parentheses, after which nothing continues an expression but an operator or a call. *)
Definition closed_syntax (e : Expr) : span := expr_span (equality (of_primary (parens (equality (syntax e))))).

(** ** The grammar derives what is printed *)
Definition spans (e : pexpr) (sp : span) : Prop := yields false e (fst sp) (snd sp).

Lemma spans_word s : spans (Str s) (word s).
Proof. constructor. Qed.

Lemma gap_skipped a : skipped false (gap a).
Proof.
  unfold gap. case_decide; [constructor|]. destruct ends_with_space; [constructor|].
  apply (skip_cons " " "" []); [|constructor]. apply y_choice_l. constructor.
Qed.

Lemma spans_seq e1 e2 a b : spans e1 a -> spans e2 b -> spans (Seq e1 e2) (a +++ b).
Proof. intros Ha Hb. apply y_seq; [exact Ha|apply gap_skipped|exact Hb]. Qed.

Lemma spans_node r sp : kind r = Normal -> spans (body r) sp -> spans (Ref r) (node r sp).
Proof.
  intros Hk Hs. pose proof (y_ref false r (fst sp) (snd sp)) as Hy. unfold token in Hy. rewrite Hk in Hy. apply Hy. exact Hs.
Qed.

Lemma spans_leaf r s ps : kind r = Atomic -> yields true (body r) s ps -> spans (Ref r) (leaf r s).
Proof. intros Hk Hs. pose proof (y_ref false r s ps) as Hy. unfold token in Hy. rewrite Hk in Hy. by apply Hy. Qed.

Lemma spans_many e l : Forall (spans e) l -> spans (Star e) (many l).
Proof.
  induction 1 as [|a l Ha Hl IH]; [constructor|]. destruct l as [|b l]; [by apply y_star_one|].
  change (many (a :: b :: l)) with (a +++ many (b :: l)). apply y_star_cons; [exact Ha|apply gap_skipped|exact IH].
Qed.

Lemma many_pairs l : snd (many l) = concat (map snd l).
Proof. induction l as [|a [|b l] IH]; [done|cbn; by rewrite app_nil_r|].
  change (snd a ++ snd (many (b :: l)) = snd a ++ concat (map snd (b :: l))). by rewrite IH. Qed.

Lemma spans_opt_none e : spans (Opt e) empty.
Proof. constructor. Qed.

Lemma spans_commas r l : l <> [] -> Forall (spans (Ref r)) l -> spans (comma_list r) (commas l).
Proof.
  intros Hl Hf. destruct Hf as [|a l Ha Hf]; [done|]. apply spans_seq; [done|]. apply spans_seq; [|apply spans_opt_none].
  apply spans_many. apply Forall_map. eapply Forall_impl; [exact Hf|]. intros b Hb. apply spans_seq; [apply spans_word|done].
Qed.

Lemma spans_opt_commas r l : Forall (spans (Ref r)) l -> spans (Opt (comma_list r)) (commas l).
Proof. intros Hf. destruct l as [|a l]; [apply spans_opt_none|]. apply y_opt_some. by apply spans_commas. Qed.

Lemma commas_pairs l : snd (commas l) = concat (map snd l).
Proof.
  destruct l as [|a l]; [done|]. cbn. rewrite many_pairs, app_nil_r, map_map. done.
Qed.

(** *** Words *)
Definition ident_char (c : ascii) : bool := is_alphanumeric c || bool_decide (c = "_"%char).
Fixpoint all_chars (p : ascii -> bool) (s : string) : bool :=
  match s with EmptyString => true | String c s' => p c && all_chars p s' end.
Definition ident_ok (s : string) : bool :=
  match s with String c s' => is_alpha c && all_chars ident_char s' | EmptyString => false end.

(** A name that starts with [sync] may be read as that word and the rest of the name. *)
Definition no_prefix (w x : string) : bool := match strip w x with None => true | Some _ => false end.
Definition plain_name (x : string) : bool := ident_ok x && no_prefix "sync" x.

Lemma plain_ok x : plain_name x = true -> ident_ok x = true.
Proof. by intros [? _]%andb_true_iff. Qed.

Lemma star_chars e (p : ascii -> bool) s : (forall c, p c = true -> yields true e (String c "") []) ->
  all_chars p s = true -> yields true (Star e) s [].
Proof.
  intros He. induction s as [|c s IH]; intros Hs; [constructor|]. cbn in Hs. apply andb_true_iff in Hs as [Hc Hs].
  apply (y_star_cons true e (String c "") "" s [] []); [by apply He|constructor|by apply IH].
Qed.

Lemma ident_yields s : ident_ok s = true -> yields true ident s [].
Proof.
  destruct s as [|c s]; [done|]. intros [Hc Hs]%andb_true_iff.
  apply (y_seq true _ _ (String c "") "" s [] []); [by constructor|constructor|]. apply (star_chars _ ident_char); [|done].
  intros d [Hd|Hd]%orb_true_iff; [by do 2 constructor|]. apply bool_decide_eq_true in Hd as ->. apply y_choice_r. constructor.
Qed.

Definition not_quote (c : ascii) : bool := negb (bool_decide (c = "034"%char)).

Lemma string_yields s : all_chars not_quote s = true -> yields true (body Rule_string) (dquote +:+ s +:+ dquote) [].
Proof.
  intros Hs. apply (y_seq true _ _ dquote "" (s +:+ dquote) [] []); [constructor|constructor|].
  apply (y_seq true _ _ s "" dquote [] []); [|constructor|constructor]. apply (star_chars _ not_quote); [|done].
  intros c _. apply (y_seq true _ _ "" "" (String c "") [] []); by constructor.
Qed.

(** *** Integers *)
Lemma digits_go x : forall s, digits 0 (pretty_N_go x s) = digits (Z.of_N x) s.
Proof.
  induction (N.lt_wf_0 x) as [x _ IH]. intros s. destruct (decide (0 < x)%N) as [Hx|Hx].
  - rewrite pretty_N_go_step, IH by (try apply N.div_lt; lia). cbn [digits].
    assert (Hd : (x mod 10 < 10)%N) by (apply N.mod_lt; lia). pose proof (N.div_mod x 10 ltac:(lia)) as Hdiv.
    set (d := (x mod 10)%N) in *. set (q := (x / 10)%N) in *. clearbody d q.
    assert (Hc : is_digit (pretty_N_char d) = true /\ N_of_ascii (pretty_N_char d) = (48 + d)%N).
    { assert (d = 0 \/ d = 1 \/ d = 2 \/ d = 3 \/ d = 4 \/ d = 5 \/ d = 6 \/ d = 7 \/ d = 8 \/ d = 9)%N as Hcases by lia.
      repeat destruct Hcases as [-> | Hcases]; try (split; reflexivity). subst. split; reflexivity. }
    destruct Hc as [-> ->]. f_equal. lia.
  - by assert (x = 0%N) as -> by lia.
Qed.

Lemma digits_pretty (x : N) : digits 0 (pretty x) = Some (Z.of_N x).
Proof. unfold pretty, pretty_N. case_decide; [by subst|]. apply digits_go. Qed.

Lemma pretty_nonempty (x : N) : exists c s, (pretty x : string) = String c s /\ is_digit c = true.
Proof.
  pose proof (digits_pretty x) as Hd. destruct (pretty x : string) as [|c s] eqn:E.
  - unfold pretty, pretty_N in E. case_decide; [done|]. pose proof (digits_go x "") as Hg. rewrite E in Hg. cbn in Hg.
    injection Hg as Hg. lia.
  - exists c, s. split; [done|]. cbn in Hd. by destruct (is_digit c).
Qed.

Lemma digits_all s : forall acc n, digits acc s = Some n -> all_chars is_digit s = true.
Proof.
  induction s as [|c s IH]; intros acc n H; [done|]. cbn in *. destruct (is_digit c); [|done]. by eapply IH.
Qed.

Definition int_ok (n : Z) : bool := bool_decide (i64_min <= n <= i64_max)%Z.

Lemma digits_yields (x : N) : yields true (Plus (Char is_digit)) (pretty x) [].
Proof.
  destruct (pretty_nonempty x) as (c & s & E & Hc). rewrite E.
  apply (y_seq true _ _ (String c "") "" s [] []); [by constructor|constructor|].
  apply (star_chars _ is_digit); [intros d Hd; by constructor|]. pose proof (digits_pretty x) as Hd. rewrite E in Hd. cbn in Hd.
  rewrite Hc in Hd. by eapply digits_all.
Qed.

Lemma int_yields (n : Z) : yields true (body Rule_int) (pretty n) [].
Proof.
  assert (Hpos : forall x : N, yields true (body Rule_int) (pretty x) []).
  { intros x. exact (y_seq true (Opt (Str "-")) (Plus (Char is_digit)) "" "" (pretty x) [] []
      (y_opt_none _ _) (skip_nil _) (digits_yields x)). }
  destruct n as [|p|p]; [exact (Hpos 0%N)|exact (Hpos (Npos p))|].
  exact (y_seq true (Opt (Str "-")) (Plus (Char is_digit)) "-" "" (pretty (Npos p)) [] []
    (y_opt_some _ _ _ _ (y_str _ _)) (skip_nil _) (digits_yields (Npos p))).
Qed.

Lemma parse_int (n : Z) : int_ok n = true -> parse_i64 (pretty n) = inr n.
Proof.
  intros Hn%bool_decide_eq_true. unfold i64_min, i64_max in Hn.
  assert (Hpos : forall x : N, (Z.of_N x <= i64_max)%Z -> parse_i64 (pretty x) = inr (Z.of_N x)).
  { intros x Hx. pose proof (digits_pretty x) as Hd. destruct (pretty_nonempty x) as (c & s & E & Hc). rewrite E in *.
    destruct (digit_not_sign c Hc). unfold parse_i64. rewrite !decide_False, Hd by done. by rewrite decide_False by lia. }
  destruct n as [|p|p]; [exact (Hpos 0%N ltac:(done))|apply (Hpos (Npos p)); unfold i64_max; lia|].
  change (pretty (Zneg p)) with (String "-" (pretty (Npos p))). pose proof (digits_pretty (Npos p)) as Hd.
  destruct (pretty_nonempty (Npos p)) as (c & s & E & Hc). rewrite E in *. unfold parse_i64.
  rewrite decide_True, Hd by done. rewrite decide_False by (unfold i64_min; lia). done.
Qed.

(** ** Reading back *)
Lemma Expr_forall_ind (P : Expr -> Prop)
  (HInt : forall n, P (Expr_Int n)) (HStr : forall s, P (Expr_Str s)) (HIdent : forall x, P (Expr_Ident x))
  (HArray : forall l, Forall P l -> P (Expr_ArrayLit l))
  (HMap : forall l, Forall (fun kv => P (fst kv) /\ P (snd kv)) l -> P (Expr_MapLit l))
  (HStruct : forall n l, Forall (fun fv => P (snd fv)) l -> P (Expr_StructLit n l))
  (HCall : forall n l, Forall P l -> P (Expr_Call n l)) (HSync : forall n l, Forall P l -> P (Expr_SyncCall n l))
  (HMethod : forall r n l, P r -> Forall P l -> P (Expr_MethodCall r n l))
  (HBinary : forall l op r, P l -> P r -> P (Expr_Binary l op r)) : forall e, P e.
Proof.
  fix go 1. intros [n|s|x|l|l|n l|n l|n l|r n l|l op r]; [apply HInt|apply HStr|apply HIdent|apply HArray|apply HMap|
    apply HStruct|apply HCall|apply HSync|apply HMethod; [apply go|]|apply HBinary; apply go];
    try (induction l as [|x l IHl]; constructor; [first [apply go|split; apply go]|exact IHl]).
Qed.

Fixpoint expr_ok (e : Expr) : bool :=
  match e with
  | Expr_Int n => int_ok n
  | Expr_Str s => all_chars not_quote s
  | Expr_Ident x => plain_name x
  | Expr_ArrayLit l => forallb expr_ok l
  | Expr_MapLit l => forallb (fun '(k, v) => expr_ok k && expr_ok v) l
  | Expr_StructLit n l => plain_name n && forallb (fun '(f, v) => ident_ok f && expr_ok v) l
  | Expr_Call n l => plain_name n && forallb expr_ok l
  | Expr_SyncCall n l => ident_ok n && forallb expr_ok l
  | Expr_MethodCall r n l => expr_ok r && (ident_ok n && forallb expr_ok l)
  | Expr_Binary l _ r => expr_ok l && expr_ok r
  end.

(** With enough fuel for the height of the pair, up to some slack, the walker gives the value. *)
Definition reads {A} (k : nat) (parse : nat -> Pair -> parsed A) (p : Pair) (v : A) : Prop :=
  forall fuel, (2 * height p <= k + fuel)%nat -> parse fuel p = mret v.

(** A printed pair of a rule that reads back as a value. *)
Definition good {A} (k : nat) (r : Rule) (parse : nat -> Pair -> parsed A) (sp : span) (v : A) : Prop :=
  spans (Ref r) sp /\ exists p, snd sp = [p] /\ as_rule p = r /\ reads k parse p v.

Lemma good_weaken {A} r (parse : nat -> Pair -> parsed A) sp v : good 1 r parse sp v -> good 0 r parse sp v.
Proof. intros (Hs & p & Hp & Hr & Hv). split; [done|]. exists p. split_and!; [done|done|]. intros fuel Hf. apply Hv. lia. Qed.

Lemma good_spans {A} k r (parse : nat -> Pair -> parsed A) l vs : Forall2 (good k r parse) l vs -> Forall (spans (Ref r)) l.
Proof. induction 1 as [|a v l vs [Ha _] _ IH]; by constructor. Qed.

Lemma collect_good {A} k r (parse : nat -> Pair -> parsed A) fuel l vs : Forall2 (good k r parse) l vs ->
  (forall q, q ∈ concat (map snd l) -> 2 * height q <= k + fuel)%nat ->
  collect r (parse fuel) (concat (map snd l)) = mret vs.
Proof.
  induction 1 as [|a v l vs (_ & p & Hp & Hr & Hv) _ IH]; intros Hh; [done|]. cbn [map concat] in *. rewrite Hp in *.
  cbn [app collect] in *. rewrite decide_True, (Hv fuel) by (done || apply Hh; left). walk. rewrite IH; [done|].
  intros q Hq. apply Hh. by right.
Qed.

(** A node whose walker goes on with the pairs inside. *)
Lemma good_node {A} k r (parse : nat -> Pair -> parsed A) sp v : kind r = Normal -> spans (body r) sp ->
  (forall fuel, (forall q, q ∈ snd sp -> 2 * height q + 2 <= k + fuel)%nat -> (2 <= k + fuel)%nat ->
     parse fuel (mkPair r (fst sp) (snd sp)) = mret v) ->
  good k r parse (node r sp) v.
Proof.
  intros Hk Hs Hv. split; [by apply spans_node|]. eexists. split_and!; [done|done|]. intros fuel Hf.
  pose proof (fun q => height_inner (mkPair r (fst sp) (snd sp)) q) as Hlow. cbn [into_inner] in Hlow. apply Hv.
  - intros q Hq%Hlow. lia.
  - pose proof (height_pos (mkPair r (fst sp) (snd sp))). lia.
Qed.

Lemma good_leaf {A} k r (parse : nat -> Pair -> parsed A) s ps v : kind r = Atomic -> yields true (body r) s ps ->
  (forall fuel, (2 <= k + fuel)%nat -> parse fuel (mkPair r s []) = mret v) -> good k r parse (leaf r s) v.
Proof.
  intros Hk Hs Hv. split; [by eapply spans_leaf|]. eexists. split_and!; [done|done|]. intros fuel Hf. apply Hv. cbn in Hf. lia.
Qed.

Section reading.
Context `{Profile}.

(** *** Levels of operators *)
Definition operand_ok (op arg : Rule) (operator : Pair -> parsed BinOp) (parse : nat -> Pair -> parsed Expr)
    (oa : span * span) (bv : BinOp * Expr) : Prop :=
  spans (Ref op) (fst oa) /\ (exists p, snd (fst oa) = [p] /\ operator p = mret (fst bv)) /\
  good 0 arg parse (snd oa) (snd bv).

(** A chain that reads back as the operators applied from the left. *)
Definition chain_ok (op arg : Rule) (operator : Pair -> parsed BinOp) (parse : nat -> Pair -> parsed Expr)
    (c : chain) (e : Expr) : Prop :=
  exists v vs, good 0 arg parse (first c) v /\ Forall2 (operand_ok op arg operator parse) (others c) vs /\
    e = foldl (fun l '(b, r) => Expr_Binary l b r) v vs.

Lemma chain_one op arg operator parse sp e : good 0 arg parse sp e -> chain_ok op arg operator parse (mkChain sp []) e.
Proof. intros Hg. exists e, []. by split_and!; [|constructor|]. Qed.

Lemma chain_more op arg operator parse c l o a b r :
  chain_ok op arg operator parse c l -> operand_ok op arg operator parse (o, a) (b, r) ->
  chain_ok op arg operator parse (more c o a) (Expr_Binary l b r).
Proof.
  intros (v & vs & Hv & Hvs & ->) Ho. exists v, (vs ++ [(b, r)]). split_and!; [done|by apply Forall2_app; [|constructor]|].
  by rewrite foldl_app.
Qed.

Lemma operations_read op arg operator parse fuel missing l : forall vs lhs,
  Forall2 (operand_ok op arg operator parse) l vs ->
  (forall q, q ∈ concat (map (fun '(o, a) => snd o ++ snd a) l) -> 2 * height q <= fuel)%nat ->
  operations operator (parse fuel) missing lhs (concat (map (fun '(o, a) => snd o ++ snd a) l)) =
    mret (foldl (fun l '(b, r) => Expr_Binary l b r) lhs vs).
Proof.
  induction l as [|[o a] l IH]; intros vs lhs Hf Hh; inversion Hf as [|? [b r] ? vs' Ho Hf']; subst; [done|].
  destruct Ho as (_ & (po & Eo & Hop) & _ & pa & Ea & _ & Ha). cbn [map concat fst snd] in *. rewrite Eo, Ea in *.
  cbn [app operations]. rewrite Hop. walk. rewrite (Ha fuel) by (apply Hh; set_solver). walk. refine (IH vs' (Expr_Binary lhs b r) Hf' _).
  intros q Hq. apply Hh. set_solver.
Qed.

Lemma chain_pairs c : snd (chain_span c) = snd (first c) ++ concat (map (fun '(o, a) => snd o ++ snd a) (others c)).
Proof. unfold chain_span, seq. cbn [snd]. rewrite many_pairs, map_map. do 2 f_equal. apply map_ext. by intros [o a]. Qed.

Lemma chain_good r op arg operator parse (up : nat -> Pair -> parsed Expr) no_left no_right c e :
  kind r = Normal -> body r = Seq (Ref arg) (Star (Seq (Ref op) (Ref arg))) ->
  (forall fuel p, up (S fuel) p = level operator (parse fuel) no_left no_right p) ->
  chain_ok op arg operator parse c e -> good 1 r up (node r (chain_span c)) e.
Proof.
  intros Hk Hb Hup (v & vs & (Hs & p & Ep & _ & Hv) & Hf & ->). apply good_node; [done| |].
  - rewrite Hb. apply spans_seq; [done|]. apply spans_many, Forall_map. clear -Hf. induction Hf as [|[o a] [b r] l vs' Ho Hf IH]; constructor; [|done].
    destruct Ho as (Ho & _ & Ha & _). by apply spans_seq.
  - intros [|fuel] Hh Hpos; [lia|]. rewrite Hup. unfold level. cbn [into_inner]. rewrite chain_pairs, Ep in *. cbn [app]. walk.
    assert (Hp : (2 * height p + 2 <= 1 + S fuel)%nat) by (apply Hh; left).
    rewrite (Hv fuel) by lia. walk. apply (operations_read op arg); [done|]. intros q Hq.
    assert ((2 * height q + 2 <= 1 + S fuel)%nat) by (apply Hh; by right). lia.
Qed.

(** *** Primaries *)
Definition suffix_ok (sp : span) (na : string * list Expr) : Prop :=
  spans (Ref Rule_method_call_suffix) sp /\
  exists p pc, snd sp = [p] /\ as_rule p = Rule_method_call_suffix /\ into_inner p = [pc] /\
    reads 1 parse_call pc (Expr_Call (fst na) (snd na)).

Definition primary_ok (p : primary) (e : Expr) : Prop :=
  exists v vs, good 0 Rule_atom parse_primary (fst p) v /\ Forall2 suffix_ok (snd p) vs /\
    e = foldl (fun e '(name, args) => Expr_MethodCall e name args) v vs.

Lemma method_calls_read fuel l : forall vs e, Forall2 suffix_ok l vs ->
  (forall q, q ∈ concat (map snd l) -> 2 * height q <= S fuel)%nat ->
  method_calls (parse_call fuel) e (concat (map snd l)) = mret (foldl (fun e '(name, args) => Expr_MethodCall e name args) e vs).
Proof.
  induction l as [|sp l IH]; intros vs e Hf Hh; inversion Hf as [|? [name args] ? vs' Ho Hf']; subst; [done|].
  destruct Ho as (_ & p & pc & Ep & Er & Ei & Hr). cbn [map concat fst snd] in *. rewrite Ep in *. cbn [app method_calls].
  rewrite Er, Ei. walk. pose proof (Hh p ltac:(left)) as Hp. pose proof (height_inner p pc) as Hpc. rewrite Ei in Hpc.
  specialize (Hpc ltac:(left)). rewrite (Hr fuel) by lia. walk. refine (IH vs' (Expr_MethodCall e name args) Hf' _).
  intros q Hq. apply Hh. by right.
Qed.

Lemma primary_good p e : primary_ok p e -> good 0 Rule_primary parse_primary (node Rule_primary (primary_span p)) e.
Proof.
  intros (v & vs & (Hs & pa & Ea & _ & Hv) & Hf & ->). apply good_node; [done| |].
  - apply spans_seq; [done|]. apply spans_many. clear -Hf. induction Hf as [|sp na l vs' [Ho _] Hf IH]; by constructor.
  - intros [|fuel] Hh Hpos; [lia|]. cbn [parse_primary as_rule into_inner]. unfold primary_span, seq in *. cbn [snd] in *.
    rewrite many_pairs, Ea in *. cbn [app] in *. walk. specialize (Hh pa ltac:(left)) as Hpa. rewrite (Hv fuel) by lia. walk.
    apply method_calls_read; [done|]. intros q Hq. specialize (Hh q ltac:(by right)). lia.
Qed.

Lemma atom_good a e : spans (body Rule_atom) a -> (exists pa, snd a = [pa] /\ reads 0 parse_primary pa e) ->
  good 0 Rule_atom parse_primary (node Rule_atom a) e.
Proof.
  intros Hs (pa & Ea & Hr). apply good_node; [done|done|]. intros [|fuel] Hh Hpos; [lia|].
  cbn [parse_primary as_rule into_inner]. rewrite Ea in *. walk. specialize (Hh pa ltac:(left)). apply Hr. lia.
Qed.

(** *** All levels *)
Record forms_ok (f : forms) (e : Expr) : Prop := mkFormsOk {
  ok_equality : chain_ok Rule_equality_op Rule_add equality_op parse_add (equality f) e;
  ok_sum : chain_ok Rule_add_op Rule_mul add_op parse_mul (sum f) e;
  ok_product : chain_ok Rule_mul_op Rule_primary mul_op parse_primary (product f) e;
  ok_prim : primary_ok (prim f) e
}.

Lemma up_primary_ok p e : primary_ok p e -> chain_ok Rule_mul_op Rule_primary mul_op parse_primary (up_primary p) e.
Proof. intros Hp. by apply chain_one, primary_good. Qed.

Lemma up_product_ok c e : chain_ok Rule_mul_op Rule_primary mul_op parse_primary c e ->
  chain_ok Rule_add_op Rule_mul add_op parse_mul (up_product c) e.
Proof. intros Hc. apply chain_one, good_weaken. by eapply chain_good. Qed.

Lemma up_sum_ok c e : chain_ok Rule_add_op Rule_mul add_op parse_mul c e ->
  chain_ok Rule_equality_op Rule_add equality_op parse_add (up_sum c) e.
Proof. intros Hc. apply chain_one, good_weaken. by eapply chain_good. Qed.

Lemma expr_span_good c e : chain_ok Rule_equality_op Rule_add equality_op parse_add c e ->
  good 1 Rule_expr parse_expr (expr_span c) e.
Proof.
  intros Hc. assert (Hq : good 1 Rule_equality parse_equality (node Rule_equality (chain_span c)) e) by by eapply chain_good.
  destruct Hq as (Hs & p & Ep & _ & Hv). apply good_node; [done|done|]. intros [|fuel] Hh Hpos; [lia|].
  cbn [parse_expr as_rule into_inner]. rewrite bool_decide_eq_true_2, andb_false_r by done. rewrite Ep in *. walk.
  specialize (Hh p ltac:(left)). apply Hv. lia.
Qed.

Lemma parens_ok c e : chain_ok Rule_equality_op Rule_add equality_op parse_add c e -> primary_ok (parens c) e.
Proof.
  intros Hc. destruct (expr_span_good _ _ Hc) as (Hs & p & Ep & Er & Hv). exists e, []. split_and!; [|constructor|done].
  apply atom_good.
  - do 8 apply y_choice_r. apply spans_seq; [apply spans_word|]. by apply spans_seq; [|apply spans_word].
  - exists p. cbn [snd seq word app]. rewrite Ep. split; [done|]. intros [|fuel] Hf; [pose proof (height_pos p); lia|].
    cbn [parse_primary]. rewrite Er. apply Hv. lia.
Qed.

Lemma of_primary_ok p e : primary_ok p e -> forms_ok (of_primary p) e.
Proof. intros Hp. constructor; cbn; eauto using up_primary_ok, up_product_ok, up_sum_ok. Qed.

Lemma of_product_ok c e : chain_ok Rule_mul_op Rule_primary mul_op parse_primary c e -> forms_ok (of_product c) e.
Proof. intros Hp. constructor; cbn; eauto using up_primary_ok, up_product_ok, up_sum_ok, parens_ok. Qed.

Lemma of_sum_ok c e : chain_ok Rule_add_op Rule_mul add_op parse_mul c e -> forms_ok (of_sum c) e.
Proof. intros Hp. constructor; cbn; eauto using up_primary_ok, up_product_ok, up_sum_ok, parens_ok. Qed.

Lemma of_equality_ok c e : chain_ok Rule_equality_op Rule_add equality_op parse_add c e -> forms_ok (of_equality c) e.
Proof. intros Hp. constructor; cbn; eauto using up_primary_ok, up_product_ok, up_sum_ok, parens_ok. Qed.

Lemma operator_spans op r : kind r = Normal -> spans (body r) (word (op_text op)) -> spans (Ref r) (leaf r (op_text op)).
Proof. intros Hk Hs. change (leaf r (op_text op)) with (node r (word (op_text op))). by apply spans_node. Qed.

(** Takes the choice that matches. *)
Ltac choose H := repeat first [exact H | apply y_choice_l; exact H | apply y_choice_r].

Lemma binary_ok l op r fl fr : forms_ok fl l -> forms_ok fr r -> forms_ok (binary op fl fr) (Expr_Binary l op r).
Proof.
  intros [Hle Hls Hlp _] [_ Hrs Hrp Hrm].
  assert (Hadd : good 0 Rule_add parse_add (first (up_sum (sum fr))) r) by by eapply good_weaken, chain_good.
  assert (Hmul : good 0 Rule_mul parse_mul (first (up_product (product fr))) r) by by eapply good_weaken, chain_good.
  pose proof (primary_good _ _ Hrm) as Hprim. pose proof (y_str false (op_text op)) as Hop.
  destruct op; cbn [binary];
    [apply of_sum_ok|apply of_sum_ok|apply of_product_ok|apply of_product_ok|apply of_equality_ok..];
    (apply chain_more; [done|]; split_and!; [apply operator_spans; [done|choose Hop]|by eexists|done]).
Qed.

(** *** Calls and literals *)
Lemma args_read l vs : Forall2 (good 1 Rule_expr parse_expr) l vs ->
  let args := match l with [] => empty | _ => node Rule_arg_list (commas l) end in
  spans (Opt (Ref Rule_arg_list)) args /\
  forall fuel, (forall q, q ∈ snd args -> 2 * height q <= S fuel)%nat ->
    parse_args (parse_expr fuel) (snd args) = mret vs.
Proof.
  intros Hf args. destruct Hf as [|a v l vs Ha Hf]; [by split; [constructor|]|].
  assert (Hall : Forall2 (good 1 Rule_expr parse_expr) (a :: l) (v :: vs)) by by constructor. split.
  - apply y_opt_some, spans_node; [done|]. apply spans_commas; [done|]. by eapply good_spans.
  - intros fuel Hh. cbn [args snd node parse_args as_rule into_inner]. rewrite decide_True, commas_pairs by done.
    eapply collect_good; [done|]. intros q Hq. specialize (Hh _ ltac:(left)).
    pose proof (height_inner (mkPair Rule_arg_list (fst (commas (a :: l))) (snd (commas (a :: l)))) q) as Hlow.
    cbn [into_inner] in Hlow. rewrite commas_pairs in Hlow. specialize (Hlow Hq). rewrite commas_pairs in Hh. lia.
Qed.

Lemma ident_good {A} k r (parse : nat -> Pair -> parsed A) name v : kind r = Atomic -> body r = ident -> ident_ok name = true ->
  (forall fuel, (2 <= k + fuel)%nat -> parse fuel (mkPair r name []) = mret v) -> good k r parse (leaf r name) v.
Proof. intros Hk Hb Hn Hp. eapply good_leaf; [done| |done]. rewrite Hb. by apply ident_yields. Qed.

Lemma ident_spans r name : kind r = Atomic -> body r = ident -> ident_ok name = true -> spans (Ref r) (leaf r name).
Proof. intros Hk Hb Hn. eapply spans_leaf; [done|]. rewrite Hb. by apply ident_yields. Qed.

Lemma call_good name l vs : ident_ok name = true -> Forall2 (good 1 Rule_expr parse_expr) l vs ->
  good 1 Rule_call parse_call (call_span name l) (Expr_Call name vs).
Proof.
  intros Hn Hf. destruct (args_read l vs Hf) as [Hs Hr]. apply good_node; [done| |].
  - apply spans_seq; [by apply ident_spans|]. apply spans_seq; [apply spans_word|]. by apply spans_seq; [|apply spans_word].
  - intros [|fuel] Hh Hpos; [lia|]. cbn [parse_call into_inner seq snd leaf word app] in *. walk. rewrite app_nil_r in *.
    rewrite Hr; [done|]. intros q Hq. specialize (Hh q ltac:(by right)). lia.
Qed.

(** An atom whose walker is called on the pair itself. *)
Lemma of_atom_ok r (parse : nat -> Pair -> parsed Expr) a e : good 1 r parse a e -> spans (body Rule_atom) a ->
  (forall fuel p, as_rule p = r -> parse_primary (S fuel) p = parse fuel p) -> forms_ok (of_atom a) e.
Proof.
  intros (_ & p & Ep & Er & Hv) Hs Hparse. apply of_primary_ok. exists e, []. split_and!; [|constructor|done].
  apply atom_good; [done|]. exists p. split; [done|]. intros [|fuel] Hf; [pose proof (height_pos p); lia|].
  rewrite Hparse by done. by apply Hv.
Qed.

Lemma of_leaf_ok r s ps e : kind r = Atomic -> yields true (body r) s ps -> spans (body Rule_atom) (leaf r s) ->
  (forall fuel, parse_primary (S fuel) (mkPair r s []) = mret e) -> forms_ok (of_atom (leaf r s)) e.
Proof.
  intros Hk Hy Hs Hparse. apply of_primary_ok. exists e, []. split_and!; [|constructor|done].
  apply atom_good; [done|]. eexists. split; [done|]. intros [|fuel] Hf; [cbn in Hf; lia|]. apply Hparse.
Qed.

Lemma substring_all s t : String.substring 0 (String.length s) (s +:+ t) = s.
Proof. induction s as [|c s IH]; [by destruct t|]. change (String c (String.substring 0 (String.length s) (s +:+ t)) = String c s). by rewrite IH. Qed.

Lemma unquote_quoted s : unquote (dquote +:+ s +:+ dquote) = mret s.
Proof.
  unfold unquote. rewrite decide_True by (rewrite !string_length_app; cbn; lia). rewrite !string_length_app.
  replace (String.length dquote + (String.length s + String.length dquote) - 2)%nat with (String.length s) by (cbn; lia).
  change (String.substring 1 (String.length s) (dquote +:+ s +:+ dquote)) with (String.substring 0 (String.length s) (s +:+ dquote)).
  by rewrite substring_all.
Qed.

Definition entry_walker (fuel : nat) : Pair -> parsed (Expr * Expr) := parse_map_entry (parse_expr fuel).
Definition field_walker (fuel : nat) : Pair -> parsed (string * Expr) := parse_struct_lit_field (parse_expr fuel).

Lemma entry_good k v e1 e2 : good 1 Rule_expr parse_expr k e1 -> good 1 Rule_expr parse_expr v e2 ->
  good 1 Rule_map_entry entry_walker (node Rule_map_entry (k +++ word ":" +++ v)) (e1, e2).
Proof.
  intros (Hk & pk & Ek & _ & Hrk) (Hv & pv & Ev & _ & Hrv). apply good_node; [done| |].
  - apply spans_seq; [done|]. by apply spans_seq; [apply spans_word|].
  - intros fuel Hh Hpos. unfold entry_walker, parse_map_entry. cbn [into_inner seq snd word app] in *. rewrite Ek, Ev in *. cbn [app] in *.
    pose proof (Hh pk ltac:(left)). pose proof (Hh pv ltac:(right; left)). walk. rewrite Hrk by lia. walk. by rewrite Hrv by lia.
Qed.

Lemma field_good name v e : ident_ok name = true -> good 1 Rule_expr parse_expr v e ->
  good 1 Rule_struct_lit_field field_walker (node Rule_struct_lit_field (leaf Rule_identifier name +++ word ":" +++ v)) (name, e).
Proof.
  intros Hn (Hv & pv & Ev & _ & Hrv). apply good_node; [done| |].
  - apply spans_seq; [by apply ident_spans|]. by apply spans_seq; [apply spans_word|].
  - intros fuel Hh Hpos. unfold field_walker, parse_struct_lit_field. cbn [into_inner seq snd word leaf app] in *. rewrite Ev in *.
    pose proof (Hh pv ltac:(right; left)). walk. by rewrite Hrv by lia.
Qed.

(** What stands between brackets reads back. *)
Lemma bracketed {A} k r (parse : nat -> Pair -> parsed A) l vs fuel : Forall2 (good k r parse) l vs ->
  (forall q, q ∈ snd (commas l) -> 2 * height q <= k + fuel)%nat ->
  collect r (parse fuel) (snd (commas l)) = mret vs.
Proof. intros Hf Hh. rewrite commas_pairs in *. by eapply collect_good. Qed.

Lemma array_good l vs : Forall2 (good 1 Rule_expr parse_expr) l vs ->
  good 1 Rule_array_lit parse_array_lit (node Rule_array_lit (word "[" +++ commas l +++ word "]")) (Expr_ArrayLit vs).
Proof.
  intros Hf. apply good_node; [done| |].
  - apply spans_seq; [apply spans_word|]. apply spans_seq; [|apply spans_word]. eapply spans_opt_commas, good_spans, Hf.
  - intros [|fuel] Hh Hpos; [lia|]. cbn [parse_array_lit into_inner seq snd word app] in *. rewrite app_nil_r in *.
    rewrite (bracketed 1 _ _ _ vs); [done|done|]. intros q Hq. specialize (Hh q Hq). lia.
Qed.

Lemma map_good l vs : Forall2 (good 1 Rule_map_entry entry_walker) l vs ->
  good 1 Rule_map_lit parse_map_lit (node Rule_map_lit (word "{" +++ commas l +++ word "}")) (Expr_MapLit vs).
Proof.
  intros Hf. apply good_node; [done| |].
  - apply spans_seq; [apply spans_word|]. apply spans_seq; [|apply spans_word]. eapply spans_opt_commas, good_spans, Hf.
  - intros [|fuel] Hh Hpos; [lia|]. cbn [parse_map_lit into_inner seq snd word app] in *. rewrite app_nil_r in *.
    fold (entry_walker fuel). rewrite (bracketed 1 _ _ _ vs); [done|done|]. intros q Hq. specialize (Hh q Hq). lia.
Qed.

Lemma struct_good name l vs : ident_ok name = true -> Forall2 (good 1 Rule_struct_lit_field field_walker) l vs ->
  good 1 Rule_struct_lit parse_struct_lit (node Rule_struct_lit (leaf Rule_type_ident name +++ word "{" +++ commas l +++ word "}"))
    (Expr_StructLit name vs).
Proof.
  intros Hn Hf. apply good_node; [done| |].
  - apply spans_seq; [by apply ident_spans|]. apply spans_seq; [apply spans_word|]. apply spans_seq; [|apply spans_word].
    eapply spans_opt_commas, good_spans, Hf.
  - intros [|fuel] Hh Hpos; [lia|]. cbn [parse_struct_lit into_inner seq snd word leaf app] in *. rewrite app_nil_r in *. walk.
    fold (field_walker fuel). rewrite (bracketed 1 _ _ _ vs); [done|done|]. intros q Hq. specialize (Hh q ltac:(by right)). lia.
Qed.

Lemma sync_good c name args : good 1 Rule_call parse_call c (Expr_Call name args) ->
  good 1 Rule_sync_call parse_sync_call (node Rule_sync_call (word "sync" +++ c)) (Expr_SyncCall name args).
Proof.
  intros (Hc & pc & Ec & _ & Hr). apply good_node; [done|by apply spans_seq; [apply spans_word|]|].
  intros [|fuel] Hh Hpos; [lia|]. cbn [parse_sync_call into_inner seq snd word app] in *. rewrite Ec in *. walk.
  specialize (Hh pc ltac:(left)). by rewrite Hr by lia.
Qed.

Lemma suffix_good c name args : good 1 Rule_call parse_call c (Expr_Call name args) ->
  suffix_ok (node Rule_method_call_suffix (word "." +++ c)) (name, args).
Proof.
  intros (Hc & pc & Ec & _ & Hr). split; [apply spans_node; [done|]; by apply spans_seq; [apply spans_word|]|].
  eexists _, pc. by split_and!.
Qed.

(** *** Every expression *)
Lemma exprs_good l : Forall (fun e => expr_ok e = true -> forms_ok (syntax e) e) l -> forallb expr_ok l = true ->
  Forall2 (good 1 Rule_expr parse_expr) (map (fun e => expr_span (equality (syntax e))) l) l.
Proof.
  induction 1 as [|e l He Hl IH]; intros Hok; [constructor|]. cbn in Hok. apply andb_true_iff in Hok as [Hoe Hol].
  constructor; [|by apply IH]. apply expr_span_good. by apply He.
Qed.

Lemma syntax_ok e : expr_ok e = true -> forms_ok (syntax e) e.
Proof.
  induction e as [n|s|x|l IH|l IH|n l IH|n l IH|n l IH|r n l IHr IH|l op r IHl IHr] using Expr_forall_ind; intros Hok;
    cbn [expr_ok] in Hok; cbn [syntax]; repeat apply andb_true_iff in Hok as [? Hok];
    try match goal with H : plain_name _ = true |- _ => apply plain_ok in H end.
  - assert (Hs : spans (Ref Rule_int) (leaf Rule_int (pretty n))) by by eapply spans_leaf, int_yields.
    eapply of_leaf_ok; [done|apply int_yields|choose Hs|]. intros fuel. cbn [parse_primary as_rule as_str]. by rewrite parse_int.
  - assert (Hs : spans (Ref Rule_string) (leaf Rule_string (dquote +:+ s +:+ dquote))) by by eapply spans_leaf, string_yields.
    eapply of_leaf_ok; [done|by apply string_yields|choose Hs|]. intros fuel. cbn [parse_primary as_rule as_str].
    by rewrite unquote_quoted.
  - assert (Hs : spans (Ref Rule_identifier) (leaf Rule_identifier x)) by by apply ident_spans.
    eapply of_leaf_ok; [done|by apply ident_yields|choose Hs|]. done.
  - pose proof (array_good _ _ (exprs_good l IH Hok)) as Hg. eapply of_atom_ok; [exact Hg|choose (proj1 Hg)|]. intros fuel p Ep; cbn [parse_primary]; by rewrite Ep.
  - assert (Hf : Forall2 (good 1 Rule_map_entry entry_walker)
      (map (fun '(k, v) => node Rule_map_entry (expr_span (equality (syntax k)) +++ word ":" +++ expr_span (equality (syntax v)))) l) l).
    { induction IH as [|[k v] l [Hk Hv] _ IH']; [constructor|]. cbn [forallb fst snd] in *. apply andb_true_iff in Hok as [He Hol].
      apply andb_true_iff in He as [Hok1 Hok2]. constructor; [|by apply IH'].
      apply entry_good; apply expr_span_good; [by apply Hk|by apply Hv]. }
    pose proof (map_good _ _ Hf) as Hg. eapply of_atom_ok; [exact Hg|choose (proj1 Hg)|]. intros fuel p Ep; cbn [parse_primary]; by rewrite Ep.
  - assert (Hf : Forall2 (good 1 Rule_struct_lit_field field_walker)
      (map (fun '(f, v) => node Rule_struct_lit_field (leaf Rule_identifier f +++ word ":" +++ expr_span (equality (syntax v)))) l) l).
    { induction IH as [|[k v] l Hv _ IH']; [constructor|]. cbn [forallb fst snd] in *. apply andb_true_iff in Hok as [He Hol].
      apply andb_true_iff in He as [Hok1 Hok2]. constructor; [|by apply IH'].
      apply field_good; [done|]. apply expr_span_good. by apply Hv. }
    pose proof (struct_good n _ _ ltac:(done) Hf) as Hg. eapply of_atom_ok; [exact Hg|choose (proj1 Hg)|]. intros fuel p Ep; cbn [parse_primary]; by rewrite Ep.
  - pose proof (call_good n _ _ ltac:(done) (exprs_good l IH Hok)) as Hg.
    eapply of_atom_ok; [exact Hg|choose (proj1 Hg)|]. intros fuel p Ep; cbn [parse_primary]; by rewrite Ep.
  - pose proof (sync_good _ _ _ (call_good n _ _ ltac:(done) (exprs_good l IH Hok))) as Hg.
    eapply of_atom_ok; [exact Hg|choose (proj1 Hg)|]. intros fuel p Ep; cbn [parse_primary]; by rewrite Ep.
  - destruct (IHr ltac:(done)) as [_ _ _ (v & vs & Hv & Hvs & ->)]. destruct (prim _) as [atom calls].
    apply of_primary_ok. eexists v, (vs ++ [(n, l)]). split_and!; [done| |by rewrite foldl_app].
    cbn [snd] in *. apply Forall2_app; [done|]. constructor; [|constructor]. apply suffix_good, call_good; [done|]. by apply exprs_good.
  - apply binary_ok; [by apply IHl|by apply IHr].
Qed.

Lemma expr_good e : expr_ok e = true -> good 1 Rule_expr parse_expr (expr_syntax e) e.
Proof. intros Hok. by apply expr_span_good, syntax_ok. Qed.

Lemma closed_good e : expr_ok e = true -> good 1 Rule_expr parse_expr (closed_syntax e) e.
Proof. intros Hok. apply expr_span_good. cbn [of_primary equality]. by apply up_sum_ok, up_product_ok, up_primary_ok, parens_ok, syntax_ok. Qed.
End reading.
