(* ===== verification/PegTrees.v ===== *)
(** * Printed expressions, parsed

    The parser that pest derives, with its ordered choices and its lookaheads, finds the tree
    that [ParserTrees] prints for an expression: every choice before the right one fails on the
    printed text, and no repetition goes on into what follows it. *)
From stdpp Require Import pretty.
From Stdlib Require Import Ascii.
From S2P Require Import Prelude Grammar Peg Parser ParserSpec ParserTests ParserTrees.
Local Open Scope string_scope.
Local Open Scope list_scope.
Local Open Scope peg_scope.

(** ** Texts and what follows them *)
Definition heads (p : ascii -> bool) (s : string) : bool := match s with String c _ => p c | EmptyString => false end.

(** A text that may follow: it ends the white space and starts, if at all, with a character of [p]. *)
Definition follows (p : ascii -> bool) (s : string) : Prop :=
  solid s = true /\ match s with String c _ => p c = true | EmptyString => True end.

(** The expression matches the text of the span exactly, with its pairs, when [p] describes
    what follows, after the gap. *)
Definition tight (e : pexpr) (sp : span) (p : ascii -> bool) : Prop :=
  forall r, follows p r -> gives false e (fst sp +:+ gap sp +:+ r) (Some (fst sp, gap sp +:+ r, snd sp)).

Lemma follows_weaken p q s : (forall c, p c = true -> q c = true) -> follows p s -> follows q s.
Proof. intros Hpq [Hs Hp]. split; [done|]. destruct s; [done|]. by apply Hpq. Qed.

Lemma tight_weaken e sp p q : (forall c, p c = true -> q c = true) -> tight e sp q -> tight e sp p.
Proof. intros Hpq Ht r Hr. apply Ht. by eapply follows_weaken. Qed.

Lemma tight_word s p : tight (Str s) (word s) p.
Proof. intros r _. apply str_gives. Qed.

Lemma tight_node r sp p : kind r = Normal -> tight (body r) sp p -> tight (Ref r) (node r sp) p.
Proof.
  intros Hk Ht s Hs. specialize (Ht s Hs). change (gap (node r sp)) with (gap sp). cbn [node fst snd].
  assert (Hr : gives (false || bool_decide (kind r = Atomic)) (body r) (fst sp +:+ gap sp +:+ s) (Some (fst sp, gap sp +:+ s, snd sp)))
    by by rewrite Hk.
  apply gives_ref in Hr. cbn [enclose] in Hr. unfold token in Hr. by rewrite Hk in Hr.
Qed.

Lemma tight_first e1 e2 sp p : tight e1 sp p -> tight (e1 </> e2) sp p.
Proof. intros Ht r Hr. by apply gives_first, Ht. Qed.

Lemma tight_second e1 e2 sp p : (forall r, follows p r -> gives false e1 (fst sp +:+ gap sp +:+ r) None) -> tight e2 sp p ->
  tight (e1 </> e2) sp p.
Proof. intros Hf Ht r Hr. apply gives_second; [by apply Hf|by apply Ht]. Qed.

Lemma tight_opt e sp p : tight e sp p -> tight (Opt e) sp p.
Proof. intros Ht r Hr. by apply gives_opt, Ht. Qed.

Lemma tight_none e p : (forall r, follows p r -> gives false e r None) -> tight (Opt e) empty p.
Proof. intros Hf r Hr. by apply opt_nothing, Hf. Qed.

(** *** Gaps *)
Lemma ends_app s t : t <> "" -> ends_with_space (s +:+ t) = ends_with_space t.
Proof.
  intros Ht. induction s as [|c s IH]; [done|]. change (ends_with_space (String c (s +:+ t)) = ends_with_space t).
  destruct (s +:+ t) as [|d u] eqn:E; [|cbn [ends_with_space] in *; exact IH]. by apply empty_app in E as [-> ->].
Qed.

Lemma gap_space a : fst a <> "" -> ends_with_space (fst a +:+ gap a) = true.
Proof.
  intros Ha. unfold gap. rewrite decide_False by done. destruct (ends_with_space (fst a)) eqn:E; [by rewrite string_app_nil|].
  by rewrite ends_app.
Qed.

Lemma gap_empty a : fst a = "" -> gap a = "".
Proof. intros Ha. unfold gap. by rewrite decide_True. Qed.

Lemma gap_ended a : ends_with_space (fst a) = true -> gap a = "".
Proof. intros Ha. unfold gap. case_decide; [done|]. by rewrite Ha. Qed.

Lemma gap_seq a b : gap (a +++ b) = gap b.
Proof.
  destruct (decide (fst b = "")) as [Eb|Eb].
  - rewrite (gap_empty b Eb). destruct (decide (fst a = "")) as [Ea|Ea].
    + apply gap_empty. cbn [seq fst]. by rewrite (gap_empty a Ea), Ea, Eb.
    + apply gap_ended. cbn [seq fst]. rewrite Eb, string_app_nil. by apply gap_space.
  - assert (Hab : fst (a +++ b) <> "") by (cbn [seq fst]; by intros [_ [_ ?]%empty_app]%empty_app).
    assert (He : ends_with_space (fst (a +++ b)) = ends_with_space (fst b))
      by (cbn [seq fst]; by rewrite string_app_assoc, ends_app).
    unfold gap. by rewrite (decide_False _ _ Hab), (decide_False _ _ Eb), He.
Qed.

Lemma gap_skips a s : solid s = true -> skips false (gap a +:+ s) (gap a) s.
Proof.
  intros Hs. unfold gap. case_decide; [by apply solid_skips|]. destruct ends_with_space; [by apply solid_skips|by apply space_skips].
Qed.

Lemma tight_seq e1 e2 a b p q : tight e1 a p -> tight e2 b q ->
  (forall r, follows q r -> follows p (fst b +:+ gap b +:+ r)) -> tight (e1 ~~ e2) (a +++ b) q.
Proof.
  intros Ha Hb Hfol r Hr. rewrite gap_seq. cbn [seq fst snd].
  pose proof (Ha _ (Hfol r Hr)) as H1. pose proof (gap_skips a _ (proj1 (Hfol r Hr))) as H2.
  pose proof (gives_seq _ _ _ _ _ _ _ _ _ _ H1 H2 (Hb r Hr)) as H. cbn [after] in H.
  rewrite !string_app_assoc in *. exact H.
Qed.

(** *** What a span starts with *)
Definition starts (p : ascii -> bool) (sp : span) : Prop := fst sp <> "" /\ forall r, follows p (fst sp +:+ gap sp +:+ r).

(** After the gap before [sp], [p] describes what follows, when [q] describes what follows [sp]. *)
Definition leads (p q : ascii -> bool) (sp : span) : Prop := forall r, follows q r -> follows p (fst sp +:+ gap sp +:+ r).

Lemma starts_leads p q sp : starts p sp -> leads p q sp.
Proof. intros [_ Hs] r _. apply Hs. Qed.

Lemma empty_leads p q : (forall c, q c = true -> p c = true) -> leads p q empty.
Proof. intros Hq r Hr. by eapply follows_weaken. Qed.

Lemma starts_weaken p q sp : (forall c, p c = true -> q c = true) -> starts p sp -> starts q sp.
Proof. intros Hpq [Hn Hs]. split; [done|]. intros r. by eapply follows_weaken. Qed.

Lemma starts_seq p a b : starts p a -> starts p (a +++ b).
Proof.
  intros [Hn Hs]. split; [cbn [seq fst]; by intros [? _]%empty_app|]. intros r. rewrite gap_seq. cbn [seq fst].
  rewrite <-!string_app_assoc. apply Hs.
Qed.

Lemma starts_node p r sp : starts p sp -> starts p (node r sp).
Proof. done. Qed.

Lemma starts_char (p : ascii -> bool) c s ps : p c = true -> blank c = false -> c <> "/"%char -> starts p (String c s, ps).
Proof.
  intros Hp Hb Hc. split; [done|]. intros r. split; [|done]. change (solid (String c (s +:+ gap (String c s, ps) +:+ r)) = true).
  unfold solid. by rewrite Hb, bool_decide_eq_false_2.
Qed.

Lemma starts_many p a l : starts p a -> starts p (many (a :: l)).
Proof. intros Ha. destruct l as [|b l]; [done|]. by apply (starts_seq p a (many (b :: l))). Qed.

Lemma seq_tight e1 e2 a b p q : tight e1 a p -> tight e2 b q -> leads p q b -> tight (e1 ~~ e2) (a +++ b) q.
Proof. intros Ha Hb Hl. by eapply tight_seq. Qed.

(** *** Repetitions *)
Lemma tight_many e l p q : Forall (fun a => tight e a p /\ starts p a) l -> (forall c, q c = true -> p c = true) ->
  (forall r, follows q r -> gives false e r None) -> tight (Star e) (many l) q.
Proof.
  intros Hl Hq Hend. induction Hl as [|a l [Ha Hs] Hl IH]; [intros r Hr; by apply star_nothing, Hend|].
  destruct l as [|b l]; intros r Hr.
  - eapply star_last; [apply Ha; by eapply follows_weaken|apply gap_skips, Hr|by apply Hend].
  - apply Forall_cons in Hl as [[_ Hb] _]. destruct (starts_many p b l Hb) as [Hn Hsb]. specialize (IH r Hr).
    change (many (a :: b :: l)) with (a +++ many (b :: l)). rewrite gap_seq. cbn [seq fst snd].
    pose proof (star_more _ _ _ _ _ _ _ _ _ _ _ (Ha _ (Hsb r)) (gap_skips a _ (proj1 (Hsb r))) IH Hn) as H.
    rewrite !string_app_assoc in *. exact H.
Qed.

Definition comma (c : ascii) : bool := bool_decide (c = ","%char).
Definition closes (c : ascii) : bool := bool_decide (c = ")"%char) || bool_decide (c = "]"%char) || bool_decide (c = "}"%char).
Definition separates (c : ascii) : bool := comma c || closes c.

Lemma closes_separates c : closes c = true -> separates c = true.
Proof. unfold separates. intros ->. apply orb_true_r. Qed.

(** By the first character alone. *)
Lemma fails_at a e p fuel r : (forall c s, p c = true -> peg fuel a e (String c s) = Ok None) -> peg fuel a e "" = Ok None ->
  follows p r -> gives a e r None.
Proof. intros Hp He [_ Hr]. exists fuel. destruct r as [|c s]; [done|]. by apply Hp. Qed.

(** Every character of a set, one after the other. *)
Ltac each_char := let s := fresh in let H := fresh in intros [[] [] [] [] [] [] [] []] s H; first [discriminate H | reflexivity].

Lemma comma_fails r : follows closes r -> gives false (Ref Rule_comma_trailing) r None.
Proof. apply (fails_at _ _ _ 3); [each_char|reflexivity]. Qed.

Lemma no_comma e r : follows closes r -> gives false (Str "," ~~ e) r None.
Proof. intros Hr. apply seq_fails. revert Hr. apply (fails_at _ _ _ 3); [each_char|reflexivity]. Qed.

Definition any (c : ascii) : bool := true.

(** An element of a list: it matches before a separator, and it does start. *)
Definition element (e : pexpr) (a : span) : Prop := tight e a separates /\ starts any a.

Lemma commas_tight r l : l <> [] -> Forall (element (Ref r)) l -> tight (comma_list r) (commas l) closes.
Proof.
  intros Hl Hf. destruct Hf as [|a l [Ha _] Hf]; [done|]. cbn [commas]. unfold comma_list.
  assert (Hm : Forall (fun b => tight (Str "," ~~ Ref r) b separates /\ starts separates b) (map (fun b => word "," +++ b) l)).
  { apply Forall_map. eapply Forall_impl; [exact Hf|]. intros b [Hb Hsb]. split.
    - eapply seq_tight; [by apply tight_word|exact Hb|apply starts_leads, Hsb].
    - by apply starts_seq, starts_char. }
  eapply seq_tight; [exact Ha| |].
  - apply (seq_tight _ _ _ _ closes); [|apply tight_none, comma_fails|by apply empty_leads].
    by apply (tight_many _ _ _ _ Hm); [apply closes_separates|apply no_comma].
  - destruct Hf as [|b l' _ _]; [intros s Hs; by eapply follows_weaken; [apply closes_separates|]|].
    apply starts_leads, starts_seq, (starts_many _ (word "," +++ b)). by apply starts_seq, starts_char.
Qed.

Lemma opt_commas_tight r l : (forall s, follows closes s -> gives false (Ref r) s None) -> Forall (element (Ref r)) l ->
  tight (Opt (comma_list r)) (commas l) closes.
Proof.
  intros Hr Hf. destruct l as [|a l]; [|by apply tight_opt, commas_tight]. apply tight_none. intros s Hs. apply seq_fails. by apply Hr.
Qed.

Lemma commas_starts p a l : starts p a -> starts p (commas (a :: l)).
Proof. intros Ha. by apply starts_seq. Qed.

(** ** Levels of operators

    What may follow an expression of each level, by its first character. *)
Definition one_of (l : list ascii) (c : ascii) : bool := existsb (fun d => bool_decide (c = d)) l.
Definition after_atom (c : ascii) : bool := negb (one_of ["("; "{"]%char c).
Definition after_primary (c : ascii) : bool := negb (one_of ["."]%char c) && after_atom c.
Definition after_mul (c : ascii) : bool := negb (one_of ["*"; "/"]%char c) && after_primary c.
Definition after_add (c : ascii) : bool := negb (one_of ["+"; "-"]%char c) && after_mul c.
Definition after_expr (c : ascii) : bool := negb (one_of ["="; "!"; "<"; ">"]%char c) && after_add c.

(** A set of characters inside another. *)
Ltac subset := let c := fresh in intros c; destruct c as [[] [] [] [] [] [] [] []]; first [reflexivity | discriminate].

Definition operand (arg : Rule) (p : ascii -> bool) (a : span) : Prop := tight (Ref arg) a p /\ starts any a.
Definition operator (op : Rule) (p : ascii -> bool) (o : span) : Prop := tight (Ref op) o any /\ starts p o.

Definition links (op arg : Rule) (p : ascii -> bool) (c : chain) : Prop :=
  operand arg p (first c) /\ Forall (fun oa => operator op p (fst oa) /\ operand arg p (snd oa)) (others c).

Lemma links_one op arg p a : operand arg p a -> links op arg p (mkChain a []).
Proof. intros Ha. by split. Qed.

Lemma links_more op arg p c o a : links op arg p c -> operator op p o -> operand arg p a -> links op arg p (more c o a).
Proof. intros [Hf Ho] Hop Ha. split; [done|]. apply Forall_app. split; [done|]. by apply Forall_singleton. Qed.

Lemma chain_tight r op arg p q c : kind r = Normal -> body r = (Ref arg ~~ Star (Ref op ~~ Ref arg)) -> links op arg p c ->
  (forall d, q d = true -> p d = true) -> (forall s, follows q s -> gives false (Ref op) s None) ->
  operand r q (node r (chain_span c)).
Proof.
  intros Hk Hb [[Hf Hs] Ho] Hq Hop. split; [|by apply starts_node, starts_seq]. apply tight_node; [done|]. rewrite Hb.
  assert (Hl : Forall (fun a => tight (Ref op ~~ Ref arg) a p /\ starts p a) (map (fun '(o, a) => o +++ a) (others c))).
  { apply Forall_map. eapply Forall_impl; [exact Ho|]. intros [o a] [[Hto Hso] [Hta Hsa]]. split; [|by apply starts_seq].
    eapply seq_tight; [exact Hto|exact Hta|]. by apply starts_leads. }
  eapply seq_tight; [exact Hf|apply (tight_many _ _ _ _ Hl Hq)|].
  - intros s Hss. by apply seq_fails, Hop.
  - destruct (others c) as [|[o a] l]; [by apply empty_leads|]. apply Forall_cons in Hl as [[_ Hsa] _].
    apply starts_leads. by apply (starts_many p (o +++ a)).
Qed.

(** A primary: what may follow its atom depends on the atom. *)
Definition prim_links (p : ascii -> bool) (x : primary) : Prop :=
  operand Rule_atom p (fst x) /\ Forall (fun a => tight (Ref Rule_method_call_suffix) a any /\ starts (one_of ["."]%char) a) (snd x).

Lemma primary_tight p q x : prim_links p x -> p "."%char = true -> (forall c, q c = true -> p c = true /\ c <> "."%char) ->
  operand Rule_primary q (node Rule_primary (primary_span x)).
Proof.
  intros [[Hf Hs] Hl] Hdot Hq. split; [|by apply starts_node, starts_seq]. apply tight_node; [done|].
  eapply seq_tight; [exact Hf|apply (tight_many _ _ any)| ].
  - eapply Forall_impl; [exact Hl|]. intros a [Ha Hsa]. split; [done|]. by eapply starts_weaken.
  - done.
  - intros r Hr. assert (Hd : follows (fun c => negb (one_of ["."]%char c)) r).
    { eapply follows_weaken; [|exact Hr]. intros c Hc%Hq. cbn. rewrite bool_decide_eq_false_2; naive_solver. }
    revert Hd. apply (fails_at _ _ _ 4); [each_char|reflexivity].
  - destruct (snd x) as [|a l]; [apply empty_leads; naive_solver|]. apply Forall_cons in Hl as [[_ Hsa] _]. apply starts_leads.
    apply starts_many. eapply starts_weaken; [|exact Hsa]. intros c Hc. cbn in Hc. rewrite orb_false_r in Hc. by apply bool_decide_eq_true in Hc as ->.
Qed.

Record forms_tight (f : forms) : Prop := {
  tight_equality : links Rule_equality_op Rule_add after_add (equality f);
  tight_sum : links Rule_add_op Rule_mul after_mul (sum f);
  tight_product : links Rule_mul_op Rule_primary after_primary (product f);
  tight_prim : prim_links after_atom (prim f)
}.

Lemma mul_op_fails r : follows after_mul r -> gives false (Ref Rule_mul_op) r None.
Proof. apply (fails_at _ _ _ 5); [each_char|reflexivity]. Qed.
Lemma add_op_fails r : follows after_add r -> gives false (Ref Rule_add_op) r None.
Proof. apply (fails_at _ _ _ 5); [each_char|reflexivity]. Qed.
Lemma equality_op_fails r : follows after_expr r -> gives false (Ref Rule_equality_op) r None.
Proof. apply (fails_at _ _ _ 9); [each_char|reflexivity]. Qed.

Lemma up_primary_tight x : prim_links after_atom x -> links Rule_mul_op Rule_primary after_primary (up_primary x).
Proof.
  intros Hx. apply links_one. eapply primary_tight; [exact Hx|done|]. intros c Hc. unfold after_primary in Hc.
  apply andb_true_iff in Hc as [Hd Ha]. split; [done|]. by intros ->.
Qed.

Lemma up_product_tight c : links Rule_mul_op Rule_primary after_primary c -> links Rule_add_op Rule_mul after_mul (up_product c).
Proof. intros Hc. apply links_one. eapply chain_tight; [done|done|exact Hc|subset|apply mul_op_fails]. Qed.

Lemma up_sum_tight c : links Rule_add_op Rule_mul after_mul c -> links Rule_equality_op Rule_add after_add (up_sum c).
Proof. intros Hc. apply links_one. eapply chain_tight; [done|done|exact Hc|subset|apply add_op_fails]. Qed.

Lemma expr_tight c : links Rule_equality_op Rule_add after_add c -> operand Rule_expr after_expr (expr_span c).
Proof.
  intros Hc. assert (He : operand Rule_equality after_expr (node Rule_equality (chain_span c)))
    by (eapply chain_tight; [done|done|exact Hc|subset|apply equality_op_fails]).
  destruct He as [Ht Hs]. split; [by apply tight_node|by apply starts_node].
Qed.

(** Any atom that starts with an opening parenthesis. *)
Lemma parens_tight p sp : operand Rule_expr after_expr sp -> operand Rule_atom p (node Rule_atom (word "(" +++ sp +++ word ")")).
Proof.
  intros [Ht Hs]. split; [|by apply starts_node, starts_seq, starts_char]. apply tight_node; [done|].
  change (body Rule_atom) with (Ref Rule_sync_call </> Ref Rule_call </> Ref Rule_int </> Ref Rule_string </> Ref Rule_array_lit </>
    Ref Rule_map_lit </> Ref Rule_struct_lit </> Ref Rule_identifier </> (Str "(" ~~ Ref Rule_expr ~~ Str ")")).
  do 8 (apply tight_second; [intros r _; exists 20%nat; reflexivity|]).
  eapply seq_tight; [by apply (tight_word _ any)| |by apply starts_leads, starts_seq].
  eapply seq_tight; [exact Ht|by apply tight_word|]. by apply starts_leads, starts_char.
Qed.

Lemma parens_links p c : links Rule_equality_op Rule_add after_add c -> prim_links p (parens c).
Proof. intros Hc. split; [by apply parens_tight, expr_tight|constructor]. Qed.

Lemma of_primary_tight x : prim_links after_atom x -> forms_tight (of_primary x).
Proof. intros Hx. constructor; cbn; eauto using up_primary_tight, up_product_tight, up_sum_tight. Qed.
Lemma of_product_tight c : links Rule_mul_op Rule_primary after_primary c -> forms_tight (of_product c).
Proof. intros Hx. constructor; cbn; eauto using up_primary_tight, up_product_tight, up_sum_tight, parens_links. Qed.
Lemma of_sum_tight c : links Rule_add_op Rule_mul after_mul c -> forms_tight (of_sum c).
Proof. intros Hx. constructor; cbn; eauto using up_primary_tight, up_product_tight, up_sum_tight, parens_links. Qed.
Lemma of_equality_tight c : links Rule_equality_op Rule_add after_add c -> forms_tight (of_equality c).
Proof. intros Hx. constructor; cbn; eauto using up_primary_tight, up_product_tight, up_sum_tight, parens_links. Qed.

Lemma binary_tight op fl fr : forms_tight fl -> forms_tight fr -> forms_tight (binary op fl fr).
Proof.
  intros [Hle Hls Hlp _] [_ Hrs Hrp Hrm].
  pose proof (proj1 (up_sum_tight _ Hrs)) as Hadd. pose proof (proj1 (up_product_tight _ Hrp)) as Hmul.
  pose proof (proj1 (up_primary_tight _ Hrm)) as Hprim.
  destruct op; cbn [binary];
    [apply of_sum_tight|apply of_sum_tight|apply of_product_tight|apply of_product_tight|apply of_equality_tight..];
    (apply links_more; [done| |done]; split; [intros r _; exists 9%nat; reflexivity|]).
  all: try (by apply starts_char).
  split; [done|]. intros r. split; reflexivity.
Qed.

(** ** Words *)
Lemma star_chars_give e (p : ascii -> bool) s rest :
  (forall c t, p c = true -> gives true e (String c t) (Some (String c "", t, []))) ->
  all_chars p s = true -> gives true e rest None -> gives true (Star e) (s +:+ rest) (Some (s, rest, [])).
Proof.
  intros He. induction s as [|c s IH]; intros Hs Hr; [by apply star_nothing|]. cbn in Hs. apply andb_true_iff in Hs as [Hc Hs].
  specialize (IH Hs Hr). change (String c s +:+ rest) with (String c (s +:+ rest)). destruct s as [|d s].
  - eapply star_last; [by apply He|apply atomic_skips|exact Hr].
  - exact (star_more _ _ _ _ _ _ _ _ _ _ _ (He _ _ Hc) (atomic_skips _) IH ltac:(done)).
Qed.

Lemma atomic_seq e1 e2 s s1 r1 p1 s2 r2 p2 : gives true e1 s (Some (s1, r1, p1)) -> gives true e2 r1 (Some (s2, r2, p2)) ->
  gives true (e1 ~~ e2) s (Some (s1 +:+ s2, r2, p1 ++ p2)).
Proof.
  intros H1 H2. pose proof (gives_seq _ _ _ _ _ _ _ _ _ _ H1 (atomic_skips _) H2) as H. cbn [after] in H.
  by rewrite string_app_nil in H.
Qed.

Lemma tight_leaf r s p ps : kind r = Atomic ->
  (forall t, gives true (body r) (s +:+ gap (leaf r s) +:+ t) (Some (s, gap (leaf r s) +:+ t, ps))) -> tight (Ref r) (leaf r s) p.
Proof.
  intros Hk Hg t _. specialize (Hg t). assert (Hr : gives (false || bool_decide (kind r = Atomic)) (body r)
    (s +:+ gap (leaf r s) +:+ t) (Some (s, gap (leaf r s) +:+ t, ps))) by by rewrite Hk.
  apply gives_ref in Hr. cbn [enclose] in Hr. unfold token in Hr. by rewrite Hk in Hr.
Qed.

Lemma all_chars_last p s : all_chars p s = true -> p " "%char = false -> ends_with_space s = false.
Proof.
  intros Hs Hp. induction s as [|c s IH]; [done|]. cbn [all_chars] in Hs. apply andb_true_iff in Hs as [Hc Hs].
  destruct s as [|d s]; [|by apply IH]. cbn. apply bool_decide_eq_false. intros ->. congruence.
Qed.

Lemma gap_one r s : s <> "" -> ends_with_space s = false -> gap (leaf r s) = " ".
Proof. intros Hs He. unfold gap. cbn [leaf fst]. by rewrite decide_False, He. Qed.

Lemma ident_chars x : ident_ok x = true -> all_chars ident_char x = true.
Proof.
  destruct x as [|c s]; [done|]. cbn. intros [Hc Hs]%andb_true_iff. rewrite Hs, andb_true_r. unfold ident_char, is_alphanumeric.
  by rewrite Hc.
Qed.

Lemma gap_ident r x : ident_ok x = true -> gap (leaf r x) = " ".
Proof. intros Hx. apply gap_one; [by intros ->|]. by apply (all_chars_last _ _ (ident_chars x Hx)). Qed.

Lemma ident_char_gives c t : ident_char c = true -> gives true (Char is_alphanumeric </> Str "_") (String c t) (Some (String c "", t, [])).
Proof.
  intros Hc. destruct (is_alphanumeric c) eqn:E; [by apply gives_first, gives_char|]. unfold ident_char in Hc. rewrite E in Hc.
  apply bool_decide_eq_true in Hc as ->. apply gives_second; [by apply char_fails|]. apply (str_gives true "_" t).
Qed.

(** A name up to the space after it. *)
Lemma ident_gives x t : ident_ok x = true -> gives true ident (x +:+ " " +:+ t) (Some (x, " " +:+ t, [])).
Proof.
  destruct x as [|c s]; [done|]. cbn [ident_ok]. intros [Hc Hs]%andb_true_iff. unfold ident.
  apply (atomic_seq _ _ _ (String c "") (s +:+ " " +:+ t) [] s (" " +:+ t) []); [by apply gives_char|].
  apply (star_chars_give _ ident_char); [apply ident_char_gives|done|]. exists 5%nat. reflexivity.
Qed.

Lemma ident_tight r x p : kind r = Atomic -> body r = ident -> ident_ok x = true -> tight (Ref r) (leaf r x) p.
Proof. intros Hk Hb Hx. eapply tight_leaf; [done|]. intros t. rewrite Hb, (gap_ident r x Hx). by apply ident_gives. Qed.

Lemma name_gives r x t : kind r = Atomic -> body r = ident -> ident_ok x = true ->
  gives false (Ref r) (x +:+ " " +:+ t) (Some (x, " " +:+ t, [mkPair r x []])).
Proof.
  intros Hk Hb Hx. assert (Hg : gives (false || bool_decide (kind r = Atomic)) (body r) (x +:+ " " +:+ t) (Some (x, " " +:+ t, [])))
    by (rewrite Hk, Hb; by apply ident_gives). apply gives_ref in Hg. cbn [enclose] in Hg. unfold token in Hg. by rewrite Hk in Hg.
Qed.

Lemma starts_alpha (p : ascii -> bool) x ps : ident_ok x = true -> (forall c, is_alpha c = true -> p c = true) -> starts p (x, ps).
Proof.
  destruct x as [|c s]; [done|]. cbn. intros [Hc _]%andb_true_iff Hp. apply starts_char; [by apply Hp| |intros ->; discriminate].
  revert Hc. destruct c as [[] [] [] [] [] [] [] []]; first [reflexivity|discriminate].
Qed.

(** A rule that starts with a name and one character fails on a name before another one. *)
Lemma name_then_fails r d e x t : kind r = Atomic -> body r = ident -> ident_ok x = true ->
  follows (fun c => negb (one_of [d] c)) t -> gives false (Ref r ~~ Str (String d "") ~~ e) (x +:+ " " +:+ t) None.
Proof.
  intros Hk Hb Hx [Hs Ht].
  assert (Hd : gives false (Str (String d "") ~~ e) t None).
  { apply seq_fails, str_fails. destruct t as [|c t]; [done|]. apply strip_char. intros <-. cbn in Ht. by rewrite bool_decide_eq_true_2 in Ht. }
  exact (gives_seq _ _ _ _ _ _ _ _ _ _ (name_gives r x t Hk Hb Hx) (space_skips _ Hs) Hd).
Qed.

(** A word that is not a prefix of a name is none of the name and what follows it. *)
Lemma strip_word w x t : strip w x = None -> all_chars (fun c => negb (bool_decide (c = " "%char))) w = true ->
  strip w (x +:+ String " " t) = None.
Proof.
  revert x. induction w as [|c w IH]; intros x Hx Hw; [done|]. cbn in Hw. apply andb_true_iff in Hw as [Hc Hw].
  apply negb_true_iff, bool_decide_eq_false in Hc. destruct x as [|d x].
  - change ("" +:+ String " " t) with (String " " t). cbn [strip]. by rewrite decide_False.
  - change (String d x +:+ String " " t) with (String d (x +:+ String " " t)). cbn [strip] in *. case_decide; [by apply IH|done].
Qed.

(** ** Atoms *)
Definition number_head (c : ascii) : bool := is_digit c || bool_decide (c = "-"%char).

Lemma alpha_alternatives c s : is_alpha c = true ->
  gives false (Ref Rule_int) (String c s) None /\ gives false (Ref Rule_string) (String c s) None /\
  gives false (Ref Rule_array_lit) (String c s) None /\ gives false (Ref Rule_map_lit) (String c s) None.
Proof. intros Hc. split_and!; exists 20%nat; revert Hc; destruct c as [[] [] [] [] [] [] [] []]; first [reflexivity|discriminate]. Qed.

Lemma number_alternatives c s : number_head c = true ->
  gives false (Ref Rule_sync_call) (String c s) None /\ gives false (Ref Rule_call) (String c s) None.
Proof. intros Hc. split; exists 20%nat; revert Hc; destruct c as [[] [] [] [] [] [] [] []]; first [reflexivity|discriminate]. Qed.

Lemma digits_give (x : N) t : gives true (Plus (Char is_digit)) (pretty x +:+ " " +:+ t) (Some (pretty x, " " +:+ t, [])).
Proof.
  destruct (pretty_nonempty x) as (c & s & E & Hc). pose proof (digits_pretty x) as Hd. rewrite E in *. cbn in Hd. rewrite Hc in Hd.
  apply (atomic_seq _ _ _ (String c "") (s +:+ " " +:+ t) [] s (" " +:+ t) []); [by apply gives_char|].
  apply (star_chars_give _ is_digit); [intros d u Hu; by apply gives_char|by eapply digits_all|]. exists 5%nat. reflexivity.
Qed.

Lemma int_gives (n : Z) t : gives true (body Rule_int) (pretty n +:+ " " +:+ t) (Some (pretty n, " " +:+ t, [])).
Proof.
  assert (Hpos : forall x : N, gives true (body Rule_int) (pretty x +:+ " " +:+ t) (Some (pretty x, " " +:+ t, []))).
  { intros x. refine (atomic_seq (Opt (Str "-")) (Plus (Char is_digit)) (pretty x +:+ " " +:+ t) "" _ [] (pretty x) _ [] _ (digits_give x t)).
    apply opt_nothing, str_fails. destruct (pretty_nonempty x) as (c & s & -> & Hc).
    destruct (digit_not_sign c Hc) as [Hm _]. apply strip_char. congruence. }
  destruct n as [|p|p]; [exact (Hpos 0%N)|exact (Hpos (Npos p))|].
  refine (atomic_seq (Opt (Str "-")) (Plus (Char is_digit)) ("-" +:+ pretty (Npos p) +:+ " " +:+ t) "-" _ [] (pretty (Npos p)) _ [] _
    (digits_give (Npos p) t)). apply gives_opt, str_gives.
Qed.

Lemma number_starts (n : Z) : exists c s, (pretty n : string) = String c s /\ number_head c = true /\ ends_with_space (pretty n) = false.
Proof.
  assert (Hpos : forall x : N, exists c s, (pretty x : string) = String c s /\ number_head c = true /\ ends_with_space (pretty x) = false).
  { intros x. pose proof (digits_all _ _ _ (digits_pretty x)) as Ha. destruct (pretty_nonempty x) as (c & s & E & Hc). exists c, s.
    split; [done|]. split; [unfold number_head; by rewrite Hc|]. by apply (all_chars_last _ _ Ha). }
  destruct n as [|p|p]; [exact (Hpos 0%N)|exact (Hpos (Npos p))|].
  destruct (Hpos (Npos p)) as (c & s & E & Hc & He). exists "-"%char, (pretty (Npos p)). split; [done|]. split; [done|].
  change (pretty (Zneg p)) with ("-" +:+ pretty (Npos p)). rewrite ends_app; [done|]. by rewrite E.
Qed.

Lemma number_starts_any r (n : Z) p : (forall c, number_head c = true -> p c = true) -> starts p (leaf r (pretty n)).
Proof.
  intros Hp. destruct (number_starts n) as (c & s & E & Hc & _). unfold leaf. rewrite E. apply starts_char; [by apply Hp| |intros ->; discriminate].
  revert Hc. destruct c as [[] [] [] [] [] [] [] []]; first [reflexivity|discriminate].
Qed.

(** The choice among the atoms. *)
Notation atoms := (Ref Rule_sync_call </> Ref Rule_call </> Ref Rule_int </> Ref Rule_string </> Ref Rule_array_lit </>
    Ref Rule_map_lit </> Ref Rule_struct_lit </> Ref Rule_identifier </> (Str "(" ~~ Ref Rule_expr ~~ Str ")")).

Lemma atom_links p a : tight atoms a p -> starts any a -> prim_links p (node Rule_atom a, []).
Proof. intros Ha Hs. split; [|constructor]. split; [by apply tight_node|done]. Qed.

Lemma int_links p (n : Z) : prim_links p (node Rule_atom (leaf Rule_int (pretty n)), []).
Proof.
  apply atom_links; [|by apply number_starts_any]. destruct (number_starts n) as (c & s & E & Hc & He).
  assert (Hn : forall t, gives false (Ref Rule_sync_call) (pretty n +:+ t) None /\ gives false (Ref Rule_call) (pretty n +:+ t) None)
    by (intros t; rewrite E; by apply number_alternatives).
  do 2 (apply tight_second; [intros r _; apply Hn|]). apply tight_first. eapply tight_leaf; [done|]. intros t.
  rewrite gap_one; [apply int_gives|by rewrite E|done].
Qed.

Lemma string_gives s t : all_chars not_quote s = true ->
  gives true (body Rule_string) ((dquote +:+ s +:+ dquote) +:+ t) (Some (dquote +:+ s +:+ dquote, t, [])).
Proof.
  intros Hs. apply (atomic_seq (Str dquote) (Star (Not (Str dquote) ~~ ANY) ~~ Str dquote) _ dquote (s +:+ dquote +:+ t) [] (s +:+ dquote) t []);
    [rewrite <-!string_app_assoc; apply str_gives|].
  apply (atomic_seq _ _ _ s (dquote +:+ t) [] dquote t []); [|apply str_gives].
  apply (star_chars_give _ not_quote); [|done|exists 5%nat; reflexivity].
  intros c u Hc. apply (atomic_seq _ _ _ "" (String c u) [] (String c "") u []); [|by apply gives_char].
  apply gives_not, str_fails. unfold dquote. apply strip_char. intros <-. discriminate Hc.
Qed.

Lemma string_links p s : all_chars not_quote s = true -> prim_links p (node Rule_atom (leaf Rule_string (dquote +:+ s +:+ dquote)), []).
Proof.
  intros Hs. apply atom_links; [|by apply starts_char]. do 3 (apply tight_second; [intros r _; exists 20%nat; reflexivity|]).
  apply tight_first. eapply tight_leaf; [done|]. intros t. by apply string_gives.
Qed.

(** *** Names *)
Lemma plain_sync x t : plain_name x = true -> gives false (Ref Rule_sync_call) (x +:+ " " +:+ t) None.
Proof.
  intros [_ Hp]%andb_true_iff. apply ref_fails, seq_fails, str_fails. apply (strip_word "sync" x t); [|done].
  unfold no_prefix in Hp. by destruct (strip "sync" x).
Qed.

Lemma plain_call x t : plain_name x = true -> follows (fun c => negb (one_of ["("%char] c)) t ->
  gives false (Ref Rule_call) (x +:+ " " +:+ t) None.
Proof. intros [Hx _]%andb_true_iff Ht. apply ref_fails. by apply (name_then_fails Rule_identifier "("%char). Qed.

Lemma plain_struct x t : plain_name x = true -> follows (fun c => negb (one_of ["{"%char] c)) t ->
  gives false (Ref Rule_struct_lit) (x +:+ " " +:+ t) None.
Proof. intros [Hx _]%andb_true_iff Ht. apply ref_fails. by apply (name_then_fails Rule_type_ident "{"%char). Qed.

Lemma plain_others x t : plain_name x = true ->
  gives false (Ref Rule_int) (x +:+ t) None /\ gives false (Ref Rule_string) (x +:+ t) None /\
  gives false (Ref Rule_array_lit) (x +:+ t) None /\ gives false (Ref Rule_map_lit) (x +:+ t) None.
Proof. intros [Hx _]%andb_true_iff. destruct x as [|c s]; [done|]. apply andb_true_iff in Hx as [Hc _]. by apply alpha_alternatives. Qed.

Lemma ident_links x : plain_name x = true -> prim_links after_atom (node Rule_atom (leaf Rule_identifier x), []).
Proof.
  intros Hx. pose proof (plain_ok x Hx) as Hi. apply atom_links; [|by apply starts_alpha].
  assert (Ha : forall r, after_atom r = true -> negb (one_of ["("%char] r) = true /\ negb (one_of ["{"%char] r) = true).
  { intros r. unfold after_atom, one_of. cbn. rewrite !orb_false_r, !negb_true_iff, orb_false_iff. done. }
  assert (Hf : forall r, follows after_atom r -> follows (fun c => negb (one_of ["("%char] c)) r /\ follows (fun c => negb (one_of ["{"%char] c)) r)
    by (intros r Hr; split; (eapply follows_weaken; [|exact Hr]); intros c Hc; by apply Ha).
  do 7 (apply tight_second; [intros r Hr; rewrite gap_ident by done; cbn [leaf fst];
    first [by apply plain_sync|by apply plain_call; [|apply Hf]|by apply plain_struct; [|apply Hf]|by apply (plain_others x)]|]).
  apply tight_first. by apply ident_tight.
Qed.

(** *** Calls and literals *)
Lemma exprs_elements l : Forall (operand Rule_expr after_expr) l -> Forall (element (Ref Rule_expr)) l.
Proof. intros Hl. eapply Forall_impl; [exact Hl|]. intros a [Ha Hs]. split; [|done]. eapply tight_weaken; [|exact Ha]. subset. Qed.

Lemma expr_closed r : follows closes r -> gives false (Ref Rule_expr) r None.
Proof. apply (fails_at _ _ _ 60); [each_char|reflexivity]. Qed.
Lemma entry_closed r : follows closes r -> gives false (Ref Rule_map_entry) r None.
Proof. apply (fails_at _ _ _ 60); [each_char|reflexivity]. Qed.
Lemma field_closed r : follows closes r -> gives false (Ref Rule_struct_lit_field) r None.
Proof. apply (fails_at _ _ _ 60); [each_char|reflexivity]. Qed.

(** What is between two brackets. *)
Lemma bracketed_tight o cl e sp p : tight e sp closes -> leads any closes sp -> closes cl = true ->
  tight (Str o ~~ e ~~ Str (String cl "")) (word o +++ sp +++ word (String cl "")) p.
Proof.
  intros He Hl Hc. assert (Hcl : starts closes (word (String cl ""))).
  { apply starts_char; [done| |intros ->; discriminate].
    revert Hc. destruct cl as [[] [] [] [] [] [] [] []]; first [reflexivity|discriminate]. }
  eapply seq_tight; [by apply (tight_word _ any)| |].
  - eapply seq_tight; [exact He|apply tight_word|by apply starts_leads].
  - intros r Hr. rewrite gap_seq. cbn [seq fst]. rewrite <-!string_app_assoc. apply Hl. by apply Hcl.
Qed.

Lemma commas_leads l : Forall (starts any) l -> leads any closes (commas l).
Proof. intros Hl. destruct Hl as [|a l Ha Hl]; [by apply empty_leads|by apply starts_leads, commas_starts]. Qed.

Lemma elements_start e l : Forall (element e) l -> Forall (starts any) l.
Proof. intros Hl. eapply Forall_impl; [exact Hl|]. by intros a [_ Ha]. Qed.

Lemma call_tight name l p : ident_ok name = true -> Forall (element (Ref Rule_expr)) l -> tight (Ref Rule_call) (call_span name l) p.
Proof.
  intros Hn Hl. apply tight_node; [done|]. eapply seq_tight; [by apply (ident_tight _ _ any)| |by apply starts_leads, starts_seq, starts_char].
  apply bracketed_tight; [| |done].
  - destruct Hl as [|a l Ha Hl]; [apply tight_none; intros r Hr; apply ref_fails, seq_fails; by apply expr_closed|].
    apply tight_opt, tight_node; [done|]. apply commas_tight; [done|by constructor].
  - destruct Hl as [|a l Ha Hl]; [by apply empty_leads|]. apply starts_leads, starts_node, commas_starts, Ha.
Qed.

Lemma array_links p l : Forall (element (Ref Rule_expr)) l ->
  prim_links p (node Rule_atom (node Rule_array_lit (word "[" +++ commas l +++ word "]")), []).
Proof.
  intros Hl. apply atom_links; [|by apply starts_node, starts_seq, starts_char]. do 4 (apply tight_second; [intros r _; exists 20%nat; reflexivity|]).
  apply tight_first, tight_node; [done|]. apply bracketed_tight; [|by eapply commas_leads, elements_start|done].
  by apply opt_commas_tight; [apply expr_closed|].
Qed.

Lemma map_links p l : Forall (element (Ref Rule_map_entry)) l ->
  prim_links p (node Rule_atom (node Rule_map_lit (word "{" +++ commas l +++ word "}")), []).
Proof.
  intros Hl. apply atom_links; [|by apply starts_node, starts_seq, starts_char]. do 5 (apply tight_second; [intros r _; exists 20%nat; reflexivity|]).
  apply tight_first, tight_node; [done|]. apply bracketed_tight; [|by eapply commas_leads, elements_start|done].
  by apply opt_commas_tight; [apply entry_closed|].
Qed.

(** After a name comes what its rule expects. *)
Lemma named_text x sp r q : ident_ok x = true -> starts q sp -> exists t, follows q t /\
  fst (leaf Rule_type_ident x +++ sp) +:+ gap (leaf Rule_type_ident x +++ sp) +:+ r = x +:+ " " +:+ t /\
  forall k, fst (leaf k x +++ sp) +:+ gap (leaf k x +++ sp) +:+ r = x +:+ " " +:+ t.
Proof.
  intros Hx [_ Hs]. exists (fst sp +:+ gap sp +:+ r). split; [apply Hs|].
  assert (H : forall k, fst (leaf k x +++ sp) +:+ gap (leaf k x +++ sp) +:+ r = x +:+ " " +:+ fst sp +:+ gap sp +:+ r).
  { intros k. rewrite gap_seq. cbn [seq fst]. rewrite (gap_ident k x Hx). cbn [leaf fst]. by rewrite <-!string_app_assoc. }
  split; [apply H|exact H].
Qed.

Lemma struct_links p name l : plain_name name = true -> Forall (element (Ref Rule_struct_lit_field)) l ->
  prim_links p (node Rule_atom (node Rule_struct_lit (leaf Rule_type_ident name +++ word "{" +++ commas l +++ word "}")), []).
Proof.
  intros Hx Hl. pose proof (plain_ok _ Hx) as Hi. set (inner := word "{" +++ commas l +++ word "}").
  apply atom_links; [|by apply starts_node, starts_seq, starts_alpha].
  assert (Hs : starts (fun c => negb (one_of ["("%char] c)) inner) by by apply starts_seq, starts_char.
  assert (Ht : forall r, exists t, follows (fun c => negb (one_of ["("%char] c)) t /\
    fst (leaf Rule_type_ident name +++ inner) +:+ gap (leaf Rule_type_ident name +++ inner) +:+ r = name +:+ " " +:+ t).
  { intros r. destruct (named_text name inner r _ Hi Hs) as (t & Hf & E & _). by exists t. }
  do 6 (apply tight_second; [intros r _; change (gap (node Rule_struct_lit ?x)) with (gap x); cbn [node fst]; destruct (Ht r) as (t & Hf & E);
    rewrite E; first [by apply plain_sync|by apply plain_call|by apply (plain_others name)]|]).
  apply tight_first, tight_node; [done|]. eapply seq_tight; [by apply (ident_tight _ _ any)| |by apply starts_leads, starts_seq, starts_char].
  apply bracketed_tight; [|by eapply commas_leads, elements_start|done]. by apply opt_commas_tight; [apply field_closed|].
Qed.

Lemma call_links p name l : plain_name name = true -> Forall (element (Ref Rule_expr)) l ->
  prim_links p (node Rule_atom (call_span name l), []).
Proof.
  intros Hx Hl. pose proof (plain_ok _ Hx) as Hi. apply atom_links; [|by apply starts_node, starts_seq, starts_alpha].
  apply tight_second; [|by apply tight_first, call_tight]. intros r _.
  set (inner := word "(" +++ match l with [] => empty | _ => node Rule_arg_list (commas l) end +++ word ")").
  assert (Hs : starts any inner) by by apply starts_seq, starts_char.
  destruct (named_text name inner r _ Hi Hs) as (t & _ & _ & E). specialize (E Rule_identifier).
  unfold call_span. change (gap (node Rule_call ?x)) with (gap x). cbn [node fst]. fold inner. rewrite E. by apply plain_sync.
Qed.

Lemma sync_links p c : (forall q, tight (Ref Rule_call) c q) -> starts any c ->
  prim_links p (node Rule_atom (node Rule_sync_call (word "sync" +++ c)), []).
Proof.
  intros Hc Hs. apply atom_links; [|by apply starts_node, starts_seq, starts_char]. apply tight_first, tight_node; [done|].
  eapply seq_tight; [apply tight_word|apply Hc|apply starts_leads, Hs].
Qed.

Lemma entry_element k v : operand Rule_expr after_expr k -> operand Rule_expr after_expr v ->
  element (Ref Rule_map_entry) (node Rule_map_entry (k +++ word ":" +++ v)).
Proof.
  intros [Hk Hsk] [Hv Hsv]. split; [|by apply starts_node, starts_seq]. apply tight_node; [done|].
  eapply seq_tight; [exact Hk| |by apply starts_leads, starts_seq, starts_char].
  eapply seq_tight; [by apply (tight_word _ any)| |by apply starts_leads]. eapply tight_weaken; [|exact Hv]. subset.
Qed.

Lemma field_element name v : ident_ok name = true -> operand Rule_expr after_expr v ->
  element (Ref Rule_struct_lit_field) (node Rule_struct_lit_field (leaf Rule_identifier name +++ word ":" +++ v)).
Proof.
  intros Hn [Hv Hsv]. split; [|by apply starts_node, starts_seq, starts_alpha]. apply tight_node; [done|].
  eapply seq_tight; [by apply (ident_tight _ _ any)| |by apply starts_leads, starts_seq, starts_char].
  eapply seq_tight; [by apply (tight_word _ any)| |by apply starts_leads]. eapply tight_weaken; [|exact Hv]. subset.
Qed.

Lemma suffix_tight name l : ident_ok name = true -> Forall (element (Ref Rule_expr)) l ->
  tight (Ref Rule_method_call_suffix) (node Rule_method_call_suffix (word "." +++ call_span name l)) any /\
  starts (one_of ["."]%char) (node Rule_method_call_suffix (word "." +++ call_span name l)).
Proof.
  intros Hn Hl. split; [|by apply starts_node, starts_seq, starts_char]. apply tight_node; [done|].
  eapply seq_tight; [by apply (tight_word _ any)|by apply call_tight|]. by apply starts_leads, starts_node, starts_seq, starts_alpha.
Qed.

(** ** Every expression *)
Lemma exprs_tight l : Forall (fun e => expr_ok e = true -> forms_tight (syntax e)) l -> forallb expr_ok l = true ->
  Forall (element (Ref Rule_expr)) (map (fun e => expr_span (equality (syntax e))) l).
Proof.
  intros IH Hok. apply exprs_elements, Forall_map. rewrite forallb_forall in Hok. rewrite Forall_forall in *. intros e He.
  apply expr_tight, IH; [done|]. by apply Hok, list_elem_of_In.
Qed.

Lemma syntax_tight e : expr_ok e = true -> forms_tight (syntax e).
Proof.
  induction e as [n|s|x|l IH|l IH|n l IH|n l IH|n l IH|r n l IHr IH|l op r IHl IHr] using Expr_forall_ind; intros Hok;
    cbn [expr_ok] in Hok; cbn [syntax]; rewrite ?andb_true_iff in Hok;
    repeat match type of Hok with _ /\ _ => destruct Hok as [? Hok] end.
  - apply of_primary_tight, int_links.
  - by apply of_primary_tight, string_links.
  - by apply of_primary_tight, ident_links.
  - by apply of_primary_tight, array_links, exprs_tight.
  - apply of_primary_tight, map_links, Forall_map. rewrite forallb_forall in Hok. rewrite Forall_forall in *. intros [k v] Hkv.
    destruct (IH _ Hkv) as [Hk Hv]. apply list_elem_of_In, Hok, andb_true_iff in Hkv as [Ok Ov].
    by apply entry_element; apply expr_tight; [apply Hk|apply Hv].
  - apply of_primary_tight, struct_links; [done|]. apply Forall_map. rewrite forallb_forall in Hok. rewrite Forall_forall in *.
    intros [f v] Hfv. pose proof (IH _ Hfv) as Hv. apply list_elem_of_In, Hok, andb_true_iff in Hfv as [Of Ov].
    apply field_element; [done|]. by apply expr_tight, Hv.
  - by apply of_primary_tight, call_links, exprs_tight.
  - apply of_primary_tight, sync_links; [intros q; by apply call_tight, exprs_tight|]. by apply starts_node, starts_seq, starts_alpha.
  - destruct (IHr ltac:(done)) as [_ _ _ [Hf Hl]]. destruct (prim _) as [atom calls]. apply of_primary_tight. split; [done|].
    cbn [snd] in *. apply Forall_app. split; [done|]. apply Forall_singleton. by apply suffix_tight, exprs_tight.
  - by apply binary_tight; [apply IHl|apply IHr].
Qed.

(** What may follow an expression in parentheses: all that does not continue it. *)
Definition after_closed (c : ascii) : bool := negb (one_of ["."; "*"; "/"; "+"; "-"; "="; "!"; "<"; ">"]%char c).

Lemma closed_tight e : expr_ok e = true -> operand Rule_expr after_closed (closed_syntax e).
Proof.
  intros He. destruct (expr_tight _ (tight_equality _ (syntax_tight e He))) as [Ht Hs].
  assert (Hp : operand Rule_primary after_closed (node Rule_primary (primary_span (parens (equality (syntax e)))))).
  { apply (primary_tight any); [by apply parens_links, tight_equality, syntax_tight|done|]. intros c Hc. split; [done|]. by intros ->. }
  assert (Hm : operand Rule_mul after_closed (first (up_product (up_primary (parens (equality (syntax e))))))).
  { eapply (chain_tight _ Rule_mul_op); [done|done|by apply links_one|done|]. intros s. apply (fails_at _ _ _ 5); [each_char|reflexivity]. }
  assert (Ha : operand Rule_add after_closed (first (up_sum (up_product (up_primary (parens (equality (syntax e)))))))).
  { eapply (chain_tight _ Rule_add_op); [done|done|by apply links_one|done|]. intros s. apply (fails_at _ _ _ 5); [each_char|reflexivity]. }
  assert (Hq : operand Rule_equality after_closed (node Rule_equality (chain_span (equality (of_primary (parens (equality (syntax e)))))))).
  { eapply (chain_tight _ Rule_equality_op); [done|done|by apply links_one|done|]. intros s. apply (fails_at _ _ _ 9); [each_char|reflexivity]. }
  destruct Hq as [Hqt Hqs]. split; [by apply tight_node|by apply starts_node].
Qed.

(** It starts with its parenthesis. *)
Lemma closed_starts p e : p "("%char = true -> starts p (closed_syntax e).
Proof.
  intros Hp. unfold closed_syntax, expr_span, chain_span. do 2 apply starts_node. apply starts_seq, starts_node, starts_seq, starts_node, starts_seq, starts_node, starts_seq.
  by apply starts_node, starts_seq, starts_char.
Qed.
