(* ===== verification/ProgramTrees.v ===== *)
(** * Concrete syntax for every program

    Extends the printer of [ParserTrees] to types, statements and items, with parentheses
    around the expressions of statements, which nothing else separates from what follows. The
    walkers read the tree of a program back as it. *)
From S2P Require Import Prelude Grammar Parser ParserSpec ParserTests ParserTrees.
From Stdlib Require Import Ascii.
Local Open Scope string_scope.
Local Open Scope list_scope.
Local Open Scope peg_scope.

(** ** Printing *)
Fixpoint type_span (t : TypeName) : span :=
  match t with
  | TypeName_StringTy => leaf Rule_base_type "String"
  | TypeName_I32 => leaf Rule_base_type "i32"
  | TypeName_I64 => leaf Rule_base_type "i64"
  | TypeName_Void => empty
  | TypeName_Array t => node Rule_array_type (word "[]" +++ type_span t)
  | TypeName_Map k v => node Rule_map_type (word "map" +++ word "[" +++ type_span k +++ word "]" +++ type_span v)
  | TypeName_Option t => node Rule_option_type (word "Option" +++ word "<" +++ type_span t +++ word ">")
  | TypeName_Custom name => node Rule_custom_type (leaf Rule_type_ident name)
  end.

Definition type_name (t : TypeName) : span := node Rule_type_name (type_span t).

Definition binding_span (d : VarDecl) : span :=
  node Rule_binding_stmt
    (leaf Rule_binding_kind (match mutability d with Mutability_Immutable => "let" | Mutability_Mutable => "var" end) +++
     leaf Rule_identifier (var_name d) +++ word ":" +++ type_name (var_ty d) +++
     match init d with Some e => word "=" +++ closed_syntax e | None => empty end).

Fixpoint statement_span (s : Statement) : span :=
  node Rule_statement
    match s with
    | Statement_VarDecl d => binding_span d
    | Statement_Return e => node Rule_return_stmt (word "return" +++ closed_syntax e)
    | Statement_If c t e =>
        node Rule_if_stmt (word "if" +++ closed_syntax c +++ block_span t +++
          match e with Some b => word "else" +++ block_span b | None => empty end)
    | Statement_Expr e => closed_syntax e
    end
with block_span (b : Block) : span :=
  match b with
  | mkBlock statements => node Rule_block (word "{" +++ many (map statement_span statements) +++ word "}")
  end.

Definition typed_span (r : Rule) (name : string) (t : TypeName) : span :=
  node r (leaf Rule_identifier name +++ word ":" +++ type_name t).

(** A list that is left out when it is empty. *)
Definition listed (r : Rule) (l : list span) : span := match l with [] => empty | _ => node r (commas l) end.

Definition struct_span (d : StructDef) : span :=
  node Rule_struct_def (word "struct" +++ leaf Rule_type_ident (struct_name d) +++ word "{" +++
    listed Rule_struct_fields (map (fun f => typed_span Rule_struct_field (field_name f) (field_ty f)) (fields d)) +++
    word "}").

(** A function that returns nothing has no return type in its text. *)
Definition return_span (t : TypeName) : span :=
  if decide (t = TypeName_Void) then empty else word "->" +++ type_name t.

Definition function_span (f : FunctionDef) : span :=
  node Rule_function (word "fn" +++ leaf Rule_identifier (func_name f) +++ word "(" +++
    listed Rule_param_list (map (fun p => typed_span Rule_param (param_name p) (param_ty p)) (params f)) +++ word ")" +++
    return_span (ret f) +++ block_span (func_body f)).

Definition item_span (i : Item) : span :=
  node Rule_item
    match i with
    | Item_Struct d => struct_span d
    | Item_Function f => function_span f
    | Item_Statement s => statement_span s
    end.

Definition program_span (p : Program) : span :=
  node Rule_program (empty +++ many (map item_span (items p)) +++ ("", [mkPair Rule_EOI "" []])).

(** ** What can be printed

    The name of a structure that starts like another type may be read as that type. *)
Definition custom_name (x : string) : bool :=
  ident_ok x && forallb (fun w => no_prefix w x) ["String"; "i32"; "i64"; "map"; "Option"].

Fixpoint type_ok (t : TypeName) : bool :=
  match t with
  | TypeName_StringTy | TypeName_I32 | TypeName_I64 => true
  | TypeName_Void => false
  | TypeName_Array t | TypeName_Option t => type_ok t
  | TypeName_Map k v => type_ok k && type_ok v
  | TypeName_Custom name => custom_name name
  end.

Definition binding_ok (d : VarDecl) : bool :=
  ident_ok (var_name d) && (type_ok (var_ty d) && match init d with Some e => expr_ok e | None => true end).

Fixpoint statement_ok (s : Statement) : bool :=
  match s with
  | Statement_VarDecl d => binding_ok d
  | Statement_Return e | Statement_Expr e => expr_ok e
  | Statement_If c t e => expr_ok c && (block_ok t && match e with Some b => block_ok b | None => true end)
  end
with block_ok (b : Block) : bool := match b with mkBlock statements => forallb statement_ok statements end.

Definition struct_ok (d : StructDef) : bool :=
  ident_ok (struct_name d) && forallb (fun f => ident_ok (field_name f) && type_ok (field_ty f)) (fields d).

Definition return_ok (t : TypeName) : bool := bool_decide (t = TypeName_Void) || type_ok t.

Definition function_ok (f : FunctionDef) : bool :=
  ident_ok (func_name f) && (forallb (fun p => ident_ok (param_name p) && type_ok (param_ty p)) (params f) &&
    (return_ok (ret f) && block_ok (func_body f))).

Definition item_ok (i : Item) : bool :=
  match i with Item_Struct d => struct_ok d | Item_Function f => function_ok f | Item_Statement s => statement_ok s end.

Definition program_ok (p : Program) : bool := forallb item_ok (items p).

(** ** Types *)
Definition type_reads (t : TypeName) (sp : span) : Prop :=
  spans (body Rule_type_ref) sp /\
  exists p, snd sp = [p] /\ forall fuel, (height p <= fuel)%nat -> parse_type_ref fuel p = mret t.

Lemma type_ref_spans sp : spans (body Rule_type_ref) sp -> spans (Ref Rule_type_ref) sp.
Proof. intros Hs. exact (y_ref false Rule_type_ref (fst sp) (snd sp) Hs). Qed.

(** A pair that stands for a type. *)
Lemma type_node r sp t : kind r = Normal -> spans (body r) sp ->
  (forall s, spans (Ref r) s -> spans (body Rule_type_ref) s) ->
  (forall fuel, (forall q, q ∈ snd sp -> height q <= fuel)%nat -> parse_type_ref (S fuel) (mkPair r (fst sp) (snd sp)) = mret t) ->
  type_reads t (node r sp).
Proof.
  intros Hk Hs Hr Hp. split; [by apply Hr, spans_node|]. eexists. split; [done|]. intros fuel Hf.
  pose proof (fun q => height_inner (mkPair r (fst sp) (snd sp)) q) as Hlow. cbn [into_inner] in Hlow.
  destruct fuel as [|fuel]; [cbn in Hf; lia|]. apply Hp. intros q Hq%Hlow. lia.
Qed.

Lemma base_type_reads s t : yields true (body Rule_base_type) s [] ->
  (forall fuel, parse_type_ref (S fuel) (mkPair Rule_base_type s []) = mret t) -> type_reads t (leaf Rule_base_type s).
Proof.
  intros Hs Hp. split; [by apply y_choice_l; eapply spans_leaf|]. eexists. split; [done|]. intros [|fuel] Hf; [cbn in Hf; lia|]. apply Hp.
Qed.

Lemma type_span_reads t : type_ok t = true -> type_reads t (type_span t).
Proof.
  induction t as [| | | |t IH|k IHk v IHv|t IH|name]; intros Hok; cbn [type_ok] in Hok; cbn [type_span].
  - apply base_type_reads; [apply y_choice_l; constructor|done].
  - apply base_type_reads; [apply y_choice_r, y_choice_l; constructor|done].
  - apply base_type_reads; [do 2 apply y_choice_r; constructor|done].
  - done.
  - destruct (IH Hok) as (Hs & p & Ep & Hp). apply type_node; [done| |intros s H; by apply y_choice_r, y_choice_l|].
    + apply spans_seq; [apply spans_word|by apply type_ref_spans].
    + intros fuel Hh. cbn [parse_type_ref as_rule into_inner seq snd word app] in *. rewrite Ep in *. walk.
      by rewrite Hp by (apply Hh; left).
  - apply andb_true_iff in Hok as [Hk Hv]. destruct (IHk Hk) as (Hsk & pk & Ek & Hpk), (IHv Hv) as (Hsv & pv & Ev & Hpv).
    apply type_node; [done| |intros s H; by do 2 apply y_choice_r; apply y_choice_l|].
    + apply spans_seq; [apply spans_word|]. apply spans_seq; [apply spans_word|]. apply spans_seq; [by apply type_ref_spans|].
      apply spans_seq; [apply spans_word|by apply type_ref_spans].
    + intros fuel Hh. cbn [parse_type_ref as_rule into_inner seq snd word app] in *. rewrite Ek, Ev in *. cbn [app] in *. walk.
      rewrite Hpk by (apply Hh; left). walk. by rewrite Hpv by (apply Hh; right; left).
  - destruct (IH Hok) as (Hs & p & Ep & Hp). apply type_node; [done| |intros s H; by do 3 apply y_choice_r; apply y_choice_l|].
    + apply spans_seq; [apply spans_word|]. apply spans_seq; [apply spans_word|]. apply spans_seq; [by apply type_ref_spans|apply spans_word].
    + intros fuel Hh. cbn [parse_type_ref as_rule into_inner seq snd word app] in *. rewrite Ep in *. cbn [app] in *. walk.
      by rewrite Hp by (apply Hh; left).
  - apply andb_true_iff in Hok as [Hok _]. apply type_node; [done|by apply ident_spans|intros s H; by do 4 apply y_choice_r|done].
Qed.

Lemma type_name_good t : type_ok t = true -> good 1 Rule_type_name parse_type_name (type_name t) t.
Proof.
  intros Hok. destruct (type_span_reads t Hok) as (Hs & p & Ep & Hp). apply good_node; [done|by apply type_ref_spans|].
  intros fuel Hh _. unfold parse_type_name. cbn [into_inner]. rewrite Ep in *. walk. specialize (Hh p ltac:(left)). apply Hp. lia.
Qed.

(** ** Statements *)
Fixpoint Statement_forall_ind (P : Statement -> Prop) (Q : Block -> Prop)
  (HVarDecl : forall d, P (Statement_VarDecl d)) (HReturn : forall e, P (Statement_Return e))
  (HIf : forall c t e, Q t -> match e with Some b => Q b | None => True end -> P (Statement_If c t e))
  (HExpr : forall e, P (Statement_Expr e)) (HBlock : forall l, Forall P l -> Q (mkBlock l)) (s : Statement) : P s
with Block_forall_ind (P : Statement -> Prop) (Q : Block -> Prop)
  (HVarDecl : forall d, P (Statement_VarDecl d)) (HReturn : forall e, P (Statement_Return e))
  (HIf : forall c t e, Q t -> match e with Some b => Q b | None => True end -> P (Statement_If c t e))
  (HExpr : forall e, P (Statement_Expr e)) (HBlock : forall l, Forall P l -> Q (mkBlock l)) (b : Block) : Q b.
Proof.
  - destruct s as [d|e|c t e|e]; [apply HVarDecl|apply HReturn|apply HIf|apply HExpr].
    + by apply (Block_forall_ind P).
    + destruct e as [b|]; [by apply (Block_forall_ind P)|done].
  - destruct b as [l]. apply HBlock. induction l as [|s l IHl]; constructor; [by apply (Statement_forall_ind P Q)|exact IHl].
Qed.

Section reading.
Context `{Profile}.

(** What is needed of the text of an expression, whatever it is. *)
Lemma expr_parts e : expr_ok e = true -> exists sp p, closed_syntax e = sp /\ spans (Ref Rule_expr) sp /\
  snd sp = [p] /\ as_rule p = Rule_expr /\ forall fuel, (2 * height p <= S fuel)%nat -> parse_expr fuel p = mret e.
Proof. intros Hok. destruct (closed_good e Hok) as (Hs & p & Ep & Er & Hr). exists (closed_syntax e), p. done. Qed.

Definition init_span (o : option span) : span := match o with Some sp => word "=" +++ sp | None => empty end.

Lemma binding_good d : binding_ok d = true -> good 1 Rule_binding_stmt parse_binding_stmt (binding_span d) d.
Proof.
  destruct d as [m name ty i]. unfold binding_ok, binding_span. cbn [var_name var_ty init mutability].
  intros [Hn [Ht Hi]%andb_true_iff]%andb_true_iff. destruct (type_name_good ty Ht) as (Hst & pt & Et & _ & Hrt).
  assert (Hinit : exists o, match i with Some e => word "=" +++ closed_syntax e | None => empty end = init_span o /\
    match i, o with
    | Some e, Some sp => spans (Ref Rule_expr) sp /\ exists p, snd sp = [p] /\ forall fuel, (2 * height p <= S fuel)%nat -> parse_expr fuel p = mret e
    | None, None => True
    | _, _ => False
    end).
  { destruct i as [e|]; [|by exists None]. destruct (expr_parts e Hi) as (sp & p & -> & Hs & Ep & _ & Hr). exists (Some sp). eauto 6. }
  destruct Hinit as (o & -> & Ho). clear Hi. apply good_node; [done| |].
  - apply spans_seq.
    { destruct m; apply (spans_node Rule_binding_kind (word _)); try done; [apply y_choice_l|apply y_choice_r]; constructor. }
    apply spans_seq; [by apply ident_spans|]. apply spans_seq; [apply spans_word|]. apply spans_seq; [done|].
    destruct i as [e|], o as [sp|]; try done; [|apply spans_opt_none]. apply y_opt_some, spans_seq; [apply spans_word|apply Ho].
  - intros fuel Hh _. unfold parse_binding_stmt. cbn [into_inner seq snd word leaf app] in *. rewrite Et in *. cbn [app] in *. walk.
    assert (Ek : forall A (k : Mutability -> parsed A),
      ((if decide (as_str (mkPair Rule_binding_kind (match m with Mutability_Immutable => "let" | Mutability_Mutable => "var" end) []) = "let")
        then mret Mutability_Immutable
        else if decide (as_str (mkPair Rule_binding_kind (match m with Mutability_Immutable => "let" | Mutability_Mutable => "var" end) []) = "var")
        then mret Mutability_Mutable else err "binding: invalid kind") : parsed Mutability) ≫= k = k m) by by destruct m.
    rewrite Ek. walk. rewrite Hrt by (specialize (Hh pt); set_solver by lia). walk. destruct i as [e|], o as [sp|]; try done.
    destruct Ho as (_ & pe & Ee & Hr). cbn [init_span seq snd word app] in *. rewrite Ee in *.
    rewrite Hr by (specialize (Hh pe); set_solver by lia). done.
Qed.

Definition statement_good (s : Statement) : Prop :=
  statement_ok s = true -> good 1 Rule_statement parse_statement (statement_span s) s.
Definition block_good (b : Block) : Prop := block_ok b = true -> good 1 Rule_block parse_block (block_span b) b.

Lemma mapped_good {A B} k r (parse : nat -> Pair -> parsed B) (f : A -> span) (ok : A -> bool) (v : A -> B) l :
  Forall (fun a => ok a = true -> good k r parse (f a) (v a)) l -> forallb ok l = true ->
  Forall2 (good k r parse) (map f l) (map v l).
Proof.
  induction 1 as [|a l Ha Hl IH]; intros Hok; [constructor|]. cbn in Hok. apply andb_true_iff in Hok as [Ho Hol].
  constructor; auto.
Qed.

Lemma block_of_statements l : Forall statement_good l -> block_good (mkBlock l).
Proof.
  intros IH Hok. cbn [block_ok] in Hok. cbn [block_span].
  pose proof (mapped_good _ _ _ _ _ (fun s => s) _ IH Hok) as Hf. rewrite map_id in Hf. apply good_node; [done| |].
  - apply spans_seq; [apply spans_word|]. apply spans_seq; [|apply spans_word]. by eapply spans_many, good_spans.
  - intros [|fuel] Hh Hpos; [lia|]. cbn [parse_block into_inner seq snd word app] in *. rewrite app_nil_r, many_pairs in *.
    erewrite (collect_good 1); [done|exact Hf|]. intros q Hq. specialize (Hh q Hq). lia.
Qed.

(** A statement whose walker goes on with the pair inside. *)
Lemma statement_node r sp s p : spans (Ref r) sp -> (forall t, spans (Ref r) t -> spans (body Rule_statement) t) ->
  snd sp = [p] ->
  (forall fuel, (2 * height p <= fuel)%nat -> parse_statement (S fuel) (mkPair Rule_statement (fst sp) [p]) = mret s) ->
  good 1 Rule_statement parse_statement (node Rule_statement sp) s.
Proof.
  intros Hs Hr Ep Hp. apply good_node; [done|by apply Hr|]. intros [|fuel] Hh Hpos; [lia|]. rewrite Ep in *. apply Hp.
  specialize (Hh p ltac:(left)). lia.
Qed.

Lemma if_good c t e : block_good t -> match e with Some b => block_good b | None => True end ->
  statement_ok (Statement_If c t e) = true -> good 1 Rule_if_stmt parse_if_stmt
    (node Rule_if_stmt (word "if" +++ closed_syntax c +++ block_span t +++
          match e with Some b => word "else" +++ block_span b | None => empty end)) (Statement_If c t e).
Proof.
  intros Ht He. cbn [statement_ok]. intros [Hc [Hot Hoe]%andb_true_iff]%andb_true_iff.
  destruct (expr_parts c Hc) as (sc & pc & -> & Hsc & Ec & _ & Hrc), (Ht Hot) as (Hst & pt & Et & _ & Hrt). apply good_node; [done| |].
  - apply spans_seq; [apply spans_word|]. apply spans_seq; [done|]. apply spans_seq; [done|].
    destruct e as [b|]; [|apply spans_opt_none]. apply y_opt_some, spans_seq; [apply spans_word|]. by apply He.
  - intros [|fuel] Hh Hpos; [lia|]. cbn [parse_if_stmt into_inner seq snd word app] in *. rewrite Ec, Et in *. cbn [app] in *. walk.
    rewrite Hrc by (specialize (Hh pc); set_solver by lia). walk.
    rewrite Hrt by (specialize (Hh pt); set_solver by lia). walk. destruct e as [b|]; [|done].
    destruct (He Hoe) as (_ & pb & Eb & _ & Hrb). cbn [seq snd word app] in *. rewrite Eb in *.
    by rewrite Hrb by (specialize (Hh pb); set_solver by lia).
Qed.

Lemma statements_good : (forall s, statement_good s) /\ (forall b, block_good b).
Proof.
  assert (HVarDecl : forall d, statement_good (Statement_VarDecl d)).
  { intros d Hok. destruct (binding_good d Hok) as (Hs & p & Ep & Er & Hp). eapply statement_node; [exact Hs|intros t Hy; by apply y_choice_l|done|].
    intros fuel Hf. cbn [parse_statement into_inner next]. walk. rewrite Er, Hp by lia. done. }
  assert (HReturn : forall e, statement_good (Statement_Return e)).
  { intros e Hok. cbn [statement_span]. destruct (expr_parts e Hok) as (sp & p & -> & Hs & Ep & Er & Hr). eapply (statement_node Rule_return_stmt);
      [apply spans_node; [done|]; by apply spans_seq; [apply spans_word|]|intros t Hy; by apply y_choice_r, y_choice_l|done|].
    intros fuel Hf. cbn [parse_statement into_inner next as_rule]. walk. cbn [seq snd word app as_rule into_inner fst] in *. rewrite Ep in *. walk.
    rewrite Hr; [done|]. cbn in Hf. lia. }
  assert (HIf : forall c t e, block_good t -> match e with Some b => block_good b | None => True end -> statement_good (Statement_If c t e)).
  { intros c t e Ht He Hok. destruct (if_good c t e Ht He Hok) as (Hs & p & Ep & Er & Hp).
    eapply statement_node; [exact Hs|intros t' Hy; by do 2 apply y_choice_r; apply y_choice_l|done|].
    intros fuel Hf. cbn [parse_statement into_inner next]. walk. rewrite Er. apply Hp. lia. }
  assert (HExpr : forall e, statement_good (Statement_Expr e)).
  { intros e Hok. cbn [statement_span]. destruct (expr_parts e Hok) as (sp & p & -> & Hs & Ep & Er & Hr).
    eapply statement_node; [exact Hs|intros t Hy; by do 3 apply y_choice_r|done|].
    intros fuel Hf. cbn [parse_statement into_inner next]. walk. rewrite Er, Hr; [done|]. lia. }
  split; [apply (Statement_forall_ind _ block_good)|apply (Block_forall_ind statement_good)]; auto using block_of_statements.
Qed.

(** ** Items *)
Lemma typed_good {A} r (mk : string -> TypeName -> A) no_name no_type (parse : nat -> Pair -> parsed A) name ty :
  kind r = Normal -> body r = (Ref Rule_identifier ~~ Str ":" ~~ Ref Rule_type_name) ->
  (forall fuel p, parse fuel p = '(name, inner) ← next no_name (into_inner p);
                                 '(ty_pair, _) ← next no_type inner;
                                 ty ← parse_type_name fuel ty_pair;
                                 mret (mk (as_str name) ty)) ->
  ident_ok name && type_ok ty = true -> good 1 r parse (typed_span r name ty) (mk name ty).
Proof.
  intros Hk Hb Hp [Hn Ht]%andb_true_iff. destruct (type_name_good ty Ht) as (Hs & p & Ep & _ & Hr). apply good_node; [done| |].
  - rewrite Hb. apply spans_seq; [by apply ident_spans|]. by apply spans_seq; [apply spans_word|].
  - intros fuel Hh _. rewrite Hp. cbn [into_inner seq snd word leaf app] in *. rewrite Ep in *. walk.
    by rewrite Hr by (specialize (Hh p); set_solver by lia).
Qed.

Lemma listed_read {A} r el (parse : nat -> Pair -> parsed A) l vs fuel : kind r = Normal -> body r = comma_list el ->
  Forall2 (good 1 el parse) l vs ->
  spans (Opt (Ref r)) (listed r l) /\
  (vs = [] /\ snd (listed r l) = [] \/
   exists p, snd (listed r l) = [p] /\ as_rule p = r /\
     ((2 * height p <= 3 + fuel)%nat -> collect el (parse fuel) (into_inner p) = mret vs)).
Proof.
  intros Hk Hb Hf. destruct Hf as [|a v l vs Ha Hf]; [split; [constructor|by left]|].
  assert (Hall : Forall2 (good 1 el parse) (a :: l) (v :: vs)) by by constructor. split.
  - apply y_opt_some, spans_node; [done|]. rewrite Hb. apply spans_commas; [done|]. by eapply good_spans.
  - right. eexists. split_and!; [done|done|]. intros Hh. cbn [into_inner]. eapply bracketed; [exact Hall|]. intros q Hq.
    pose proof (height_inner (mkPair r (fst (commas (a :: l))) (snd (commas (a :: l)))) q Hq). lia.
Qed.

Lemma struct_def_good d : struct_ok d = true -> good 1 Rule_struct_def parse_struct_def (struct_span d) d.
Proof.
  destruct d as [name fs]. unfold struct_ok, struct_span. cbn [struct_name fields]. intros [Hn Hfs]%andb_true_iff.
  assert (Hf : Forall2 (good 1 Rule_struct_field parse_struct_field)
    (map (fun f => typed_span Rule_struct_field (field_name f) (field_ty f)) fs) fs).
  { rewrite <-(map_id fs) at 2. eapply mapped_good; [|exact Hfs]. apply Forall_true. intros [fn ft] Hok. by eapply typed_good. }
  apply good_node; [done| |].
  - apply spans_seq; [apply spans_word|]. apply spans_seq; [by apply ident_spans|]. apply spans_seq; [apply spans_word|].
    apply spans_seq; [|apply spans_word]. by eapply (listed_read _ _ _ _ _ 0%nat).
  - intros fuel Hh _. destruct (listed_read Rule_struct_fields _ _ _ _ fuel eq_refl eq_refl Hf) as [_ Hl].
    unfold parse_struct_def. cbn [into_inner seq snd word leaf app] in *. rewrite app_nil_r in *. walk.
    destruct Hl as [[-> ->]|(p & Ep & Er & Hp)]; [done|]. rewrite Ep in *. rewrite decide_True by done.
    rewrite Hp by (specialize (Hh p); set_solver by lia). done.
Qed.

(** What follows the parameters of a function. *)
Lemma function_rest fuel name ps rt b pb : block_ok b = true -> return_ok rt = true ->
  snd (block_span b) = [pb] -> (2 * height pb <= S fuel)%nat ->
  (forall p, snd (type_name rt) = [p] -> rt <> TypeName_Void -> 2 * height p <= S fuel)%nat ->
  exists n inner,
    snd (return_span rt) ++ [pb] = n :: inner /\
    as_rule n <> Rule_param_list /\
    rest_of_function fuel name ps n inner = mret (mkFunctionDef name ps rt b).
Proof.
  intros Hb Ht Eb Hh Hht. destruct (proj2 statements_good b Hb) as (_ & p & Ep & Er & Hr). rewrite Eb in Ep. injection Ep as <-.
  unfold return_ok in Ht. unfold return_span. case_decide as Hrt.
  - subst. eexists _, _. split_and!; [done|by rewrite Er|]. unfold rest_of_function. rewrite Er. walk. by rewrite Hr.
  - rewrite bool_decide_eq_false_2 in Ht by done. destruct (type_name_good rt Ht) as (_ & pt & Et & Ert & Hrt').
    exists pt, [pb]. split_and!; [change (snd (type_name rt) ++ [pb] = pt :: [pb]); by rewrite Et|by rewrite Ert|].
    unfold rest_of_function. rewrite Ert, Hrt' by by apply Hht. walk. by rewrite Hr.
Qed.

Lemma return_spans t : return_ok t = true -> spans (Opt (Str "->" ~~ Ref Rule_type_name)) (return_span t).
Proof.
  unfold return_ok, return_span. intros Ht. case_decide; [apply spans_opt_none|]. rewrite bool_decide_eq_false_2 in Ht by done.
  apply y_opt_some, spans_seq; [apply spans_word|]. by apply type_name_good.
Qed.

Lemma function_good f : function_ok f = true -> good 1 Rule_function parse_function (function_span f) f.
Proof.
  destruct f as [name ps rt b]. unfold function_ok, function_span. cbn [func_name params ret func_body].
  intros [Hn [Hps [Ht Hb]%andb_true_iff]%andb_true_iff]%andb_true_iff.
  assert (Hf : Forall2 (good 1 Rule_param parse_param) (map (fun p => typed_span Rule_param (param_name p) (param_ty p)) ps) ps).
  { rewrite <-(map_id ps) at 2. eapply mapped_good; [|exact Hps]. apply Forall_true. intros [pn pt] Hok. by eapply typed_good. }
  destruct (proj2 statements_good b Hb) as (Hsb & pb & Eb & _). apply good_node; [done| |].
  - do 2 (apply spans_seq; [by (apply spans_word || apply ident_spans)|]). apply spans_seq; [apply spans_word|].
    apply spans_seq; [by eapply (listed_read _ _ _ _ _ 0%nat)|]. apply spans_seq; [apply spans_word|]. apply spans_seq; [|done].
    by apply return_spans.
  - intros fuel Hh _. destruct (listed_read Rule_param_list _ _ _ _ fuel eq_refl eq_refl Hf) as [_ Hl].
    cbn [seq snd word leaf app] in Hh. rewrite Eb in Hh.
    destruct (function_rest fuel name ps rt b pb Hb Ht Eb) as (n & inner & En & Hn' & Hr).
    { specialize (Hh pb). set_solver by lia. }
    { intros p Ep Hrt. assert (p ∈ snd (return_span rt))
        by (unfold return_span; case_decide; [done|]; change (p ∈ snd (type_name rt)); rewrite Ep; left).
      specialize (Hh p). set_solver by lia. }
    unfold parse_function. cbn [into_inner seq snd word leaf app]. rewrite Eb, En. walk.
    destruct Hl as [[-> ->]|(p & Ep & Er & Hp)]; cbn [app].
    + walk. rewrite decide_False by done. walk. exact Hr.
    + rewrite Ep in *. cbn [app]. walk. rewrite decide_True by done. rewrite Hp by (specialize (Hh p); set_solver by lia).
      walk. exact Hr.
Qed.

Lemma item_good i : item_ok i = true -> good 0 Rule_item parse_item (item_span i) i.
Proof.
  intros Hok. destruct i as [d|f|s]; cbn [item_ok] in Hok.
  - destruct (struct_def_good d Hok) as (Hs & p & Ep & Er & Hr). apply good_node; [done|by apply y_choice_l|].
    intros fuel Hh _. unfold parse_item. cbn [into_inner]. rewrite Ep in *. walk. rewrite Er, Hr; [done|]. specialize (Hh p ltac:(left)). lia.
  - destruct (function_good f Hok) as (Hs & p & Ep & Er & Hr). apply good_node; [done|by apply y_choice_r, y_choice_l|].
    intros fuel Hh _. unfold parse_item. cbn [into_inner]. rewrite Ep in *. walk. rewrite Er, Hr; [done|]. specialize (Hh p ltac:(left)). lia.
  - destruct (proj1 statements_good s Hok) as (Hs & p & Ep & Er & Hr). apply good_node; [done|by do 2 apply y_choice_r|].
    intros fuel Hh _. unfold parse_item. cbn [into_inner]. rewrite Ep in *. walk. rewrite Er, Hr; [done|]. specialize (Hh p ltac:(left)). lia.
Qed.
End reading.

(** The printed tree belongs to the grammar. *)
Lemma program_spans `{Profile} p : program_ok p = true -> spans (Ref Rule_program) (program_span p).
Proof.
  intros Hok. assert (Hf : Forall2 (good 0 Rule_item parse_item) (map item_span (items p)) (items p)).
  { rewrite <-(map_id (items p)) at 2. eapply mapped_good; [|exact Hok]. apply Forall_true. intros i. apply item_good. }
  apply spans_node; [done|]. apply spans_seq; [constructor|]. apply spans_seq; [by eapply spans_many, good_spans|].
  exact (y_eoi false).
Qed.

(** On whatever input pest answers with the printed tree, the parser returns the program. *)
Lemma program_read `{Profile} `{Pest} p input : program_ok p = true ->
  pest_parse Rule_program input = inl (snd (program_span p)) -> parse_program input = mret p.
Proof.
  intros Hok Hi. assert (Hf : Forall2 (good 0 Rule_item parse_item) (map item_span (items p)) (items p)).
  { rewrite <-(map_id (items p)) at 2. eapply mapped_good; [|exact Hok]. apply Forall_true. intros i. apply item_good. }
  unfold parse_program. rewrite Hi. cbn [program_span node snd next]. walk.
  set (root := mkPair _ _ _). cbn [into_inner root seq empty snd app]. rewrite many_pairs, collect_app by done.
  rewrite (collect_good 0 _ _ _ _ (items p)) by (exact Hf || (intros q Hq; cbn [Nat.add];
    assert (Hl : (height q < height root)%nat) by (apply height_inner; cbn [into_inner root seq empty snd app];
      rewrite many_pairs; apply elem_of_app; by left); lia)).
  by destruct p.
Qed.

(** ** Examples *)

(** The interpreter finds the printed tree of each program of parsed_ast_test.rs. *)
Definition printed_tree_found (p : Program) : Prop :=
  program_ok p = true /\ peg_parse Rule_program (fst (program_span p)) = inl (snd (program_span p)).

Example printed_trees : Forall printed_tree_found
  [parse_program_expected; expression_in_statement_expected; function_without_return_type_expected;
   function_struct_construction_expected; syn_function_call_expected; option_types_expected; nested_option_types_expected].
Proof. repeat (apply Forall_cons_2; [split; vm_compute; reflexivity|]). apply Forall_nil_2. Qed.

(** Parentheses only where they are needed. *)
Definition nested_operators : Expr :=
  Expr_Binary (Expr_Binary (Expr_Ident "a") BinOp_Add (Expr_Ident "b")) BinOp_Mul
    (Expr_Binary (Expr_Ident "c") BinOp_Sub (Expr_Binary (Expr_Ident "d") BinOp_Sub (Expr_Binary (Expr_Int (-2)) BinOp_Div (Expr_Ident "e")))).

Example nested_operators_printed : fst (expr_syntax nested_operators) = "( a + b ) * ( c - ( d - -2 / e ) ) ".
Proof. vm_compute. reflexivity. Qed.
