(* ===== verification/PegPrograms.v ===== *)
(** * Printed programs, parsed

    The parser finds the tree that [ProgramTrees] prints for a program: what comes before the
    right choice fails on it, and no part takes in what belongs to the next. *)
From S2P Require Import Prelude Grammar Peg Parser ParserSpec ParserTests ParserTrees PegTrees ProgramTrees.
From Stdlib Require Import Ascii.
Local Open Scope string_scope.
Local Open Scope list_scope.
Local Open Scope peg_scope.

(** ** Types *)
Lemma custom_prefix w x t : custom_name x = true -> w ∈ ["String"; "i32"; "i64"; "map"; "Option"] ->
  strip w (x +:+ String " " t) = None.
Proof.
  intros [_ Hf]%andb_true_iff Hw. rewrite forallb_forall in Hf. specialize (Hf w (proj1 (list_elem_of_In _ _) Hw)).
  apply strip_word; [unfold no_prefix in Hf; by destruct (strip w x)|]. set_unfold. naive_solver.
Qed.

Lemma custom_ok x : custom_name x = true -> ident_ok x = true.
Proof. by intros [? _]%andb_true_iff. Qed.

Lemma custom_fails r w e x t : kind r = Normal -> body r = (Str w ~~ e) -> custom_name x = true ->
  w ∈ ["String"; "i32"; "i64"; "map"; "Option"] -> gives false (Ref r) (x +:+ " " +:+ t) None.
Proof.
  intros Hk Hb Hx Hw. apply ref_fails. rewrite Hk, Hb. by apply seq_fails, str_fails, custom_prefix.
Qed.

Lemma custom_others x t : custom_name x = true ->
  gives false (Ref Rule_base_type) (x +:+ " " +:+ t) None /\ gives false (Ref Rule_array_type) (x +:+ " " +:+ t) None /\
  gives false (Ref Rule_map_type) (x +:+ " " +:+ t) None /\ gives false (Ref Rule_option_type) (x +:+ " " +:+ t) None.
Proof.
  intros Hx. split_and!.
  - apply ref_fails. repeat (apply gives_second; [apply str_fails, custom_prefix; [done|set_solver]|]). apply str_fails, custom_prefix; [done|set_solver].
  - pose proof (custom_ok x Hx) as Hi. destruct x as [|c s]; [done|]. apply andb_true_iff in Hi as [Hc _]. exists 9%nat.
    revert Hc. destruct c as [[] [] [] [] [] [] [] []]; first [reflexivity|discriminate].
  - by eapply (custom_fails Rule_map_type "map"); [..|set_solver].
  - by eapply (custom_fails Rule_option_type "Option"); [..|set_solver].
Qed.

Lemma type_tight t p : type_ok t = true -> operand Rule_type_ref p (type_span t).
Proof.
  assert (Hb : forall s q, s ∈ ["String"; "i32"; "i64"] -> operand Rule_base_type q (leaf Rule_base_type s)).
  { intros s q Hs. assert (Hcases : s = "String" \/ s = "i32" \/ s = "i64") by set_solver.
    split; [|destruct Hcases as [->|[->| ->]]; by apply starts_char].
    eapply tight_leaf; [done|]. intros u. destruct Hcases as [->|[->| ->]]; exists 9%nat; reflexivity. }
  assert (Href : forall sp q, tight (body Rule_type_ref) sp q -> tight (Ref Rule_type_ref) sp q).
  { intros sp q Ht r Hr. specialize (Ht r Hr). exact (gives_ref false Rule_type_ref _ _ Ht). }
  revert p. induction t as [| | | |t IH|k IHk v IHv|t IH|name]; intros p Hok; cbn [type_ok] in Hok; cbn [type_span].
  - destruct (Hb "String" p ltac:(set_solver)). split; [|done]. by apply Href, tight_first.
  - destruct (Hb "i32" p ltac:(set_solver)). split; [|done]. by apply Href, tight_first.
  - destruct (Hb "i64" p ltac:(set_solver)). split; [|done]. by apply Href, tight_first.
  - done.
  - destruct (IH p Hok) as [Ht Hs]. split; [|by apply starts_node, starts_seq, starts_char]. apply Href.
    apply tight_second; [intros r _; exists 9%nat; reflexivity|]. apply tight_first, tight_node; [done|].
    eapply seq_tight; [by apply (tight_word _ any)|exact Ht|by apply starts_leads].
  - apply andb_true_iff in Hok as [Hk Hv]. destruct (IHk any Hk) as [Htk Hsk], (IHv p Hv) as [Htv Hsv].
    split; [|by apply starts_node, starts_seq, starts_char]. apply Href.
    do 2 (apply tight_second; [intros r _; exists 9%nat; reflexivity|]). apply tight_first, tight_node; [done|].
    eapply seq_tight; [by apply (tight_word _ any)| |by apply starts_leads, starts_seq, starts_char].
    eapply seq_tight; [by apply (tight_word _ any)| |by apply starts_leads, starts_seq].
    eapply seq_tight; [exact Htk| |by apply starts_leads, starts_seq, starts_char].
    eapply seq_tight; [by apply (tight_word _ any)|exact Htv|by apply starts_leads].
  - destruct (IH any Hok) as [Ht Hs]. split; [|by apply starts_node, starts_seq, starts_char]. apply Href.
    do 3 (apply tight_second; [intros r _; exists 9%nat; reflexivity|]). apply tight_first, tight_node; [done|].
    eapply seq_tight; [by apply (tight_word _ any)| |by apply starts_leads, starts_seq, starts_char].
    eapply seq_tight; [by apply (tight_word _ any)| |by apply starts_leads, starts_seq].
    eapply seq_tight; [exact Ht|by apply tight_word|by apply starts_leads, starts_char].
  - pose proof (custom_ok name Hok) as Hi. split; [|by apply starts_node, starts_alpha]. apply Href.
    do 4 (apply tight_second; [intros r _; change (gap (node Rule_custom_type ?x)) with (gap x); cbn [node fst];
      rewrite gap_ident by done; by apply custom_others|]).
    apply tight_node; [done|]. by apply ident_tight.
Qed.

Lemma type_name_tight t p : type_ok t = true -> operand Rule_type_name p (type_name t).
Proof. intros Hok. destruct (type_tight t p Hok) as [Ht Hs]. split; [by apply tight_node|by apply starts_node]. Qed.

Lemma typed_tight r name t p : kind r = Normal -> body r = (Ref Rule_identifier ~~ Str ":" ~~ Ref Rule_type_name) ->
  ident_ok name && type_ok t = true -> operand r p (typed_span r name t).
Proof.
  intros Hk Hb [Hn Ht]%andb_true_iff. destruct (type_name_tight t p Ht) as [Htt Hs].
  split; [|by apply starts_node, starts_seq, starts_alpha]. apply tight_node; [done|]. rewrite Hb.
  eapply seq_tight; [by apply (ident_tight _ _ any)| |by apply starts_leads, starts_seq, starts_char].
  eapply seq_tight; [by apply (tight_word _ any)|exact Htt|by apply starts_leads].
Qed.

(** ** Statements

    What a statement starts with, and what may follow one. *)
Definition statement_head (c : ascii) : bool := one_of ["l"; "v"; "r"; "i"; "("]%char c.
Definition after_statement (c : ascii) : bool := one_of ["l"; "v"; "r"; "i"; "s"; "f"; "("; ")"; "]"; "}"]%char c.

Lemma head_fails a e p fuel sp r : starts p sp -> (forall c s, p c = true -> peg fuel a e (String c s) = Ok None) ->
  gives a e (fst sp +:+ gap sp +:+ r) None.
Proof.
  intros [Hn Hs] Hp. exists fuel. destruct (Hs r) as [_ Hh]. destruct (fst sp) as [|c s]; [done|]. by apply Hp.
Qed.

Lemma closed_operand e p : expr_ok e = true -> (forall c, p c = true -> after_closed c = true) -> operand Rule_expr p (closed_syntax e).
Proof. intros He Hp. destruct (closed_tight e He) as [Ht Hs]. split; [by eapply tight_weaken|done]. Qed.

Lemma kind_tight m p : operand Rule_binding_kind p (leaf Rule_binding_kind (match m with Mutability_Immutable => "let" | Mutability_Mutable => "var" end)).
Proof. split; [intros r _; exists 9%nat; destruct m; reflexivity|destruct m; by apply starts_char]. Qed.

Lemma binding_tight d : binding_ok d = true -> operand Rule_binding_stmt after_statement (binding_span d).
Proof.
  destruct d as [m name ty i]. unfold binding_ok, binding_span. cbn [var_name var_ty init mutability].
  intros [Hn [Ht Hi]%andb_true_iff]%andb_true_iff. destruct (kind_tight m any) as [Hk Hks], (type_name_tight ty any Ht) as [Hty Hts].
  split; [|by apply starts_node, starts_seq]. apply tight_node; [done|].
  eapply seq_tight; [exact Hk| |by apply starts_leads, starts_seq, starts_alpha].
  eapply seq_tight; [by apply (ident_tight _ _ any)| |by apply starts_leads, starts_seq, starts_char].
  eapply seq_tight; [by apply (tight_word _ any)| |by apply starts_leads, starts_seq].
  eapply seq_tight; [exact Hty| |].
  - destruct i as [e|].
    + destruct (closed_operand e after_statement Hi) as [He Hes]; [subset|]. apply tight_opt.
      eapply seq_tight; [by apply (tight_word _ any)|exact He|by apply starts_leads].
    + apply tight_none. intros r Hr. apply seq_fails. revert Hr. apply (fails_at _ _ _ 3); [each_char|reflexivity].
  - destruct i as [e|]; [by apply starts_leads, starts_seq, starts_char|by apply empty_leads].
Qed.

Lemma binding_starts d p : (forall c, statement_head c = true -> p c = true) -> starts p (binding_span d).
Proof. intros Hp. destruct d as [m name ty i]. apply starts_node, starts_seq. destruct m; apply starts_char; try done; by apply Hp. Qed.

Definition statement_tight (s : Statement) : Prop :=
  statement_ok s = true -> tight (Ref Rule_statement) (statement_span s) after_statement /\ starts statement_head (statement_span s).
Definition block_tight (b : Block) : Prop := block_ok b = true -> forall p, tight (Ref Rule_block) (block_span b) p.

Lemma block_starts (p : ascii -> bool) b : p "{"%char = true -> starts p (block_span b).
Proof. intros Hp. destruct b as [l]. apply starts_node, starts_seq. by apply starts_char. Qed.

Lemma block_of_tight l : Forall statement_tight l -> block_tight (mkBlock l).
Proof.
  intros IH Hok p. cbn [block_ok block_span] in *. apply tight_node; [done|].
  assert (Hf : Forall (fun a => tight (Ref Rule_statement) a after_statement /\ starts after_statement a) (map statement_span l)).
  { apply Forall_map. rewrite forallb_forall in Hok. rewrite Forall_forall in *. intros s Hs.
    destruct (IH s Hs (Hok s (proj1 (list_elem_of_In _ _) Hs))) as [Ht Hst]. split; [done|]. eapply starts_weaken; [|exact Hst]. subset. }
  apply bracketed_tight; [| |done].
  - eapply tight_many; [exact Hf|subset|]. intros r. apply (fails_at _ _ _ 80); [each_char|reflexivity].
  - destruct Hf as [|a l' [_ Ha] _]; [by apply empty_leads|]. apply starts_leads, starts_many. by eapply starts_weaken.
Qed.

Lemma if_tight c t e : block_tight t -> match e with Some b => block_tight b | None => True end ->
  statement_ok (Statement_If c t e) = true ->
  tight (Ref Rule_if_stmt) (node Rule_if_stmt (word "if" +++ closed_syntax c +++ block_span t +++
          match e with Some b => word "else" +++ block_span b | None => empty end)) after_statement.
Proof.
  intros Ht He. cbn [statement_ok]. intros [Hc [Hot Hoe]%andb_true_iff]%andb_true_iff.
  destruct (closed_operand c (one_of ["{"]%char) Hc) as [Htc Hsc]; [subset|]. apply tight_node; [done|].
  eapply seq_tight; [by apply (tight_word _ any)| |by apply starts_leads, starts_seq].
  eapply seq_tight; [exact Htc| |by apply starts_leads, starts_seq, block_starts].
  eapply seq_tight; [by apply (Ht Hot any)| |].
  - destruct e as [b|].
    + apply tight_opt. eapply seq_tight; [by apply (tight_word _ any)|by apply He|by apply starts_leads, block_starts].
    + apply tight_none. intros r Hr. apply seq_fails. revert Hr. apply (fails_at _ _ _ 3); [each_char|reflexivity].
  - destruct e as [b|]; [by apply starts_leads, starts_seq, starts_char|by apply empty_leads].
Qed.

Notation statements := (Ref Rule_binding_stmt </> Ref Rule_return_stmt </> Ref Rule_if_stmt </> Ref Rule_expr).

Lemma statements_tight : (forall s, statement_tight s) /\ (forall b, block_tight b).
Proof.
  assert (HVarDecl : forall d, statement_tight (Statement_VarDecl d)).
  { intros d Hok. destruct (binding_tight d Hok) as [Ht Hs]. split; [by apply tight_node, tight_first|]. by apply starts_node, binding_starts. }
  assert (HReturn : forall e, statement_tight (Statement_Return e)).
  { intros e Hok. destruct (closed_operand e after_statement Hok) as [Ht Hs]; [subset|]. split; [|by apply starts_node, starts_node, starts_seq, starts_char].
    apply tight_node; [done|]. apply (tight_second _ (Ref Rule_return_stmt </> Ref Rule_if_stmt </> Ref Rule_expr)).
    { intros r _. apply (head_fails _ _ (one_of ["r"]%char) 20); [by apply starts_node, starts_seq, starts_char|each_char]. }
    apply tight_first, tight_node; [done|]. eapply seq_tight; [by apply (tight_word _ any)|exact Ht|by apply starts_leads]. }
  assert (HIf : forall c t e, block_tight t -> match e with Some b => block_tight b | None => True end -> statement_tight (Statement_If c t e)).
  { intros c t e Ht He Hok. split; [|by apply starts_node, starts_node, starts_seq, starts_char].
    apply tight_node; [done|]. change (body Rule_statement) with statements.
    do 2 (apply tight_second; [intros r _; apply (head_fails _ _ (one_of ["i"]%char) 20); [by apply starts_node, starts_seq, starts_char|each_char]|]).
    by apply tight_first, if_tight. }
  assert (HExpr : forall e, statement_tight (Statement_Expr e)).
  { intros e Hok. destruct (closed_operand e after_statement Hok) as [Ht Hs]; [subset|]. split; [|by apply starts_node, closed_starts].
    apply tight_node; [done|]. change (body Rule_statement) with statements.
    do 3 (apply tight_second; [intros r _; apply (head_fails _ _ (one_of ["("]%char) 20); [by apply closed_starts|each_char]|]).
    exact Ht. }
  split; [apply (Statement_forall_ind _ block_tight)|apply (Block_forall_ind statement_tight)]; auto using block_of_tight.
Qed.

(** ** Items *)
Lemma listed_tight r el l : kind r = Normal -> body r = comma_list el -> (forall s, follows closes s -> gives false (Ref el) s None) ->
  Forall (element (Ref el)) l -> tight (Opt (Ref r)) (listed r l) closes /\ leads any closes (listed r l).
Proof.
  intros Hk Hb Hel Hl. destruct Hl as [|a l Ha Hl].
  - split; [|by apply empty_leads]. apply tight_none. intros s Hs. apply ref_fails. rewrite Hk, Hb. by apply seq_fails, Hel.
  - split; [|by apply starts_leads, starts_node, commas_starts, Ha]. apply tight_opt, tight_node; [done|]. rewrite Hb.
    apply commas_tight; [done|by constructor].
Qed.

Lemma mapped_elements {A} r (f : A -> span) (ok : A -> bool) l : (forall a, ok a = true -> operand r separates (f a)) ->
  forallb ok l = true -> Forall (element (Ref r)) (map f l).
Proof.
  intros Hf Hok. apply Forall_map. rewrite forallb_forall in Hok. apply Forall_forall. intros a Ha. by apply Hf, Hok, list_elem_of_In.
Qed.

Lemma struct_tight d p : struct_ok d = true -> operand Rule_struct_def p (struct_span d).
Proof.
  destruct d as [name fs]. unfold struct_ok, struct_span. cbn [struct_name fields]. intros [Hn Hfs]%andb_true_iff.
  split; [|by apply starts_node, starts_seq, starts_char]. apply tight_node; [done|].
  eapply seq_tight; [by apply (tight_word _ any)| |by apply starts_leads, starts_seq, starts_alpha].
  eapply seq_tight; [by apply (ident_tight _ _ any)| |by apply starts_leads, starts_seq, starts_char].
  destruct (listed_tight Rule_struct_fields Rule_struct_field (map (fun f => typed_span Rule_struct_field (field_name f) (field_ty f)) fs))
    as [Hl Hle]; [done|done| | |by apply bracketed_tight].
  - intros s. apply (fails_at _ _ _ 20); [each_char|reflexivity].
  - eapply mapped_elements; [|exact Hfs]. intros [fn ft] Hok. by apply typed_tight.
Qed.

Lemma return_tight t : return_ok t = true ->
  tight (Opt (Str "->" ~~ Ref Rule_type_name)) (return_span t) (one_of ["{"]%char) /\ leads any (one_of ["{"]%char) (return_span t).
Proof.
  unfold return_ok, return_span. intros Ht. case_decide.
  - split; [|by apply empty_leads]. apply tight_none. intros r Hr. apply seq_fails. revert Hr. apply (fails_at _ _ _ 3); [each_char|reflexivity].
  - rewrite bool_decide_eq_false_2 in Ht by done. destruct (type_name_tight t (one_of ["{"]%char) Ht) as [Htt Hs].
    split; [|by apply starts_leads, starts_seq, starts_char]. apply tight_opt. eapply seq_tight; [by apply (tight_word _ any)|exact Htt|by apply starts_leads].
Qed.

Lemma function_tight f p : function_ok f = true -> operand Rule_function p (function_span f).
Proof.
  destruct f as [name ps rt b]. unfold function_ok, function_span. cbn [func_name params ret func_body].
  intros [Hn [Hps [Ht Hb]%andb_true_iff]%andb_true_iff]%andb_true_iff.
  split; [|by apply starts_node, starts_seq, starts_char]. apply tight_node; [done|].
  destruct (listed_tight Rule_param_list Rule_param (map (fun q => typed_span Rule_param (param_name q) (param_ty q)) ps))
    as [Hl Hle]; [done|done| | |].
  { intros s. apply (fails_at _ _ _ 20); [each_char|reflexivity]. }
  { eapply mapped_elements; [|exact Hps]. intros [pn pt] Hok. by apply typed_tight. }
  destruct (return_tight rt Ht) as [Hr Hre]. pose proof (proj2 statements_tight b Hb p) as Hbt.
  assert (Hbs : starts (one_of ["{"]%char) (block_span b)) by by apply block_starts.
  assert (Hrest : leads any p (return_span rt +++ block_span b)).
  { intros r Hr'. rewrite gap_seq. cbn [seq fst]. rewrite <-!string_app_assoc. by apply Hre, Hbs. }
  assert (Hclose : forall q, leads closes q (word ")" +++ return_span rt +++ block_span b))
    by (intros q; by apply starts_leads, starts_seq, starts_char).
  eapply seq_tight; [by apply (tight_word _ any)| |by apply starts_leads, starts_seq, starts_alpha].
  eapply seq_tight; [by apply (ident_tight _ _ any)| |by apply starts_leads, starts_seq, starts_char].
  eapply seq_tight; [by apply (tight_word _ any)| |].
  - eapply seq_tight; [exact Hl| |apply Hclose]. eapply seq_tight; [by apply (tight_word _ any)| |exact Hrest].
    eapply seq_tight; [exact Hr|exact Hbt|by apply starts_leads].
  - intros r Hr'. rewrite gap_seq. cbn [seq fst]. rewrite <-!string_app_assoc. apply Hle.
    pose proof (Hclose p r Hr') as Hc. rewrite !gap_seq in *. cbn [seq fst] in *. rewrite <-!string_app_assoc in *. exact Hc.
Qed.

Lemma item_tight i : item_ok i = true -> tight (Ref Rule_item) (item_span i) after_statement /\ starts after_statement (item_span i).
Proof.
  intros Hok. destruct i as [d|f|s]; cbn [item_ok] in Hok.
  - destruct (struct_tight d after_statement Hok) as [Ht _]. split; [by apply tight_node, tight_first|]. destruct d.
    by apply starts_node, starts_node, starts_seq, starts_char.
  - destruct (function_tight f after_statement Hok) as [Ht _]. destruct f as [name ps rt b].
    split; [|by apply starts_node, starts_node, starts_seq, starts_char]. apply tight_node; [done|].
    apply (tight_second _ (Ref Rule_function </> Ref Rule_statement)); [|by apply tight_first].
    intros r _. apply (head_fails _ _ (one_of ["f"]%char) 20); [by apply starts_node, starts_seq, starts_char|each_char].
  - destruct (proj1 statements_tight s Hok) as [Ht Hs]. split; [|apply starts_node; eapply starts_weaken; [|exact Hs]; subset].
    apply tight_node; [done|].
    apply (tight_second _ (Ref Rule_function </> Ref Rule_statement)); [intros r _; by apply (head_fails _ _ statement_head 20); [|each_char]|].
    apply tight_second; [intros r _; by apply (head_fails _ _ statement_head 20); [|each_char]|exact Ht].
Qed.

Lemma program_matches p : program_ok p = true ->
  gives false (Ref Rule_program) (fst (program_span p)) (Some (fst (program_span p), "", snd (program_span p))).
Proof.
  intros Hok. set (nothing := fun c : ascii => false). assert (Hnone : forall r, follows nothing r -> r = "") by (by intros [|c r] [_ Hr]).
  assert (Hf : Forall (fun a => tight (Ref Rule_item) a after_statement /\ starts after_statement a) (map item_span (items p))).
  { apply Forall_map. apply Forall_forall. intros i Hi. apply item_tight. unfold program_ok in Hok. rewrite forallb_forall in Hok.
    by apply Hok, list_elem_of_In. }
  set (eoi := ("", [mkPair Rule_EOI "" []]) : span).
  assert (Ht : tight (Ref Rule_program) (program_span p) nothing).
  { apply tight_node; [done|]. apply (seq_tight _ _ _ _ any).
    - intros r _. exists 1%nat. reflexivity.
    - apply (seq_tight _ _ _ eoi nothing).
      + eapply tight_many; [exact Hf|done|]. intros r ->%Hnone. exists 90%nat. reflexivity.
      + intros r ->%Hnone. exists 1%nat. reflexivity.
      + intros r ->%Hnone. done.
    - destruct Hf as [|a l [_ Ha] _]; [intros r ->%Hnone; done|]. apply starts_leads, starts_seq, starts_many. by eapply starts_weaken. }
  assert (Hg : gap (program_span p) = "") 
    by (change (gap (empty +++ many (map item_span (items p)) +++ eoi) = ""); by rewrite !gap_seq).
  specialize (Ht "" ltac:(done)). by rewrite Hg, string_app_nil in Ht.
Qed.

(** C36: every program has concrete syntax that parses back to exactly it, if its names are
    identifiers, its strings hold no quote, its integers fit in 64 bits, its types are not the
    empty one (but for results of functions), no variable, called function or structure
    literal has a name that starts with [sync], and no structure in a type a name that starts
    with another type ([program_ok]; the last two because keywords and types need no boundary,
    see [ParserTests.keyword_prefixes] and [type_name_prefixes]). On the text printed for it,
    with the expressions of statements in parentheses, the parser that pest derives from the grammar, with its ordered choices, greedy
    repetitions, lookaheads and white space as in [Peg], gives the printed tree, which the
    walkers read back as the program: precedence, associativity, optional parts and empty lists
    included. *)
Theorem program_roundtrip `{Profile} `{ExactPest} p : program_ok p = true -> parse_program (fst (program_span p)) = mret p.
Proof.
  intros Hok. apply program_read; [done|]. apply pest_exact. exists (fst (program_span p)), "". by apply program_matches.
Qed.

Lemma program_roundtrip_witness : program_ok parse_program_expected = true /\
  @parse_program dev_profile peg_pest (fst (program_span parse_program_expected)) = mret parse_program_expected.
Proof.
  split; [vm_compute; reflexivity|].
  exact (@program_roundtrip dev_profile peg_pest peg_pest_exact parse_program_expected ltac:(vm_compute; reflexivity)).
Defined.
