(* ===== verification/System.v ===== *)
(** * The whole system

    Composes the nodes of [Cluster], the runtime of every node and the gateways into one
    labelled transition system: from a request at a gateway, over the nodes, etcd and the
    runtimes, back to the socket that waits for the answer. All channels keep what was
    ever put into them, and their readers how far they have read; the network may delay,
    reorder, repeat and lose messages. *)
From S2P Require Import Prelude Types Values Protocol Epoch Decision App AppOffsets AppEpochs AppSteps.
From S2P Require Import Network Coordinator Cluster ClusterInv Gateway Waits Fiber Runtime.
Local Open Scope Z_scope.

(** ** A gateway

    gateway/src/core.rs runs two tasks: the p2p layer and the one that owns the registry of
    sockets. Requests come from the HTTP handlers. *)
Section gateway.
Context `{Profile} `{PeerIds} `{!Json N2GWGossipMessage} {WebSocket : Type}.

Record GwNode := mkGwNode {
  gw_core : Gateway;
  gw_accepted : list (NewRequest WebSocket);   (* the channel of new requests *)
  gw_handled : nat;                            (* how many of them were taken from it *)
  gw_registry : gmap UniqueU64BlobId WebSocket;
  gw_effects : list (GwEffect WebSocket);      (* what the task did; [GwToP2p] is the channel to the p2p layer *)
  gw_forwarded : nat;                          (* how many messages the p2p layer took *)
  gw_peers : gset PeerId;
  gw_wire : list GwAction;                     (* what the p2p layer sent *)
  gw_updates : list GwInbox;                   (* the channel back *)
  gw_read : nat
}.

(** [Gateway::new] and [start_in_background]. *)
Definition gw_started (core : Gateway) : GwNode := mkGwNode core [] 0 ∅ [] 0 ∅ [] [] 0.

Definition to_gw_p2p (eff : GwEffect WebSocket) : option GwOutbox :=
  match eff with GwToP2p msg => Some msg | _ => None end.

Inductive GwInput : Type :=
| GwIn_Request (blueprint : TxBlueprint) (socket : option WebSocket)   (* an HTTP handler *)
| GwIn_Handle                        (* the task takes a new request *)
| GwIn_Forward                       (* the p2p layer takes a message *)
| GwIn_Swarm (event : GatewayEvent)  (* the p2p layer sees an event *)
| GwIn_Update.                       (* the task takes a message of the p2p layer *)

(** One turn; [None] when there is nothing to take or the handler panics. *)
Definition gw_turn (self : GwNode) (input : GwInput) : option GwNode :=
  let '(mkGwNode core accepted handled registry effects forwarded peers wire updates read) := self in
  match input with
  | GwIn_Request blueprint socket =>
      match send_request core blueprint socket with
      | Ok (core, request) =>
          Some (mkGwNode core (accepted ++ [request]) handled registry effects forwarded peers wire updates read)
      | _ => None
      end
  | GwIn_Handle =>
      request ← accepted !! handled;
      let '(registry, new) := handle_send_new_request request registry in
      Some (mkGwNode core accepted (S handled) registry (effects ++ new) forwarded peers wire updates read)
  | GwIn_Forward =>
      msg ← omap to_gw_p2p effects !! forwarded;
      Some (mkGwNode core accepted handled registry effects (S forwarded) peers (wire ++ broadcast peers msg) updates read)
  | GwIn_Swarm event =>
      let '(peers, inbox, actions) := gw_handle_swarm_event event peers in
      Some (mkGwNode core accepted handled registry effects forwarded peers (wire ++ actions) (updates ++ inbox) read)
  | GwIn_Update =>
      inbox ← updates !! read;
      let '(registry, new) := handle_inbox inbox registry in
      Some (mkGwNode core accepted handled registry (effects ++ new) forwarded peers wire updates (S read))
  end.
End gateway.
Arguments GwNode {_} WebSocket.
Arguments GwInput {_ _} WebSocket.

(** ** The system *)
Section system.
Context `{Profile} `{PeerIds} `{HashOrder} `{Sha256} `{BinaryHeap} `{Slab} {WebSocket : Type}.
Context `{!Json (@Epoch _)} `{!Etcd (json_bytes (A := @Epoch _))}.
Context `{!Json GossipMessage} `{!Json N2GWGossipMessage}.
(** The nodes' parameters, and the fuel of one turn of a fiber. *)
Context (ps : Params) (fuel : nat).

(** The runtime task of a node: how far it has read what the application sent it, and how
    far the application has read its answers. *)
Record RtNode := mkRtNode { rt_pc : Pc; rt_runtime : Runtime; rt_taken : nat; rt_read : nat }.

Record System := mkSystem {
  s_world : World;
  s_runtimes : gmap PeerId RtNode;
  s_gateways : gmap KeyRange (GwNode WebSocket)   (* every gateway has a range of its own *)
}.

Definition system_initial (s : System) : Prop :=
  initial ps (s_world s) /\
  (forall p rt, s_runtimes s !! p = Some rt ->
     exists r, start "root" runtime_new = Ok r /\ rt = mkRtNode Pc_Scheduled r 0 0) /\
  (forall g gw, s_gateways s !! g = Some gw ->
     0 <= g < RangeKey.MAX_BLOCK_INDEX /\ exists core, gateway_new g = Ok core /\ gw = gw_started core).

Inductive SysEvent : Type :=
| Sys_App (p : PeerId) (ev : Event)                  (* the application, but for the two below *)
| Sys_Results (p : PeerId) (n : nat)                 (* it takes up to [n] answers of the runtime *)
| Sys_Watch (p : PeerId) (rev : option Z)            (* it takes an update of the coordinator *)
| Sys_Commit (p : PeerId) (net : Delivery)           (* the coordinator handles its request *)
| Sys_Deliver (p : PeerId)                           (* the runtime's channel receives an input *)
| Sys_Runtime (p : PeerId) (clock : nat -> LogicalTimeAbsoluteMs)
| Sys_Gateway (g : KeyRange) (input : GwInput WebSocket).

(** What a gateway sent to node [p] arrives there: [handle_request_response]. *)
Definition submitted_by (gw : GwNode WebSocket) (p : PeerId) (msg : Inbox) : Prop :=
  exists gateway_id request, GwSend p request ∈ gw_wire gw /\
    msg ∈ (handle_request_response (RR_Message gateway_id (RR_Request request))).1.

(** What a node published reaches the gateways: [handle_receiver_outbox]. *)
Definition published (w : World) (data : json_bytes (A := N2GWGossipMessage)) : Prop :=
  exists p msg gateway_ids, (p, msg) ∈ w_net w /\
    PublishGateways data ∈ handle_receiver_outbox msg p gateway_ids.

(** The events the environment may bring about. *)
Definition possible (s : System) (ev : SysEvent) : Prop :=
  match ev with
  | Sys_App p (InboxMessage (Inbox_Nodes _)) => True
  | Sys_App p (InboxMessage msg) =>
      (exists src m, (src, m) ∈ w_net (s_world s) /\ relayed src m p msg) \/
      (exists g gw, s_gateways s !! g = Some gw /\ submitted_by gw p msg)
  | Sys_App p (RuntimeResults _) | Sys_App p (CoordinatorUpdate _) => False
  | Sys_Gateway g (GwIn_Swarm (Gw_Gossip data)) => published (s_world s) data
  | _ => True
  end.

Definition with_world (s : System) (w : World) : System := mkSystem w (s_runtimes s) (s_gateways s).
Definition with_runtime (s : System) (p : PeerId) (rt : RtNode) : System :=
  mkSystem (s_world s) (<[p := rt]> (s_runtimes s)) (s_gateways s).

Definition system_act (s : System) (ev : SysEvent) : option System :=
  match ev with
  | Sys_App p ev => with_world s <$> act_app (s_world s) p ev
  | Sys_Results p n =>
      rt ← s_runtimes s !! p;
      let results := take n (drop (rt_read rt) (Runtime.sent (rt_runtime rt))) in
      w ← act_app (s_world s) p (RuntimeResults results);
      Some (with_runtime (with_world s w) p
              (mkRtNode (rt_pc rt) (rt_runtime rt) (rt_taken rt) (rt_read rt + length results)))
  | Sys_Watch p rev => with_world s <$> act_watch (s_world s) p rev
  | Sys_Commit p net => with_world s <$> act_commit (s_world s) p net
  | Sys_Deliver p =>
      n ← w_nodes (s_world s) !! p;
      rt ← s_runtimes s !! p;
      input ← n_inputs n !! rt_taken rt;
      Some (with_runtime s p (mkRtNode (rt_pc rt) (deliver input (rt_runtime rt)) (S (rt_taken rt)) (rt_read rt)))
  | Sys_Runtime p clock =>
      rt ← s_runtimes s !! p;
      match rt_step fuel clock (rt_pc rt) (rt_runtime rt) with
      | Ok (pc, r) => Some (with_runtime s p (mkRtNode pc r (rt_taken rt) (rt_read rt)))
      | _ => None
      end
  | Sys_Gateway g input =>
      gw ← s_gateways s !! g;
      gw ← gw_turn gw input;
      Some (mkSystem (s_world s) (s_runtimes s) (<[g := gw]> (s_gateways s)))
  end.

Inductive system_reachable : System -> Prop :=
| sys_initial s : system_initial s -> system_reachable s
| sys_step s ev s' : system_reachable s -> possible s ev -> system_act s ev = Some s' -> system_reachable s'.

(** The requests accepted so far. *)
Definition accepted_request (s : System) (r : NewRequest WebSocket) : Prop :=
  exists g gw, s_gateways s !! g = Some gw /\ r ∈ gw_accepted gw.
End system.
Arguments System {_ _} WebSocket {_ _}.
Arguments SysEvent {_} WebSocket {_}.
