(* ===== verification/SystemInv.v ===== *)
(** * Invariants of the whole system

    What holds of the system of [System] in every reachable state: a gateway's identifiers
    are those of its range, nothing reaches the nodes but what a gateway accepted, so the
    nodes run as in [Cluster]; every runtime is at a stage of the deployed program on what
    its node has executed; and every update under way to a socket is the right answer. *)
From S2P Require Import Prelude Types Values Protocol Epoch Decision App AppOffsets AppEpochs AppSteps.
From S2P Require Import Network Coordinator Cluster ClusterInv Gateway Waits Fiber Runtime Deployed DeployedSpec System.
Local Open Scope Z_scope.

(** ** Requests and identifiers *)
Section requests.
Context `{Profile} `{PeerIds} `{!Json N2GWGossipMessage} {WebSocket : Type}.

Definition created (r : NewRequest WebSocket) : Transaction :=
  mkTransaction (mkMeta (NewRequest_id r) TxStatus_Created) (NewRequest_blueprint r).

(** The identifiers of gateway [g] are those of its range, in order. *)
Record core_ok (g : KeyRange) (gw : GwNode WebSocket) : Prop := {
  co_range : 0 <= g < RangeKey.MAX_BLOCK_INDEX;
  co_core : gw_core gw = mkGateway (RangeKey.slot_id g (Z.of_nat (length (gw_accepted gw))))
                                   (RangeKey.slot_id g (RangeKey.SINGLE_BLOB_SIZE - 1));
  co_length : Z.of_nat (length (gw_accepted gw)) <= RangeKey.SINGLE_BLOB_SIZE - 1;
  co_ids : forall i r, gw_accepted gw !! i = Some r -> NewRequest_id r = RangeKey.slot_id g (Z.of_nat i)
}.

(** Everything that leaves the gateway or waits in it is an accepted request. *)
Record requests_ok (gw : GwNode WebSocket) : Prop := {
  ro_registry : forall id sock, gw_registry gw !! id = Some sock ->
    exists r, r ∈ take (gw_handled gw) (gw_accepted gw) /\ NewRequest_id r = id /\ NewRequest_response_socket r = Some sock;
  ro_effects : forall tx, GwToP2p (GwOutbox_NewTransaction tx) ∈ gw_effects gw ->
    exists r, r ∈ gw_accepted gw /\ tx = created r;
  ro_wire : forall p request, GwSend p request ∈ gw_wire gw ->
    exists r, r ∈ gw_accepted gw /\ request = GM_NewTransaction (created r)
}.

Definition gw_le (gw gw' : GwNode WebSocket) : Prop := gw_accepted gw `prefix_of` gw_accepted gw'.

Ltac turn Hturn :=
  unfold gw_turn in Hturn;
  match type of Hturn with
  | context [match ?gw with mkGwNode _ _ _ _ _ _ _ _ _ _ => _ end] =>
      let c := fresh "c" in destruct gw as [c accepted handled registry effects forwarded peers wire updates read]
  end.

Lemma gw_turn_grows gw input gw' : gw_turn gw input = Some gw' -> gw_le gw gw'.
Proof.
  intros Hturn. turn Hturn. unfold gw_le. destruct input as [bp sock| | |ev|].
  - destruct (send_request _ _ _) as [[core' r]| |]; inversion Hturn; subst. by apply prefix_app_r.
  - apply bind_Some in Hturn as (r & _ & Hturn). destruct (handle_send_new_request _ _). by inversion Hturn.
  - apply bind_Some in Hturn as (m & _ & Hturn). by inversion Hturn.
  - destruct (gw_handle_swarm_event _ _) as [[? ?] ?]. by inversion Hturn.
  - apply bind_Some in Hturn as (m & _ & Hturn). destruct (handle_inbox _ _). by inversion Hturn.
Qed.

Lemma core_turn g gw input gw' : core_ok g gw -> gw_turn gw input = Some gw' -> core_ok g gw'.
Proof.
  intros [Hg Hc Hl Hi] Hturn. turn Hturn. destruct input as [bp sock| | |ev|]; cbn in *.
  - unfold send_request in Hturn. rewrite Hc in Hturn. cbn [interval_left interval_right] in Hturn.
    destruct (Z.geb_spec (RangeKey.slot_id g (Z.of_nat (length accepted))) (RangeKey.slot_id g (RangeKey.SINGLE_BLOB_SIZE - 1)));
      [done|].
    assert (Hlt : Z.of_nat (length accepted) < RangeKey.SINGLE_BLOB_SIZE - 1) by (unfold RangeKey.slot_id in *; lia).
    rewrite u64_add_ok in Hturn by RangeKey.blob_lia. cbn in Hturn. inversion Hturn; subst. clear Hturn.
    constructor; cbn; [done| | |].
    + rewrite length_app. cbn. f_equal. unfold RangeKey.slot_id. lia.
    + rewrite length_app. cbn. lia.
    + intros i r Hr. apply lookup_app_Some in Hr as [Hr|[Hle Hr]]; [by apply Hi|].
      apply list_lookup_singleton_Some in Hr as [Hz <-]. cbn. f_equal. lia.
  - apply bind_Some in Hturn as (r & _ & Hturn). destruct (handle_send_new_request _ _). by inversion Hturn.
  - apply bind_Some in Hturn as (m & _ & Hturn). by inversion Hturn.
  - destruct (gw_handle_swarm_event _ _) as [[? ?] ?]. by inversion Hturn.
  - apply bind_Some in Hturn as (m & _ & Hturn). destruct (handle_inbox _ _). by inversion Hturn.
Qed.

(** Updates only take entries out of the registry and send nothing to the nodes. *)
Lemma updates_registry us : forall (reg : gmap UniqueU64BlobId WebSocket) effs reg' effs',
  foldl handle_update (reg, effs) us = (reg', effs') ->
  (forall id sock, reg' !! id = Some sock -> reg !! id = Some sock) /\
  (forall msg, GwToP2p msg ∈ effs' -> GwToP2p msg ∈ effs).
Proof.
  induction us as [|u us IH]; intros reg effs reg' effs' Hrun; [by injection Hrun as <- <-|].
  cbn [foldl] in Hrun. unfold handle_update in Hrun at 2. destruct (reg !! Meta_id (TxUpdate_meta u)) as [sock|] eqn:E.
  - destruct (IH _ _ _ _ Hrun) as [Hr He]. split.
    + intros id sock' Hid%Hr. destruct (decide _); [by apply lookup_delete_Some in Hid as [_ ?]|done].
    + intros msg Hm%He. set_solver.
  - destruct (IH _ _ _ _ Hrun) as [Hr He]. split; [done|]. intros msg Hm%He. set_solver.
Qed.

Lemma requests_turn gw input gw' : requests_ok gw -> gw_turn gw input = Some gw' -> requests_ok gw'.
Proof.
  intros [Hr He Hw] Hturn. turn Hturn. destruct input as [bp sock| | |ev|]; cbn in *.
  - destruct (send_request _ _ _) as [[core' r]| |]; inversion Hturn; subst; clear Hturn. constructor; cbn.
    + intros id sk (q & Hq & ?)%Hr. exists q. split; [|done]. rewrite take_app. apply elem_of_app. by left.
    + intros tx (q & ? & ->)%He. exists q. split; [apply elem_of_app; by left|done].
    + intros p rq (q & ? & ->)%Hw. exists q. split; [apply elem_of_app; by left|done].
  - apply bind_Some in Hturn as ([id bp sock] & Hq & Hturn). cbn in Hturn. inversion Hturn; subst; clear Hturn. constructor; cbn; [| |done].
    + intros id' sk Hid. rewrite (take_S_r _ _ _ Hq). destruct sock as [sk'|].
      * apply lookup_insert_Some in Hid as [[<- <-]|[_ Hid]]; [|apply Hr in Hid as (q & Hq' & ?); exists q; set_solver].
        eexists. split; [apply elem_of_app; right; left|done].
      * apply Hr in Hid as (q & Hq' & ?). exists q. set_solver.
    + intros tx Htx. apply elem_of_app in Htx as [Htx|Htx]; [by apply He|].
      assert (tx = mkTransaction (mkMeta id TxStatus_Created) bp) as -> by set_solver.
      eexists. split; [by eapply list_elem_of_lookup_2|done].
  - apply bind_Some in Hturn as ([tx] & Hm & Hturn). inversion Hturn; subst; clear Hturn. constructor; cbn; [done..|].
    intros p rq Hrq. apply elem_of_app in Hrq as [Hrq|Hrq]; [by apply (Hw p)|].
    unfold broadcast in Hrq. apply list_elem_of_fmap in Hrq as (q & [= <- ->] & _).
    apply list_elem_of_lookup_2, list_elem_of_omap in Hm as (eff & Heff & Hto). destruct eff; try done. injection Hto as ->.
    apply He in Heff as (r & ? & ->). by exists r.
  - destruct (gw_handle_swarm_event ev peers) as [[peers' inbox] actions] eqn:Eev. inversion Hturn; subst; clear Hturn.
    constructor; cbn; [done..|]. intros p rq Hrq. apply elem_of_app in Hrq as [Hrq|Hrq]; [by apply (Hw p)|]. exfalso.
    destruct ev as [|[? [|]|]| |data| | | |]; cbn in Eev; try (injection Eev as <- <- <-; set_solver).
    destruct (from_slice data) as [m|]; [|injection Eev as <- <- <-; set_solver].
    destruct (N2GWGossipMessage_payload m). injection Eev as <- <- <-; set_solver.
  - apply bind_Some in Hturn as ([us] & Hm & Hturn). cbn [handle_inbox] in Hturn.
    destruct (foldl handle_update (registry, []) us) as [reg' new] eqn:Ef. inversion Hturn; subst; clear Hturn.
    destruct (updates_registry _ _ _ _ _ Ef) as [Hsub Hnone]. constructor; cbn; [| |done].
    + intros id sk Hid%Hsub. by apply Hr.
    + intros tx Htx. apply elem_of_app in Htx as [Htx|Htx]; [by apply He|]. apply Hnone in Htx. set_solver.
Qed.

(** ** Answers *)
Definition texted (effs : list (GwEffect WebSocket)) : list UniqueU64BlobId :=
  omap (fun e => match e with GwSocketText _ u => Some (Meta_id (TxUpdate_meta u)) | _ => None end) effs.

(** A request handled by the background task, with the socket that waits for it. *)
Definition waits (gw : GwNode WebSocket) (id : UniqueU64BlobId) (sock : WebSocket) : Prop :=
  exists r, r ∈ take (gw_handled gw) (gw_accepted gw) /\ NewRequest_id r = id /\ NewRequest_response_socket r = Some sock.

Section answers.
Context (right : TxUpdate -> Prop).
Hypothesis right_final : forall u, right u -> Meta_status (TxUpdate_meta u) = TxStatus_Finished.

(** Every text on a socket is a right update of its request, and no request gets two. *)
Record texts_ok (R : UniqueU64BlobId -> WebSocket -> Prop) (reg : gmap UniqueU64BlobId WebSocket)
    (effs : list (GwEffect WebSocket)) : Prop := {
  to_registry : forall id sock, reg !! id = Some sock -> R id sock;
  to_texts : forall sock u, GwSocketText sock u ∈ effs -> right u /\ R (Meta_id (TxUpdate_meta u)) sock;
  to_once : NoDup (texted effs);
  to_gone : forall id, id ∈ texted effs -> reg !! id = None
}.

Definition answers_ok (gw : GwNode WebSocket) : Prop :=
  texts_ok (waits gw) (gw_registry gw) (gw_effects gw) /\
  forall us u, GwInbox_TxUpdates us ∈ gw_updates gw -> u ∈ us -> right u.

Lemma texted_app l1 l2 : texted (l1 ++ l2) = texted l1 ++ texted l2.
Proof. apply omap_app. Qed.

(** Effects that are not texts change nothing. *)
Lemma texts_quiet R reg effs new : texts_ok R reg effs -> texted new = [] -> texts_ok R reg (effs ++ new).
Proof.
  intros [Hr Ht Ho Hg] Hnew. constructor; [done| | |]; rewrite ?texted_app, ?Hnew, ?app_nil_r; [|done..].
  intros sock u Hu. apply elem_of_app in Hu as [Hu|Hu]; [by apply Ht|]. exfalso.
  assert (Meta_id (TxUpdate_meta u) ∈ texted new) by (apply list_elem_of_omap; by eexists). rewrite Hnew in *. set_solver.
Qed.

Lemma update_texts R reg effs u reg' effs' : right u -> texts_ok R reg effs ->
  handle_update (reg, effs) u = (reg', effs') -> texts_ok R reg' effs'.
Proof.
  intros Hu Hok Hrun. unfold handle_update in Hrun. destruct (reg !! Meta_id (TxUpdate_meta u)) as [sock|] eqn:E.
  - rewrite decide_True in Hrun by by apply right_final. injection Hrun as <- <-. destruct Hok as [Hr Ht Ho Hg].
    assert (Hfresh : Meta_id (TxUpdate_meta u) ∉ texted effs) by (intros Hin%Hg; congruence). constructor.
    + intros id sk Hid. apply lookup_delete_Some in Hid as [_ ?]. by apply Hr.
    + intros sk u' Hin. apply elem_of_app in Hin as [Hin|Hin]; [by apply Ht|].
      assert (sk = sock /\ u' = u) as [-> ->] by set_solver. split; [done|by apply Hr].
    + rewrite texted_app. apply NoDup_app. split; [done|]. split; [|apply NoDup_singleton].
      intros id Hin Hid. cbn in Hid. apply list_elem_of_singleton in Hid as ->. done.
    + intros id Hin. rewrite texted_app in Hin. apply elem_of_app in Hin as [Hin|Hin].
      * destruct (decide (id = Meta_id (TxUpdate_meta u))) as [->|]; [done|]. rewrite lookup_delete_ne by done. by apply Hg.
      * cbn in Hin. apply list_elem_of_singleton in Hin as ->. apply lookup_delete_eq.
  - injection Hrun as <- <-. by apply texts_quiet.
Qed.

Lemma updates_texts R us : forall reg effs reg' effs', (forall u, u ∈ us -> right u) -> texts_ok R reg effs ->
  foldl handle_update (reg, effs) us = (reg', effs') -> texts_ok R reg' effs'.
Proof.
  induction us as [|u us IH]; intros reg effs reg' effs' Hus Hok Hrun; [by injection Hrun as <- <-|].
  cbn [foldl] in Hrun. destruct (handle_update (reg, effs) u) as [reg1 effs1] eqn:E.
  eapply IH; [|eapply update_texts; [| |exact E]; [apply Hus; left|done]|exact Hrun]. intros v Hv. apply Hus. by right.
Qed.

Lemma updates_after us : forall (reg : gmap UniqueU64BlobId WebSocket) pre effs,
  foldl handle_update (reg, pre ++ effs) us =
  let '(reg', effs') := foldl handle_update (reg, effs) us in (reg', pre ++ effs').
Proof.
  induction us as [|u us IH]; intros reg pre effs; [done|]. cbn [foldl].
  assert (E : handle_update (reg, pre ++ effs) u = let '(r, e) := handle_update (reg, effs) u in (r, pre ++ e)).
  { unfold handle_update. destruct (reg !! _); by rewrite <-app_assoc. }
  rewrite E. destruct (handle_update (reg, effs) u) as [r e]. apply IH.
Qed.

(** The updates a swarm event brings are right when what the nodes published is. *)
Definition event_right (ev : GatewayEvent) : Prop :=
  forall data m, ev = Gw_Gossip data -> from_slice data = Some m ->
    match N2GWGossipMessage_payload m with Node2GWTxUpdate us => forall u, u ∈ us -> right u end.

Definition input_right (input : GwInput WebSocket) : Prop :=
  match input with GwIn_Swarm ev => event_right ev | _ => True end.

Lemma swarm_right ev peers peers' inbox actions us u : event_right ev ->
  gw_handle_swarm_event ev peers = (peers', inbox, actions) -> GwInbox_TxUpdates us ∈ inbox -> u ∈ us -> right u.
Proof.
  intros Hev Hrun Hus Hu. destruct ev as [|[? [|]|]| |data| | | |]; cbn in Hrun; try (injection Hrun as <- <- <-; set_solver).
  destruct (from_slice data) as [m|] eqn:E; [|injection Hrun as <- <- <-; set_solver].
  specialize (Hev data m eq_refl E). destruct (N2GWGossipMessage_payload m) as [us']. injection Hrun as <- <- <-.
  apply Hev. assert (us = us') as -> by set_solver. done.
Qed.

Lemma answers_turn g gw input gw' : core_ok g gw -> answers_ok gw -> input_right input ->
  gw_turn gw input = Some gw' -> answers_ok gw'.
Proof.
  intros Hcore [Htexts Hupd] Hin Hturn. pose proof (co_ids _ _ Hcore) as Hids. pose proof (co_length _ _ Hcore) as Hlen.
  turn Hturn. unfold answers_ok in *. destruct input as [bp sock| | |ev|]; cbn in *.
  - destruct (send_request _ _ _) as [[core' r]| |]; inversion Hturn; subst; clear Hturn. cbn. split; [|done].
    destruct Htexts as [Hr Ht Ho Hg]. constructor; [| |done|done].
    + intros id sk (q & Hq & ?)%Hr. exists q. split; [|done]. cbn in *. rewrite take_app. apply elem_of_app. by left.
    + intros sk u Hu. apply Ht in Hu as [? (q & Hq & ?)]. split; [done|]. exists q. split; [|done]. cbn in *.
      rewrite take_app. apply elem_of_app. by left.
  - apply bind_Some in Hturn as ([id bp sock] & Hq & Hturn). cbn in Hturn. inversion Hturn; subst; clear Hturn.
    cbn. split; [|done]. apply texts_quiet; [|done]. destruct Htexts as [Hr Ht Ho Hg].
    assert (Hmono : forall id' sk, waits (mkGwNode c accepted handled registry effects forwarded peers wire updates read) id' sk ->
      waits (mkGwNode c accepted (S handled) (match sock with Some s => <[id:=s]> registry | None => registry end)
        (effects ++ [GwToP2p (GwOutbox_NewTransaction (mkTransaction (mkMeta id TxStatus_Created) bp));
                     GwMonitor (Monitor_NewRequest id (TxBlueprint_queue_name bp) (TxBlueprint_param bp))]) forwarded peers wire updates read) id' sk).
    { intros id' sk (q & Hq' & ?). exists q. cbn in *. rewrite (take_S_r _ _ _ Hq). set_solver. }
    constructor; [|intros sk u Hu; apply Ht in Hu as [? ?]; by auto|done|].
    + intros id' sk Hid. destruct sock as [s|]; [|by apply Hmono, Hr]. apply lookup_insert_Some in Hid as [[<- <-]|[_ Hid]]; [|by apply Hmono, Hr].
      eexists. cbn. rewrite (take_S_r _ _ _ Hq). split; [apply elem_of_app; right; left|done].
    + intros id' Hid. pose proof (Hg id' Hid) as Hnone. destruct sock as [s|]; [|done]. rewrite lookup_insert_ne; [done|].
      intros ->. apply list_elem_of_omap in Hid as (eff & Heff & Eeff). destruct eff as [| |sk u]; try done. injection Eeff as Eu.
      apply Ht in Heff as [_ (q & Hq' & Eq & _)]. cbn in *. apply list_elem_of_lookup in Hq' as [i Hi].
      apply lookup_take_Some in Hi as [Hi Hlt]. pose proof (Hids _ _ Hi) as H1. pose proof (Hids _ _ Hq) as H2. cbn in H2.
      apply lookup_lt_Some in Hq. rewrite Eu in Eq. rewrite Eq, H2 in H1. apply RangeKey.slot_id_inj in H1 as [_ ?]; lia.
  - apply bind_Some in Hturn as (m & _ & Hturn). inversion Hturn; subst. done.
  - destruct (gw_handle_swarm_event ev peers) as [[peers' inbox] actions] eqn:Eev. inversion Hturn; subst; clear Hturn. cbn.
    split; [done|]. intros us u Hus Hu. apply elem_of_app in Hus as [Hus|Hus]; [by eapply Hupd|]. by eapply swarm_right.
  - apply bind_Some in Hturn as ([us] & Hm & Hturn). cbn [handle_inbox] in Hturn.
    destruct (foldl handle_update (registry, []) us) as [reg' new] eqn:Ef. inversion Hturn; subst; clear Hturn. cbn.
    split; [|done]. eapply (updates_texts _ us registry effects); [|exact Htexts|].
    + intros u Hu. eapply Hupd; [|exact Hu]. by eapply list_elem_of_lookup_2.
    + pose proof (updates_after us registry effects []) as Ha. rewrite app_nil_r in Ha. by rewrite Ha, Ef.
Qed.
End answers.
End requests.

(** ** The logs of the nodes as requests *)
Section logs.
Context `{Profile} `{PeerIds} `{HashOrder} `{Sha256} `{!Json (@Epoch _)} `{!Etcd (json_bytes (A := @Epoch _))}.
Context (submitted : UniqueU64BlobId -> TxBlueprint).

(** The request under an identifier, if it is one for the deployed program. *)
Definition request_at (id : UniqueU64BlobId) : option Req := request_of (submitted_task submitted id).

Lemma request_at_id id r : request_at id = Some r -> Req_id r = id.
Proof. unfold request_at, request_of. case_decide; [|done]. destruct (TaskBlueprint_value _); try done. by intros [= <-]. Qed.

Lemma requests_in_log h : requests_in (inputs_of submitted h) = omap request_at (log_of h).
Proof.
  induction h as [|e h IH]; [done|]. unfold inputs_of, log_of in *. cbn [map concat]. rewrite requests_in_app, omap_app, IH. f_equal.
  unfold epoch_inputs, epoch_ids. fold (epoch_ids e). case_decide as Hids; [by rewrite Hids|].
  unfold requests_in. cbn. rewrite app_nil_r. clear Hids. induction (epoch_ids e) as [|id ids IHi]; [done|]. cbn.
  change (request_of (submitted_task submitted id)) with (request_at id). destruct (request_at id); cbn; by rewrite IHi.
Qed.

Lemma inputs_of_ok h : (forall id, blueprint_ok (submitted_task submitted id)) -> inputs_ok (inputs_of submitted h).
Proof.
  intros Hok. apply Forall_forall. intros i Hi. apply Forall_forall. intros bp Hbp. unfold inputs_of in Hi.
  apply elem_of_concat_map in Hi as (e & _ & Hi). unfold epoch_inputs in Hi. case_decide; [set_solver|].
  apply list_elem_of_singleton in Hi as ->. cbn in Hbp. apply list_elem_of_fmap in Hbp as (id & -> & _). apply Hok.
Qed.

Lemma length_omap {A B} (f : A -> option B) l : (length (omap f l) <= length l)%nat.
Proof. induction l as [|x l IH]; [done|]. cbn. destruct (f x); cbn; lia. Qed.

(** Fewer requests than identifiers. *)
Lemma log_bound h : chained h -> Z.of_nat (length (log_of h)) < u64_modulus.
Proof.
  intros Hc. destruct (chained_log h Hc) as (Hcm & Hnd & Hlog).
  assert (Hsub : log_of h ⊆ seqZ 0 (u64_modulus - 1)).
  { intros id (r & k & Hk & ->)%Hlog. apply elem_of_seqZ. unfold next_offset in Hk.
    destruct (committed_by h !! r) as [o|] eqn:E; [|lia]. apply Hcm in E. unfold u64_modulus. RangeKey.blob_lia. }
  pose proof (NoDup_submseteq _ _ Hnd Hsub) as Hs. apply submseteq_length in Hs. rewrite length_seqZ in Hs.
  unfold u64_modulus in *. lia.
Qed.

Lemma requests_bound h : chained h -> Z.of_nat (length (requests_in (inputs_of submitted h))) < u64_modulus.
Proof. intros Hc%log_bound. rewrite requests_in_log. pose proof (length_omap request_at (log_of h)). lia. Qed.
End logs.

(** ** What the application tells the gateways *)
Section notifications.
Context `{Profile} `{PeerIds} `{HashOrder} `{Sha256}.

Lemma results_notified rs : forall txs us txs' us', keys_ok txs ->
  for_each rs finish_transaction (txs, us) = Ok (txs', us') ->
  us' = us ++ map (fun r => mkTxUpdate (mkMeta (fst r) TxStatus_Finished) (Some (snd r))) rs.
Proof.
  induction rs as [|[id v] rs IH]; intros txs us txs' us' Hk Hrun; cbn [for_each] in Hrun.
  { injection Hrun as <- <-. by rewrite app_nil_r. }
  apply bind_ok in Hrun as ([txs1 us1] & Hone & Hrun). unfold finish_transaction in Hone. cbn [fst snd] in Hone.
  apply bind_ok in Hone as (tx & Htx%expect_ok & Hone). apply bind_ok in Hone as (r & _ & Hone). injection Hone as <- <-.
  destruct (Hk _ _ Htx) as [Hl Hid]. rewrite (IH _ _ _ _) with (2 := Hrun).
  - rewrite <-app_assoc. cbn. unfold set_status. cbn. by rewrite Hid.
  - intros id' tx' [[<- <-]|[_ ?]]%lookup_insert_Some; [|by apply Hk]. by split.
Qed.

Lemma app_notifies a ev a' effs us : keys_ok (transactions a) -> app_step a ev = Ok (a', effs) ->
  ToP2p (Outbox_NotifyGWs us) ∈ effs ->
  exists rs, ev = RuntimeResults rs /\
    us = map (fun r => mkTxUpdate (mkMeta (fst r) TxStatus_Finished) (Some (snd r))) rs.
Proof.
  intros Hk Hrun Hm. destruct ev as [|dn now|req|msg|[e]|rs]; cbn [app_step] in Hrun.
  - unfold advertise_offsets_and_request_missing, recalculate_consensus_offsets in Hrun. inv_ok.
    destruct (decide _); inv_ok; [set_solver|]. apply elem_of_cons in Hm as [Hm|Hm]; [done|].
    by apply list_elem_of_In, in_map_iff in Hm as ([p ivs] & ? & _).
  - unfold commit_epoch_if_needed in Hrun. inv_ok. destruct (negb _) in Ha; inv_ok; set_solver.
  - inv_ok. destruct req. set_solver.
  - destruct msg; cbn [handle_inbox_message] in Hrun; inv_ok; try set_solver.
    + destruct a0 as [[? ?] ?]. inv_ok. set_solver.
    + destruct a1 as [[? ?] ?]. inv_ok. set_solver.
  - unfold handle_epoch_coordinator_updates in Hrun. inv_ok. destruct a2. inv_ok. destruct (decide _); set_solver.
  - unfold handle_runtime_results in Hrun. destruct (decide _); inv_ok; [set_solver|].
    destruct a0 as [txs us']. inv_ok. apply list_elem_of_singleton in Hm. injection Hm as <-. exists rs. split; [done|].
    by apply (results_notified rs) in Ha.
Qed.
End notifications.

(** ** The invariant of the system *)
Section system.
Context `{Profile} `{PeerIds} `{HashOrder} `{Sha256} `{BinaryHeap} `{Slab} {WebSocket : Type}.
Context `{!Json (@Epoch _)} `{!Etcd (json_bytes (A := @Epoch _))}.
Context `{!Json GossipMessage} `{!Json N2GWGossipMessage}.
Context (ps : Params) (fuel : nat) (submitted : UniqueU64BlobId -> TxBlueprint).
Hypothesis enough_fuel : (10 <= fuel)%nat.
Hypothesis well_formed : forall id, blueprint_ok (submitted_task submitted id).

(** What the gateways accepted is what is submitted under its identifier. *)
Definition agrees (s : System WebSocket) : Prop :=
  forall r, accepted_request s r -> submitted (NewRequest_id r) = NewRequest_blueprint r.

(** The final update with the right answer. *)
Definition right_update (u : TxUpdate) : Prop :=
  exists r, request_at submitted (Meta_id (TxUpdate_meta u)) = Some r /\
    u = mkTxUpdate (mkMeta (Req_id r) TxStatus_Finished) (Some (Value_U64 (Req_a r * Req_b r))).

Definition right_net (w : World) : Prop :=
  forall p us u, (p, Outbox_NotifyGWs us) ∈ w_net w -> u ∈ us -> right_update u.

Definition inputs_at (w : World) (p : PeerId) : list Input :=
  match w_nodes w !! p with Some n => n_inputs n | None => [] end.

(** The runtime of a node is at a stage of the program, having read so many inputs. *)
Definition runtime_ok (w : World) (p : PeerId) (rt : RtNode) : Prop :=
  (rt_taken rt <= length (inputs_at w p))%nat /\
  exists accepted answered rank,
    deployed_at (take (rt_taken rt) (inputs_at w p)) (rt_pc rt) (rt_runtime rt) accepted answered rank.

Record system_inv (s : System WebSocket) : Prop := {
  si_world : reachable ps submitted (s_world s);
  si_net : right_net (s_world s);
  si_runtimes : forall p rt, s_runtimes s !! p = Some rt -> runtime_ok (s_world s) p rt;
  si_gateways : forall g gw, s_gateways s !! g = Some gw -> core_ok g gw /\ requests_ok gw /\ answers_ok right_update gw
}.

(** The part of it that does not depend on the requests' values: the nodes run as in
    [Cluster], and the gateways send what they accepted. *)
Record hosts_inv (s : System WebSocket) : Prop := {
  hi_world : reachable ps submitted (s_world s);
  hi_gateways : forall g gw, s_gateways s !! g = Some gw -> core_ok g gw /\ requests_ok gw
}.

Lemma system_hosts s : system_inv s -> hosts_inv s.
Proof. intros [Hw _ _ Hg]. split; [done|]. intros g gw Hgw. by destruct (Hg g gw Hgw) as (? & ? & _). Qed.

(** *** Steps of the nodes *)

(** A node's inputs only grow, and what is said stays said. *)
Definition world_grows (w w' : World) : Prop :=
  (forall p, inputs_at w p `prefix_of` inputs_at w' p) /\
  exists p effs, w_net w' = w_net w ++ Cluster.sent p effs.

Lemma moved_grows (w : World) p n n' net db : w_nodes w !! p = Some n -> n_inputs n `prefix_of` n_inputs n' ->
  (exists q effs, net = w_net w ++ Cluster.sent q effs) -> world_grows w (mkWorld (<[p := n']> (w_nodes w)) net db).
Proof.
  intros Hn Hp Hnet. split; [|done]. intros q. unfold inputs_at. cbn [w_nodes]. destruct (decide (p = q)) as [<-|Hne].
  - by rewrite Hn, lookup_insert_eq.
  - by rewrite lookup_insert_ne.
Qed.

Lemma act_app_inv (w : World) p ev w' : act_app w p ev = Some w' ->
  exists n a effs, w_nodes w !! p = Some n /\ app_step (n_app n) ev = Ok (a, effs) /\
    w_net w' = w_net w ++ Cluster.sent p effs /\ world_grows w w'.
Proof.
  intros Ha. unfold act_app in Ha. apply bind_Some in Ha as (n & Hn & Ha).
  destruct (app_step (n_app n) ev) as [[a effs]| |] eqn:E; try done. injection Ha as <-. exists n, a, effs. split_and!; try done.
  apply (moved_grows _ _ n); [done|cbn; by apply prefix_app_r|by exists p, effs].
Qed.

Lemma act_commit_grows (w : World) p net w' : act_commit w p net = Some w' -> world_grows w w' /\ w_net w' = w_net w.
Proof.
  intros Ha. unfold act_commit in Ha. apply bind_Some in Ha as (n & Hn & Ha). destruct (n_request n); [|done].
  destruct (request_changed _ _ _ _) as [[c db]| |]; try done. injection Ha as <-. split; [|done].
  apply (moved_grows _ _ n); [done..|]. exists p, []. by rewrite app_nil_r.
Qed.

Lemma updates_silent upds a a' effs m : loop_until_shutdown a (map CoordinatorUpdate upds) = Ok (a', effs) ->
  ToP2p m ∉ effs.
Proof.
  clear enough_fuel well_formed submitted.
  intros Hrun. unfold loop_until_shutdown in Hrun.
  apply (for_each_inv_ok (fun _ st => ToP2p m ∉ snd st) _ _ _ _ Hrun); [set_solver|].
  intros done ev [a1 e1] [a2 e2] Hev Hone Hin. apply list_elem_of_fmap in Hev as ([e] & -> & _). cbn -[app_step] in Hone.
  apply bind_ok in Hone as ([a3 new] & Hstep & Hone). injection Hone as <- <-. cbn in *.
  unfold handle_epoch_coordinator_updates in Hstep. inv_ok. destruct a4. inv_ok. destruct (decide _); set_solver.
Qed.

Lemma act_watch_inv (w : World) p rev w' : act_watch w p rev = Some w' ->
  world_grows w w' /\ exists effs, w_net w' = w_net w ++ Cluster.sent p effs /\ forall m, ToP2p m ∉ effs.
Proof.
  clear enough_fuel well_formed submitted.
  intros Ha. unfold act_watch in Ha. apply bind_Some in Ha as (n & Hn & Ha). apply bind_Some in Ha as (bytes & Hb & Ha).
  destruct (watch_received _ _) as [c upds]. destruct (loop_until_shutdown _ _) as [[a effs]| |] eqn:E; try done. injection Ha as <-. split.
  - apply (moved_grows _ _ n); [done|cbn; by apply prefix_app_r|by exists p, effs].
  - exists effs. split; [done|]. intros m. by eapply updates_silent.
Qed.

Lemma runtime_ok_grows (w w' : World) p rt : world_grows w w' -> runtime_ok w p rt -> runtime_ok w' p rt.
Proof.
  intros [Hg _] (Hle & acc & ans & k & Hat). destruct (Hg p) as [more E]. split; [rewrite E, length_app; lia|].
  exists acc, ans, k. rewrite E, take_app_le by done. done.
Qed.

Lemma sent_in (p q : PeerId) effs (m : Outbox) : (q, m) ∈ Cluster.sent p effs -> q = p /\ ToP2p m ∈ effs.
Proof.
  intros Hin. unfold Cluster.sent in Hin. apply list_elem_of_fmap in Hin as (m' & [= -> ->] & Hin).
  apply list_elem_of_omap in Hin as (eff & Heff & Hto). split; [done|]. destruct eff; try done. by injection Hto as ->.
Qed.

Lemma right_net_app (w w' : World) p n a ev effs : node_inv ps submitted w p n -> app_step (n_app n) ev = Ok (a, effs) ->
  w_net w' = w_net w ++ Cluster.sent p effs -> right_net w ->
  (forall rs id v, ev = RuntimeResults rs -> (id, v) ∈ rs -> right_update (mkTxUpdate (mkMeta id TxStatus_Finished) (Some v))) ->
  right_net w'.
Proof.
  intros Hni Hrun Hnet Hw Hres q us u Hin Hu. rewrite Hnet in Hin. apply elem_of_app in Hin as [Hin|Hin]; [by eapply Hw|].
  apply sent_in in Hin as [-> Hin]. destruct (app_notifies _ _ _ _ _ (inv_keys _ (ni_app _ _ _ _ _ Hni)) Hrun Hin) as (rs & -> & ->).
  apply list_elem_of_fmap in Hu as ([id v] & -> & Hr). by eapply Hres.
Qed.

(** *** Runtimes *)
Section world.
Context (w : World) (Hworld : reachable ps submitted w) (Hsmall : small w).

Lemma inputs_at_log p : exists k, inputs_at w p = inputs_of submitted (take k (history (w_db w))) /\
  chained (take k (history (w_db w))).
Proof.
  pose proof (reachable_inv ps submitted w Hworld Hsmall) as Hw. unfold inputs_at.
  destruct (w_nodes w !! p) as [n|] eqn:E.
  - exists (n_seen n). split; [apply (ni_inputs _ _ _ _ _ (wi_nodes _ _ _ Hw p n E))|].
    by eapply chained_take, hist_chained.
  - exists 0%nat. split; [done|]. by eapply chained_take, hist_chained.
Qed.

Lemma inputs_taken_ok p k : inputs_ok (take k (inputs_at w p)) /\
  Z.of_nat (length (requests_in (take k (inputs_at w p)))) < u64_modulus.
Proof.
  destruct (inputs_at_log p) as (j & E & Hc). pose proof (inputs_of_ok submitted (take j (history (w_db w))) well_formed) as Hok.
  pose proof (requests_bound submitted _ Hc) as Hb. rewrite <-E in *. rewrite <-(take_drop k (inputs_at w p)) in Hok, Hb.
  split; [by apply inputs_ok_app in Hok as [? _]|]. rewrite requests_in_app, length_app in Hb. lia.
Qed.

Lemma runtime_moves p rt clock : runtime_ok w p rt ->
  exists pc r, rt_step fuel clock (rt_pc rt) (rt_runtime rt) = Ok (pc, r) /\
    runtime_ok w p (mkRtNode pc r (rt_taken rt) (rt_read rt)).
Proof.
  intros (Hle & acc & ans & k & Hat). destruct (inputs_taken_ok p (rt_taken rt)) as [Hok Hlen].
  destruct (deployed_run fuel [Rt_Step clock] _ _ _ _ _ _ Hat enough_fuel) as (pc & r & acc' & ans' & k' & Hrun & Hat').
  { cbn. by rewrite app_nil_r. }
  { cbn. by rewrite app_nil_r. }
  cbn [delivered_inputs omap list_omap] in Hat'. rewrite app_nil_r in Hat'. rewrite for_each_singleton in Hrun. cbn in Hrun.
  exists pc, r. split; [done|]. split; [done|]. by exists acc', ans', k'.
Qed.

Lemma runtime_takes p rt input : runtime_ok w p rt -> inputs_at w p !! rt_taken rt = Some input ->
  runtime_ok w p (mkRtNode (rt_pc rt) (deliver input (rt_runtime rt)) (S (rt_taken rt)) (rt_read rt)).
Proof.
  intros (Hle & acc & ans & k & Hat) Hin. split; [cbn; by apply lookup_lt_Some in Hin|]. exists acc, ans, k. cbn.
  rewrite (take_S_r _ _ _ Hin). by apply deployed_deliver.
Qed.

(** The answers of a runtime are those to the first requests of the log. *)
Lemma runtime_answers p rt : runtime_ok w p rt ->
  exists n, Runtime.sent (rt_runtime rt) = map answer (take n (omap (request_at submitted) (log_of (history (w_db w))))).
Proof.
  intros (Hle & acc & ans & k & Hat). destruct (inputs_at_log p) as (j & E & _).
  destruct Hat as (Hst & Hreq & _). destruct (stage_sent _ _ _ _ _ Hst) as (Hans & Hsent & _).
  assert (Hacc : acc `prefix_of` omap (request_at submitted) (log_of (history (w_db w)))).
  { rewrite <-requests_in_log. transitivity (requests_in (inputs_at w p)).
    - rewrite <-(take_drop (rt_taken rt) (inputs_at w p)), requests_in_app, <-Hreq, <-app_assoc. by eexists.
    - rewrite E. unfold inputs_of. rewrite <-(take_drop j (history (w_db w))) at 2. rewrite map_app, concat_app, requests_in_app.
      by eexists. }
  destruct Hacc as [rest Hrest]. exists ans. rewrite Hsent, Hrest, take_app_le by done. done.
Qed.

Lemma runtime_right p rt id v : runtime_ok w p rt -> (id, v) ∈ Runtime.sent (rt_runtime rt) ->
  right_update (mkTxUpdate (mkMeta id TxStatus_Finished) (Some v)).
Proof.
  intros Hrt Hin. destruct (runtime_answers p rt Hrt) as [n Hn]. rewrite Hn in Hin.
  apply list_elem_of_fmap in Hin as (r & [= -> ->] & Hr). apply elem_of_take in Hr as (i & Hi & _).
  apply list_elem_of_lookup_2, list_elem_of_omap in Hi as (id' & _ & Hat). pose proof (request_at_id _ _ _ Hat) as Hid.
  exists r. cbn. by rewrite Hid.
Qed.
End world.

(** *** Steps of the system *)
Lemma initial_system_inv (s : System WebSocket) : system_initial ps s -> system_inv s.
Proof.
  intros (Hw & Hrt & Hgw). pose proof Hw as (Hn & Hnet & Hdb). constructor.
  - by apply reachable_initial.
  - intros p us u Hin. rewrite Hnet in Hin. by apply not_elem_of_nil in Hin.
  - intros p rt (r & Hs & ->)%Hrt. split; [cbn; lia|]. destruct deployed_start as (r' & Hs' & Hat). rewrite Hs' in Hs.
    injection Hs as <-. exists [], 0%nat, 13%nat. exact Hat.
  - intros g gw (Hg & core & Hc & ->)%Hgw. rewrite gateway_new_ok in Hc by done. injection Hc as <-. split_and!.
    + by constructor.
    + constructor; cbn; [intros id sock; by rewrite lookup_empty|set_solver|set_solver].
    + split; [|set_solver]. constructor; cbn; [intros id sock; by rewrite lookup_empty|set_solver|constructor|set_solver].
Qed.

Lemma accepted_legal g (gw : GwNode WebSocket) r : core_ok g gw -> r ∈ gw_accepted gw -> legal_id (NewRequest_id r).
Proof.
  clear enough_fuel well_formed.
  intros Hc (i & Hi)%list_elem_of_lookup. rewrite (co_ids _ _ Hc _ _ Hi). apply lookup_lt_Some in Hi.
  pose proof (co_length _ _ Hc). pose proof (co_range _ _ Hc). split; [RangeKey.blob_lia|].
  rewrite RangeKey.slot_id_mod by lia. lia.
Qed.

(** What the system gives to an application is admissible in the cluster. *)
Lemma possible_admissible (s : System WebSocket) p ev : hosts_inv s -> agrees s -> possible s (Sys_App p ev) ->
  admissible submitted (s_world s) p ev.
Proof.
  clear enough_fuel well_formed.
  intros Hs Hag Hp. destruct ev as [| |req|msg| |]; try (by constructor); [|done]. cbn [possible] in Hp.
  assert (Hsub : forall g gw, s_gateways s !! g = Some gw -> submitted_by gw p msg -> admissible submitted (s_world s) p (InboxMessage msg)).
  { intros g gw Hg (gid & request & Hw & Hin). destruct (hi_gateways _ Hs g gw Hg) as [Hcore Hreq].
    destruct (ro_wire _ Hreq _ _ Hw) as (r & Hr & ->). cbn in Hin. apply list_elem_of_singleton in Hin as ->.
    apply adm_gateway; [by eapply accepted_legal|]. symmetry. apply Hag. by exists g, gw. }
  destruct msg; try (by constructor); destruct Hp as [(src & m & Hin & Hrel)|(g & gw & Hg & Hby)];
    first [by eapply adm_relay|by eapply Hsub].
Qed.

Lemma published_right w data m us u : right_net w -> published w data -> from_slice data = Some m ->
  N2GWGossipMessage_payload m = Node2GWTxUpdate us -> u ∈ us -> right_update u.
Proof.
  intros Hw (p & msg & gws & Hin & Hpub) Hdec Hm Hu. destruct msg as [st|q ivs|q txs|us']; cbn in Hpub.
  - destruct (to_vec _); set_solver.
  - set_solver.
  - set_solver.
  - case_decide; [set_solver|]. destruct (to_vec _) as [bytes|] eqn:E; [|set_solver].
    apply list_elem_of_singleton in Hpub as [= ->]. rewrite (from_to_vec _ _ E) in Hdec. injection Hdec as <-. cbn in Hm.
    injection Hm as ->. by eapply Hw.
Qed.

Lemma initial_hosts (s : System WebSocket) : system_initial ps s -> hosts_inv s.
Proof.
  clear enough_fuel well_formed.
  intros (Hw & _ & Hgw). split; [by apply reachable_initial|].
  intros g gw (Hg & core & Hc & ->)%Hgw. rewrite gateway_new_ok in Hc by done. injection Hc as <-. split; [by constructor|].
  constructor; cbn; [intros id sock; by rewrite lookup_empty|set_solver|set_solver].
Qed.

Lemma hosts_world (s s' : System WebSocket) : hosts_inv s -> reachable ps submitted (s_world s') -> s_gateways s' = s_gateways s -> hosts_inv s'.
Proof. intros [_ Hg] Hw E. split; [done|by rewrite E]. Qed.

Lemma system_act_hosts (s : System WebSocket) ev s' : hosts_inv s -> agrees s -> possible s ev ->
  system_act fuel s ev = Some s' -> hosts_inv s'.
Proof.
  clear enough_fuel well_formed.
  intros Hs Hag Hpos Hact. destruct ev as [p ev|p k|p rev|p net|p|p clock|g input]; cbn [system_act] in Hact.
  - apply fmap_Some in Hact as (w' & Ha & ->). apply (hosts_world s); [done| |done].
    eapply act_app_reachable; [apply Hs|by apply possible_admissible|exact Ha].
  - apply bind_Some in Hact as (rt & Hrt & Hact). apply bind_Some in Hact as (w' & Ha & Hact). injection Hact as <-.
    apply (hosts_world s); [done| |done]. eapply act_app_reachable; [apply Hs|constructor|exact Ha].
  - apply fmap_Some in Hact as (w' & Ha & ->). apply (hosts_world s); [done| |done]. by eapply act_watch_reachable; [apply Hs|].
  - apply fmap_Some in Hact as (w' & Ha & ->). apply (hosts_world s); [done| |done]. by eapply act_commit_reachable; [apply Hs|].
  - apply bind_Some in Hact as (n & _ & Hact). apply bind_Some in Hact as (rt & _ & Hact). apply bind_Some in Hact as (i & _ & Hact).
    injection Hact as <-. by apply (hosts_world s); [|apply Hs|].
  - apply bind_Some in Hact as (rt & _ & Hact). destruct (rt_step _ _ _ _) as [[pc r]| |]; try done. injection Hact as <-.
    by apply (hosts_world s); [|apply Hs|].
  - apply bind_Some in Hact as (gw & Hgw & Hact). apply bind_Some in Hact as (gw' & Hturn & Hact). injection Hact as <-.
    destruct (hi_gateways _ Hs g gw Hgw) as [Hcore Hreq]. split; [apply Hs|]. cbn.
    intros g' gw2 [[<- <-]|[_ ?]]%lookup_insert_Some; [|by apply Hs]. split; [by eapply core_turn|by eapply requests_turn].
Qed.

(** The gateways and runtimes do not care how the nodes moved on. *)
Lemma system_moves (s : System WebSocket) w' : system_inv s -> reachable ps submitted w' -> world_grows (s_world s) w' -> right_net w' ->
  system_inv (with_world s w').
Proof.
  intros Hs Hr Hg Hn. constructor; cbn; [done|done| |apply Hs]. intros p rt Hrt. by eapply runtime_ok_grows, Hs.
Qed.

Lemma system_runtime (s : System WebSocket) p rt' : system_inv s -> runtime_ok (s_world s) p rt' -> system_inv (with_runtime s p rt').
Proof.
  intros Hs Hrt. constructor; cbn; [apply Hs..| |apply Hs]. intros q rt [[<- <-]|[_ ?]]%lookup_insert_Some; [done|by apply Hs].
Qed.

Lemma system_act_inv (s : System WebSocket) ev s' : system_inv s -> agrees s -> small (s_world s) -> possible s ev ->
  system_act fuel s ev = Some s' -> system_inv s'.
Proof.
  intros Hs Hag Hsm Hpos Hact. pose proof (reachable_inv ps submitted _ (si_world _ Hs) Hsm) as Hw.
  destruct ev as [p ev|p k|p rev|p net|p|p clock|g input]; cbn [system_act] in Hact.
  - apply fmap_Some in Hact as (w' & Ha & ->). destruct (act_app_inv _ _ _ _ Ha) as (n & a & effs & Hn & Hstep & Hnet & Hg).
    apply system_moves; [done| |done|].
    + eapply act_app_reachable; [apply Hs|by apply possible_admissible; [apply system_hosts|..]|exact Ha].
    + eapply right_net_app; [by eapply wi_nodes|exact Hstep|exact Hnet|apply Hs|]. intros rs id v -> _. done.
  - apply bind_Some in Hact as (rt & Hrt & Hact). apply bind_Some in Hact as (w' & Ha & Hact). injection Hact as <-.
    destruct (act_app_inv _ _ _ _ Ha) as (n & a & effs & Hn & Hstep & Hnet & Hg). apply system_runtime.
    + apply system_moves; [done|eapply act_app_reachable; [apply Hs|constructor|exact Ha]|done|].
      eapply right_net_app; [by eapply wi_nodes|exact Hstep|exact Hnet|apply Hs|]. intros rs id v [= <-] Hin.
      eapply runtime_right; [apply Hs|exact Hsm|by apply Hs|]. by apply elem_of_take in Hin as (i & Hi & _); eapply list_elem_of_lookup_2; rewrite lookup_drop in Hi.
    + eapply runtime_ok_grows; [exact Hg|]. destruct (si_runtimes _ Hs p rt Hrt) as (Hle & Hex). by split.
  - apply fmap_Some in Hact as (w' & Ha & ->). destruct (act_watch_inv _ _ _ _ Ha) as (Hg & effs & Hnet & Hsil).
    apply system_moves; [done|by eapply act_watch_reachable; [apply Hs|]|done|]. intros q us u Hin. rewrite Hnet in Hin.
    apply elem_of_app in Hin as [Hin|Hin]; [by apply (si_net _ Hs q us u)|]. by apply sent_in in Hin as [_ ?%Hsil].
  - apply fmap_Some in Hact as (w' & Ha & ->). destruct (act_commit_grows _ _ _ _ Ha) as (Hg & Hnet).
    apply system_moves; [done|by eapply act_commit_reachable; [apply Hs|]|done|]. unfold right_net. rewrite Hnet. apply Hs.
  - apply bind_Some in Hact as (n & Hn & Hact). apply bind_Some in Hact as (rt & Hrt & Hact).
    apply bind_Some in Hact as (input & Hin & Hact). injection Hact as <-. apply system_runtime; [done|].
    apply runtime_takes; [by apply Hs|]. unfold inputs_at. by rewrite Hn.
  - apply bind_Some in Hact as (rt & Hrt & Hact).
    destruct (runtime_moves _ (si_world _ Hs) Hsm p rt clock (si_runtimes _ Hs p rt Hrt)) as (pc & r & E & Hok).
    rewrite E in Hact. injection Hact as <-. by apply system_runtime.
  - apply bind_Some in Hact as (gw & Hgw & Hact). apply bind_Some in Hact as (gw' & Hturn & Hact). injection Hact as <-.
    destruct (si_gateways _ Hs g gw Hgw) as (Hcore & Hreq & Hans). constructor; cbn; [apply Hs..|].
    intros g' gw2 [[<- <-]|[_ ?]]%lookup_insert_Some; [|by apply Hs]. split_and!; [by eapply core_turn|by eapply requests_turn|].
    eapply answers_turn; [|exact Hcore|exact Hans| |exact Hturn]; [by intros u (r & _ & ->)|].
    destruct input as [| | |event|]; try done. intros data m -> Hdec. cbn in Hpos.
    destruct (N2GWGossipMessage_payload m) eqn:Em. intros u Hu. by eapply published_right; [apply Hs|..].
Qed.

(** Only a gateway's own turns change it. *)
Lemma system_act_gateways (s : System WebSocket) ev s' : system_act fuel s ev = Some s' ->
  s_gateways s' = s_gateways s \/
  exists g input gw gw', s_gateways s !! g = Some gw /\ gw_turn gw input = Some gw' /\
    s_gateways s' = <[g := gw']> (s_gateways s) /\ s_world s' = s_world s.
Proof.
  intros Hact. destruct ev as [p ev|p k|p rev|p net|p|p clock|g input]; cbn [system_act] in Hact.
  - left. by apply fmap_Some in Hact as (w' & _ & ->).
  - left. apply bind_Some in Hact as (rt & _ & Hact). apply bind_Some in Hact as (w' & _ & Hact). by injection Hact as <-.
  - left. by apply fmap_Some in Hact as (w' & _ & ->).
  - left. by apply fmap_Some in Hact as (w' & _ & ->).
  - left. apply bind_Some in Hact as (n & _ & Hact). apply bind_Some in Hact as (rt & _ & Hact).
    apply bind_Some in Hact as (i & _ & Hact). by injection Hact as <-.
  - left. apply bind_Some in Hact as (rt & _ & Hact). destruct (rt_step _ _ _ _) as [[pc r]| |]; try done. by injection Hact as <-.
  - right. apply bind_Some in Hact as (gw & Hgw & Hact). apply bind_Some in Hact as (gw' & Hturn & Hact). injection Hact as <-.
    by exists g, input, gw, gw'.
Qed.

Lemma system_act_accepts (s : System WebSocket) ev s' r : system_act fuel s ev = Some s' ->
  accepted_request s r -> accepted_request s' r.
Proof.
  intros Hact (g0 & gw0 & Hg0 & Hr). destruct (system_act_gateways _ _ _ Hact) as [E|(g & input & gw & gw' & Hgw & Hturn & E & _)].
  { exists g0, gw0. by rewrite E. }
  destruct (decide (g0 = g)) as [->|Hne].
  - exists g, gw'. rewrite E, lookup_insert_eq. split; [done|]. rewrite Hgw in Hg0. injection Hg0 as <-.
    destruct (gw_turn_grows _ _ _ Hturn) as [more ->]. apply elem_of_app. by left.
  - exists g0, gw0. by rewrite E, lookup_insert_ne.
Qed.

(** Epochs only become more. *)
Lemma system_act_small (s : System WebSocket) ev s' : system_act fuel s ev = Some s' ->
  small (s_world s') -> small (s_world s).
Proof.
  intros Hact. assert (Happ : forall p e w', act_app (s_world s) p e = Some w' -> small w' -> small (s_world s)).
  { intros p e w' Ha. unfold act_app in Ha. apply bind_Some in Ha as (n & _ & Ha). destruct (app_step _ _) as [[a effs]| |]; try done.
    by injection Ha as <-. }
  destruct ev as [p ev|p k|p rev|p net|p|p clock|g input]; cbn [system_act] in Hact.
  - apply fmap_Some in Hact as (w' & Ha & ->). by eapply Happ.
  - apply bind_Some in Hact as (rt & Hrt & Hact). apply bind_Some in Hact as (w' & Ha & Hact). injection Hact as <-. by eapply Happ.
  - apply fmap_Some in Hact as (w' & Ha & ->). unfold act_watch in Ha. apply bind_Some in Ha as (n & _ & Ha).
    apply bind_Some in Ha as (bytes & _ & Ha). destruct (watch_received _ _). destruct (loop_until_shutdown _ _) as [[a effs]| |]; try done.
    by injection Ha as <-.
  - apply fmap_Some in Hact as (w' & Ha & ->). cbn. unfold act_commit in Ha.
    apply bind_Some in Ha as (n & Hn & Ha). destruct (n_request n) as [req|] eqn:Er; [|done].
    destruct (request_changed _ _ _ _) as [[c db]| |] eqn:Ec; try done. injection Ha as <-.
    eapply (step_small submitted). by eapply step_commit.
  - apply bind_Some in Hact as (n & Hn & Hact). apply bind_Some in Hact as (rt & Hrt & Hact).
    apply bind_Some in Hact as (input & Hin & Hact). by injection Hact as <-.
  - apply bind_Some in Hact as (rt & Hrt & Hact). destruct (rt_step _ _ _ _) as [[pc r]| |]; try done. by injection Hact as <-.
  - apply bind_Some in Hact as (gw & Hgw & Hact). apply bind_Some in Hact as (gw' & Hturn & Hact). by injection Hact as <-.
Qed.

Lemma reachable_hosts (s : System WebSocket) : system_reachable ps fuel s -> agrees s -> hosts_inv s.
Proof.
  clear enough_fuel well_formed.
  induction 1 as [s Hi|s ev s' _ IH Hpos Hact]; intros Hag; [by apply initial_hosts|].
  assert (Hag' : agrees s) by (intros r Hr; by eapply Hag, system_act_accepts). eapply system_act_hosts; eauto.
Qed.

Lemma reachable_system_inv (s : System WebSocket) : system_reachable ps fuel s -> agrees s -> small (s_world s) -> system_inv s.
Proof.
  induction 1 as [s Hi|s ev s' _ IH Hpos Hact]; intros Hag Hsm; [by apply initial_system_inv|].
  assert (Hag' : agrees s) by (intros r Hr; by eapply Hag, system_act_accepts).
  pose proof (system_act_small _ _ _ Hact Hsm). eapply system_act_inv; eauto.
Qed.
End system.

(** ** What was submitted, read off the gateways *)
Section submitted.
Context `{Profile} `{PeerIds} `{HashOrder} `{Sha256} `{BinaryHeap} `{Slab} {WebSocket : Type}.
Context `{!Json (@Epoch _)} `{!Etcd (json_bytes (A := @Epoch _))}.
Context `{!Json GossipMessage} `{!Json N2GWGossipMessage}.
Context (ps : Params) (fuel : nat).

Definition no_request : TxBlueprint := mkTxBlueprint "" (Value_U64 0).

Definition submitted_in (s : System WebSocket) (id : UniqueU64BlobId) : TxBlueprint :=
  match s_gateways s !! range_of id with
  | Some gw => match gw_accepted gw !! Z.to_nat (id mod RangeKey.SINGLE_BLOB_SIZE) with
               | Some r => NewRequest_blueprint r
               | None => no_request
               end
  | None => no_request
  end.

(** A request that names the program's queue is a pair of numbers whose product fits. *)
Definition request_fits (bp : TxBlueprint) : Prop :=
  TxBlueprint_queue_name bp = summator_queue -> exists a b, bp = multiply_blueprint a b /\ u64_ok (a * b).

Lemma cores_ok (s : System WebSocket) : system_reachable ps fuel s -> forall g gw, s_gateways s !! g = Some gw -> core_ok g gw.
Proof.
  induction 1 as [s (_ & _ & Hgw)|s ev s' _ IH _ Hact]; intros g gw Hg.
  - apply Hgw in Hg as (Hr & core & Hc & ->). rewrite gateway_new_ok in Hc by done. injection Hc as <-. by constructor.
  - destruct (system_act_gateways _ _ _ _ Hact) as [E|(g0 & input & gw0 & gw1 & Hgw0 & Hturn & E & _)]; rewrite E in Hg; [by apply IH|].
    apply lookup_insert_Some in Hg as [[<- <-]|[_ Hg]]; [|by apply IH]. eapply core_turn; [by apply IH|exact Hturn].
Qed.

Lemma submitted_agrees (s : System WebSocket) : system_reachable ps fuel s -> agrees (submitted_in s) s.
Proof.
  intros Hs r (g & gw & Hg & Hr). apply list_elem_of_lookup in Hr as [i Hi]. pose proof (cores_ok _ Hs _ _ Hg) as Hc.
  pose proof (co_ids _ _ Hc _ _ Hi) as Hid. pose proof (lookup_lt_Some _ _ _ Hi). pose proof (co_length _ _ Hc).
  unfold submitted_in, range_of. rewrite Hid, RangeKey.slot_id_div, Hg, RangeKey.slot_id_mod, Nat2Z.id, Hi by lia. done.
Qed.

Lemma submitted_fits (s : System WebSocket) : (forall r, accepted_request s r -> request_fits (NewRequest_blueprint r)) ->
  forall id, blueprint_ok (submitted_task (submitted_in s) id).
Proof.
  intros Hfit id Hq. unfold submitted_task, submitted_in in *. cbn in *.
  destruct (s_gateways s !! range_of id) as [gw|] eqn:Hg; [|done].
  destruct (gw_accepted gw !! Z.to_nat (id mod RangeKey.SINGLE_BLOB_SIZE)) as [r|] eqn:Hr; [|done].
  destruct (Hfit r) as (a & b & E & Hab); [|done|rewrite E; by exists a, b].
  exists (range_of id), gw. split; [done|by eapply list_elem_of_lookup_2].
Qed.

(** The identifier of an answer is that of a request for the program. *)
Lemma right_request (s : System WebSocket) r u : agrees (submitted_in s) s -> accepted_request s r ->
  NewRequest_id r = Meta_id (TxUpdate_meta u) -> right_update (submitted_in s) u ->
  exists a b, NewRequest_blueprint r = multiply_blueprint a b /\
    u = mkTxUpdate (mkMeta (NewRequest_id r) TxStatus_Finished) (Some (Value_U64 (a * b))).
Proof.
  intros Hag Hr Hid (q & Hat & ->). pose proof (request_at_id _ _ _ Hat) as Hq. cbn in *. rewrite <-Hid in Hat.
  unfold request_at, request_of, submitted_task in Hat. rewrite (Hag r Hr) in Hat. cbn in Hat.
  destruct (NewRequest_blueprint r) as [queue param]. cbn in Hat. case_decide as Hqueue; [|done].
  destruct param as [| | | | | | | | | | | | |[a b]| |]; try done. injection Hat as <-. cbn in *. subst queue.
  exists a, b. done.
Qed.
End submitted.
