(* ===== verification/SystemSpec.v ===== *)
(** * From the request to the answer

    What users of the system of [System] may rely on: the runtimes of all nodes compute the
    same answers, and what a socket receives is the one right answer to its request. A
    scheduler drives a system of two nodes and a gateway from a request to its answer. *)
From S2P Require Import Prelude Types Values Protocol Epoch Decision App AppOffsets AppEpochs AppSteps.
From S2P Require Import Network Coordinator Cluster ClusterInv Gateway Waits Fiber Runtime Deployed DeployedSpec System SystemInv.
Local Open Scope Z_scope.

Lemma map_take_prefix {A B} (f : A -> B) l i j : (i <= j)%nat -> map f (take i l) `prefix_of` map f (take j l).
Proof. intros Hij. exists (map f (drop i (take j l))). rewrite <-map_app. f_equal. by rewrite <-(take_drop i (take j l)), take_take, Nat.min_l at 1. Qed.

(** ** A run from a request to its answer *)

(** A schedule names messages by their place; every event it gives is possible. *)
Section schedule.
Context `{Profile} `{PeerIds} `{HashOrder} `{Sha256} `{BinaryHeap} `{Slab} {WebSocket : Type}.
Context `{!Json (@Epoch _)} `{!Etcd (json_bytes (A := @Epoch _))}.
Context `{!Json GossipMessage} `{!Json N2GWGossipMessage}.
Context (ps : Params) (fuel : nat).

Inductive Move : Type :=
| Move_Tick (p : PeerId)                           (* advertise *)
| Move_Propose (p : PeerId) (now : LogicalTimeAbsoluteMs)
| Move_Relay (p : PeerId) (i : nat)                (* the [i]-th message of the nodes arrives at [p] *)
| Move_Submit (p : PeerId) (g : KeyRange) (i : nat) (* what gateway [g] sent arrives at [p] *)
| Move_Publish (g : KeyRange) (i : nat)            (* the [i]-th message, a notification, arrives at [g] *)
| Move_Commit (p : PeerId)
| Move_Watch (p : PeerId) (rev : Z)
| Move_Results (p : PeerId) (n : nat)
| Move_Deliver (p : PeerId)
| Move_Runtime (p : PeerId) (now : LogicalTimeAbsoluteMs)
| Move_Connect (g : KeyRange) (p : PeerId)
| Move_Request (g : KeyRange) (blueprint : TxBlueprint) (socket : option WebSocket)
| Move_Handle (g : KeyRange)
| Move_Forward (g : KeyRange)
| Move_Update (g : KeyRange).

Definition move_event (s : System WebSocket) (m : Move) : option (SysEvent WebSocket) :=
  match m with
  | Move_Tick p => Some (Sys_App p AdvertiseTick)
  | Move_Propose p now => Some (Sys_App p (CommitTick now now))
  | Move_Relay p i =>
      '(src, m) ← w_net (s_world s) !! i;
      match m with
      | Outbox_State st => if decide (p = src) then None else Some (Sys_App p (InboxMessage (Inbox_State src st)))
      | Outbox_RequestMissingTxs q ivs =>
          if decide (p = q) then Some (Sys_App p (InboxMessage (Inbox_RequestMissingTxs src ivs))) else None
      | Outbox_RequestedTxsForPeer q txs =>
          if decide (p = q) then Some (Sys_App p (InboxMessage (Inbox_MissingTx txs))) else None
      | Outbox_NotifyGWs _ => None
      end
  | Move_Submit p g i =>
      gw ← s_gateways s !! g;
      action ← gw_wire gw !! i;
      match action with
      | GwSend q (GM_NewTransaction tx) =>
          if decide (p = q) then Some (Sys_App p (InboxMessage (Inbox_NewTransaction tx))) else None
      | _ => None
      end
  | Move_Publish g i =>
      '(src, m) ← w_net (s_world s) !! i;
      match handle_receiver_outbox m src {[ src ]} with
      | [PublishGateways data] => Some (Sys_Gateway g (GwIn_Swarm (Gw_Gossip data)))
      | _ => None
      end
  | Move_Commit p => Some (Sys_Commit p LostResponse)
  | Move_Watch p rev => Some (Sys_Watch p (Some rev))
  | Move_Results p n => Some (Sys_Results p n)
  | Move_Deliver p => Some (Sys_Deliver p)
  | Move_Runtime p now => Some (Sys_Runtime p (fun _ => now))
  | Move_Connect g p => Some (Sys_Gateway g (GwIn_Swarm (Gw_ConnectionEstablished p)))
  | Move_Request g bp sock => Some (Sys_Gateway g (GwIn_Request bp sock))
  | Move_Handle g => Some (Sys_Gateway g GwIn_Handle)
  | Move_Forward g => Some (Sys_Gateway g GwIn_Forward)
  | Move_Update g => Some (Sys_Gateway g GwIn_Update)
  end.

Lemma move_possible s m ev : move_event s m = Some ev -> possible s ev.
Proof.
  intros Hm. destruct m as [p|p now|p i|p g i|g i|p|p rev|p n|p|p now|g p|g bp sock|g|g|g]; cbn in Hm;
    try (injection Hm as <-; exact I).
  - apply bind_Some in Hm as ([src m] & Hi & Hm). apply list_elem_of_lookup_2 in Hi.
    destruct m as [st|q ivs|q txs|]; try done; case_decide; try done; injection Hm as <-; cbn; left;
      (eexists _, _; split; [exact Hi|by split]).
  - apply bind_Some in Hm as (gw & Hg & Hm). apply bind_Some in Hm as (action & Hi & Hm).
    destruct action as [q [tx]|]; [|done]. case_decide; [|done]. injection Hm as <-. subst. cbn. right. exists g, gw.
    split; [done|]. exists q, (GM_NewTransaction tx). split; [by eapply list_elem_of_lookup_2|left].
  - apply bind_Some in Hm as ([src m] & Hi & Hm). destruct (handle_receiver_outbox m src {[src]}) as [|[] [|]] eqn:E; try done.
    injection Hm as <-. cbn. exists src, m, {[src]}. rewrite E. split; [by eapply list_elem_of_lookup_2|left].
Qed.

Fixpoint run_moves (s : System WebSocket) (ms : list Move) : option (System WebSocket) :=
  match ms with
  | [] => Some s
  | m :: ms' => ev ← move_event s m; s' ← system_act fuel s ev; run_moves s' ms'
  end.

Lemma run_moves_reachable ms : forall s s', system_reachable ps fuel s -> run_moves s ms = Some s' -> system_reachable ps fuel s'.
Proof.
  induction ms as [|m ms IH]; intros s s' Hs Hrun; [by injection Hrun as <-|]. cbn [run_moves] in Hrun.
  apply bind_Some in Hrun as (ev & Hm & Hrun). apply bind_Some in Hrun as (s1 & Hact & Hrun).
  eapply IH; [|exact Hrun]. eapply sys_step; [exact Hs|by eapply move_possible|exact Hact].
Qed.
End schedule.

Module Demo.
#[local] Existing Instance dev_profile.
#[local] Existing Instance nat_peers.
#[local] Existing Instance list_order.
#[local] Existing Instance test_hash.
#[local] Existing Instance list_heap.
#[local] Existing Instance gmap_slab.
#[local] Existing Instance Coordinator.test_epoch_json.
#[local] Existing Instance ClusterInv.Demo.etcd.
#[local] Instance gossip_json : Json GossipMessage := plain_json _.
#[local] Instance n2gw_json : Json N2GWGossipMessage := plain_json _.

Definition fresh_runtime : RtNode := mkRtNode Pc_Scheduled (value_of runtime_new (start "root" runtime_new)) 0 0.

(** Two nodes and the gateway of range 0. *)
Definition beginning : System nat :=
  mkSystem ClusterInv.Demo.start {[0%nat := fresh_runtime; 1%nat := fresh_runtime]}
    {[0 := gw_started (value_of (mkGateway 0 0) (gateway_new 0))]}.

(** Socket 5 asks for 6 * 7: both nodes get the transaction, node 0 proposes the epoch, both
    nodes execute it, and both notify the gateway. *)
Definition moves : list Move :=
  [Move_Connect 0 0%nat; Move_Connect 0 1%nat; Move_Request 0 (multiply_blueprint 6 7) (Some 5%nat);
   Move_Handle 0; Move_Forward 0; Move_Submit 0%nat 0 1; Move_Submit 1%nat 0 0; Move_Tick 1%nat; Move_Relay 0%nat 0;
   Move_Tick 0%nat; Move_Propose 0%nat 61; Move_Commit 0%nat; Move_Watch 0%nat 1; Move_Watch 1%nat 1;
   Move_Deliver 0%nat; Move_Deliver 1%nat] ++
  replicate 40 (Move_Runtime 0%nat 61) ++ replicate 40 (Move_Runtime 1%nat 61) ++
  [Move_Results 0%nat 5; Move_Results 1%nat 5; Move_Publish 0 2; Move_Publish 0 3; Move_Update 0; Move_Update 0].

Definition finished : option (System nat) := run_moves 100 beginning moves.
Lemma beginning_initial : system_initial params_default beginning.
Proof.
  split; [exact ClusterInv.Demo.start_initial|]. split.
  - intros p rt Hp. assert (rt = fresh_runtime) as ->.
    { unfold beginning in Hp. cbn [s_runtimes] in Hp. apply lookup_insert_Some in Hp as [[_ <-]|[_ Hp]]; [done|].
      by apply lookup_singleton_Some in Hp as [_ <-]. }
    eexists. split; [|reflexivity]. by apply succeeds_value.
  - intros g gw Hg. unfold beginning in Hg. cbn [s_gateways] in Hg. apply lookup_singleton_Some in Hg as [<- <-]. split; [done|].
    eexists. split; [|reflexivity]. by apply succeeds_value.
Qed.

Lemma finished_reachable s : finished = Some s -> system_reachable params_default 100 s.
Proof. intros Hs. eapply run_moves_reachable; [|exact Hs]. apply sys_initial, beginning_initial. Qed.

(** What the run ends with: the requests of every gateway with the texts on its sockets, the
    number of epochs, and the answers of both runtimes. *)
Definition summary (s : System nat) :=
  (map (fun '(g, gw) => (g, map NewRequest_blueprint (gw_accepted gw), texted (gw_effects gw))) (map_to_list (s_gateways s)),
   length (history (w_db (s_world s))), (fun rt => Runtime.sent (rt_runtime rt)) <$> s_runtimes s !! 0%nat,
   (fun rt => Runtime.sent (rt_runtime rt)) <$> s_runtimes s !! 1%nat).

Lemma finished_summary : summary <$> finished =
  Some ([(0, [multiply_blueprint 6 7], [0])], 1%nat, Some [(0, Value_U64 42)], Some [(0, Value_U64 42)]).
Proof. vm_compute. reflexivity. Qed.

Lemma finished_facts : exists s gw rt rt', finished = Some s /\ small (s_world s) /\
  (forall r, accepted_request s r -> request_fits (NewRequest_blueprint r)) /\
  s_gateways s !! 0 = Some gw /\ s_runtimes s !! 0%nat = Some rt /\ s_runtimes s !! 1%nat = Some rt' /\
  texted (gw_effects gw) = [0] /\ Runtime.sent (rt_runtime rt) = [(0, Value_U64 42)].
Proof.
  pose proof finished_summary as Hs. destruct finished as [s|]; [|discriminate Hs]. injection Hs as Hg Hlen Hrt Hrt'.
  apply fmap_Some in Hrt as (rt & Hrt & Hsent), Hrt' as (rt' & Hrt' & _).
  assert (Hall : forall g gw, s_gateways s !! g = Some gw ->
    g = 0 /\ map NewRequest_blueprint (gw_accepted gw) = [multiply_blueprint 6 7] /\ texted (gw_effects gw) = [0]).
  { intros g gw Hgw%elem_of_map_to_list.
    assert (Hin : (g, map NewRequest_blueprint (gw_accepted gw), texted (gw_effects gw)) ∈ [(0, [multiply_blueprint 6 7], [0])])
      by (rewrite <-Hg; apply list_elem_of_fmap; by exists (g, gw)).
    apply list_elem_of_singleton in Hin. by injection Hin. }
  destruct (map_to_list (s_gateways s)) as [|[g gw] l] eqn:El; [done|].
  assert (Hgw : s_gateways s !! g = Some gw) by (apply elem_of_map_to_list; rewrite El; left).
  destruct (Hall g gw Hgw) as (-> & _ & Ht). exists s, gw, rt, rt'. split_and!; try done; [unfold small; by rewrite Hlen|].
  intros r (g' & gw' & Hg' & Hr) _. destruct (Hall g' gw' Hg') as (_ & Hbp & _). exists 6, 7.
  assert (Hin : NewRequest_blueprint r ∈ [multiply_blueprint 6 7]) by (rewrite <-Hbp; apply list_elem_of_fmap; by exists r).
  apply list_elem_of_singleton in Hin.
  split; [done|u64_solve].
Qed.
End Demo.

(** ** Properties *)

(** C2: end to end. Whatever the network does, in every reachable state of the whole system
    every text on a socket of a gateway is the final update of a request that this gateway
    accepted with that socket, with the product of the request's two numbers as its result,
    and no request gets more than one; as long as every accepted request for the program's
    queue is a pair of numbers whose product fits. *)
Theorem sockets_get_right_answers `{Profile} `{PeerIds} `{HashOrder} `{Sha256} `{BinaryHeap} `{Slab} {WebSocket : Type}
  `{!Json (@Epoch _)} `{!Etcd (json_bytes (A := @Epoch _))} `{!Json GossipMessage} `{!Json N2GWGossipMessage}
  ps fuel (s : System WebSocket) g gw :
  system_reachable ps fuel s -> (10 <= fuel)%nat -> small (s_world s) ->
  (forall r, accepted_request s r -> request_fits (NewRequest_blueprint r)) -> s_gateways s !! g = Some gw ->
  NoDup (texted (gw_effects gw)) /\
  forall sock u, GwSocketText sock u ∈ gw_effects gw -> exists r a b,
    r ∈ gw_accepted gw /\ NewRequest_response_socket r = Some sock /\ NewRequest_blueprint r = multiply_blueprint a b /\
    u = mkTxUpdate (mkMeta (NewRequest_id r) TxStatus_Finished) (Some (Value_U64 (a * b))).
Proof.
  intros Hs Hf Hsm Hfit Hg. pose proof (submitted_agrees ps fuel s Hs) as Hag.
  pose proof (reachable_system_inv ps fuel (submitted_in s) Hf (submitted_fits s Hfit) s Hs Hag Hsm) as Hinv.
  destruct (si_gateways _ _ _ Hinv g gw Hg) as (_ & _ & [Htexts _]). split; [apply Htexts|].
  intros sock u Hu. destruct (to_texts _ _ _ _ Htexts sock u Hu) as (Hright & r & Hr & Hid & Hsock).
  assert (Hin : r ∈ gw_accepted gw) by (apply elem_of_take in Hr as (i & Hi & _); by eapply list_elem_of_lookup_2).
  destruct (right_request s r u Hag) as (a & b & Hbp & Hu'); [by exists g, gw|done|done|]. by exists r, a, b.
Qed.

Lemma sockets_get_right_answers_witness : exists s gw, Demo.finished = Some s /\ s_gateways s !! 0 = Some gw /\
  texted (gw_effects gw) = [0] /\ NoDup (texted (gw_effects gw)).
Proof.
  destruct Demo.finished_facts as (s & gw & rt & rt' & E & Hsm & Hfit & Hg & _ & _ & Ht & _). exists s, gw.
  split; [exact E|]. split; [exact Hg|]. split; [exact Ht|].
  exact (proj1 (sockets_get_right_answers params_default 100 s 0 gw (Demo.finished_reachable s E) ltac:(lia) Hsm Hfit Hg)).
Defined.

(** C3: replication. In every reachable state of the whole system in which every accepted
    request for the program's queue is a pair of numbers whose product fits in 64 bits
    ([request_fits]; a request that does not can stop the runtimes), the runtimes of all
    nodes are replicas of one machine: what each has answered is the products asked for by
    the first requests of the one log that etcd holds, so of any two one list of answers is
    a prefix of the other, and none of them can panic in its next step. (Ten turns of fuel
    are enough for every step; the number of epochs fits in a u64.) *)
Theorem runtimes_are_replicas `{Profile} `{PeerIds} `{HashOrder} `{Sha256} `{BinaryHeap} `{Slab} {WebSocket : Type}
  `{!Json (@Epoch _)} `{!Etcd (json_bytes (A := @Epoch _))} `{!Json GossipMessage} `{!Json N2GWGossipMessage}
  ps fuel (s : System WebSocket) p q rt rt' :
  system_reachable ps fuel s -> (10 <= fuel)%nat -> small (s_world s) ->
  (forall r, accepted_request s r -> request_fits (NewRequest_blueprint r)) ->
  s_runtimes s !! p = Some rt -> s_runtimes s !! q = Some rt' ->
  (exists n, Runtime.sent (rt_runtime rt) =
     map answer (take n (omap (request_at (submitted_in s)) (log_of (history (w_db (s_world s))))))) /\
  (Runtime.sent (rt_runtime rt) `prefix_of` Runtime.sent (rt_runtime rt') \/
   Runtime.sent (rt_runtime rt') `prefix_of` Runtime.sent (rt_runtime rt)) /\
  forall clock, is_ok (rt_step fuel clock (rt_pc rt) (rt_runtime rt)).
Proof.
  intros Hs Hf Hsm Hfit Hp Hq. pose proof (submitted_agrees ps fuel s Hs) as Hag. pose proof (submitted_fits s Hfit) as Hwf.
  pose proof (reachable_system_inv ps fuel (submitted_in s) Hf Hwf s Hs Hag Hsm) as Hinv.
  pose proof (si_world _ _ _ Hinv) as Hw.
  pose proof (si_runtimes _ _ _ Hinv p rt Hp) as Hrt. pose proof (si_runtimes _ _ _ Hinv q rt' Hq) as Hrt'.
  destruct (runtime_answers ps (submitted_in s) _ Hw Hsm p rt Hrt) as [n Hn].
  destruct (runtime_answers ps (submitted_in s) _ Hw Hsm q rt' Hrt') as [m Hm]. split_and!; [by exists n| |].
  - rewrite Hn, Hm. destruct (Nat.le_ge_cases n m) as [Hle|Hle]; [left|right]; by apply map_take_prefix.
  - intros clock. destruct (runtime_moves ps fuel (submitted_in s) Hf Hwf _ Hw Hsm p rt clock Hrt) as (pc & r & E & _). by exists (pc, r).
Qed.

Lemma runtimes_are_replicas_witness : exists s rt rt', Demo.finished = Some s /\
  s_runtimes s !! 0%nat = Some rt /\ s_runtimes s !! 1%nat = Some rt' /\
  Runtime.sent (rt_runtime rt) = [(0, Value_U64 42)] /\
  (Runtime.sent (rt_runtime rt) `prefix_of` Runtime.sent (rt_runtime rt') \/
   Runtime.sent (rt_runtime rt') `prefix_of` Runtime.sent (rt_runtime rt)).
Proof.
  destruct Demo.finished_facts as (s & gw & rt & rt' & E & Hsm & Hfit & _ & Hp & Hq & _ & Hsent). exists s, rt, rt'.
  split; [exact E|]. split; [exact Hp|]. split; [exact Hq|]. split; [exact Hsent|].
  exact (proj1 (proj2 (runtimes_are_replicas params_default 100 s 0%nat 1%nat rt rt' (Demo.finished_reachable s E) ltac:(lia) Hsm Hfit Hp Hq))).
Defined.
