(* ===== verification/SystemLog.v ===== *)
(** * The log and the gateways

    What of a gateway's requests gets into the log: the first ones, in the order in which it
    accepted them, and only those that it has sent to a node. A request that its p2p layer
    took while no node was connected is never sent, so that neither it nor any later one of
    its gateway is ever executed. None of this depends on what the requests ask for. *)
From S2P Require Import Prelude Types Values Protocol Epoch Decision App AppOffsets AppEpochs AppSteps.
From S2P Require Import Network Coordinator Cluster ClusterInv Gateway Waits Fiber Runtime RuntimeInv Deployed DeployedSpec System SystemInv SystemSpec.
Local Open Scope Z_scope.

(** ** The log of one range *)
Section ranges.
Context `{Profile} `{PeerIds} `{HashOrder} `{Sha256}.

Lemma ids_of_slots g a o : RangeKey.ids (RangeKey.MkInterval (RangeKey.slot_id g a) (RangeKey.slot_id g o))
  = map (RangeKey.slot_id g) (seqZ a (o - a + 1)).
Proof.
  unfold RangeKey.ids, RangeKey.slot_id. cbn [RangeKey.left RangeKey.right].
  rewrite <-fmap_add_seqZ. f_equal. f_equal. lia.
Qed.

Lemma filter_all {A} (P : A -> Prop) `{!forall x, Decision (P x)} (l : list A) : (forall x, x ∈ l -> P x) -> filter P l = l.
Proof.
  induction l as [|x l IH]; intros Hl; [done|]. rewrite filter_cons_True by (apply Hl; left). f_equal. apply IH.
  intros y Hy. apply Hl. by right.
Qed.

(** Filtering the identifiers of intervals of which at most one passes. *)
Lemma filter_none (P : UniqueU64BlobId -> Prop) `{!forall id, Decision (P id)} ivs :
  (forall i id, i ∈ ivs -> id ∈ RangeKey.ids i -> ~ P id) -> filter P (concat (map RangeKey.ids ivs)) = [].
Proof.
  intros Hno. apply elem_of_nil_inv. intros id [Hid (i & Hi & Hin)%elem_of_concat_map]%list_elem_of_filter. by eapply Hno.
Qed.

Lemma filter_one (P : UniqueU64BlobId -> Prop) `{!forall id, Decision (P id)} i0 ivs : NoDup ivs -> i0 ∈ ivs ->
  (forall i id, i ∈ ivs -> i <> i0 -> id ∈ RangeKey.ids i -> ~ P id) -> (forall id, id ∈ RangeKey.ids i0 -> P id) ->
  filter P (concat (map RangeKey.ids ivs)) = RangeKey.ids i0.
Proof.
  intros Hnd Hin Hno Hyes. apply list_elem_of_split in Hin as (l1 & l2 & ->).
  apply NoDup_app in Hnd as (_ & Hd1 & [Hd2 _]%NoDup_cons).
  rewrite map_app, concat_app. cbn [map concat]. rewrite !filter_app, (filter_none _ l1), (filter_none _ l2).
  - cbn. rewrite app_nil_r. by apply filter_all.
  - intros i id Hi. apply Hno; [set_solver|]. by intros ->.
  - intros i id Hi. apply Hno; [set_solver|]. intros ->. apply (Hd1 i0 Hi). left.
Qed.

(** What the log holds of a range: its identifiers from 0 on, in order. *)
Lemma log_of_range h g : chained h ->
  filter (fun id => range_of id = g) (log_of h) = map (RangeKey.slot_id g) (seqZ 0 (next_offset (committed_by h) g)).
Proof.
  intros Hc. induction h as [|e h IH] using rev_ind; [done|].
  apply chained_app in Hc as [Hc (cons & Hok & Hs)]. destruct (chained_log h Hc) as (Hcm & _ & _).
  rewrite log_snoc, filter_app, IH by done. clear IH Hc.
  assert (Hs' : increments_spec cons (committed_by h) (RangeKey.sort_intervals (Epoch_increments e))).
  { eapply increments_spec_perm; [symmetry; apply RangeKey.sort_intervals_perm|done]. }
  pose proof (next_offset_nonneg (committed_by h) g Hcm) as Hnn.
  assert (Hrange : forall i id, i ∈ RangeKey.sort_intervals (Epoch_increments e) -> id ∈ RangeKey.ids i ->
    exists o, cons !! range_of id = Some o /\ next_offset (committed_by h) (range_of id) <= o /\
      i = RangeKey.MkInterval (RangeKey.slot_id (range_of id) (next_offset (committed_by h) (range_of id))) (RangeKey.slot_id (range_of id) o)).
  { intros i id (r & o & Hr & Hle & ->)%Hs' Hid. rewrite ids_of_slots in Hid. apply list_elem_of_fmap in Hid as (k & -> & Hk%elem_of_seqZ).
    pose proof (Hok _ _ Hr). pose proof (next_offset_nonneg (committed_by h) r Hcm).
    unfold range_of. rewrite RangeKey.slot_id_div by RangeKey.blob_lia. by exists o. }
  unfold next_offset at 2. rewrite committed_snoc, (commit_increments cons) by done. unfold epoch_ids.
  destruct (cons !! g) as [o|] eqn:Eg; [destruct (decide (next_offset (committed_by h) g <= o)) as [Hle|Hlt]|].
  - rewrite (filter_one _ (RangeKey.MkInterval (RangeKey.slot_id g (next_offset (committed_by h) g)) (RangeKey.slot_id g o))).
    + rewrite ids_of_slots, <-map_app, <-seqZ_app by lia. do 2 f_equal. lia.
    + apply Hs'.
    + apply Hs'. by exists g, o.
    + intros i id Hi Hne Hid Heq. destruct (Hrange i id Hi Hid) as (o' & Ho' & _ & ->). subst g. congruence.
    + intros id Hid. rewrite ids_of_slots in Hid. apply list_elem_of_fmap in Hid as (k & -> & Hk%elem_of_seqZ).
      pose proof (Hok _ _ Eg). apply RangeKey.slot_id_div. RangeKey.blob_lia.
  - rewrite filter_none, app_nil_r; [done|]. intros i id Hi Hid Heq. destruct (Hrange i id Hi Hid) as (o' & Ho' & Hle & _). subst g.
    assert (o = o') by congruence. lia.
  - rewrite filter_none, app_nil_r; [done|]. intros i id Hi Hid Heq. destruct (Hrange i id Hi Hid) as (o' & Ho' & _ & _). subst g. congruence.
Qed.
End ranges.

(** ** What a gateway sends *)
Section sends.
Context `{Profile} `{PeerIds} `{!Json N2GWGossipMessage} {WebSocket : Type}.

(** The channel to the p2p layer holds the requests taken so far, in order. *)
Record queue_ok (gw : GwNode WebSocket) : Prop := {
  qo_channel : omap to_gw_p2p (gw_effects gw)
    = map (fun r => GwOutbox_NewTransaction (created r)) (take (gw_handled gw) (gw_accepted gw));
  qo_handled : (gw_handled gw <= length (gw_accepted gw))%nat
}.

Lemma updates_p2p us : forall (reg : gmap UniqueU64BlobId WebSocket) (effs : list (GwEffect WebSocket)),
  omap to_gw_p2p (foldl handle_update (reg, effs) us).2 = omap to_gw_p2p effs.
Proof.
  induction us as [|u us IH]; intros reg effs; [done|]. cbn [foldl]. unfold handle_update at 2.
  destruct (reg !! _); rewrite IH, omap_app; cbn; by rewrite app_nil_r.
Qed.

Lemma queue_turn gw input gw' : queue_ok gw -> gw_turn gw input = Some gw' -> queue_ok gw'.
Proof.
  intros [Hq Hh] Hturn. unfold gw_turn in Hturn. destruct gw as [c accepted handled registry effects forwarded peers wire updates read].
  destruct input as [bp sock| | |ev|]; cbn in *.
  - destruct (send_request _ _ _) as [[core' r]| |]; inversion Hturn; subst; clear Hturn.
    split; cbn; [by rewrite take_app_le|rewrite length_app; lia].
  - apply bind_Some in Hturn as ([id bp sock] & Hr & Hturn). cbn in Hturn. inversion Hturn; subst; clear Hturn.
    split; cbn; [|by apply lookup_lt_Some in Hr]. rewrite omap_app, Hq, (take_S_r _ _ _ Hr), map_app. done.
  - apply bind_Some in Hturn as (m & _ & Hturn). by inversion Hturn.
  - destruct (gw_handle_swarm_event _ _) as [[? ?] ?]. by inversion Hturn.
  - apply bind_Some in Hturn as ([us] & _ & Hturn). cbn [handle_inbox] in Hturn.
    pose proof (updates_p2p us registry []) as Hnone.
    destruct (foldl handle_update (registry, []) us) as [reg' new]. inversion Hturn; subst; clear Hturn. cbn in Hnone.
    split; cbn; [|done]. by rewrite omap_app, Hnone, app_nil_r.
Qed.

Definition sends (gw : GwNode WebSocket) (r : NewRequest WebSocket) : Prop :=
  exists p, GwSend p (GM_NewTransaction (created r)) ∈ gw_wire gw.

(** The p2p layer has taken request [i] from its channel without sending it to any node. *)
Definition lost (gw : GwNode WebSocket) (i : nat) : Prop :=
  (i < gw_forwarded gw)%nat /\ exists r, gw_accepted gw !! i = Some r /\ ~ sends gw r.

Lemma turn_wire gw input gw' : gw_turn gw input = Some gw' -> exists new, gw_wire gw' = gw_wire gw ++ new /\
  (gw_forwarded gw <= gw_forwarded gw')%nat /\
  forall p request, GwSend p request ∈ new ->
    exists tx, request = GM_NewTransaction tx /\ omap (to_gw_p2p (WebSocket := WebSocket)) (gw_effects gw) !! gw_forwarded gw = Some (GwOutbox_NewTransaction tx).
Proof.
  intros Hturn. unfold gw_turn in Hturn. destruct gw as [c accepted handled registry effects forwarded peers wire updates read].
  destruct input as [bp sock| | |ev|]; cbn in *.
  - destruct (send_request _ _ _) as [[core' r]| |]; inversion Hturn; subst. exists []. rewrite app_nil_r. set_solver by lia.
  - apply bind_Some in Hturn as (r & _ & Hturn). destruct (handle_send_new_request _ _). inversion Hturn; subst.
    exists []. rewrite app_nil_r. set_solver by lia.
  - apply bind_Some in Hturn as ([tx] & Hm & Hturn). inversion Hturn; subst. cbn. eexists. split; [done|]. split; [lia|].
    intros p rq Hin. apply list_elem_of_fmap in Hin as (q & [= <- ->] & _). by exists tx.
  - destruct (gw_handle_swarm_event ev peers) as [[peers' inbox] actions] eqn:Eev. inversion Hturn; subst. cbn.
    exists actions. split; [done|]. split; [lia|]. intros p rq Hin. exfalso.
    destruct ev as [|[? [|]|]| |data| | | |]; cbn in Eev; try (injection Eev as <- <- <-; set_solver).
    destruct (from_slice data) as [m|]; [|injection Eev as <- <- <-; set_solver].
    destruct (N2GWGossipMessage_payload m). injection Eev as <- <- <-; set_solver.
  - apply bind_Some in Hturn as (m & _ & Hturn). destruct (handle_inbox _ _). inversion Hturn; subst.
    exists []. rewrite app_nil_r. set_solver by lia.
Qed.

Lemma sends_turn gw input gw' r : gw_turn gw input = Some gw' -> sends gw r -> sends gw' r.
Proof. intros Hturn [p Hp]. destruct (turn_wire _ _ _ Hturn) as (new & E & _). exists p. rewrite E. apply elem_of_app. by left. Qed.

(** What is lost stays lost: a message is taken from the channel once. *)
Lemma lost_turn g gw input gw' i : core_ok g gw -> queue_ok gw -> gw_turn gw input = Some gw' -> lost gw i -> lost gw' i.
Proof.
  intros Hcore Hq Hturn (Hi & r & Hr & Hno). destruct (turn_wire _ _ _ Hturn) as (new & Ew & Hf & Hnew).
  split; [lia|]. exists r. destruct (gw_turn_grows _ _ _ Hturn) as [more Eacc]. split; [rewrite Eacc; by apply lookup_app_l_Some|].
  intros [p Hp]. rewrite Ew in Hp. apply elem_of_app in Hp as [Hp|Hp]; [by apply Hno; exists p|].
  destruct (Hnew _ _ Hp) as (tx & [= <-] & Hm). rewrite (qo_channel _ Hq) in Hm. rewrite list_lookup_fmap in Hm.
  apply fmap_Some in Hm as (r' & Hr' & [= Hid Hbp]). apply lookup_take_Some in Hr' as [Hr' _].
  rewrite (co_ids _ _ Hcore _ _ Hr), (co_ids _ _ Hcore _ _ Hr') in Hid. pose proof (co_length _ _ Hcore).
  apply lookup_lt_Some in Hr, Hr'. apply RangeKey.slot_id_inj in Hid as [_ ?]; lia.
Qed.
End sends.

(** ** Where transactions come from *)
Section origin.
Context `{Profile} `{PeerIds} `{HashOrder} `{Sha256} `{BinaryHeap} `{Slab} {WebSocket : Type}.
Context `{!Json (@Epoch _)} `{!Etcd (json_bytes (A := @Epoch _))}.
Context `{!Json GossipMessage} `{!Json N2GWGossipMessage}.
Context (ps : Params) (fuel : nat).

(** A gateway has sent the request with this identifier to a node. *)
Definition handed_over (s : System WebSocket) (id : UniqueU64BlobId) : Prop :=
  exists g gw r, s_gateways s !! g = Some gw /\ r ∈ gw_accepted gw /\ sends gw r /\ NewRequest_id r = id.

(** All that the nodes hold or send each other satisfies [P]. *)
Record origin (P : UniqueU64BlobId -> Prop) (w : World) : Prop := {
  or_nodes : forall p n id tx, w_nodes w !! p = Some n -> transactions (n_app n) !! id = Some tx -> P id;
  or_net : forall src q txs tx, (src, Outbox_RequestedTxsForPeer q txs) ∈ w_net w -> tx ∈ txs -> P (tx_id tx)
}.

Lemma origin_weaken (P Q : UniqueU64BlobId -> Prop) w : (forall id, P id -> Q id) -> origin P w -> origin Q w.
Proof. intros HPQ [Hn Hm]. split; intros; apply HPQ; eauto. Qed.

(** The transactions an event brings. *)
Definition arrives (ev : Event) (tx : Transaction) : Prop :=
  ev = InboxMessage (Inbox_NewTransaction tx) \/ exists txs, ev = InboxMessage (Inbox_MissingTx txs) /\ tx ∈ txs.

Lemma origin_app P submitted w p ev w' : world_inv ps submitted w -> admissible submitted w p ev -> origin P w ->
  act_app w p ev = Some w' -> (forall tx, arrives ev tx -> P (tx_id tx)) -> origin P w'.
Proof.
  intros Hw Hadm [Hn Hm] Hact Hev. unfold act_app in Hact. apply bind_Some in Hact as (n & Hp & Hact).
  destruct (app_step (n_app n) ev) as [[a effs]| |] eqn:E; try done. injection Hact as <-.
  pose proof (wi_nodes _ _ _ Hw p n Hp) as Hni. pose proof (ni_app _ _ _ _ _ Hni) as Hai.
  pose proof (admissible_ok _ _ _ _ _ _ Hw Hp Hadm) as Hok. rewrite <-(ni_id _ _ _ _ _ Hni) in Hok.
  destruct (app_step_inv _ _ _ _ Hai Hok E) as [Hai' _]. split; cbn [w_nodes w_net].
  - intros q m id tx Hq Htx. apply lookup_insert_Some in Hq as [[<- <-]|[_ Hq]]; [|by eapply Hn].
    cbn in Htx. destruct (app_step_stored _ _ _ _ _ _ Hai Hok E Htx) as [(tx0 & Htx0 & _)|Harr]; [by eapply Hn|].
    destruct (inv_keys _ Hai' _ _ Htx) as [_ <-]. apply Hev. destruct Harr as [->|(txs & -> & ?)]; [by left|right; by exists txs].
  - intros src q txs tx Hin Htx. apply elem_of_app in Hin as [Hin|Hin]; [by eapply Hm|]. apply sent_in in Hin as [-> Hin].
    destruct (app_step_messages _ _ _ _ _ E Hin tx Htx) as [id Hid]. destruct (inv_keys _ Hai _ _ Hid) as [_ <-]. by eapply Hn.
Qed.

Lemma updates_content upds a a' effs : loop_until_shutdown a (map CoordinatorUpdate upds) = Ok (a', effs) ->
  same_content (transactions a) (transactions a').
Proof.
  intros Hrun. unfold loop_until_shutdown in Hrun.
  apply (for_each_inv_ok (fun _ st => same_content (transactions a) (transactions (fst st))) _ _ _ _ Hrun); [by intros id tx; exists tx|].
  intros _ ev [a1 e1] [a2 e2] Hev Hone Hs id tx Htx. apply list_elem_of_fmap in Hev as ([e] & -> & _). cbn -[app_step] in Hone.
  apply bind_ok in Hone as ([a3 new] & Hstep & Hone). injection Hone as <- <-. cbn [fst] in *.
  cbn [app_step] in Hstep. unfold handle_epoch_coordinator_updates in Hstep. inv_ok.
  match goal with Hc : collect_blueprints _ _ = Ok ?x |- _ => destruct x; apply collect_blueprints_content in Hc; inv_ok;
    destruct (Hc id tx Htx) as (tx0 & Htx0 & E0); destruct (Hs id tx0 Htx0) as (tx1 & Htx1 & E1) end.
  exists tx1. split; [done|congruence].
Qed.

Lemma origin_watch P w p rev w' : origin P w -> act_watch w p rev = Some w' -> origin P w'.
Proof.
  intros [Hn Hm] Ha. destruct (act_watch_inv _ _ _ _ Ha) as (_ & effs' & Hnet & Hsil). unfold act_watch in Ha.
  apply bind_Some in Ha as (n & Hp & Ha). apply bind_Some in Ha as (bytes & _ & Ha). destruct (watch_received _ _) as [c upds].
  destruct (loop_until_shutdown _ _) as [[a effs]| |] eqn:E; try done. injection Ha as <-. split.
  - cbn [w_nodes]. intros q m id tx Hq Htx. apply lookup_insert_Some in Hq as [[<- <-]|[_ Hq]]; [|by eapply Hn].
    destruct (updates_content _ _ _ _ E id tx Htx) as (tx0 & Htx0 & _). by eapply Hn.
  - intros src q txs tx Hin Htx. rewrite Hnet in Hin. apply elem_of_app in Hin as [Hin|Hin]; [by eapply Hm|].
    by apply sent_in in Hin as [_ ?%Hsil].
Qed.

Lemma origin_commit P w p net w' : origin P w -> act_commit w p net = Some w' -> origin P w'.
Proof.
  intros [Hn Hm] Ha. unfold act_commit in Ha. apply bind_Some in Ha as (n & Hp & Ha). destruct (n_request n); [|done].
  destruct (request_changed _ _ _ _) as [[c db]| |]; try done. injection Ha as <-. split; [|done]. cbn [w_nodes].
  intros q m id tx Hq Htx. apply lookup_insert_Some in Hq as [[<- <-]|[_ Hq]]; by eapply Hn.
Qed.

Lemma handed_over_act (s : System WebSocket) ev s' id : system_act fuel s ev = Some s' -> handed_over s id -> handed_over s' id.
Proof.
  intros Hact (g0 & gw0 & r & Hg0 & Hr & Hs & Hid). destruct (system_act_gateways _ _ _ _ Hact) as [E|(g & input & gw & gw' & Hgw & Hturn & E & _)].
  { exists g0, gw0, r. by rewrite E. }
  destruct (decide (g0 = g)) as [->|Hne].
  - exists g, gw', r. rewrite E, lookup_insert_eq. rewrite Hgw in Hg0. injection Hg0 as <-.
    destruct (gw_turn_grows _ _ _ Hturn) as [more ->]. split; [done|]. split; [apply elem_of_app; by left|].
    split; [by eapply sends_turn|done].
  - exists g0, gw0, r. by rewrite E, lookup_insert_ne.
Qed.

(** Whatever reaches the application of a node was sent by a gateway. *)
Lemma possible_handed_over submitted (s : System WebSocket) p ev tx : hosts_inv ps submitted s -> origin (handed_over s) (s_world s) ->
  possible s (Sys_App p ev) -> arrives ev tx -> handed_over s (tx_id tx).
Proof.
  intros Hs Ho Hpos Harr.
  assert (Hsub : forall msg g gw, s_gateways s !! g = Some gw -> submitted_by gw p msg -> arrives (InboxMessage msg) tx -> handed_over s (tx_id tx)).
  { intros msg g gw Hg (gid & request & Hw & Hin) Ha. destruct (hi_gateways _ _ _ Hs g gw Hg) as [_ Hreq].
    destruct (ro_wire _ Hreq _ _ Hw) as (r & Hr & ->). cbn in Hin. apply list_elem_of_singleton in Hin as ->.
    destruct Ha as [[= <-]|(txs & [=] & _)]. exists g, gw, r. split; [done|]. split; [done|]. split; [by exists p|done]. }
  assert (Hrel : forall msg src m, (src, m) ∈ w_net (s_world s) -> relayed src m p msg -> arrives (InboxMessage msg) tx -> handed_over s (tx_id tx)).
  { intros msg src m Hin Hrel Ha. destruct m as [st|q ivs|q txs|us]; cbn in Hrel; [| | |done]; destruct Hrel as [_ ->];
      destruct Ha as [[=]|(txs' & [= <-] & Htx)]. by eapply or_net. }
  destruct Harr as [->|(txs & -> & Htx)]; cbn in Hpos; destruct Hpos as [(src & m & Hin & Hr)|(g & gw & Hg & Hby)].
  - eapply Hrel; [exact Hin|exact Hr|by left].
  - eapply Hsub; [exact Hg|exact Hby|by left].
  - eapply Hrel; [exact Hin|exact Hr|]. right. by exists txs.
  - eapply Hsub; [exact Hg|exact Hby|]. right. by exists txs.
Qed.

(** *** Over the steps of the system *)
Lemma origin_act submitted (s : System WebSocket) ev s' : hosts_inv ps submitted s -> agrees submitted s ->
  small (s_world s) -> possible s ev -> system_act fuel s ev = Some s' -> origin (handed_over s) (s_world s) ->
  origin (handed_over s') (s_world s').
Proof.
  intros Hs Hag Hsm Hpos Hact Ho. eapply origin_weaken; [intros id; by eapply handed_over_act|].
  pose proof (reachable_inv ps submitted _ (hi_world _ _ _ Hs) Hsm) as Hw.
  destruct ev as [p ev|p k|p rev|p net|p|p clock|g input]; cbn [system_act] in Hact.
  - apply fmap_Some in Hact as (w' & Ha & ->). eapply origin_app; [exact Hw| |exact Ho|exact Ha|].
    + by eapply possible_admissible.
    + intros tx. by eapply possible_handed_over.
  - apply bind_Some in Hact as (rt & _ & Hact). apply bind_Some in Hact as (w' & Ha & Hact). injection Hact as <-.
    eapply origin_app; [exact Hw|by apply adm_results|exact Ho|exact Ha|]. by intros tx [[=]|(txs & [=] & _)].
  - apply fmap_Some in Hact as (w' & Ha & ->). by eapply origin_watch.
  - apply fmap_Some in Hact as (w' & Ha & ->). by eapply origin_commit.
  - apply bind_Some in Hact as (n & _ & Hact). apply bind_Some in Hact as (rt & _ & Hact). apply bind_Some in Hact as (i & _ & Hact).
    by injection Hact as <-.
  - apply bind_Some in Hact as (rt & _ & Hact). destruct (rt_step _ _ _ _) as [[pc r]| |]; try done. by injection Hact as <-.
  - apply bind_Some in Hact as (gw & _ & Hact). apply bind_Some in Hact as (gw' & _ & Hact). by injection Hact as <-.
Qed.

(** Every request accepted so far fits the program it names. *)
Definition all_fit (s : System WebSocket) : Prop := forall r, accepted_request s r -> request_fits (NewRequest_blueprint r).

Lemma fitting_inv (s : System WebSocket) : (10 <= fuel)%nat -> system_reachable ps fuel s -> small (s_world s) -> all_fit s ->
  system_inv ps (submitted_in s) s.
Proof. intros Hf Hs Hsm Hfit. exact (reachable_system_inv ps fuel _ Hf (submitted_fits s Hfit) s Hs (submitted_agrees _ _ s Hs) Hsm). Qed.

Lemma hosts (s : System WebSocket) : system_reachable ps fuel s -> hosts_inv ps (submitted_in s) s.
Proof. intros Hs. exact (reachable_hosts ps fuel _ s Hs (submitted_agrees _ _ s Hs)). Qed.

Lemma origins (s : System WebSocket) : system_reachable ps fuel s -> small (s_world s) -> origin (handed_over s) (s_world s).
Proof.
  induction 1 as [s (Hw & _)|s ev s' Hr IH Hpos Hact]; intros Hsm.
  - destruct Hw as (Hn & Hnet & _). split; [|rewrite Hnet; set_solver]. intros p n id tx ->%Hn. cbn. by rewrite lookup_empty.
  - pose proof (system_act_small _ (submitted_in s) _ _ _ Hact Hsm) as Hsm'.
    eapply origin_act; [by apply hosts|by eapply submitted_agrees|done|exact Hpos|exact Hact|by apply IH].
Qed.

Lemma queues_ok (s : System WebSocket) : system_reachable ps fuel s -> forall g gw, s_gateways s !! g = Some gw -> queue_ok gw.
Proof.
  induction 1 as [s (_ & _ & Hgw)|s ev s' _ IH _ Hact]; intros g gw Hg.
  - apply Hgw in Hg as (_ & core & _ & ->). split; [done|cbn; lia].
  - destruct (system_act_gateways _ _ _ _ Hact) as [E|(g0 & input & gw0 & gw1 & Hgw0 & Hturn & E & _)]; rewrite E in Hg; [by eapply IH|].
    apply lookup_insert_Some in Hg as [[<- <-]|[_ Hg]]; [|by eapply IH]. eapply queue_turn; [by eapply IH|exact Hturn].
Qed.

(** What the log holds of a gateway, and that it was sent. *)
Lemma logged_was_sent (s : System WebSocket) g gw k : system_reachable ps fuel s -> small (s_world s) ->
  s_gateways s !! g = Some gw -> 0 <= k < RangeKey.SINGLE_BLOB_SIZE ->
  RangeKey.slot_id g k ∈ log_of (history (w_db (s_world s))) ->
  exists r, gw_accepted gw !! Z.to_nat k = Some r /\ NewRequest_id r = RangeKey.slot_id g k /\ sends gw r.
Proof.
  intros Hs Hsm Hg Hk Hin. pose proof (reachable_inv ps _ _ (hi_world _ _ _ (hosts s Hs)) Hsm) as Hw.
  rewrite <-(firstn_all (history (w_db (s_world s)))) in Hin. destruct (log_stored _ _ _ _ _ Hw Hin) as (S & HS & Hall).
  destruct (size_pos_elem_of S) as [q Hq]; [lia|]. destruct (Hall q Hq) as (m & Hm & tx & Htx).
  destruct (or_nodes _ _ (origins s Hs Hsm) q m _ tx Hm Htx) as (g' & gw' & r & Hg' & Hr & Hsend & Hid).
  apply list_elem_of_lookup in Hr as [i Hi]. pose proof (cores_ok _ _ s Hs _ _ Hg') as Hc.
  pose proof (lookup_lt_Some _ _ _ Hi) as Hlt. pose proof (co_length _ _ Hc). rewrite (co_ids _ _ Hc _ _ Hi) in Hid.
  apply RangeKey.slot_id_inj in Hid as [-> <-]; [|lia..]. rewrite Hg in Hg'. injection Hg' as <-. rewrite Nat2Z.id.
  exists r. split; [done|]. split; [by eapply co_ids|done].
Qed.

(** *** Executions *)
Definition system_move (s s' : System WebSocket) : Prop := exists ev, possible s ev /\ system_act fuel s ev = Some s'.

Lemma moves_reachable (s s' : System WebSocket) : system_reachable ps fuel s -> rtc system_move s s' -> system_reachable ps fuel s'.
Proof. induction 2 as [s|s s1 s2 (ev & Hpos & Hact) _ IH]; [done|]. by eapply IH, sys_step. Qed.

Lemma run_moves_rtc ms : forall (s s' : System WebSocket), run_moves fuel s ms = Some s' -> rtc system_move s s'.
Proof.
  induction ms as [|m ms IH]; intros s s' Hrun; [by injection Hrun as <-|]. cbn [run_moves] in Hrun.
  apply bind_Some in Hrun as (ev & Hm & Hrun). apply bind_Some in Hrun as (s1 & Hact & Hrun).
  apply rtc_l with s1; [exists ev; split; [by eapply move_possible|done]|by apply IH].
Qed.

Lemma stays_lost (s s' : System WebSocket) g gw i : system_reachable ps fuel s -> rtc system_move s s' ->
  s_gateways s !! g = Some gw -> lost gw i -> exists gw', s_gateways s' !! g = Some gw' /\ lost gw' i.
Proof.
  intros Hs Hrun. revert gw. induction Hrun as [s|s s1 s' (ev & Hpos & Hact) _ IH]; intros gw Hg Hl; [by exists gw|].
  assert (Hs1 : system_reachable ps fuel s1) by by eapply sys_step.
  destruct (system_act_gateways _ _ _ _ Hact) as [E|(g0 & input & gw0 & gw1 & Hgw0 & Hturn & E & _)].
  { apply (IH Hs1 gw); [by rewrite E|done]. }
  destruct (decide (g0 = g)) as [->|Hne].
  - rewrite Hg in Hgw0. injection Hgw0 as <-. apply (IH Hs1 gw1); [by rewrite E, lookup_insert_eq|].
    exact (lost_turn g gw input gw1 i (cores_ok _ _ s Hs _ _ Hg) (queues_ok s Hs _ _ Hg) Hturn Hl).
  - apply (IH Hs1 gw); [by rewrite E, lookup_insert_ne|done].
Qed.

(** *** A gateway's part of the log *)
Lemma gateway_log (s : System WebSocket) g gw : system_reachable ps fuel s -> small (s_world s) ->
  s_gateways s !! g = Some gw ->
  exists n, (n <= length (gw_accepted gw))%nat /\
    filter (fun id => range_of id = g) (log_of (history (w_db (s_world s)))) = map NewRequest_id (take n (gw_accepted gw)) /\
    forall r, r ∈ take n (gw_accepted gw) -> sends gw r.
Proof.
  intros Hs Hsm Hg. pose proof (reachable_inv ps _ _ (hi_world _ _ _ (hosts s Hs)) Hsm) as Hw. pose proof (hist_chained _ _ _ Hw) as Hc.
  destruct (chained_log _ Hc) as (Hok & _ & Hin). set (h := history (w_db (s_world s))) in *.
  set (m := next_offset (committed_by h) g) in *. pose proof (next_offset_nonneg (committed_by h) g Hok) as Hm0. fold m in Hm0.
  assert (Hm : m <= RangeKey.SINGLE_BLOB_SIZE).
  { unfold m, next_offset. destruct (committed_by h !! g) as [o|] eqn:Eo; [|done]. pose proof (Hok _ _ Eo). RangeKey.blob_lia. }
  assert (Hsent : forall k, (k < Z.to_nat m)%nat -> exists r, gw_accepted gw !! k = Some r /\
    NewRequest_id r = RangeKey.slot_id g (Z.of_nat k) /\ sends gw r).
  { intros k Hk. destruct (logged_was_sent s g gw (Z.of_nat k) Hs Hsm Hg) as (r & Hr & Hid & Hsd); [lia| |].
    - apply Hin. exists g, (Z.of_nat k). split; [fold m; lia|done].
    - rewrite Nat2Z.id in Hr. by exists r. }
  assert (Hlen : (Z.to_nat m <= length (gw_accepted gw))%nat).
  { destruct (Nat.le_gt_cases (Z.to_nat m) (length (gw_accepted gw))) as [|Hgt]; [done|].
    destruct (Hsent _ Hgt) as (r & Hr & _). apply lookup_lt_Some in Hr. lia. }
  exists (Z.to_nat m). split; [done|]. split.
  - rewrite log_of_range by done. fold m. apply list_eq_same_length with (Z.to_nat m).
    + rewrite length_map, length_take. lia.
    + by rewrite length_map, length_seqZ.
    + intros k x y Hk Hx Hy. destruct (Hsent k) as (r & Hr & Hid & _); [lia|].
      rewrite list_lookup_fmap, lookup_seqZ_lt in Hx by lia. rewrite list_lookup_fmap, lookup_take_lt, Hr in Hy by lia.
      injection Hx as <-. injection Hy as <-. by rewrite Hid.
  - intros r (k & Hk)%list_elem_of_lookup. apply lookup_take_Some in Hk as [Hk Hlt].
    destruct (Hsent k Hlt) as (r' & Hr' & _ & Hsd). congruence.
Qed.

Lemma lost_blocks (s : System WebSocket) g gw i j r : system_reachable ps fuel s -> small (s_world s) ->
  s_gateways s !! g = Some gw -> lost gw i -> (i <= j)%nat -> gw_accepted gw !! j = Some r ->
  NewRequest_id r ∉ log_of (history (w_db (s_world s))).
Proof.
  intros Hs Hsm Hg (_ & r0 & Hr0 & Hno) Hij Hr Hin.
  destruct (gateway_log s g gw Hs Hsm Hg) as (n & _ & Hlog & Hsd).
  pose proof (cores_ok _ _ s Hs _ _ Hg) as Hc. pose proof (lookup_lt_Some _ _ _ Hr). pose proof (co_length _ _ Hc).
  assert (Hf' : NewRequest_id r ∈ map NewRequest_id (take n (gw_accepted gw))).
  { rewrite <-Hlog. apply list_elem_of_filter. split; [|done]. rewrite (co_ids _ _ Hc _ _ Hr). apply RangeKey.slot_id_div. lia. }
  apply list_elem_of_fmap in Hf' as (r' & Hid & (k & Hk)%list_elem_of_lookup). apply lookup_take_Some in Hk as [Hk Hlt].
  pose proof (lookup_lt_Some _ _ _ Hk). rewrite (co_ids _ _ Hc _ _ Hr), (co_ids _ _ Hc _ _ Hk) in Hid.
  apply RangeKey.slot_id_inj in Hid as [_ ?]; [|lia..]. apply Hno, Hsd. apply list_elem_of_lookup. exists i.
  apply lookup_take_Some. split; [done|lia].
Qed.

(** *** What the runtimes hold

    A runtime holds and answers only what was delivered to it, whatever its requests are. *)
Definition runtimes_held (s : System WebSocket) : Prop :=
  forall p rt, s_runtimes s !! p = Some rt -> held (rt_runtime rt) ⊆ requests_of (inputs_at (s_world s) p).

Lemma requests_of_app l l' : requests_of (l ++ l') = requests_of l ++ requests_of l'.
Proof. unfold requests_of. by rewrite map_app, concat_app. Qed.

Lemma runtimes_held_grow (s s' : System WebSocket) : (forall p, inputs_at (s_world s) p `prefix_of` inputs_at (s_world s') p) ->
  (forall p rt', s_runtimes s' !! p = Some rt' -> exists rt, s_runtimes s !! p = Some rt /\ held (rt_runtime rt') ⊆ held (rt_runtime rt)) ->
  runtimes_held s -> runtimes_held s'.
Proof.
  intros Hin Hrt Hs p rt' (rt & Hp & Hsub)%Hrt id Hid. destruct (Hin p) as [more ->]. rewrite requests_of_app, elem_of_app. left.
  by eapply Hs, Hsub.
Qed.

Lemma runtimes_insert (s : System WebSocket) p rt rt' q rt2 : s_runtimes s !! p = Some rt -> held (rt_runtime rt') ⊆ held (rt_runtime rt) ->
  <[p := rt']> (s_runtimes s) !! q = Some rt2 -> exists rt1, s_runtimes s !! q = Some rt1 /\ held (rt_runtime rt2) ⊆ held (rt_runtime rt1).
Proof. intros Hp Hsub [[<- <-]|[_ Hq]]%lookup_insert_Some; [by exists rt|by exists rt2]. Qed.

Lemma held_act (s : System WebSocket) ev s' : system_act fuel s ev = Some s' -> runtimes_held s -> runtimes_held s'.
Proof.
  intros Hact Hs. destruct ev as [p ev|p k|p rev|p net|p|p clock|g input]; cbn [system_act] in Hact.
  - apply fmap_Some in Hact as (w' & Ha & ->). destruct (act_app_inv _ _ _ _ Ha) as (_ & _ & _ & _ & _ & _ & Hg & _).
    eapply runtimes_held_grow; [exact Hg|by eauto|done].
  - apply bind_Some in Hact as (rt & Hrt & Hact). apply bind_Some in Hact as (w' & Ha & Hact). injection Hact as <-.
    destruct (act_app_inv _ _ _ _ Ha) as (_ & _ & _ & _ & _ & _ & Hg & _).
    eapply runtimes_held_grow; [exact Hg|intros q rt2; by apply (runtimes_insert s p rt)|done].
  - apply fmap_Some in Hact as (w' & Ha & ->). destruct (act_watch_inv _ _ _ _ Ha) as ((Hg & _) & _).
    eapply runtimes_held_grow; [exact Hg|by eauto|done].
  - apply fmap_Some in Hact as (w' & Ha & ->). destruct (act_commit_grows _ _ _ _ Ha) as ((Hg & _) & _).
    eapply runtimes_held_grow; [exact Hg|by eauto|done].
  - apply bind_Some in Hact as (n & Hn & Hact). apply bind_Some in Hact as (rt & Hrt & Hact).
    apply bind_Some in Hact as (input & Hin & Hact). injection Hact as <-. unfold runtimes_held. cbn [with_runtime s_world s_runtimes].
    intros q rt2 [[<- <-]|[_ Hq]]%lookup_insert_Some; [|by apply Hs]. cbn [rt_runtime]. etrans; [apply deliver_held|]. apply list_subseteq_app_iff_l. split; [by apply Hs|].
    unfold inputs_at. rewrite Hn. apply list_elem_of_lookup_2, list_elem_of_split in Hin as (l1 & l2 & ->).
    rewrite requests_of_app. change (requests_of (input :: l2)) with (map TaskBlueprint_global_id (snd input) ++ requests_of l2). set_solver.
  - apply bind_Some in Hact as (rt & Hrt & Hact). destruct (rt_step _ _ _ _) as [[pc r]| |] eqn:E; try done. injection Hact as <-.
    eapply (runtimes_held_grow s); [done|intros q rt2; apply (runtimes_insert s p rt); [done|by eapply rt_step_held]|done].
  - apply bind_Some in Hact as (gw & _ & Hact). apply bind_Some in Hact as (gw' & _ & Hact). by injection Hact as <-.
Qed.

Lemma held_reachable (s : System WebSocket) : system_reachable ps fuel s -> runtimes_held s.
Proof.
  induction 1 as [s (_ & Hrt & _)|s ev s' _ IH _ Hact]; [|by eapply held_act].
  intros p rt (r & Hstart%start_held & ->)%Hrt. cbn. rewrite Hstart. apply list_subseteq_nil.
Qed.

Lemma inputs_logged submitted h : requests_of (inputs_of submitted h) = log_of h.
Proof.
  induction h as [|e h IH]; [done|]. unfold inputs_of, log_of in *. cbn [map concat]. rewrite requests_of_app, IH. f_equal.
  unfold epoch_inputs. fold (epoch_ids e). case_decide as Hids; [by rewrite Hids|]. unfold requests_of. cbn. rewrite app_nil_r, map_map.
  apply map_id.
Qed.

(** A runtime answers only what is in the log. *)
Lemma answered_is_logged (s : System WebSocket) p rt id v : system_reachable ps fuel s -> small (s_world s) ->
  s_runtimes s !! p = Some rt -> (id, v) ∈ Runtime.sent (rt_runtime rt) -> id ∈ log_of (history (w_db (s_world s))).
Proof.
  intros Hs Hsm Hp Hin. assert (Hh : id ∈ held (rt_runtime rt)).
  { apply elem_of_held. left. apply list_elem_of_fmap. by exists (id, v). }
  apply (held_reachable s Hs p rt Hp) in Hh.
  destruct (inputs_at_log ps (submitted_in s) _ (hi_world _ _ _ (hosts s Hs)) Hsm p) as (k & E & _). rewrite E, inputs_logged in Hh.
  rewrite <-(take_drop k (history _)). unfold log_of in *. rewrite map_app, concat_app. apply elem_of_app. by left.
Qed.

Lemma accepted_distinct g (gw : GwNode WebSocket) : core_ok g gw -> NoDup (map NewRequest_id (gw_accepted gw)).
Proof.
  intros Hc. apply NoDup_alt. intros i j id Hi Hj. rewrite list_lookup_fmap in Hi, Hj.
  apply fmap_Some in Hi as (r & Hr & ->), Hj as (r' & Hr' & Hid).
  rewrite (co_ids _ _ Hc _ _ Hr), (co_ids _ _ Hc _ _ Hr') in Hid. pose proof (co_length _ _ Hc).
  apply lookup_lt_Some in Hr, Hr'. apply RangeKey.slot_id_inj in Hid as [_ ?]; lia.
Qed.
End origin.

(** ** Examples *)
Module Demo.
#[local] Existing Instance dev_profile.
#[local] Existing Instance nat_peers.
#[local] Existing Instance list_order.
#[local] Existing Instance test_hash.
#[local] Existing Instance list_heap.
#[local] Existing Instance gmap_slab.
#[local] Existing Instance Coordinator.test_epoch_json.
#[local] Existing Instance ClusterInv.Demo.etcd.
#[local] Existing Instance SystemSpec.Demo.gossip_json.
#[local] Existing Instance SystemSpec.Demo.n2gw_json.

(** The gateway takes a request before it is connected to a node. *)
Definition too_early : option (System nat) :=
  run_moves 100 SystemSpec.Demo.beginning [Move_Request 0 (multiply_blueprint 6 7) (Some 5%nat); Move_Handle 0; Move_Forward 0].

(** Then the nodes connect, and a second request reaches both of them. *)
Definition connected (s : System nat) : option (System nat) :=
  run_moves 100 s
    [Move_Connect 0 0%nat; Move_Connect 0 1%nat; Move_Request 0 (multiply_blueprint 2 3) (Some 6%nat); Move_Handle 0; Move_Forward 0;
     Move_Submit 0%nat 0 1; Move_Submit 1%nat 0 0; Move_Tick 1%nat; Move_Relay 0%nat 0; Move_Tick 0%nat; Move_Propose 0%nat 61].

(** What the gateways accepted, what the nodes hold, and the number of epochs. *)
Definition requests (s : System nat) : list TxBlueprint :=
  concat (map (fun '(_, gw) => map NewRequest_blueprint (gw_accepted gw)) (map_to_list (s_gateways s))).
Definition holdings (s : System nat) : list (PeerId * list UniqueU64BlobId) :=
  map (fun '(p, n) => (p, map fst (map_to_list (transactions (n_app n))))) (map_to_list (w_nodes (s_world s))).
Lemma requests_fit s l : requests s = l -> Forall request_fits l -> all_fit s.
Proof.
  intros <- Hl r (g & gw & Hg%elem_of_map_to_list & Hr). rewrite Forall_forall in Hl. apply Hl.
  apply elem_of_concat_map. exists (g, gw). split; [done|]. apply list_elem_of_fmap. by exists r.
Qed.

Lemma too_early_facts : exists s gw, too_early = Some s /\ system_reachable params_default 100 s /\ s_gateways s !! 0 = Some gw /\ lost gw 0.
Proof.
  assert (E : (fun s => (fun gw => (gw_forwarded gw, gw_wire gw, map NewRequest_id (gw_accepted gw))) <$> s_gateways s !! 0)
    <$> too_early = Some (Some (1%nat, [], [0]))) by (vm_compute; reflexivity).
  destruct too_early as [s|] eqn:Hrun; [|done]. injection E as E. apply fmap_Some in E as (gw & Hg & [= E1 E2 E3]). exists s, gw.
  split; [done|]. split; [eapply run_moves_reachable; [apply sys_initial, SystemSpec.Demo.beginning_initial|exact Hrun]|].
  split; [done|]. split; [lia|]. destruct (gw_accepted gw) as [|r l]; [done|]. exists r. split; [done|].
  intros [p Hp]. rewrite <-E2 in Hp. set_solver.
Qed.

Lemma connected_facts s : too_early = Some s -> exists s' gw r, connected s = Some s' /\ small (s_world s') /\ all_fit s' /\
  holdings s' = [(1%nat, [1]); (0%nat, [1])] /\ s_gateways s' !! 0 = Some gw /\ gw_accepted gw !! 1%nat = Some r /\ NewRequest_id r = 1.
Proof.
  intros Hs. assert (E : (fun s => (requests s, holdings s, length (history (w_db (s_world s))),
      (fun gw => map NewRequest_id (gw_accepted gw)) <$> s_gateways s !! 0)) <$> (too_early ≫= connected)
    = Some ([multiply_blueprint 6 7; multiply_blueprint 2 3], [(1%nat, [1]); (0%nat, [1])], 0%nat, Some [0; 1])) by (vm_compute; reflexivity).
  rewrite Hs in E. cbn [mbind option_bind] in E. destruct (connected s) as [s'|]; [|done]. injection E as Er Eh El Eg.
  apply fmap_Some in Eg as (gw & Hg & Eg). destruct (gw_accepted gw) as [|r0 [|r1 l]] eqn:Ea; try done. injection Eg as _ Eg _.
  exists s', gw, r1. rewrite Ea. split_and!; try done; [unfold small; by rewrite El|].
  eapply requests_fit; [exact Er|]. repeat constructor; intros _; eexists _, _; (split; [reflexivity|u64_solve]).
Qed.

End Demo.

(** ** Properties *)

(** C5: order. In every reachable state of the whole system, whatever the requests ask for
    and whether or not they have stopped the runtimes, what the one log holds of a gateway
    are the first requests that this gateway accepted, in the order in which it accepted
    them and each once, and all of them the gateway has sent to some node. (As everywhere,
    the number of epochs fits in a u64.) *)
Theorem logged_in_accepted_order `{Profile} `{PeerIds} `{HashOrder} `{Sha256} `{BinaryHeap} `{Slab} {WebSocket : Type}
  `{!Json (@Epoch _)} `{!Etcd (json_bytes (A := @Epoch _))} `{!Json GossipMessage} `{!Json N2GWGossipMessage}
  ps fuel (s : System WebSocket) g gw :
  system_reachable ps fuel s -> small (s_world s) -> s_gateways s !! g = Some gw ->
  exists n, (n <= length (gw_accepted gw))%nat /\
    filter (fun id => range_of id = g) (log_of (history (w_db (s_world s)))) = map NewRequest_id (take n (gw_accepted gw)) /\
    NoDup (map NewRequest_id (gw_accepted gw)) /\
    forall r, r ∈ take n (gw_accepted gw) -> sends gw r.
Proof.
  intros Hs Hsm Hg. destruct (gateway_log ps fuel s g gw Hs Hsm Hg) as (n & Hn & Hlog & Hsd).
  exists n. split; [done|]. split; [done|]. split; [|done]. exact (accepted_distinct g gw (cores_ok ps fuel s Hs g gw Hg)).
Qed.

Lemma logged_in_accepted_order_witness : exists s gw n, SystemSpec.Demo.finished = Some s /\ s_gateways s !! 0 = Some gw /\
  filter (fun id => range_of id = 0) (log_of (history (w_db (s_world s)))) = map NewRequest_id (take n (gw_accepted gw)).
Proof.
  destruct SystemSpec.Demo.finished_facts as (s & gw & _ & _ & E & Hsm & _ & Hg & _).
  destruct (logged_in_accepted_order params_default 100 s 0 gw (SystemSpec.Demo.finished_reachable s E) Hsm Hg)
    as (n & _ & Hlog & _). exists s, gw, n. split; [exact E|]. split; [exact Hg|exact Hlog].
Defined.

(** C6: a request that the p2p layer of a gateway has taken while no node was connected
    blocks its gateway for ever: whatever happens afterwards, malformed requests included,
    neither it nor any later request of that gateway gets into the log, and no runtime
    answers one of them, although the nodes may hold the later ones. (As everywhere, the
    number of epochs fits in a u64.) *)
Theorem lost_request_blocks_gateway `{Profile} `{PeerIds} `{HashOrder} `{Sha256} `{BinaryHeap} `{Slab} {WebSocket : Type}
  `{!Json (@Epoch _)} `{!Etcd (json_bytes (A := @Epoch _))} `{!Json GossipMessage} `{!Json N2GWGossipMessage}
  ps fuel (s s' : System WebSocket) g gw gw' i j r :
  system_reachable ps fuel s -> rtc (system_move fuel) s s' -> small (s_world s') ->
  s_gateways s !! g = Some gw -> lost gw i ->
  s_gateways s' !! g = Some gw' -> (i <= j)%nat -> gw_accepted gw' !! j = Some r ->
  NewRequest_id r ∉ log_of (history (w_db (s_world s'))) /\
  forall p rt v, s_runtimes s' !! p = Some rt -> (NewRequest_id r, v) ∉ Runtime.sent (rt_runtime rt).
Proof.
  intros Hs Hrun Hsm Hg Hl Hg' Hij Hr. pose proof (moves_reachable _ _ _ _ Hs Hrun) as Hs'.
  destruct (stays_lost _ _ _ _ _ _ _ Hs Hrun Hg Hl) as (gw2 & Hg2 & Hl'). rewrite Hg' in Hg2. injection Hg2 as <-.
  pose proof (lost_blocks ps fuel s' g gw' i j r Hs' Hsm Hg' Hl' Hij Hr) as Hno. split; [done|].
  intros p rt v Hp Hin. by eapply Hno, answered_is_logged.
Qed.

Lemma lost_request_blocks_gateway_witness : exists s s' gw r, Demo.too_early = Some s /\ Demo.connected s = Some s' /\
  Demo.holdings s' = [(1%nat, [1]); (0%nat, [1])] /\ s_gateways s' !! 0 = Some gw /\ gw_accepted gw !! 1%nat = Some r /\
  NewRequest_id r = 1 /\ NewRequest_id r ∉ log_of (history (w_db (s_world s'))).
Proof.
  destruct Demo.too_early_facts as (s & gw & E & Hs & Hg & Hl).
  destruct (Demo.connected_facts s E) as (s' & gw' & r & E' & Hsm & Hfit & Hh & Hg' & Hr & Hid). exists s, s', gw', r.
  split; [exact E|]. split; [exact E'|]. split; [exact Hh|]. split; [exact Hg'|]. split; [exact Hr|]. split; [exact Hid|].
  exact (proj1 (lost_request_blocks_gateway params_default 100 s s' 0 gw gw' 0 1 r Hs (run_moves_rtc _ _ _ _ E') Hsm
    Hg Hl Hg' ltac:(lia) Hr)).
Defined.
