(* ===== verification/SystemLive.v ===== *)
(** * Progress of the whole system

    From every reachable state in which a node has executed a request, the answer can still
    reach the socket that waits for it: the runtime of that node answers, its application
    notifies, and the gateway writes the text, whatever happened before and whatever the
    others do. *)
From S2P Require Import Prelude Types Values Protocol Epoch Decision App AppOffsets AppEpochs AppSteps.
From S2P Require Import Network Coordinator Cluster ClusterInv Gateway Waits Fiber Runtime Deployed DeployedSpec System SystemInv SystemSpec SystemLog.
Local Open Scope Z_scope.

(** ** The gateway *)
Section gateway.
Context `{Profile} `{PeerIds} `{!Json N2GWGossipMessage} {WebSocket : Type}.

(** The answer to [id] was written or can still be written to [sock]. *)
Definition in_hand (reg : gmap UniqueU64BlobId WebSocket) (effs : list (GwEffect WebSocket)) (id : UniqueU64BlobId) (sock : WebSocket) : Prop :=
  reg !! id = Some sock \/ id ∈ texted effs.

Lemma in_hand_update reg effs u id sock : in_hand reg effs id sock ->
  let '(reg', effs') := handle_update (reg, effs) u in
  in_hand reg' effs' id sock /\ (Meta_id (TxUpdate_meta u) = id -> id ∈ texted effs') /\ (id ∈ texted effs -> id ∈ texted effs').
Proof.
  intros Hin. unfold handle_update. destruct (reg !! Meta_id (TxUpdate_meta u)) as [sk|] eqn:E.
  - assert (Ht : Meta_id (TxUpdate_meta u) = id -> id ∈ texted (effs ++ [GwSocketText sk u;
      GwMonitor (Monitor_TxUpdate (TxUpdate_meta u) (TxUpdate_result u))])).
    { intros <-. rewrite texted_app. apply elem_of_app. right. left. }
    assert (Hmono : id ∈ texted effs -> id ∈ texted (effs ++ [GwSocketText sk u;
      GwMonitor (Monitor_TxUpdate (TxUpdate_meta u) (TxUpdate_result u))])) by (intros ?; rewrite texted_app; apply elem_of_app; by left).
    split; [|by split]. destruct Hin as [Hin|Hin]; [|right; by apply Hmono].
    destruct (decide (Meta_id (TxUpdate_meta u) = id)) as [Heq|Hne]; [right; by apply Ht|]. left.
    destruct (decide _); [by rewrite lookup_delete_ne|done].
  - assert (Hmono : id ∈ texted effs -> id ∈ texted (effs ++ [GwMonitor (Monitor_TxUpdate (TxUpdate_meta u) (TxUpdate_result u))]))
      by (intros ?; rewrite texted_app; apply elem_of_app; by left).
    split; [destruct Hin as [?|?]; [by left|right; by apply Hmono]|]. split; [|done]. intros <-.
    destruct Hin as [Hin|Hin]; [congruence|by apply Hmono].
Qed.

Lemma in_hand_updates us : forall reg effs id sock, in_hand reg effs id sock ->
  let '(reg', effs') := foldl handle_update (reg, effs) us in
  in_hand reg' effs' id sock /\ ((exists u, u ∈ us /\ Meta_id (TxUpdate_meta u) = id) -> id ∈ texted effs') /\
  (id ∈ texted effs -> id ∈ texted effs').
Proof.
  induction us as [|u us IH]; intros reg effs id sock Hin.
  { cbn. split; [done|]. split; [|done]. by intros (u & ?%not_elem_of_nil & _). }
  cbn [foldl]. pose proof (in_hand_update reg effs u id sock Hin) as Hone.
  destruct (handle_update (reg, effs) u) as [reg1 effs1]. destruct Hone as (Hin1 & Ht & Hm).
  specialize (IH reg1 effs1 id sock Hin1). destruct (foldl handle_update (reg1, effs1) us) as [reg' effs'].
  destruct IH as (Hin' & Ht' & Hm'). split; [done|]. split; [|by auto].
  intros (v & [->|Hv]%elem_of_cons & Hid); [by apply Hm', Ht|]. apply Ht'. by exists v.
Qed.

(** No answer is lost in the gateway, and no notification skipped. *)
Record gateway_live (gw : GwNode WebSocket) : Prop := {
  gl_read : (gw_read gw <= length (gw_updates gw))%nat;
  gl_waits : forall id sock, waits gw id sock -> in_hand (gw_registry gw) (gw_effects gw) id sock
}.

Lemma in_hand_quiet reg (effs new : list (GwEffect WebSocket)) id sock : in_hand reg effs id sock -> in_hand reg (effs ++ new) id sock.
Proof. intros [?|?]; [by left|right]. rewrite texted_app. apply elem_of_app. by left. Qed.

(** What a turn that takes an update leaves alone. *)
Record update_frame (gw gw' : GwNode WebSocket) : Prop := {
  uf_updates : gw_updates gw' = gw_updates gw;
  uf_read : gw_read gw' = S (gw_read gw);
  uf_accepted : gw_accepted gw' = gw_accepted gw;
  uf_handled : gw_handled gw' = gw_handled gw
}.

Lemma update_turn_frame gw gw' : gw_turn gw GwIn_Update = Some gw' -> update_frame gw gw'.
Proof.
  destruct gw as [c accepted handled registry effects forwarded peers wire updates read]. cbn. intros Hturn.
  apply bind_Some in Hturn as (m & Hm & Hturn). destruct (handle_inbox m registry) as [reg' new]. by injection Hturn as <-.
Qed.

Lemma update_turn_texts gw gw' id sock : gw_turn gw GwIn_Update = Some gw' -> in_hand (gw_registry gw) (gw_effects gw) id sock ->
  in_hand (gw_registry gw') (gw_effects gw') id sock /\ (id ∈ texted (gw_effects gw) -> id ∈ texted (gw_effects gw')) /\
  forall us u, gw_updates gw !! gw_read gw = Some (GwInbox_TxUpdates us) -> u ∈ us -> Meta_id (TxUpdate_meta u) = id ->
    id ∈ texted (gw_effects gw').
Proof.
  destruct gw as [c accepted handled registry effects forwarded peers wire updates read]. cbn. intros Hturn Hin.
  apply bind_Some in Hturn as ([us] & Hm & Hturn). cbn [handle_inbox] in Hturn.
  pose proof (in_hand_updates us registry effects id sock Hin) as Hu.
  pose proof (updates_after us registry effects []) as Ha. rewrite app_nil_r in Ha.
  destruct (foldl handle_update (registry, []) us) as [reg' new]. rewrite Ha in Hu. inversion Hturn; subst; clear Hturn. cbn.
  destruct Hu as (Hin' & Ht & Hmono). split_and!; try done. intros us' u Hus Hu Hid. rewrite Hm in Hus. injection Hus as <-.
  apply Ht. by exists u.
Qed.

Lemma live_turn g gw input gw' : core_ok g gw -> queue_ok gw -> gateway_live gw -> gw_turn gw input = Some gw' -> gateway_live gw'.
Proof.
  intros Hcore Hq [Hr Hw] Hturn. destruct input as [bp sock| | |ev|].
  5: { destruct (update_turn_frame _ _ Hturn) as [U R A Hd].
    assert (Hlt : (gw_read gw < length (gw_updates gw))%nat).
    { destruct gw. cbn in *. apply bind_Some in Hturn as (m & Hm & _). by apply lookup_lt_Some in Hm. }
    split; [rewrite U, R; lia|]. intros id sock. unfold waits. rewrite A, Hd. intros Hwt.
    by apply (update_turn_texts _ _ id sock Hturn), Hw. }
  all: pose proof (qo_handled _ Hq) as Hh; pose proof (co_ids _ _ Hcore) as Hids; pose proof (co_length _ _ Hcore) as Hlen.
  all: destruct gw as [c accepted handled registry effects forwarded peers wire updates read]; unfold waits in Hw; cbn in *.
  - destruct (send_request _ _ _) as [[core' r]| |]; inversion Hturn; subst; clear Hturn. split; [done|].
    intros id sk (q & Hin & E). cbn in *. rewrite take_app_le in Hin by done. apply Hw. by exists q.
  - apply bind_Some in Hturn as ([id bp sock] & Hr0 & Hturn). cbn in Hturn. inversion Hturn; subst; clear Hturn.
    split; [done|]. intros id' sk (q & Hin & Eq & Es). cbn in *. rewrite (take_S_r _ _ _ Hr0) in Hin.
    apply in_hand_quiet. apply elem_of_app in Hin as [Hin| ->%list_elem_of_singleton].
    + destruct (Hw id' sk) as [Hreg|Ht]; [by exists q| |by right]. left.
      destruct sock as [s0|]; [|done]. rewrite lookup_insert_ne; [done|]. intros ->. subst.
      apply list_elem_of_lookup in Hin as [i Hi]. apply lookup_take_Some in Hi as [Hi Hlt].
      pose proof (Hids _ _ Hi) as H1. pose proof (Hids _ _ Hr0) as H2. cbn in H2. rewrite H2 in H1.
      apply lookup_lt_Some in Hr0. apply RangeKey.slot_id_inj in H1 as [_ ?]; lia.
    + left. cbn in *. subst. apply lookup_insert_eq.
  - apply bind_Some in Hturn as (m & _ & Hturn). inversion Hturn; subst. by split.
  - destruct (gw_handle_swarm_event _ _) as [[peers' inbox] actions]. inversion Hturn; subst. split; [|done]. cbn.
    rewrite length_app. lia.
Qed.
End gateway.

(** ** The application *)
Section results.
Context `{Profile} `{PeerIds} `{HashOrder} `{Sha256}.

(** Results of stored transactions are taken without a panic. *)
Lemma results_taken rs : forall txs us, keys_ok txs -> (forall r, r ∈ rs -> is_Some (txs !! fst r)) ->
  exists txs' us', for_each rs finish_transaction (txs, us) = Ok (txs', us').
Proof.
  induction rs as [|[id v] rs IH]; intros txs us Hk Hall; [by eexists _, _|].
  destruct (Hall (id, v)) as [tx Htx]; [left|]. cbn in Htx. destruct (Hk _ _ Htx) as [Hl Hid].
  cbn [for_each]. assert (E : finish_transaction (txs, us) (id, v) = Ok (<[id := set_status TxStatus_Finished tx]> txs,
    us ++ [mkTxUpdate (Transaction_meta (set_status TxStatus_Finished tx)) (Some v)])).
  { unfold finish_transaction. cbn [fst snd]. rewrite Htx. cbn [expect mbind result_bind].
    change (tx_id (set_status TxStatus_Finished tx)) with (tx_id tx). by rewrite Hid, RangeKey.range_from_ok by by apply legal_addressable. }
  rewrite E. cbn [mbind result_bind].
  apply IH.
  - intros id' tx' [[<- <-]|[_ ?]]%lookup_insert_Some; [|by apply Hk]. by split.
  - intros r Hr. destruct (decide (fst r = id)) as [->|]; [rewrite lookup_insert_eq; by eexists|].
    rewrite lookup_insert_ne by done. apply Hall. by right.
Qed.

Lemma results_notify a rs : keys_ok (transactions a) -> (forall r, r ∈ rs -> is_Some (transactions a !! fst r)) -> rs <> [] ->
  exists a', app_step a (RuntimeResults rs) = Ok (a', [ToP2p (Outbox_NotifyGWs
    (map (fun r => mkTxUpdate (mkMeta (fst r) TxStatus_Finished) (Some (snd r))) rs))]).
Proof.
  intros Hk Hall Hne. destruct (results_taken rs (transactions a) [] Hk Hall) as (txs & us & Hrun). cbn [app_step].
  unfold handle_runtime_results. rewrite decide_False by (by intros ?%nil_length_inv). rewrite Hrun. cbn [mbind result_bind].
  apply (results_notified rs _ _ _ _ Hk) in Hrun as ->. by eexists.
Qed.
End results.

(** ** The system *)
Section system.
Context `{Profile} `{PeerIds} `{HashOrder} `{Sha256} `{BinaryHeap} `{Slab} {WebSocket : Type}.
Context `{!Json (@Epoch _)} `{!Etcd (json_bytes (A := @Epoch _))}.
Context `{!Json GossipMessage} `{!Json N2GWGossipMessage}.
Context (ps : Params) (fuel : nat).

(** A result the application has taken from the runtime was told to the gateways. *)
Definition told (w : World) (p : PeerId) (id : UniqueU64BlobId) (v : Value) : Prop :=
  exists us, (p, Outbox_NotifyGWs us) ∈ w_net w /\ mkTxUpdate (mkMeta id TxStatus_Finished) (Some v) ∈ us.

Record runtime_live (w : World) (p : PeerId) (rt : RtNode) : Prop := {
  rl_read : (rt_read rt <= length (Runtime.sent (rt_runtime rt)))%nat;
  rl_told : forall id v, (id, v) ∈ take (rt_read rt) (Runtime.sent (rt_runtime rt)) -> told w p id v
}.

Definition system_live (s : System WebSocket) : Prop :=
  (forall p rt, s_runtimes s !! p = Some rt -> runtime_live (s_world s) p rt) /\
  (forall g gw, s_gateways s !! g = Some gw -> gateway_live gw).

(** The runtime's answers only become more. *)
Lemma sent_grows submitted (w : World) p rt clock pc r : (10 <= fuel)%nat -> (forall id, blueprint_ok (submitted_task submitted id)) ->
  reachable ps submitted w -> small w -> runtime_ok w p rt -> rt_step fuel clock (rt_pc rt) (rt_runtime rt) = Ok (pc, r) ->
  Runtime.sent (rt_runtime rt) `prefix_of` Runtime.sent r.
Proof.
  intros Hf Hwf Hw Hsm (Hle & acc & ans & k & Hat) Hstep.
  destruct (inputs_taken_ok ps fuel submitted Hf Hwf w Hw Hsm p (rt_taken rt)) as [Hok Hlen].
  destruct (deployed_goes_on fuel clock _ _ _ _ _ _ Hat Hf Hok Hlen)
    as (pc' & r' & acc' & ans' & k' & before & Hs & Hst' & Hacc & Hb & _ & Hmono & _).
  rewrite Hstep in Hs. injection Hs as -> ->. destruct Hat as (Hst & _).
  apply stage_sent in Hst as (Hle1 & -> & _), Hst' as (Hle2 & -> & _).
  assert (E : take ans acc = take ans (take ans' acc')).
  { rewrite take_take, Nat.min_l by done. rewrite <-(take_app_le acc (requests_in (inputs_left (rt_runtime rt)))) by done.
    rewrite <-(take_app_le acc' (requests_in (inputs_left r'))) by lia. by rewrite Hacc. }
  rewrite E. exists (map answer (drop ans (take ans' acc'))). by rewrite <-map_app, take_drop.
Qed.

Lemma told_mono (w w' : World) p id v : w_net w `prefix_of` w_net w' -> told w p id v -> told w' p id v.
Proof. intros [new E] (us & Hin & Hu). exists us. split; [|done]. rewrite E. apply elem_of_app. by left. Qed.

Lemma live_world (w w' : World) p rt : w_net w `prefix_of` w_net w' -> runtime_live w p rt -> runtime_live w' p rt.
Proof. intros Hw [Hr Ht]. split; [done|]. intros id v Hin. by eapply told_mono, Ht. Qed.

Lemma grows_net (w w' : World) : world_grows w w' -> w_net w `prefix_of` w_net w'.
Proof. intros (_ & p & effs & ->). by apply prefix_app_r. Qed.

(** The application takes results: it tells all of them to the gateways. *)
Lemma results_sent a rs a' effs p : keys_ok (transactions a) -> app_step a (RuntimeResults rs) = Ok (a', effs) -> rs <> [] ->
  (p, Outbox_NotifyGWs (map (fun r => mkTxUpdate (mkMeta (fst r) TxStatus_Finished) (Some (snd r))) rs)) ∈ Cluster.sent p effs.
Proof.
  intros Hk Hrun Hne. cbn [app_step] in Hrun. unfold handle_runtime_results in Hrun.
  rewrite decide_False in Hrun by (by intros ?%nil_length_inv). apply bind_ok in Hrun as ([txs us] & Hres & Hrun). injection Hrun as _ <-.
  apply (results_notified rs _ _ _ _ Hk) in Hres as ->. by left.
Qed.

Lemma results_live (w w' : World) p rt k : let results := take k (drop (rt_read rt) (Runtime.sent (rt_runtime rt))) in
  w_net w `prefix_of` w_net w' -> runtime_live w p rt ->
  (results <> [] -> (p, Outbox_NotifyGWs (map (fun r => mkTxUpdate (mkMeta (fst r) TxStatus_Finished) (Some (snd r))) results)) ∈ w_net w') ->
  runtime_live w' p (mkRtNode (rt_pc rt) (rt_runtime rt) (rt_taken rt) (rt_read rt + length results)).
Proof.
  intros results Hnet [Hr Ht] Htold. split; cbn.
  - unfold results. rewrite length_take, length_drop. lia.
  - intros id v. rewrite <-take_take_drop. assert (E : take (length results) (drop (rt_read rt) (Runtime.sent (rt_runtime rt))) = results).
    { unfold results. by rewrite length_take, <-take_take, firstn_all. }
    rewrite E. intros [Hin|Hin]%elem_of_app; [by eapply told_mono, Ht|].
    eexists. split; [apply Htold; by intros ->; apply not_elem_of_nil in Hin|]. apply list_elem_of_fmap. by exists (id, v).
Qed.

(** The world's part of a step only adds messages; but for its own events a runtime stays. *)
Lemma live_act submitted (s : System WebSocket) ev s' : (10 <= fuel)%nat -> (forall id, blueprint_ok (submitted_task submitted id)) ->
  system_inv ps submitted s -> small (s_world s) -> (forall g gw, s_gateways s !! g = Some gw -> queue_ok gw) ->
  system_act fuel s ev = Some s' -> system_live s -> system_live s'.
Proof.
  intros Hf Hwf Hs Hsm Hq Hact [Hrt Hgw].
  assert (Hmv : forall w', world_grows (s_world s) w' -> system_live (with_world s w')).
  { intros w' Hg. split; [|done]. intros p rt Hp. eapply live_world; [by apply grows_net|by apply Hrt]. }
  assert (Hset : forall p rt, system_live s -> runtime_live (s_world s) p rt -> system_live (with_runtime s p rt)).
  { intros p rt [Hr Hg] Hl. split; [|done]. intros q rt'. cbn. intros [[<- <-]|[_ ?]]%lookup_insert_Some; [done|by apply Hr]. }
  destruct ev as [p ev|p k|p rev|p net|p|p clock|g input]; cbn [system_act] in Hact.
  - apply fmap_Some in Hact as (w' & Ha & ->). apply Hmv. by destruct (act_app_inv _ _ _ _ Ha) as (? & ? & ? & _ & _ & _ & ?).
  - apply bind_Some in Hact as (rt & Hp & Hact). apply bind_Some in Hact as (w' & Ha & Hact). injection Hact as <-.
    destruct (act_app_inv _ _ _ _ Ha) as (n & a & effs & Hn & Hstep & Hnet & Hg). destruct (Hmv w' Hg) as [Hr' Hg'].
    split; [|done]. intros q rt'. cbn. intros [[<- <-]|[_ ?]]%lookup_insert_Some; [|by apply Hr']. cbn [with_world s_world].
    apply results_live with (s_world s); [by apply grows_net|by apply Hrt|]. intros Hne.
    pose proof (reachable_inv ps submitted _ (si_world _ _ _ Hs) Hsm) as Hw.
    rewrite Hnet. apply elem_of_app. right. eapply results_sent; [|exact Hstep|exact Hne]. apply (inv_keys _ (ni_app _ _ _ _ _ (wi_nodes _ _ _ Hw p n Hn))).
  - apply fmap_Some in Hact as (w' & Ha & ->). apply Hmv. by destruct (act_watch_inv _ _ _ _ Ha).
  - apply fmap_Some in Hact as (w' & Ha & ->). apply Hmv. by destruct (act_commit_grows _ _ _ _ Ha).
  - apply bind_Some in Hact as (n & _ & Hact). apply bind_Some in Hact as (rt & Hp & Hact). apply bind_Some in Hact as (i & _ & Hact).
    injection Hact as <-. apply Hset; [by split|]. destruct (Hrt p rt Hp) as [Hr Ht]. by split.
  - apply bind_Some in Hact as (rt & Hp & Hact). destruct (rt_step _ _ _ _) as [[pc r]| |] eqn:E; try done. injection Hact as <-.
    apply Hset; [by split|]. destruct (Hrt p rt Hp) as [Hr Ht].
    destruct (sent_grows submitted _ p rt clock pc r Hf Hwf (si_world _ _ _ Hs) Hsm (si_runtimes _ _ _ Hs p rt Hp) E) as [more Em].
    split; cbn; rewrite Em; [rewrite length_app; lia|]. intros id v. rewrite take_app_le by done. apply Ht.
  - apply bind_Some in Hact as (gw & Hg & Hact). apply bind_Some in Hact as (gw' & Hturn & Hact). injection Hact as <-.
    split; [done|]. intros g' gw2. cbn. intros [[<- <-]|[_ ?]]%lookup_insert_Some; [|by eapply Hgw].
    destruct (si_gateways _ _ _ Hs g gw Hg) as (Hcore & _). eapply live_turn; [done|by eapply Hq|by eapply Hgw|done].
Qed.

Lemma lives (s : System WebSocket) : (10 <= fuel)%nat -> system_reachable ps fuel s -> small (s_world s) -> all_fit s -> system_live s.
Proof.
  intros Hf. induction 1 as [s (_ & Hrt & Hgw)|s ev s' Hr IH Hpos Hact]; intros Hsm Hfit.
  - split.
    + intros p rt (r & _ & ->)%Hrt. split; cbn; [lia|]. intros id v ?%not_elem_of_nil. done.
    + intros g gw (_ & core & _ & ->)%Hgw. split; cbn; [lia|]. intros id sock (r & Hr & _). cbn in Hr. by apply not_elem_of_nil in Hr.
  - assert (Hfit' : all_fit s) by (intros r Hr'; by eapply Hfit, system_act_accepts).
    pose proof (system_act_small _ (submitted_in s) _ _ _ Hact Hsm) as Hsm'.
    eapply (live_act (submitted_in s) s ev); [done|by apply submitted_fits|by apply (fitting_inv ps fuel)|done|by eapply queues_ok|exact Hact|by apply IH].
Qed.

(** *** The runtime catches up *)
Section runtime.
Context (submitted : UniqueU64BlobId -> TxBlueprint) (s : System WebSocket) (p : PeerId).
Context (Hf : (10 <= fuel)%nat) (Hwf : forall id, blueprint_ok (submitted_task submitted id)).
Context (Hw : reachable ps submitted (s_world s)) (Hsm : small (s_world s)).

Lemma deliver_all n : w_nodes (s_world s) !! p = Some n -> forall k rt, runtime_ok (s_world s) p rt ->
  (rt_taken rt + k = length (n_inputs n))%nat ->
  exists rt', rtc (system_move fuel) (with_runtime s p rt) (with_runtime s p rt') /\ runtime_ok (s_world s) p rt' /\
    rt_taken rt' = length (n_inputs n) /\ rt_read rt' = rt_read rt /\ Runtime.sent (rt_runtime rt') = Runtime.sent (rt_runtime rt).
Proof.
  intros Hn. assert (E : inputs_at (s_world s) p = n_inputs n) by (unfold inputs_at; by rewrite Hn).
  induction k as [|k IH]; intros rt Hok Hk; [exists rt; split; [done|]; split; [done|]; split; [lia|done]|].
  destruct (lookup_lt_is_Some_2 (n_inputs n) (rt_taken rt)) as [input Hin]; [lia|].
  pose proof (runtime_takes _ _ _ input Hok ltac:(by rewrite E)) as Hok'.
  destruct (IH _ Hok') as (rt' & Hrun & Hok2 & Ht & Hrd & Hs); [cbn; lia|]. exists rt'. split; [|done].
  eapply rtc_l; [|exact Hrun]. exists (Sys_Deliver p). split; [done|]. cbn [system_act with_runtime s_world s_runtimes].
  rewrite Hn. cbn [mbind option_bind]. rewrite lookup_insert_eq. cbn [mbind option_bind]. rewrite Hin. cbn [mbind option_bind].
  unfold with_runtime. cbn. by rewrite insert_insert_eq.
Qed.

Lemma run_steps clocks : forall pc r pc' r' taken read,
  for_each (map Rt_Step clocks) (rt_event fuel) (pc, r) = Ok (pc', r') ->
  rtc (system_move fuel) (with_runtime s p (mkRtNode pc r taken read)) (with_runtime s p (mkRtNode pc' r' taken read)).
Proof.
  induction clocks as [|clock clocks IH]; intros pc r pc' r' taken read Hrun; [by injection Hrun as <- <-|].
  cbn [map for_each] in Hrun. apply bind_ok in Hrun as ([pc1 r1] & Hone & Hrun). cbn [rt_event fst snd] in Hone.
  eapply rtc_l; [|by apply IH]. exists (Sys_Runtime p clock). split; [done|]. cbn [system_act with_runtime s_runtimes].
  rewrite lookup_insert_eq. cbn [mbind option_bind rt_pc rt_runtime]. rewrite Hone. unfold with_runtime. cbn.
  by rewrite insert_insert_eq.
Qed.

Lemma clock_passed (inputs : list Input) : exists now, Forall (fun i => fst i <= now) inputs.
Proof.
  induction inputs as [|i inputs [now IH]]; [by exists 0|]. exists (Z.max (fst i) now). constructor; [lia|].
  eapply Forall_impl; [exact IH|]. cbn. lia.
Qed.

Lemma runtime_catches_up n rt : w_nodes (s_world s) !! p = Some n -> s_runtimes s !! p = Some rt -> runtime_ok (s_world s) p rt ->
  exists rt', rtc (system_move fuel) s (with_runtime s p rt') /\ rt_read rt' = rt_read rt /\
    Runtime.sent (rt_runtime rt') = map answer (requests_in (n_inputs n)).
Proof.
  intros Hn Hp Hok. assert (E : inputs_at (s_world s) p = n_inputs n) by (unfold inputs_at; by rewrite Hn).
  assert (Es : s = with_runtime s p rt) by (destruct s; unfold with_runtime; cbn; by rewrite insert_id).
  destruct (deliver_all n Hn (length (n_inputs n) - rt_taken rt) rt Hok) as (rt1 & Hrun1 & Hok1 & Ht & Hrd & _).
  { destruct Hok as [Hle _]. rewrite E in Hle. lia. }
  destruct Hok1 as (_ & acc & ans & k & Hat). destruct (inputs_taken_ok ps fuel submitted Hf Hwf _ Hw Hsm p (rt_taken rt1)) as [Hin Hlen].
  destruct (clock_passed (take (rt_taken rt1) (inputs_at (s_world s) p))) as [now Hnow].
  destruct (deployed_drain fuel _ (replicate (work (rt_runtime rt1) acc ans k) (fun _ => now)) _ _ _ _ _ Hat Hf Hin Hlen)
    as (pc & r & acc' & ans' & k' & Hrun & Hat' & Hu).
  { by apply Forall_replicate. }
  { by rewrite length_replicate. }
  exists (mkRtNode pc r (rt_taken rt1) (rt_read rt1)). split.
  - rewrite Es at 1. etrans; [exact Hrun1|]. destruct rt1. exact (run_steps _ _ _ _ _ _ _ Hrun).
  - split; [done|]. cbn. destruct (deployed_all_sent _ _ _ _ _ _ Hat' Hu) as [-> _]. by rewrite Ht, E, firstn_all.
Qed.
End runtime.

(** *** The application tells the gateways *)
Lemma results_told (s : System WebSocket) p n rt id v : w_nodes (s_world s) !! p = Some n -> s_runtimes s !! p = Some rt ->
  keys_ok (transactions (n_app n)) -> runtime_live (s_world s) p rt ->
  (forall r, r ∈ Runtime.sent (rt_runtime rt) -> is_Some (transactions (n_app n) !! fst r)) ->
  (id, v) ∈ Runtime.sent (rt_runtime rt) ->
  exists s', rtc (system_move fuel) s s' /\ s_gateways s' = s_gateways s /\ w_db (s_world s') = w_db (s_world s) /\ told (s_world s') p id v.
Proof.
  intros Hn Hp Hk [_ Ht] Hall Hin. rewrite <-(take_drop (rt_read rt) (Runtime.sent (rt_runtime rt))) in Hin.
  apply elem_of_app in Hin as [Hin|Hin]; [exists s; split; [done|]; split; [done|]; split; [done|by apply Ht]|].
  set (results := drop (rt_read rt) (Runtime.sent (rt_runtime rt))) in *.
  assert (Hne : results <> []) by (intros E; rewrite E in Hin; by apply not_elem_of_nil in Hin).
  destruct (results_notify (n_app n) results Hk) as [a Ha]; [|done|].
  { intros r Hr. apply Hall. rewrite <-(take_drop (rt_read rt) (Runtime.sent (rt_runtime rt))). apply elem_of_app. by right. }
  eexists. split; [apply rtc_once; exists (Sys_Results p (length results)); split; [done|]; cbn [system_act]; rewrite Hp;
    cbn [mbind option_bind]; rewrite firstn_all; unfold act_app; rewrite Hn; cbn [mbind option_bind]; fold results; rewrite Ha; reflexivity|].
  split; [done|]. split; [done|]. eexists. split; [cbn; apply elem_of_app; right; by left|].
  apply list_elem_of_fmap. by exists (id, v).
Qed.

(** *** The gateway writes the text *)
Definition with_gateway (s : System WebSocket) g gw : System WebSocket := mkSystem (s_world s) (s_runtimes s) (<[g := gw]> (s_gateways s)).

Lemma gateway_move (s : System WebSocket) g gw input gw' : possible s (Sys_Gateway g input) -> gw_turn gw input = Some gw' ->
  system_move fuel (with_gateway s g gw) (with_gateway s g gw').
Proof.
  intros Hpos Hturn. exists (Sys_Gateway g input). split; [exact Hpos|]. cbn [system_act with_gateway s_gateways].
  rewrite lookup_insert_eq. cbn [mbind option_bind]. rewrite Hturn. unfold with_gateway. cbn. by rewrite insert_insert_eq.
Qed.

(** The gateway takes all updates it has; when one of them is for [id], it has been texted. *)
Lemma updates_read (s : System WebSocket) g id sock : forall k gw,
  (gw_read gw + k = length (gw_updates gw))%nat -> in_hand (gw_registry gw) (gw_effects gw) id sock ->
  exists gw', rtc (system_move fuel) (with_gateway s g gw) (with_gateway s g gw') /\ gw_accepted gw' = gw_accepted gw /\
    (id ∈ texted (gw_effects gw) -> id ∈ texted (gw_effects gw')) /\
    forall m us u, (gw_read gw <= m)%nat -> gw_updates gw !! m = Some (GwInbox_TxUpdates us) -> u ∈ us ->
      Meta_id (TxUpdate_meta u) = id -> id ∈ texted (gw_effects gw').
Proof.
  induction k as [|k IH]; intros gw Hk Hin.
  { exists gw. split; [done|]. split; [done|]. split; [done|]. intros m us u Hm Hl. apply lookup_lt_Some in Hl. lia. }
  destruct (lookup_lt_is_Some_2 (gw_updates gw) (gw_read gw)) as [[us0] Hm0]; [lia|].
  assert (Hturn : is_Some (gw_turn gw GwIn_Update)).
  { destruct gw. cbn in *. rewrite Hm0. cbn. destruct (foldl _ _ _). by eexists. }
  destruct Hturn as [gw1 Hturn]. destruct (update_turn_frame _ _ Hturn) as [U R A _].
  destruct (update_turn_texts _ _ id sock Hturn Hin) as (Hin1 & Hmono & Htext).
  destruct (IH gw1) as (gw' & Hrun & Hacc & Hmono' & Htext'); [rewrite U, R; lia|done|]. exists gw'. split_and!.
  - eapply rtc_l; [by eapply gateway_move; [|exact Hturn]|done].
  - by rewrite Hacc.
  - auto.
  - intros m us u Hm Hl Hu Hid. destruct (decide (m = gw_read gw)) as [->|Hne]; [by eapply Hmono', Htext|].
    eapply Htext'; [|by rewrite U|exact Hu|exact Hid]. lia.
Qed.

Lemma told_is_texted (s : System WebSocket) g gw p id v sock : (forall m : N2GWGossipMessage, is_Some (to_vec m)) ->
  s_gateways s !! g = Some gw -> gateway_live gw -> waits gw id sock -> told (s_world s) p id v ->
  exists gw', rtc (system_move fuel) s (with_gateway s g gw') /\ gw_accepted gw' = gw_accepted gw /\ id ∈ texted (gw_effects gw').
Proof.
  intros Henc Hg [Hrd Hw] Hwt (us & Hin & Hu). destruct (Henc (mkN2GWGossipMessage p (Node2GWTxUpdate us))) as [bytes Hb].
  assert (Es : s = with_gateway s g gw) by (destruct s; unfold with_gateway; cbn; by rewrite insert_id).
  assert (Hpub : possible s (Sys_Gateway g (GwIn_Swarm (Gw_Gossip bytes)))).
  { exists p, (Outbox_NotifyGWs us), {[p]}. split; [done|]. cbn. rewrite decide_False by by rewrite size_singleton. rewrite Hb. by left. }
  specialize (Hw id sock Hwt).
  assert (Hturn : exists gw1, gw_turn gw (GwIn_Swarm (Gw_Gossip bytes)) = Some gw1 /\ gw_accepted gw1 = gw_accepted gw /\
    gw_read gw1 = gw_read gw /\ gw_updates gw1 = gw_updates gw ++ [GwInbox_TxUpdates us] /\
    gw_registry gw1 = gw_registry gw /\ gw_effects gw1 = gw_effects gw).
  { destruct gw. cbn. rewrite (from_to_vec _ _ Hb). cbn. by eexists. }
  destruct Hturn as (gw1 & Hturn & Ha & Hr & Hup & Hreg & Heff).
  destruct (updates_read s g id sock (length (gw_updates gw1) - gw_read gw1) gw1) as (gw' & Hrun & Hacc & _ & Htext).
  { rewrite Hup, Hr, length_app. cbn. lia. }
  { by rewrite Hreg, Heff. }
  exists gw'. split_and!.
  - rewrite Es at 1. eapply rtc_l; [by eapply gateway_move; [|exact Hturn]|done].
  - by rewrite Hacc.
  - eapply (Htext (length (gw_updates gw))); [rewrite Hr; lia| |exact Hu|done]. by rewrite Hup, list_lookup_middle.
Qed.

(** *** From the quorum to the log *)

(** A node that has seen all epochs and stores what the quorum has, at its turn. *)
Record may_propose (w : World) (n : Node) (now : LogicalTimeAbsoluteMs) : Prop := {
  mp_seen : n_seen n = length (history (w_db w));
  mp_turn : should_send (send_decider (n_app n)) now = Ok true;
  mp_stored : forall r, offset_le (consensus_offset (n_app n) !! r) (self_offsets (n_app n) !! r);
  mp_room : Z.of_nat (S (length (history (w_db w)))) < u64_modulus
}.

Lemma chained_snoc h e cons : chained h -> offsets_ok cons -> increments_spec cons (committed_by h) (Epoch_increments e) ->
  chained (h ++ [e]).
Proof.
  intros Hch Hc Hspec k e' [Hk|[Hk Hl]]%lookup_app_Some.
  - rewrite take_app_le by (apply lookup_lt_Some in Hk; lia). by apply Hch.
  - apply list_lookup_singleton_Some in Hl as [Hk' <-]. assert (k = length h) as -> by lia. rewrite take_app_length. by exists cons.
Qed.

Lemma request_wins c db e : db_inv db -> epoch_ok e -> is_Some (to_vec e) ->
  Epoch_sequence_number e = Z.of_nat (length (history db)) ->
  (forall sn, last_committed_sn c = Some sn -> sn < Z.of_nat (length (history db))) ->
  exists c' db', request_changed c db (Some (mkEpochRequest e)) Delivered = Ok (c', db') /\ history db' = history db ++ [e] /\ db_inv db'.
Proof.
  intros Hdb [Hf Hl] [bytes Hb] Hseq Hsn. unfold request_changed. cbn [EpochRequest_epoch].
  rewrite decide_False by (intros E; symmetry in E; apply Hsn in E; lia).
  unfold handle_commit_new_epoch. cbn [EpochRequest_epoch]. rewrite new_elements_count_ok.
  - cbn [mbind result_bind]. rewrite Hb. cbn [expect mbind result_bind].
    pose proof (commit_txn_spec db e bytes Hdb Hb ltac:(lia) ltac:(lia)) as Ht. cbn zeta in Ht. rewrite decide_True in Ht by done.
    destruct Ht as (_ & Hh & Hinv). set (txn := mkTxn _ _) in *. destruct (db_txn txn db) as [db' ok]. cbn in Hh, Hinv.
    eexists _, db'. split; [reflexivity|]. done.
  - done.
  - assert (E : length (concat (map RangeKey.ids (Epoch_increments e))) = length (epoch_ids e)).
    { unfold epoch_ids. rewrite <-!flat_map_concat_map. apply Permutation_length, Permutation_flat_map.
      symmetry. apply RangeKey.sort_intervals_perm. }
    by rewrite E.
Qed.

Lemma proposes submitted (w : World) p n now : world_inv ps submitted w -> w_nodes w !! p = Some n -> may_propose w n now ->
  exists e, app_step (n_app n) (CommitTick now now) = Ok (n_app n, [ToCoordinator (mkEpochRequest e)]) /\
    Epoch_sequence_number e = Z.of_nat (length (history (w_db w))) /\
    increments_spec (consensus_offset (n_app n)) (committed_by (history (w_db w))) (Epoch_increments e).
Proof.
  intros Hw Hn [Hseen Hturn _ Hroom]. pose proof (wi_nodes _ _ _ Hw p n Hn) as Hni.
  destruct (chained_log _ (hist_chained _ _ _ Hw)) as (Hd & _). pose proof (consensus_valid _ _ _ _ _ Hni) as Hc.
  destruct (calculate_increments_spec _ _ Hc Hd) as (ivs & Eivs & Hspec).
  pose proof (ni_commited _ _ _ _ _ Hni) as Hcm. pose proof (ni_epochs _ _ _ _ _ Hni) as He. rewrite Hseen, firstn_all in Hcm, He.
  cbn [app_step]. unfold commit_epoch_if_needed. rewrite Hturn. cbn [mbind result_bind negb]. rewrite Hcm, Eivs. cbn [mbind result_bind].
  unfold Epoch.next. rewrite He, fmap_last.
  assert (Hnum : (match sort_increments <$> last (history (w_db w)) with
      | Some prev => u64_add (Epoch_sequence_number prev) 1 | None => Ok 0 end) = Ok (Z.of_nat (length (history (w_db w))))).
  { destruct (last (history (w_db w))) as [e|] eqn:El.
    - apply last_Some in El as [l El]. cbn. rewrite (inv_sequence _ (wi_db _ _ _ Hw) (length l) e) by by rewrite El, list_lookup_middle.
      rewrite El, length_app in *. cbn in *. rewrite u64_add_ok by (unfold u64_ok; lia). f_equal. lia.
    - apply last_None in El. by rewrite El. }
  rewrite Hnum. cbn [mbind result_bind]. eexists. split; [reflexivity|]. done.
Qed.

Lemma proposal_is_stored submitted (w : World) p n e : world_inv ps submitted w -> w_nodes w !! p = Some n ->
  (forall r, offset_le (consensus_offset (n_app n) !! r) (self_offsets (n_app n) !! r)) ->
  increments_spec (consensus_offset (n_app n)) (committed_by (history (w_db w))) (Epoch_increments e) ->
  forall id, id ∈ epoch_ids e -> is_Some (transactions (n_app n) !! id).
Proof.
  intros Hw Hn Hle Hspec id Hid. pose proof (wi_nodes _ _ _ Hw p n Hn) as Hni.
  destruct (chained_log _ (hist_chained _ _ _ Hw)) as (Hd & _).
  unfold epoch_ids in Hid. apply elem_of_concat_map in Hid as (i & Hi & Hid). rewrite RangeKey.sort_intervals_perm in Hi.
  apply Hspec in Hi as (r & o & Ho & Hno & ->). rewrite ids_of_slots in Hid. apply list_elem_of_fmap in Hid as (k & -> & Hk%elem_of_seqZ).
  destruct (Hle r o Ho) as (o' & Ho' & Hoo). pose proof (next_offset_nonneg (committed_by (history (w_db w))) r Hd).
  destruct (holds_stored _ _ w p r o' k Hw (holds_self _ _ w p n r o' Hni Hn Ho')) as (n' & Hn' & Hst); [lia|].
  rewrite Hn in Hn'. by injection Hn' as <-.
Qed.

(** The three moves of the node: it proposes, its coordinator commits, it executes. *)
Lemma proposing_moves submitted (w : World) p n now : world_inv ps submitted w -> w_nodes w !! p = Some n -> may_propose w n now ->
  (forall e : Epoch, is_Some (to_vec e)) ->
  exists e w1 w2 w3 n3, increments_spec (consensus_offset (n_app n)) (committed_by (history (w_db w))) (Epoch_increments e) /\
    act_app w p (CommitTick now now) = Some w1 /\ act_commit w1 p Delivered = Some w2 /\ act_watch w2 p None = Some w3 /\
    history (w_db w3) = history (w_db w) ++ [e] /\ w_nodes w3 !! p = Some n3 /\ n_seen n3 = S (n_seen n).
Proof.
  intros Hw Hn Hmp Henc. pose proof (wi_nodes _ _ _ Hw p n Hn) as Hni. pose proof (mp_seen _ _ _ Hmp) as Hseen.
  destruct (proposes _ _ _ _ _ Hw Hn Hmp) as (e & Hprop & Hseq & Hspec).
  pose proof (consensus_valid _ _ _ _ _ Hni) as Hc. pose proof (hist_chained _ _ _ Hw) as Hch.
  destruct (chained_log _ Hch) as (Hd & _). destruct (increments_spec_ok _ _ _ Hc Hd Hspec) as [Hiv Haddr].
  assert (Hok : epoch_ok e).
  { split; [done|]. pose proof (log_bound _ (chained_snoc _ _ _ Hch Hc Hspec)) as Hb.
    rewrite log_snoc, length_app in Hb. lia. }
  destruct (request_wins (n_coordinator n) (w_db w) e (wi_db _ _ _ Hw) Hok (Henc e) Hseq (ni_coordinator _ _ _ _ _ Hni))
    as (c & db & Hreq & Hh & Hdb).
  destruct (lookup_lt_is_Some_2 (db_events db MAROON_LATEST) (n_seen n)) as [bytes Hbytes].
  { rewrite <-(inv_decodes _ Hdb), Hh, length_app, Hseen. cbn. lia. }
  assert (Hdec : from_slice bytes = Some e).
  { pose proof (omap_total_lookup from_slice _ (n_seen n) (inv_decodes _ Hdb)) as Hl. fold (history db) in Hl.
    rewrite Hbytes, Hh, Hseen, list_lookup_middle in Hl by done. cbn in Hl. congruence. }
  destruct (handle_epoch_ok (n_app n) e Hok Haddr) as (txs & _ & Hexec).
  { eapply (proposal_is_stored _ _ p n e Hw Hn (mp_stored _ _ _ Hmp) Hspec). }
  eexists e, _, _, _, _. split; [exact Hspec|]. split_and!.
  - unfold act_app. rewrite Hn. cbn [mbind option_bind]. rewrite Hprop. reflexivity.
  - unfold act_commit. cbn [w_nodes]. rewrite lookup_insert_eq. cbn [mbind option_bind dispatch n_request n_coordinator w_db].
    unfold latest_request. cbn -[request_changed]. rewrite Hreq. reflexivity.
  - unfold act_watch. cbn [w_nodes]. rewrite lookup_insert_eq. cbn [mbind option_bind n_seen n_coordinator w_db]. rewrite Hbytes.
    cbn -[loop_until_shutdown]. rewrite Hdec. cbn -[app_step]. unfold loop_until_shutdown. cbn -[app_step].
    cbn [app_step]. rewrite Hexec. reflexivity.
  - exact Hh.
  - cbn. by rewrite lookup_insert_eq.
  - done.
Qed.

Lemma consensus_is_executed (s : System WebSocket) p n now : (10 <= fuel)%nat -> system_reachable ps fuel s -> all_fit s ->
  (forall e : Epoch, is_Some (to_vec e)) -> w_nodes (s_world s) !! p = Some n -> may_propose (s_world s) n now ->
  exists s' n', rtc (system_move fuel) s s' /\ s_gateways s' = s_gateways s /\ s_runtimes s' = s_runtimes s /\ small (s_world s') /\
    w_nodes (s_world s') !! p = Some n' /\
    forall r o k, consensus_offset (n_app n) !! r = Some o -> 0 <= k <= o -> RangeKey.slot_id r k ∈ sequence (linearizer (n_app n')).
Proof.
  intros Hf Hs Hfit Henc Hn Hmp. assert (Hsm : small (s_world s)) by (pose proof (mp_room _ _ _ Hmp); unfold small; lia).
  pose proof (fitting_inv ps fuel s Hf Hs Hsm Hfit) as Hinv. pose proof (reachable_inv ps _ _ (si_world _ _ _ Hinv) Hsm) as Hw.
  destruct (proposing_moves _ _ _ _ _ Hw Hn Hmp Henc) as (e & w1 & w2 & w3 & n3 & Hspec & A1 & A2 & A3 & Hh & Hn3 & Hseen).
  assert (Hrun : rtc (system_move fuel) s (with_world s w3)).
  { apply rtc_l with (with_world s w1); [exists (Sys_App p (CommitTick now now)); split; [done|cbn [system_act]; by rewrite A1]|].
    apply rtc_l with (with_world s w2); [exists (Sys_Commit p Delivered); split; [done|cbn [system_act with_world s_world]; by rewrite A2]|].
    apply rtc_once. exists (Sys_Watch p None). split; [done|]. cbn [system_act with_world s_world]. by rewrite A3. }
  exists (with_world s w3), n3. assert (Hsm3 : small (s_world (with_world s w3))).
  { unfold small. cbn. rewrite Hh, length_app. pose proof (mp_room _ _ _ Hmp). cbn. lia. }
  split_and!; try done. pose proof (moves_reachable _ _ _ _ Hs Hrun) as Hs3.
  pose proof (fitting_inv ps fuel _ Hf Hs3 Hsm3 Hfit) as Hinv3. pose proof (reachable_inv ps _ _ (si_world _ _ _ Hinv3) Hsm3) as Hw3.
  pose proof (hist_chained _ _ _ Hw) as Hch. destruct (chained_log _ Hch) as (Hd & _).
  pose proof (consensus_valid _ _ _ _ _ (wi_nodes _ _ _ Hw p n Hn)) as Hc.
  pose proof (hist_chained _ _ _ Hw3) as Hch3. cbn in Hch3, Hn3, Hw3.
  intros r o k Ho Hk. rewrite (ni_log _ _ _ _ _ (wi_nodes _ _ _ Hw3 p n3 Hn3)), Hseen, (mp_seen _ _ _ Hmp).
  rewrite take_ge by (cbn; rewrite Hh, length_app; cbn; lia). cbn. apply (chained_log _ Hch3). exists r, k. split; [|done].
  rewrite Hh. unfold next_offset. rewrite committed_snoc, (commit_increments (consensus_offset (n_app n)));
    [|done|done|eapply increments_spec_perm; [symmetry; apply RangeKey.sort_intervals_perm|done]].
  rewrite Ho. destruct (decide _) as [|Hlt]; [lia|]. unfold next_offset in Hlt.
  destruct (committed_by (history (w_db (s_world s))) !! r); lia.
Qed.

(** *** From the log of a node to the socket *)
Lemma accepted_unique g (gw : GwNode WebSocket) r q : core_ok g gw -> r ∈ gw_accepted gw -> q ∈ gw_accepted gw ->
  NewRequest_id r = NewRequest_id q -> r = q.
Proof.
  intros Hc (i & Hi)%list_elem_of_lookup (j & Hj)%list_elem_of_lookup Hid. pose proof (co_length _ _ Hc).
  rewrite (co_ids _ _ Hc _ _ Hi), (co_ids _ _ Hc _ _ Hj) in Hid. pose proof (lookup_lt_Some _ _ _ Hi). pose proof (lookup_lt_Some _ _ _ Hj).
  apply RangeKey.slot_id_inj in Hid as [_ ?]; [|lia..]. assert (i = j) as -> by lia. congruence.
Qed.

Lemma in_taken {A} (x : A) k l : x ∈ take k l -> x ∈ l.
Proof. intros (i & Hi & _)%elem_of_take. by eapply list_elem_of_lookup_2. Qed.

(** What is on a socket for a request is its answer. *)
Lemma texted_right (s : System WebSocket) g gw r sock a b : (10 <= fuel)%nat -> system_reachable ps fuel s -> small (s_world s) -> all_fit s ->
  s_gateways s !! g = Some gw -> r ∈ gw_accepted gw -> NewRequest_response_socket r = Some sock ->
  NewRequest_blueprint r = multiply_blueprint a b -> NewRequest_id r ∈ texted (gw_effects gw) ->
  GwSocketText sock (mkTxUpdate (mkMeta (NewRequest_id r) TxStatus_Finished) (Some (Value_U64 (a * b)))) ∈ gw_effects gw.
Proof.
  intros Hf Hs Hsm Hfit Hg Hr Hsock Hbp Ht. pose proof (fitting_inv ps fuel s Hf Hs Hsm Hfit) as Hinv.
  destruct (si_gateways _ _ _ Hinv g gw Hg) as (Hcore & _ & [Htexts _]).
  apply list_elem_of_omap in Ht as (eff & Heff & E). destruct eff as [| |sk u]; try done. injection E as Hid.
  destruct (to_texts _ _ _ _ Htexts sk u Heff) as (Hright & q & Hq & Hqid & Hqs). apply in_taken in Hq.
  assert (q = r) as -> by (eapply accepted_unique; [exact Hcore|exact Hq|exact Hr|congruence]).
  assert (sk = sock) as -> by congruence.
  destruct (right_request s r u (submitted_agrees ps fuel s Hs)) as (a' & b' & Hbp' & Hu); [by exists g, gw|done|done|].
  rewrite Hbp in Hbp'. injection Hbp' as <- <-. by rewrite <-Hu.
Qed.

Lemma answer_reaches (s : System WebSocket) g gw r sock a b p n rt : (10 <= fuel)%nat -> system_reachable ps fuel s -> small (s_world s) ->
  all_fit s -> (forall m : N2GWGossipMessage, is_Some (to_vec m)) ->
  s_gateways s !! g = Some gw -> r ∈ take (gw_handled gw) (gw_accepted gw) -> NewRequest_response_socket r = Some sock ->
  NewRequest_blueprint r = multiply_blueprint a b ->
  w_nodes (s_world s) !! p = Some n -> s_runtimes s !! p = Some rt -> NewRequest_id r ∈ sequence (linearizer (n_app n)) ->
  exists s' gw', rtc (system_move fuel) s s' /\ s_gateways s' !! g = Some gw' /\ gw_accepted gw' = gw_accepted gw /\
    w_db (s_world s') = w_db (s_world s) /\
    GwSocketText sock (mkTxUpdate (mkMeta (NewRequest_id r) TxStatus_Finished) (Some (Value_U64 (a * b)))) ∈ gw_effects gw'.
Proof.
  intros Hf Hs Hsm Hfit Henc Hg Hr Hsock Hbp Hn Hp Hlog. pose proof (fitting_inv ps fuel s Hf Hs Hsm Hfit) as Hinv.
  pose proof (submitted_fits s Hfit) as Hwf. pose proof (submitted_agrees ps fuel s Hs) as Hag. pose proof (in_taken _ _ _ Hr) as Hacc.
  pose proof (wi_nodes _ _ _ (reachable_inv ps _ _ (si_world _ _ _ Hinv) Hsm) p n Hn) as Hni.
  destruct (runtime_catches_up (submitted_in s) s p Hf Hwf (si_world _ _ _ Hinv) Hsm n rt Hn Hp (si_runtimes _ _ _ Hinv p rt Hp))
    as (rt1 & Hrun1 & _ & Hsent).
  rewrite (ni_inputs _ _ _ _ _ Hni), requests_in_log, <-(ni_log _ _ _ _ _ Hni) in Hsent.
  pose proof (moves_reachable ps fuel _ _ Hs Hrun1) as Hs1. set (s1 := with_runtime s p rt1) in *.
  assert (Hp1 : s_runtimes s1 !! p = Some rt1) by (cbn; by rewrite lookup_insert_eq).
  destruct (lives s1 Hf Hs1 Hsm Hfit) as [Hrl Hgl].
  destruct (results_told s1 p n rt1 (NewRequest_id r) (Value_U64 (a * b)) Hn Hp1) as (s2 & Hrun2 & Hg2 & Hdb2 & Htold).
  - apply (inv_keys _ (ni_app _ _ _ _ _ Hni)).
  - by apply Hrl.
  - intros o Ho. rewrite Hsent in Ho. apply list_elem_of_fmap in Ho as (q & -> & Hq). apply list_elem_of_omap in Hq as (id & Hid & Hat).
    cbn. rewrite (request_at_id _ _ _ Hat). by apply (ni_stored _ _ _ _ _ Hni).
  - rewrite Hsent. apply list_elem_of_fmap. exists (mkReq (NewRequest_id r) a b). split; [done|]. apply list_elem_of_omap.
    exists (NewRequest_id r). split; [done|]. unfold request_at, submitted_task, request_of. cbn.
    rewrite (Hag r ltac:(by exists g, gw)), Hbp. cbn. by rewrite decide_True by done.
  - pose proof (moves_reachable ps fuel _ _ Hs1 Hrun2) as Hs2.
    destruct (told_is_texted s2 g gw p (NewRequest_id r) (Value_U64 (a * b)) sock Henc) as (gw' & Hrun3 & Hacc' & Ht);
      [by rewrite Hg2|by apply (Hgl g)|by exists r|exact Htold|].
    set (s3 := with_gateway s2 g gw') in *. assert (Hg3 : s_gateways s3 !! g = Some gw') by (cbn; by rewrite lookup_insert_eq).
    exists s3, gw'. split; [by etrans; [|etrans]|]. split; [done|]. split; [done|]. split; [done|].
    apply (texted_right s3 g gw'); try done.
    + by eapply moves_reachable.
    + unfold small. cbn. by rewrite Hdb2.
    + intros q (g0 & gw0 & Hg0 & Hq). apply Hfit. cbn in Hg0. rewrite Hg2 in Hg0.
      apply lookup_insert_Some in Hg0 as [[<- <-]|[_ Hg0]]; [exists g, gw; by rewrite <-Hacc'|by exists g0, gw0].
    + by rewrite Hacc'.
Qed.

(** A node can answer the request: it has executed it, or it can have it executed, as a
    quorum stores it and it is the node's turn to propose. *)
Inductive answerable (s : System WebSocket) (p : PeerId) (id : UniqueU64BlobId) : Prop :=
| answerable_executed n : w_nodes (s_world s) !! p = Some n -> small (s_world s) -> id ∈ sequence (linearizer (n_app n)) -> answerable s p id
| answerable_replicated n now o : w_nodes (s_world s) !! p = Some n -> may_propose (s_world s) n now ->
    consensus_offset (n_app n) !! range_of id = Some o -> id mod RangeKey.SINGLE_BLOB_SIZE <= o -> answerable s p id.

Lemma answerable_in_log (s : System WebSocket) p g gw r : (10 <= fuel)%nat -> system_reachable ps fuel s -> all_fit s ->
  (forall e : Epoch, is_Some (to_vec e)) -> s_gateways s !! g = Some gw -> r ∈ gw_accepted gw -> answerable s p (NewRequest_id r) ->
  exists s' n', rtc (system_move fuel) s s' /\ s_gateways s' = s_gateways s /\ s_runtimes s' = s_runtimes s /\ small (s_world s') /\
    w_nodes (s_world s') !! p = Some n' /\ NewRequest_id r ∈ sequence (linearizer (n_app n')).
Proof.
  intros Hf Hs Hfit Henc Hg Hr [n Hn Hsm Hin|n now o Hn Hmp Ho Hle]; [by exists s, n|].
  destruct (consensus_is_executed s p n now Hf Hs Hfit Henc Hn Hmp) as (s' & n' & Hrun & Eg & Er & Hsm & Hn' & Hlog).
  exists s', n'. split_and!; try done. pose proof (cores_ok _ _ s Hs _ _ Hg) as Hc. pose proof (co_length _ _ Hc).
  apply list_elem_of_lookup in Hr as [i Hi]. pose proof (co_ids _ _ Hc _ _ Hi) as Hid. apply lookup_lt_Some in Hi.
  rewrite Hid in *. unfold range_of in Ho. rewrite RangeKey.slot_id_div in Ho by lia. rewrite RangeKey.slot_id_mod in Hle by lia.
  eapply Hlog; [exact Ho|lia].
Qed.
End system.

(** ** Examples *)
Module Demo.
#[local] Existing Instance dev_profile.
#[local] Existing Instance nat_peers.
#[local] Existing Instance list_order.
#[local] Existing Instance test_hash.
#[local] Existing Instance list_heap.
#[local] Existing Instance gmap_slab.
#[local] Existing Instance Coordinator.test_epoch_json.
#[local] Existing Instance ClusterInv.Demo.etcd.
#[local] Existing Instance SystemSpec.Demo.gossip_json.
#[local] Existing Instance SystemSpec.Demo.n2gw_json.

(** Both nodes hold the request for 6 * 7, and node 0 knows. *)
Definition replicated : option (System nat) := run_moves 100 SystemSpec.Demo.beginning (take 10 SystemSpec.Demo.moves).

Definition goes_on : System nat -> System nat -> Prop := system_move 100.

Definition node_facts (n : Node) :=
  (n_seen n, should_send (send_decider (n_app n)) 61, consensus_offset (n_app n), self_offsets (n_app n)).

Lemma replicated_facts : exists s gw rt n r, replicated = Some s /\ system_reachable params_default 100 s /\ all_fit s /\
  s_gateways s !! 0 = Some gw /\ s_runtimes s !! 0%nat = Some rt /\ w_nodes (s_world s) !! 0%nat = Some n /\
  may_propose (s_world s) n 61 /\ consensus_offset (n_app n) = {[0 := 0]} /\ texted (gw_effects gw) = [] /\
  r ∈ take (gw_handled gw) (gw_accepted gw) /\ NewRequest_response_socket r = Some 5%nat /\
  NewRequest_blueprint r = multiply_blueprint 6 7 /\ NewRequest_id r = 0.
Proof.
  assert (E : (fun s => (SystemLog.Demo.requests s, length (history (w_db (s_world s))), (fun _ => tt) <$> s_runtimes s !! 0%nat,
      (fun gw => (texted (gw_effects gw), gw_handled gw, gw_accepted gw)) <$> s_gateways s !! 0,
      node_facts <$> w_nodes (s_world s) !! 0%nat)) <$> replicated
    = Some ([multiply_blueprint 6 7], 0%nat, Some tt,
        Some ([], 1%nat, [mkNewRequest 0 (multiply_blueprint 6 7) (Some 5%nat)]),
        Some (0%nat, Ok true, {[0 := 0]}, {[0 := 0]}))) by (vm_compute; reflexivity).
  destruct replicated as [s|] eqn:Hrun; [|done]. injection E as Eq El Ert Eg En.
  apply fmap_Some in Ert as (rt & Hrt & _). apply fmap_Some in Eg as (gw & Hg & [= Et Eh Ea]), En as (n & Hn & [= Es Et' Ec Eo]).
  exists s, gw, rt, n, (mkNewRequest 0 (multiply_blueprint 6 7) (Some 5%nat)). rewrite <-Eh, <-Ea.
  split; [done|]. split; [eapply run_moves_reachable; [apply sys_initial, SystemSpec.Demo.beginning_initial|exact Hrun]|].
  split. { eapply SystemLog.Demo.requests_fit; [exact Eq|]. repeat constructor. intros _. exists 6, 7. split; [done|u64_solve]. }
  split; [exact Hg|]. split; [exact Hrt|]. split; [exact Hn|]. split; [|split_and!; first [exact (eq_sym Ec)|exact (eq_sym Et)|reflexivity|by left]].
  constructor; [by rewrite <-Es, El|done| |by rewrite El].
  intros r. rewrite <-Ec, <-Eo. apply offset_le_refl.
Qed.
End Demo.

(** ** Properties *)

(** C4: no dead end. Take a reachable state of the whole system, whatever was lost or
    delayed before, in which every request accepted so far for the program's queue is a
    pair of numbers whose product fits in 64 bits ([all_fit]; a malformed request can stop
    the runtimes for good). Let a gateway have handled a well-formed request with a socket,
    and let some node with a runtime either have executed that request, or know that a
    quorum stores it, have seen all epochs, hold what it would propose itself and be at its
    turn, with an epoch number left. Then the system can go on so that the socket of the
    request has received its answer, the product of its two numbers, as long as epochs and
    messages to the gateways can be encoded. *)
Theorem answer_stays_possible `{Profile} `{PeerIds} `{HashOrder} `{Sha256} `{BinaryHeap} `{Slab} {WebSocket : Type}
  `{!Json (@Epoch _)} `{!Etcd (json_bytes (A := @Epoch _))} `{!Json GossipMessage} `{!Json N2GWGossipMessage}
  ps fuel (s : System WebSocket) g gw r sock a b p rt :
  system_reachable ps fuel s -> (10 <= fuel)%nat -> all_fit s ->
  (forall e : Epoch, is_Some (to_vec e)) -> (forall m : N2GWGossipMessage, is_Some (to_vec m)) ->
  s_gateways s !! g = Some gw -> r ∈ take (gw_handled gw) (gw_accepted gw) ->
  NewRequest_response_socket r = Some sock -> NewRequest_blueprint r = multiply_blueprint a b ->
  s_runtimes s !! p = Some rt -> answerable s p (NewRequest_id r) ->
  exists s' gw', rtc (system_move fuel) s s' /\ s_gateways s' !! g = Some gw' /\ gw_accepted gw' = gw_accepted gw /\
    GwSocketText sock (mkTxUpdate (mkMeta (NewRequest_id r) TxStatus_Finished) (Some (Value_U64 (a * b)))) ∈ gw_effects gw'.
Proof.
  intros Hs Hf Hfit Henc Henc' Hg Hr Hsock Hbp Hp Hans.
  destruct (answerable_in_log ps fuel s p g gw r Hf Hs Hfit Henc Hg (in_taken _ _ _ Hr) Hans)
    as (s1 & n & Hrun & Eg & Er & Hsm & Hn & Hlog).
  assert (Hfit1 : all_fit s1) by (intros q (g0 & gw0 & Hg0 & Hq); apply Hfit; exists g0, gw0; by rewrite <-Eg).
  destruct (answer_reaches ps fuel s1 g gw r sock a b p n rt Hf (moves_reachable _ _ _ _ Hs Hrun) Hsm Hfit1 Henc')
    as (s' & gw' & Hrun' & Hg' & Hacc & _ & Htext); [by rewrite ?Eg, ?Er..|].
  exists s', gw'. split; [by etrans|]. by split_and!.
Qed.

Lemma answer_stays_possible_witness : exists s s' gw gw', Demo.replicated = Some s /\ s_gateways s !! 0 = Some gw /\
  texted (gw_effects gw) = [] /\ rtc Demo.goes_on s s' /\ s_gateways s' !! 0 = Some gw' /\
  GwSocketText 5%nat (mkTxUpdate (mkMeta 0 TxStatus_Finished) (Some (Value_U64 42))) ∈ gw_effects gw'.
Proof.
  destruct Demo.replicated_facts as (s & gw & rt & n & r & E & Hs & Hfit & Hg & Hp & Hn & Hmp & Hc & Ht & Hr & Hsock & Hbp & Hid).
  destruct (answer_stays_possible params_default 100 s 0 gw r 5%nat 6 7 0%nat rt Hs ltac:(lia) Hfit) as (s' & gw' & Hrun & Hg' & _ & Htext).
  - intros e. by exists e.
  - intros m. by exists m.
  - exact Hg.
  - exact Hr.
  - exact Hsock.
  - exact Hbp.
  - exact Hp.
  - rewrite Hid. apply (answerable_replicated s 0%nat 0 n 61 0 Hn Hmp); [by rewrite Hc|done].
  - rewrite Hid in Htext. exists s, s', gw, gw'. split; [exact E|]. split; [exact Hg|]. split; [exact Ht|]. split; [exact Hrun|].
    split; [exact Hg'|exact Htext].
Defined.
