(* ===== verification/NodeTests.v ===== *)
(** * Tests of the node

    The unit tests of types/src/range_key.rs, maroon/src/linearizer.rs,
    maroon/src/epoch_decision_engine.rs and maroon/src/app/app.rs, and the black-box tests of
    maroon/src/app/tests_single.rs, as scripts over the model. A script is the body of the
    test, with its table of cases, and holds when every assertion of the test does; peers
    are numbers, and a test that waits becomes a sequence of events. *)
From S2P Require Import Prelude Types Values Protocol Epoch Decision App AppOffsets.
Local Open Scope Z_scope.

Module Setting.
#[export] Existing Instance dev_profile.
#[export] Existing Instance nat_peers.
#[export] Existing Instance list_order.
#[export] Existing Instance test_hash.

(** A [#[should_panic]] test. *)
Definition panics {A} (r : result A) : Prop := exists msg, r = Panic msg.

Definition interval (l r : Z) : RangeKey.U64BlobIdClosedInterval := RangeKey.MkInterval l r.

(** [test_tx]. *)
Definition test_tx (id : UniqueU64BlobId) : Transaction :=
  mkTransaction (mkMeta id TxStatus_Pending)
    (mkTxBlueprint "testInfiniteCalculatorQueue"
       (Value_TestInfiniteSummatorQueueMessagePub (mkTestInfiniteSummatorQueueMessagePub 5 7))).

Definition test_txs (ids : list UniqueU64BlobId) : gmap UniqueU64BlobId Transaction :=
  list_to_map (map (fun id => (id, test_tx id)) ids).
End Setting.
Import Setting.

Ltac run_test := vm_compute; repeat split; reflexivity.

(** ** Key ranges *)
Module KeyRanges.

Definition test_range_offset_from_unique_blob_id : Prop :=
  Forall (fun '(key, ex_range, ex_offset) =>
    RangeKey.range_offset_from_unique_blob_id key = Ok (ex_range, ex_offset) /\
    RangeKey.unique_blob_id_from_range_and_offset ex_range ex_offset = Ok key)
    [(0, 0, 0); (1, 0, 1); (1073741824, 1, 0)].

Definition test_transaction_id_operation : Prop := u64_sub 15 10 = Ok 5.

Definition test_unique_blob_overflow : Prop :=
  (i ← RangeKey.new 0 u64_max; RangeKey.ids_count i) = Panic "interval too large: would overflow when adding 1".

Definition test_unique_blob_creation : Prop := panics (RangeKey.new 10 0).

Definition test_correct_sorting : Prop :=
  RangeKey.sort_intervals [interval 10 20; interval 1 5; interval 11 14; interval 8 16]
  = [interval 1 5; interval 8 16; interval 10 20; interval 11 14].

(** Every call of [iter.next()], and the iterator after it. *)
Definition test_interval_iterator : Prop :=
  RangeKey.iter_next (interval 5 8) 5 = Ok (Some 5, 6) /\
  RangeKey.iter_next (interval 5 8) 6 = Ok (Some 6, 7) /\
  RangeKey.iter_next (interval 5 8) 7 = Ok (Some 7, 8) /\
  RangeKey.iter_next (interval 5 8) 8 = Ok (Some 8, 9) /\
  RangeKey.iter_next (interval 5 8) 9 = Ok (None, 9) /\
  RangeKey.iter_next (interval 5 5) 5 = Ok (Some 5, 6) /\
  RangeKey.iter_next (interval 5 5) 6 = Ok (None, 6).

Example key_range_tests : test_range_offset_from_unique_blob_id /\ test_transaction_id_operation /\
  test_unique_blob_overflow /\ test_unique_blob_creation /\ test_correct_sorting /\ test_interval_iterator.
Proof.
  split; [by repeat constructor|]. split; [done|]. split; [done|]. split; [by eexists|]. split; [done|]. run_test.
Qed.
End KeyRanges.

(** ** The linearizer *)
Module Linearizer.

Definition offsets_interval (range left right : Z) : result RangeKey.U64BlobIdClosedInterval :=
  RangeKey.new_from_range_and_offsets range left right.

Definition test_linear_run : result LogLineriazer :=
  i1 ← offsets_interval 3 0 0; i2 ← offsets_interval 0 0 2; i3 ← offsets_interval 1 0 3;
  e1 ← Epoch.next 7%nat [i1; i2; i3] None 100;
  linearizer ← new_epoch linearizer_new e1;
  i1 ← offsets_interval 4 0 1; i2 ← offsets_interval 0 3 5;
  e2 ← Epoch.next 7%nat [i1; i2] None 200;
  new_epoch linearizer e2.

Definition test_linear_expected : list (KeyRange * KeyOffset) :=
  [(0, 0); (0, 1); (0, 2); (1, 0); (1, 1); (1, 2); (1, 3); (3, 0);
   (0, 3); (0, 4); (0, 5); (4, 0); (4, 1)].

Example test_linear :
  (linearizer ← test_linear_run; Ok (map Ok (sequence linearizer)))
  = Ok (map (fun '(range, offset) => RangeKey.unique_blob_id_from_range_and_offset range offset) test_linear_expected).
Proof. run_test. Qed.
End Linearizer.

(** ** The epoch decision engine *)
Module Engine.

(** Nodes, the node itself, the latest committer and the expected position. *)
Definition test_calculate_position_cases : list (list PeerId * PeerId * option PeerId * nat) :=
  let peer_id_1 := 1%nat in let peer_id_2 := 2%nat in let peer_id_3 := 3%nat in
  let peer_id_4 := 4%nat in let peer_id_5 := 5%nat in
  [([peer_id_1; peer_id_2], peer_id_2, None, 1%nat);
   ([peer_id_1; peer_id_2], peer_id_2, Some peer_id_2, 1%nat);
   ([peer_id_1; peer_id_2], peer_id_2, Some peer_id_5, 1%nat);  (* an unknown publisher is ignored *)
   ([peer_id_1; peer_id_2; peer_id_3; peer_id_4], peer_id_1, Some peer_id_3, 2%nat);
   ([peer_id_1; peer_id_2; peer_id_3; peer_id_4], peer_id_3, Some peer_id_2, 1%nat)].

Example test_calculate_position :
  Forall (fun '(nodes, self_id, latest_id, exp_position) =>
            calculate_position nodes self_id latest_id = exp_position) test_calculate_position_cases.
Proof. by repeat constructor. Qed.

(** [new_test], with the timer of the test beside the engine. *)
Definition new_test (id : PeerId) (tick_delta now_ms : Z) : EpochDecisionEngine * LogicalTimeAbsoluteMs :=
  (Decision.new id tick_delta, LogicalTime.from_millis now_ms).

Definition test_decider_run : result (list bool) :=
  let p_id_1 := 1%nat in let p_id_2 := 2%nat in let p_id_3 := 3%nat in let p_id_4 := 4%nat in
  let '(decider, timer) := new_test p_id_2 60 0 in
  b1 ← should_send decider timer;
  timer ← LogicalTime.add timer 70;
  b2 ← should_send decider timer;
  let decider := update_node_ids decider {[p_id_2]} in
  b3 ← should_send decider timer;
  let decider := update_node_ids decider {[p_id_2; p_id_1]} in
  b4 ← should_send decider timer;
  timer ← LogicalTime.add timer 60;
  b5 ← should_send decider timer;
  let decider := update_latest_epoch decider p_id_1 60 in
  b6 ← should_send decider timer;
  let decider := update_node_ids decider {[p_id_2; p_id_3; p_id_4]} in
  b7 ← should_send decider timer;
  Ok [b1; b2; b3; b4; b5; b6; b7].

Example test_decider : test_decider_run = Ok [false; true; true; false; true; false; true].
Proof. run_test. Qed.
End Engine.

(** ** The functions of the application *)
Module AppUnits.

Definition calculate_consensus_maximum_cases : list (list (PeerId * KeyOffset) * option KeyOffset) :=
  let p_id_1 := 1%nat in let p_id_2 := 2%nat in let p_id_3 := 3%nat in
  [([], None);
   ([(p_id_1, 10)], None);
   ([(p_id_1, 10); (p_id_2, 2); (p_id_3, 4)], Some 4)].

Example calculate_consensus_maximum :
  Forall (fun '(map, want) => consensus_maximum (list_to_map map) 2 = Ok want) calculate_consensus_maximum_cases.
Proof. by repeat constructor. Qed.

(** The offsets and transactions before, the new transaction, and those after. *)
Record UpdateCase := mkUpdateCase {
  label : string;
  initial_self_offsets : gmap KeyRange KeyOffset;
  initial_transactions : gmap UniqueU64BlobId Transaction;
  transaction : Transaction;
  expected_self_offsets : gmap KeyRange KeyOffset;
  expected_transactions : gmap UniqueU64BlobId Transaction
}.

Definition update_self_offset_cases : list UpdateCase :=
  [mkUpdateCase "empty" ∅ ∅ (test_tx 0) {[0 := 0]} (test_txs [0]);
   mkUpdateCase "add already existing transaction. no effect"
     {[0 := 0]} (test_txs [0]) (test_tx 0) {[0 := 0]} (test_txs [0]);
   mkUpdateCase "add next transaction" {[0 := 0]} (test_txs [0]) (test_tx 1) {[0 := 1]} (test_txs [0; 1]);
   mkUpdateCase "add transaction, fill the gap, empty initial offset"
     ∅ (test_txs [1]) (test_tx 0) {[0 := 1]} (test_txs [0; 1]);
   mkUpdateCase "add transaction, fill the gap, dont go till the end"
     {[0 := 0]} (test_txs [0; 2; 4]) (test_tx 1) {[0 := 2]} (test_txs [0; 1; 2; 4]);
   mkUpdateCase "add transaction, fill the gap but not in the beginning"
     {[0 := 0]} (test_txs [0; 2; 4]) (test_tx 3) {[0 := 0]} (test_txs [0; 3; 2; 4])].

Definition update_self_offset_test (case : UpdateCase) : Prop :=
  ('(self_offsets, transactions, _) ←
     update_self_offset (initial_self_offsets case) (initial_transactions case) (transaction case);
   Ok (self_offsets, transactions)) = Ok (expected_self_offsets case, expected_transactions case).

Example update_self_offset_tests : Forall update_self_offset_test update_self_offset_cases.
Proof. repeat constructor; run_test. Qed.

Record DelayCase := mkDelayCase {
  delay_label : string;
  delay_self_offsets : gmap KeyRange KeyOffset;
  delay_transactions : gmap UniqueU64BlobId Transaction;
  delay_offsets : gmap KeyRange (gmap PeerId KeyOffset);
  expected_ranges : gmap PeerId (list RangeKey.U64BlobIdClosedInterval)
}.

Definition self_delays_cases : list DelayCase :=
  let peer_id_0 := 0%nat in let peer_id_1 := 1%nat in
  let id range offset := RangeKey.slot_id range offset in
  [mkDelayCase "empty everything" ∅ ∅ ∅ ∅;
   mkDelayCase "self in front" {[0 := 5; 2 := 3]} ∅
     {[0 := {[peer_id_0 := 5; peer_id_1 := 2]}; 2 := {[peer_id_0 := 1; peer_id_1 := 2]}]} ∅;
   mkDelayCase "self behind few and few gaps in txs" {[0 := 1; 2 := 1]} (test_txs [5; 6])
     {[0 := {[peer_id_0 := 8; peer_id_1 := 2]};
       2 := {[peer_id_0 := 3; peer_id_1 := 1]};
       3 := {[peer_id_0 := 1; peer_id_1 := 3]}]}
     {[peer_id_0 := [interval 2 4; interval 7 8; interval (id 2 2) (id 2 3)];
       peer_id_1 := [interval (id 3 0) (id 3 3)]]}].

Definition self_delays_test (case : DelayCase) : Prop :=
  (ranges ← self_delays (delay_transactions case) (delay_self_offsets case) (delay_offsets case);
   Ok (fmap (M := gmap PeerId) RangeKey.sort_intervals ranges)) = Ok (expected_ranges case).

Example test_self_delays_calculation : Forall self_delays_test self_delays_cases.
Proof. repeat constructor; run_test. Qed.

(** A label, the agreed and the committed offsets, and the increments expected. *)
Definition calculate_epoch_increments_cases
  : list (string * gmap KeyRange KeyOffset * gmap KeyRange KeyOffset * list RangeKey.U64BlobIdClosedInterval) :=
  [("empty everything"%string, ∅, ∅, []);
   ("nothing commited before"%string, {[0 := 2]}, ∅, [interval 0 2]);
   ("only one tx"%string, {[0 := 0]}, ∅, [interval 0 0]);
   ("no progress"%string, {[0 := 2]}, {[0 := 2]}, []);
   ("one progress"%string, {[0 := 3]}, {[0 := 2]}, [interval 3 3]);
   ("consensus delayed by any reasons"%string, {[0 := 1]}, {[0 := 2]}, []);
   ("progress in some"%string, {[0 := 10; 1 := 2; 2 := 6]}, {[0 := 6; 1 := 2; 2 := 8]}, [interval 7 10])].

Example test_calculate_epoch_increments :
  Forall (fun '(_, consensus_offset, commited_offsets, expected_increments) =>
    (increments ← calculate_epoch_increments consensus_offset commited_offsets;
     Ok (RangeKey.sort_intervals increments)) = Ok expected_increments) calculate_epoch_increments_cases.
Proof. repeat constructor; run_test. Qed.
End AppUnits.

(** ** The application as a black box

    The state of the node under test is asked for at the end of the events (the tests ask up
    to three times), and the other side of its channels is what it sent. *)
Module BlackBox.

Definition new_test_instance_with_params (params : Params) : App := app_new 0%nat params.
Definition new_test_instance : App := new_test_instance_with_params params_default.

Definition receive (msg : Inbox) : Event := InboxMessage msg.

(** [reaches_state] *)
Definition reaches_state (r : result (App * list Effect)) (expected : CurrentOffsets) : Prop :=
  ('(app, _) ← r; Ok (handle_request app Request_GetState)) = Ok [Reply (Response_State expected)].

(** What the node sent to its peers, without what the test passes over. *)
Definition sent_to_peers (keep : Outbox -> bool) (r : result (App * list Effect)) : result (list Outbox) :=
  '(_, effects) ← r;
  Ok (omap (M := list) (fun e => match e with ToP2p msg => if keep msg then Some msg else None | _ => None end) effects).

Definition is_requested (msg : Outbox) : bool := match msg with Outbox_RequestedTxsForPeer _ _ => true | _ => false end.
Definition is_request (msg : Outbox) : bool := match msg with Outbox_RequestMissingTxs _ _ => true | _ => false end.
Definition is_notification (msg : Outbox) : bool := match msg with Outbox_NotifyGWs _ => true | _ => false end.

Definition app_calculates_consensus_offset : Prop :=
  let n1_peer_id := 1%nat in let n2_peer_id := 2%nat in
  reaches_state
    (loop_until_shutdown new_test_instance
       [AdvertiseTick;
        receive (Inbox_State n1_peer_id (mkNodeState {[1 := 3; 2 := 7; 4 := 1]}));
        receive (Inbox_State n2_peer_id (mkNodeState {[1 := 2; 2 := 9]}));
        AdvertiseTick])
    (mkCurrentOffsets ∅ {[1 := 2; 2 := 7]}).

Definition app_gets_missing_transaction : Prop :=
  let before :=
    [receive (Inbox_NewTransaction (test_tx 5)); receive (Inbox_NewTransaction (test_tx 0))] in
  let after :=
    [receive (Inbox_MissingTx [test_tx 3; test_tx 4; test_tx 2; test_tx 0; test_tx 1])] in
  reaches_state (loop_until_shutdown new_test_instance before) (mkCurrentOffsets {[0 := 0]} ∅) /\
  reaches_state (loop_until_shutdown new_test_instance (before ++ after)) (mkCurrentOffsets {[0 := 5]} ∅).

Definition app_gets_missing_transactions_that_smbd_else_requested : Prop :=
  let stored :=
    [receive (Inbox_NewTransaction (test_tx 2)); receive (Inbox_NewTransaction (test_tx 3));
     receive (Inbox_NewTransaction (test_tx 1)); receive (Inbox_NewTransaction (test_tx 0));
     receive (Inbox_NewTransaction (test_tx 4))] in
  let rnd_peer := 9%nat in
  reaches_state (loop_until_shutdown new_test_instance stored) (mkCurrentOffsets {[0 := 4]} ∅) /\
  sent_to_peers is_requested
    (loop_until_shutdown new_test_instance
       (stored ++ [receive (Inbox_RequestMissingTxs rnd_peer [interval 1 3])]))
  = Ok [Outbox_RequestedTxsForPeer rnd_peer [test_tx 1; test_tx 2; test_tx 3]].

Definition app_detects_that_its_behind_and_makes_request : Prop :=
  let stored :=
    [receive (Inbox_NewTransaction (test_tx 0)); receive (Inbox_NewTransaction (test_tx 4))] in
  let rnd_peer := 9%nat in
  reaches_state (loop_until_shutdown new_test_instance stored) (mkCurrentOffsets {[0 := 0]} ∅) /\
  sent_to_peers is_request
    (loop_until_shutdown new_test_instance
       (stored ++ [receive (Inbox_State rnd_peer (mkNodeState {[0 := 8]})); AdvertiseTick]))
  = Ok [Outbox_RequestMissingTxs rnd_peer [interval 1 3; interval 5 8]].

(** A coordinator that accepts every epoch at once; the increments it was sent. *)
Definition accepting_turn (st : App * list (list RangeKey.U64BlobIdClosedInterval)) (ev : Event)
  : result (App * list (list RangeKey.U64BlobIdClosedInterval)) :=
  let '(app, increments) := st in
  '(app, effects) ← app_step app ev;
  let epochs := omap (M := list) (fun e => match e with ToCoordinator request => Some (EpochRequest_epoch request) | _ => None end) effects in
  app ← for_each epochs (fun app epoch => '(app, _) ← app_step app (CoordinatorUpdate (EpochUpdates_New epoch)); Ok app) app;
  Ok (app, increments ++ map Epoch_increments epochs).

Definition one_node_params : Params :=
  set_advertise_period (set_epoch_period (set_consensus_nodes params_default 1) (LogicalTime.from_millis 200)) 100.

(** The epochs of the test fall due at 300 ms and at 1300 ms. *)
Definition app_sends_epochs_to_epoch_coordinator : result (list (list RangeKey.U64BlobIdClosedInterval)) :=
  '(_, increments) ←
    for_each
      [receive (Inbox_NewTransaction (test_tx 0)); AdvertiseTick; CommitTick 300 300;
       receive (Inbox_NewTransaction (test_tx 1)); AdvertiseTick; CommitTick 1300 1300]
      accepting_turn (new_test_instance_with_params one_node_params, []);
  Ok increments.

Definition app_executes_after_epoch_confirmed_run : result (App * list Effect) :=
  let rnd_peer := 9%nat in
  epoch ← Epoch.next rnd_peer [interval 0 1] None 0;
  loop_until_shutdown (new_test_instance_with_params one_node_params)
    [receive (Inbox_NewTransaction (test_tx 0)); receive (Inbox_NewTransaction (test_tx 1));
     CoordinatorUpdate (EpochUpdates_New epoch);
     RuntimeResults [(0, Value_U64 2)]; RuntimeResults [(1, Value_U64 2)]].

Definition app_executes_after_epoch_confirmed : Prop :=
  let task id :=
    mkTaskBlueprint id "testInfiniteCalculatorQueue"
      (Value_TestInfiniteSummatorQueueMessagePub (mkTestInfiniteSummatorQueueMessagePub 5 7)) in
  let finished id := mkTxUpdate (mkMeta id TxStatus_Finished) (Some (Value_U64 2)) in
  ('(_, effects) ← app_executes_after_epoch_confirmed_run;
   Ok (omap (M := list) (fun e => match e with ToRuntime input => Some input | _ => None end) effects))
  = Ok [(0, [task 0; task 1])] /\
  (sent ← sent_to_peers is_notification app_executes_after_epoch_confirmed_run;
   Ok (concat (map (fun msg => match msg with Outbox_NotifyGWs updates => updates | _ => [] end) sent)))
  = Ok [finished 0; finished 1].

Example offset_tests : app_calculates_consensus_offset /\ app_gets_missing_transaction.
Proof. run_test. Qed.

Example exchange_tests : app_gets_missing_transactions_that_smbd_else_requested /\
  app_detects_that_its_behind_and_makes_request.
Proof. run_test. Qed.

Example epoch_tests :
  app_sends_epochs_to_epoch_coordinator = Ok [[interval 0 0]; [interval 1 1]] /\ app_executes_after_epoch_confirmed.
Proof. run_test. Qed.
End BlackBox.
