(* ===== verification/RuntimeTests.v ===== *)
(** * Tests of the runtime

    The tests of runtime/src/wait_registry.rs, runtime/src/generated_test.rs and
    runtime/src/runtime.rs as scripts over the model. The runtime's tests let the main loop
    run for some milliseconds of real time; here it makes a number of steps, whose clock
    readings are those of the test. *)
From Stdlib Require Import Ascii.
From S2P Require Import Prelude Types Values Assembler Protocol Waits Fiber Runtime.
Local Open Scope Z_scope.

Module Setting.
#[export] Existing Instance dev_profile.
#[export] Existing Instance list_heap.
#[export] Existing Instance gmap_slab.
End Setting.
Import Setting.

Local Ltac run_test := vm_compute; repeat split; reflexivity.

(** ** The wait registry *)
Module Registry.
Local Open Scope string_scope.

Definition queue_arm (queue_name bind : string) (next : State) : SelectArm := SelectArm_Queue queue_name bind next.
Definition q (name : string) : WaitKey := WaitKey_Queue name.

(** [wr.wake_one(..).expect(..)] *)
Definition wake (wr : WaitRegistry) (key : WaitKey) : result (WakeOutcome * WaitRegistry) :=
  '(out, wr) ← wake_one wr key;
  out ← expect "called `Option::unwrap()` on a `None` value" out;
  Ok (out, wr).

Definition fiber_and_bind (out : WakeOutcome) : Z * option string := (WakeOutcome_fiber_id out, WakeOutcome_bind out).

(** The lengths of the three tables of a registry. *)
Definition lengths (wr : WaitRegistry) : nat * nat * nat :=
  (size (per_key wr), size (nodes wr : gmap nat WaitNode), size (regs wr : gmap nat SelectReg)).

Definition fifo_two_fibers_on_same_queue : Prop :=
  let '(wr, _) := register_select registry_default 1 [queue_arm "q" "a" State_Completed] in
  let '(wr, _) := register_select wr 2 [queue_arm "q" "b" State_Idle] in
  ('(out1, wr) ← wake wr (q "q");
   '(out2, wr) ← wake wr (q "q");
   Ok (out1, out2, per_key wr !! q "q"))
  = Ok (mkWakeOutcome 1 (Some "a") State_Completed, mkWakeOutcome 2 (Some "b") State_Idle, None).

Definition mixed_arms_across_keys : Prop :=
  let '(wr, _) := register_select registry_default 1 [queue_arm "a" "x" State_Idle; queue_arm "b" "y" State_Completed] in
  let '(wr, _) := register_select wr 2 [queue_arm "a" "z" State_Completed] in
  ('(out, wr) ← wake wr (q "b");
   '(out2, wr) ← wake wr (q "a");
   Ok (out, out2))
  = Ok (mkWakeOutcome 1 (Some "y") State_Completed, mkWakeOutcome 2 (Some "z") State_Completed).

Definition cancel_by_select_id_removes_only_that_fiber : Prop :=
  let '(wr, id1) := register_select registry_default 1 [queue_arm "q1" "a" State_Idle; queue_arm "q2" "b" State_Idle] in
  let '(wr, _) := register_select wr 2 [queue_arm "q2" "c" State_Completed] in
  let '(wr, removed) := cancel_by_registered_select_id wr id1 in
  removed = 2%nat /\
  ('(none, wr) ← wake_one wr (q "q1");
   '(out, wr) ← wake wr (q "q2");
   Ok (none, out)) = Ok (None, mkWakeOutcome 2 (Some "c") State_Completed).

Definition remove_last_node_cleans_everything : Prop :=
  let '(registry, _) :=
    register_select registry_default 100500
      [queue_arm "q1" "var1" State_Completed; queue_arm "q2" "var2" State_Idle;
       SelectArm_FutureVar "id1" (Some "var3") State_Completed] in
  ('(result, registry) ← wake_one registry (q "q2"); Ok (result, lengths registry))
  = Ok (Some (mkWakeOutcome 100500 (Some "var2") State_Idle), (0, 0, 0)%nat).

Definition empty_wake_returns_none : Prop :=
  ('(out, wr) ← wake_one registry_default (q "q"); Ok (out, lengths wr)) = Ok (None, (0, 0, 0)%nat).

Definition fifo_three_fibers_on_same_queue : Prop :=
  let '(wr, _) := register_select registry_default 1 [queue_arm "q" "a" State_Idle] in
  let '(wr, _) := register_select wr 2 [queue_arm "q" "b" State_Idle] in
  let '(wr, _) := register_select wr 3 [queue_arm "q" "c" State_Idle] in
  ('(out1, wr) ← wake wr (q "q");
   '(out2, wr) ← wake wr (q "q");
   '(out3, wr) ← wake wr (q "q");
   '(none, wr) ← wake_one wr (q "q");
   Ok (map fiber_and_bind [out1; out2; out3], none))
  = Ok ([(1, Some "a"); (2, Some "b"); (3, Some "c")], None).

Definition cancel_middle_waiter_by_id : Prop :=
  let '(wr, _) := register_select registry_default 1 [queue_arm "q" "a" State_Idle] in
  let '(wr, id2) := register_select wr 2 [queue_arm "q" "b" State_Idle] in
  let '(wr, _) := register_select wr 3 [queue_arm "q" "c" State_Idle] in
  let '(wr, removed) := cancel_by_registered_select_id wr id2 in
  removed = 1%nat /\
  ('(out1, wr) ← wake wr (q "q");
   '(out2, wr) ← wake wr (q "q");
   '(none, wr) ← wake_one wr (q "q");
   Ok (map WakeOutcome_fiber_id [out1; out2], none)) = Ok ([1; 3], None).

Definition duplicate_arms_same_queue : Prop :=
  let '(wr, _) := register_select registry_default 1 [queue_arm "q" "x" State_Idle; queue_arm "q" "y" State_Idle] in
  let '(wr, _) := register_select wr 2 [queue_arm "q" "z" State_Idle] in
  ('(out, wr) ← wake wr (q "q");
   '(out2, wr) ← wake wr (q "q");
   '(none, wr) ← wake_one wr (q "q");
   Ok (map WakeOutcome_fiber_id [out; out2], none)) = Ok ([1; 2], None).

Definition mixed_keys_fairness_ordering : Prop :=
  let '(wr, _) := register_select registry_default 1 [queue_arm "a" "a1" State_Idle] in
  let '(wr, _) := register_select wr 2 [queue_arm "a" "a2" State_Idle] in
  let '(wr, _) := register_select wr 3 [queue_arm "b" "b1" State_Idle] in
  let '(wr, _) := register_select wr 4 [queue_arm "b" "b2" State_Idle] in
  ('(a1, wr) ← wake wr (q "a");
   '(b1, wr) ← wake wr (q "b");
   '(a2, wr) ← wake wr (q "a");
   '(b2, wr) ← wake wr (q "b");
   Ok (map WakeOutcome_fiber_id [a1; a2; b1; b2])) = Ok [1; 2; 3; 4].

Definition cancel_noop_when_already_removed : Prop :=
  let '(wr, id) := register_select registry_default 72 [queue_arm "q" "b" State_Idle] in
  let '(wr, removed1) := cancel_by_registered_select_id wr id in
  let '(wr, removed2) := cancel_by_registered_select_id wr id in
  removed1 = 1%nat /\ removed2 = 0%nat.

Definition reuse_after_wake_registers_new_orders_correctly : Prop :=
  let '(wr, _) := register_select registry_default 1 [queue_arm "q" "a" State_Idle] in
  let '(wr, _) := register_select wr 2 [queue_arm "q" "b" State_Idle] in
  ('(_, wr) ← wake wr (q "q");
   '(_, wr) ← wake wr (q "q");
   let '(wr, _) := register_select wr 3 [queue_arm "q" "c" State_Idle] in
   let '(wr, _) := register_select wr 4 [queue_arm "q" "d" State_Idle] in
   '(out1, wr) ← wake wr (q "q");
   '(out2, wr) ← wake wr (q "q");
   Ok (map WakeOutcome_fiber_id [out1; out2])) = Ok [3; 4].

Example fifo_tests : fifo_two_fibers_on_same_queue /\ fifo_three_fibers_on_same_queue /\
  mixed_keys_fairness_ordering /\ reuse_after_wake_registers_new_orders_correctly.
Proof. run_test. Qed.

Example select_tests : mixed_arms_across_keys /\ remove_last_node_cleans_everything /\
  empty_wake_returns_none /\ duplicate_arms_same_queue.
Proof. run_test. Qed.

Example cancel_tests : cancel_by_select_id_removes_only_that_fiber /\ cancel_middle_waiter_by_id /\
  cancel_noop_when_already_removed.
Proof. run_test. Qed.
End Registry.

(** ** Fibers *)

(** The lines of a text; an apostrophe stands for a quotation mark. *)
Fixpoint unapostrophe (s : string) : string :=
  match s with
  | EmptyString => EmptyString
  | String c s' => if decide (c = "'"%char) then quote +:+ unapostrophe s' else String c (unapostrophe s')
  end.
Definition text (lines : list string) : string :=
  foldr (fun line rest => unapostrophe line +:+ newline +:+ rest) EmptyString lines.

Module Fibers.
Local Open Scope string_scope.
Local Open Scope list_scope.
Local Open Scope Z_scope.

Definition test_future_response_runs : result (list RunResult * string) :=
  fiber ← fiber_new "testTaskExecutorIncrementer" 0 [Value_String "testTasks"];
  '(fiber, dbg, run_result) ← run 100 fiber EmptyString;
  fiber ← assign_local_and_push_next "f_task"
            (Value_TestIncrementTask (mkTestIncrementTask 10 "my_test_future_id" "my_test_queue_name"))
            State_TestTaskExecutorIncrementerMainIncrement fiber;
  '(fiber, dbg, second_result) ← run 100 fiber dbg;
  '(_, dbg, final_run) ← run 100 fiber dbg;
  Ok ([run_result; second_result; final_run], dbg).

Definition test_future_response_expected : list RunResult * string :=
  let task := Value_TestIncrementTask (mkTestIncrementTask 11 "my_test_future_id" "my_test_queue_name") in
  ([RunResult_Select [SelectArm_Queue "testTasks" "f_task" State_TestTaskExecutorIncrementerMainIncrement];
    RunResult_SetValues [SetPrimitiveValue_Future "my_test_future_id" task;
                         SetPrimitiveValue_QueueMessage "my_test_queue_name" task];
    RunResult_Done],
   text
    ["start function";
     "f_task=TestIncrementTask(TestIncrementTask { inStrValue: 0, inStrRespFutureId: '', inStrRespQueueName: '' })";
     "f_respFutureId=FutureTestIncrementTask(FutureTestIncrementTask(''))";
     "f_respQueueName=";
     "f_tasksQueueName=testTasks";
     "after increment";
     "f_task=TestIncrementTask(TestIncrementTask { inStrValue: 11, inStrRespFutureId: 'my_test_future_id', inStrRespQueueName: 'my_test_queue_name' })";
     "f_respFutureId=FutureTestIncrementTask(FutureTestIncrementTask('my_test_future_id'))";
     "f_respQueueName=my_test_queue_name";
     "f_tasksQueueName=testTasks"]).

Example test_future_response : test_future_response_runs = Ok test_future_response_expected.
Proof. run_test. Qed.

(** The fiber is split at its select; the two copies are resumed by the queue's message and by
    the future's value. *)
Definition test_select_resume_runs : result (list RunResult * list (list TraceEvent)) :=
  some_t ← fiber_new "testSelectQueue" 0 [];
  '(some_t, dbg, run_result) ← run 100 some_t EmptyString;
  queue_response ← assign_local_and_push_next "counter" (Value_U64 1) State_TestSelectQueueMainStartWork some_t;
  future_response ← assign_local_and_push_next "responseFromFut" (Value_U64 2) State_TestSelectQueueMainIncFromFut some_t;
  '(queue_response, dbg, queue_run_result) ← run 100 queue_response dbg;
  '(future_response, _, future_run_result) ← run 100 future_response dbg;
  Ok ([run_result; queue_run_result; future_run_result],
      [trace_sink some_t; trace_sink queue_response; trace_sink future_response]).

Definition expected_selects_on_first_step : list SelectArm :=
  [SelectArm_Queue "counterStartQueue" "counter" State_TestSelectQueueMainStartWork;
   SelectArm_FutureVar "testSelectQueue_future_1" (Some "responseFromFut") State_TestSelectQueueMainIncFromFut].

Definition assigned (state : State) (index : nat) (v : Value) (next : State) : TraceEvent :=
  mkTraceEvent state (StepResult_Next [StackEntry_FrameAssign [(index, v)]; StackEntry_State next]).

Definition expected_first_trace : list TraceEvent :=
  [assigned State_TestSelectQueueMainEntry 2 (Value_String "counterStartQueue") State_TestSelectQueueMainInitFutureId;
   assigned State_TestSelectQueueMainInitFutureId 3 (Value_String "testSelectQueue_future_1") State_TestSelectQueueMainSelectCounter;
   mkTraceEvent State_TestSelectQueueMainSelectCounter (StepResult_Select expected_selects_on_first_step)].

Definition expected_inc_and_compare_tail : list TraceEvent :=
  [assigned State_TestSelectQueueMainStartWork 0 (Value_U64 2) State_TestSelectQueueMainPrepareCond;
   assigned State_TestSelectQueueMainPrepareCond 4 (Value_Bool false) State_TestSelectQueueMainCompare;
   mkTraceEvent State_TestSelectQueueMainCompare (StepResult_GoTo State_TestSelectQueueMainStartWork);
   assigned State_TestSelectQueueMainStartWork 0 (Value_U64 3) State_TestSelectQueueMainPrepareCond;
   assigned State_TestSelectQueueMainPrepareCond 4 (Value_Bool true) State_TestSelectQueueMainCompare;
   mkTraceEvent State_TestSelectQueueMainCompare (StepResult_GoTo State_TestSelectQueueMainReturn);
   mkTraceEvent State_TestSelectQueueMainReturn StepResult_ReturnVoid].

Definition expected_future_trace : list TraceEvent :=
  expected_first_trace ++
  [assigned State_TestSelectQueueMainIncFromFut 0 (Value_U64 1) State_TestSelectQueueMainPrepareCond;
   assigned State_TestSelectQueueMainPrepareCond 4 (Value_Bool false) State_TestSelectQueueMainCompare;
   mkTraceEvent State_TestSelectQueueMainCompare (StepResult_GoTo State_TestSelectQueueMainStartWork)] ++
  expected_inc_and_compare_tail.

Example test_select_resume_mechanism : test_select_resume_runs
  = Ok ([RunResult_Select expected_selects_on_first_step; RunResult_Done; RunResult_Done],
        [expected_first_trace; expected_first_trace ++ expected_inc_and_compare_tail; expected_future_trace]).
Proof. run_test. Qed.

Definition fiber_call_different_functions_run : result (RunResult * string) :=
  fiber ← fiber_new "testFunctionsCall" 0
            [Value_U64 2; Value_U64 3; Value_U64 5; Value_ArrayU64 [1; 2; 3; 4; 5; 6; 7; 8]; Value_U64 4];
  '(_, dbg, run_result) ← run 200 fiber EmptyString;
  Ok (run_result, dbg).

Definition fiber_call_different_functions_expected : string :=
  text
   ["multResult=0"; "factorialResult=0"; "binarySearchResult=OptionU64(None)"; "binarySearchLeft=0"; "binarySearchRight=0";
    "multResult=6"; "factorialResult=0"; "binarySearchResult=OptionU64(None)"; "binarySearchLeft=0"; "binarySearchRight=0";
    "multResult=6"; "factorialResult=120"; "binarySearchResult=OptionU64(None)"; "binarySearchLeft=0"; "binarySearchRight=0";
    "multResult=6"; "factorialResult=120"; "binarySearchResult=OptionU64(Some(3))"; "binarySearchLeft=0"; "binarySearchRight=7"].

Example fiber_call_different_functions :
  fiber_call_different_functions_run = Ok (RunResult_Done, fiber_call_different_functions_expected).
Proof. run_test. Qed.

(** A function called on its own: its result is what the reader of the generated program
    finds on the stack that is left. *)
Definition call (key : string) (args : list Value) : result (list StackEntry) :=
  f ← get_prepare_fn key;
  stack ← f args;
  '(fiber, _, _) ← run 200 (mkFiber stack Heap_default key "testFunctionsCall" 0 []) EmptyString;
  Ok (Fiber.stack fiber).

Example results_on_the_stack :
  (stack ← call "testFunctionsCall.mult" [Value_U64 6; Value_U64 7]; testFunctionsCall_result_mult_value stack)
  = Ok (Value_U64 42) /\
  (stack ← call "testFunctionsCall.sub" [Value_U64 6; Value_U64 2]; testFunctionsCall_result_sub_value stack)
  = Ok (Value_U64 4) /\
  (stack ← call "testFunctionsCall.factorial" [Value_U64 5]; testFunctionsCall_result_factorial_value stack)
  = Ok (Value_U64 120) /\
  (stack ← call "testFunctionsCall.binary_search" [Value_U64 4; Value_U64 3; Value_U64 2];
   testFunctionsCall_result_binarySearch_value stack) = Ok (Value_OptionU64 None).
Proof. run_test. Qed.
End Fibers.

(** ** The main loop *)
Module MainLoop.
Local Open Scope string_scope.
Local Open Scope list_scope.
Local Open Scope Z_scope.

(** The loop makes [n] steps while the timer reads [now]. *)
Definition steps (n : nat) (now : LogicalTimeAbsoluteMs) : list RtEvent := repeat (Rt_Step (fun _ => now)) n.

(** What a runtime has sent and printed after some events. *)
Definition observe (root_type : string) (evs : list RtEvent) : result (list Output * string) :=
  '(_, rt) ← run_runtime 200 root_type evs; Ok (sent rt, dbg_out rt).

(** More than 150 ms, and less. *)
Definition scheduled_select_after_200 : result (list Output * string) :=
  observe "testRootFiberSleepTest" (steps 20 0 ++ steps 20 200).
Definition scheduled_select_after_10 : result (list Output * string) :=
  observe "testRootFiberSleepTest" (steps 20 0 ++ steps 20 10).

Definition scheduled_select_started : list string :=
  ["--- start testRootFiberSleepTest:0 ---";
   "--- await testRootFiberSleepTest:0 ---";
   "--- start testRootFiberSleepTest:0 ---";
   "--- await testRootFiberSleepTest:0 ---"].

Definition scheduled_select_finished : list string :=
  scheduled_select_started ++
  ["--- start testRootFiberSleepTest:0 ---";
   "scheduledFutId=FutureUnit(FutureUnit('0'))";
   "createScheduleError=OptionString(None)";
   "await_milliseconds=150";
   "--- await testRootFiberSleepTest:0 ---";
   "--- exit testRootFiberSleepTest:0 ---"].

Example scheduled_select :
  scheduled_select_after_200 = Ok ([], text scheduled_select_finished) /\
  scheduled_select_after_10 = Ok ([], text scheduled_select_started).
Proof. run_test. Qed.

Definition create_queues_and_external_communication_run : result (list Output * string) :=
  observe "testCreateQueue"
    (Rt_Deliver (0, [mkTaskBlueprint 9 "randomQueueName" (Value_TestCreateQueueMessagePub (mkTestCreateQueueMessagePub 10))])
     :: steps 40 0).

Definition create_queues_and_external_communication_expected : list Output * string :=
  ([(9, Value_U64 12)],
   text
   ["--- start testCreateQueue:0 ---";
    "--- await testCreateQueue:0 ---";
    "--- start testCreateQueue:0 ---";
    "value=TestCreateQueueMessage(TestCreateQueueMessage { value: 0, publicFutureId: FutureU64('') })";
    "f_queueName=randomQueueName";
    "created_queue_name=";
    "f_queueCreationError=OptionString(Some('already_exists'))";
    "f_future_id_response=FutureU64(FutureU64(''))";
    "f_res_inc=0";
    "--- await testCreateQueue:0 ---";
    "--- start testCreateQueue:0 ---";
    "value=TestCreateQueueMessage(TestCreateQueueMessage { value: 0, publicFutureId: FutureU64('') })";
    "f_queueName=randomQueueName";
    "created_queue_name=randomQueueName";
    "f_queueCreationError=OptionString(None)";
    "f_future_id_response=FutureU64(FutureU64(''))";
    "f_res_inc=0";
    "--- await testCreateQueue:0 ---";
    "--- start testCreateQueue:0 ---";
    "value=TestCreateQueueMessage(TestCreateQueueMessage { value: 10, publicFutureId: FutureU64('0') })";
    "f_queueName=randomQueueName";
    "created_queue_name=randomQueueName";
    "f_queueCreationError=OptionString(None)";
    "f_future_id_response=FutureU64(FutureU64('0'))";
    "f_res_inc=12";
    "--- await testCreateQueue:0 ---";
    "--- start testCreateQueue:0 ---";
    "--- await testCreateQueue:0 ---";
    "--- exit testCreateQueue:0 ---"]).

Example create_queues_and_external_communication :
  create_queues_and_external_communication_run = Ok create_queues_and_external_communication_expected.
Proof. run_test. Qed.

Definition creating_fiber_cross_fiber_communication_run : result (list Output * string) :=
  observe "testRootFiber" (steps 80 0).

Definition creating_fiber_cross_fiber_communication_expected : list string :=
  ["--- start testRootFiber:0 ---";
   "--- await testRootFiber:0 ---";
   "--- start testRootFiber:0 ---";
   "--- await testRootFiber:0 ---";
   "created: FiberType('testCalculator'):1. init_vars:";
   "    String('rootQueue')";
   "created: FiberType('testCalculator'):2. init_vars:";
   "    String('rootQueue')";
   "--- start testRootFiber:0 ---";
   "--- await testRootFiber:0 ---";
   "--- start testRootFiber:0 ---";
   "--- await testRootFiber:0 ---";
   "--- start testRootFiber:0 ---";
   "--- await testRootFiber:0 ---";
   "--- start testCalculator:1 ---";
   "request=TestCalculatorTask(TestCalculatorTask { a: 0, b: 0, responseFutureId: FutureU64('') })";
   "result=0";
   "respFutureId=FutureU64(FutureU64(''))";
   "--- await testCalculator:1 ---";
   "--- start testCalculator:2 ---";
   "request=TestCalculatorTask(TestCalculatorTask { a: 0, b: 0, responseFutureId: FutureU64('') })";
   "result=0";
   "respFutureId=FutureU64(FutureU64(''))";
   "--- await testCalculator:2 ---";
   "--- start testCalculator:1 ---";
   "got task from the queue";
   "request=TestCalculatorTask(TestCalculatorTask { a: 10, b: 15, responseFutureId: FutureU64('0') })";
   "result=0";
   "respFutureId=FutureU64(FutureU64(''))";
   "--- await testCalculator:1 ---";
   "--- start testCalculator:1 ---";
   "--- await testCalculator:1 ---";
   "--- exit testCalculator:1 ---";
   "--- start testCalculator:2 ---";
   "got task from the queue";
   "request=TestCalculatorTask(TestCalculatorTask { a: 2, b: 4, responseFutureId: FutureU64('1') })";
   "result=0";
   "respFutureId=FutureU64(FutureU64(''))";
   "--- await testCalculator:2 ---";
   "--- start testCalculator:2 ---";
   "--- await testCalculator:2 ---";
   "--- exit testCalculator:2 ---";
   "--- start testRootFiber:0 ---";
   "--- await testRootFiber:0 ---";
   "--- start testRootFiber:0 ---";
   "rootQueueName=rootQueue";
   "calculatorTask=TestCalculatorTask(TestCalculatorTask { a: 10, b: 15, responseFutureId: FutureU64('0') })";
   "calculatorTask2=TestCalculatorTask(TestCalculatorTask { a: 2, b: 4, responseFutureId: FutureU64('1') })";
   "responseFutureId=FutureU64(FutureU64('0'))";
   "responseFutureId2=FutureU64(FutureU64('1'))";
   "responseFromCalculator=8";
   "responseFromCalculator2=150";
   "createQueueError=OptionString(None)";
   "createFutureError=OptionString(None)";
   "createFutureError2=OptionString(None)";
   "--- await testRootFiber:0 ---";
   "--- exit testRootFiber:0 ---"].

Example creating_fiber_cross_fiber_communication :
  creating_fiber_cross_fiber_communication_run = Ok ([], text creating_fiber_cross_fiber_communication_expected).
Proof. run_test. Qed.
End MainLoop.
