(* ===== verification/FsmTests.v ===== *)
(** * Tests of the tasks on a timeline

    state/test/smoke.rs as scripts over [Fsm]: tasks are scheduled, the mock timer is set and
    the executor drains what is due; the mock writer keeps what it was given, with the time. *)
From S2P Require Import Prelude Fsm.
Local Open Scope Z_scope.

#[local] Existing Instance dev_profile.
#[local] Existing Instance list_heap.
#[local] Existing Instance plain_build.

(** What writer [w] was given: [MockWriter::write_text] and [get_outputs_as_string], line by line. *)
Definition outputs (w : nat) (fsm : MaroonRuntime (W := nat)) : list (Z * string) :=
  omap (M := list) (fun '(w', ts, text) => if decide (w = w') then Some (ts, text) else None) (written fsm).

(** [clear_outputs] *)
Definition clear_outputs (fsm : MaroonRuntime (W := nat)) : MaroonRuntime (W := nat) :=
  mkRuntime (task_id_generator fsm) (active_tasks fsm) (pending_operations fsm) (awaiter fsm)
    (daemon_user_storage fsm) [].

(** [timer.set_time(now)] and [execute_pending_operations_inner]. *)
Definition execute_until (now : LogicalTimeAbsoluteMs) (fsm : MaroonRuntime (W := nat)) : result MaroonRuntime :=
  execute_pending_operations_inner 100 (fun _ => now) fsm.

Local Open Scope string_scope.
Local Open Scope list_scope.
Local Open Scope Z_scope.

Definition schedule_divisors (n ts : Z) (description : string) (fsm : MaroonRuntime (W := nat)) : result MaroonRuntime :=
  schedule 0%nat [State DivisorsTaskBegin] (Divisors (mkDivisors n n)) ts description fsm.

Definition schedule_delayed (ms : Z) (message : string) (ts : Z) (description : string) (fsm : MaroonRuntime (W := nat))
  : result MaroonRuntime :=
  schedule 0%nat [Val (DelayInputMs ms); Val (DelayInputMessage message); State DelayedMessageTaskBegin] Empty ts
    description fsm.

Definition test_state_machine_and_execution_run : result (list (list (Z * string))) :=
  fsm ← schedule_divisors 12 0 "Divisors of 12" runtime_default;
  fsm ← schedule_delayed 225 "HI" 0 "Hello" fsm;
  fsm ← schedule_delayed 75 "BYE" 200 "Bye" fsm;
  fsm ← execute_until 225 fsm;
  let output1 := outputs 0 fsm in
  fsm ← execute_until 1000 fsm;
  let output2 := outputs 0 fsm in
  fsm ← schedule_divisors 8 10000 "" (clear_outputs fsm);
  fsm ← schedule_divisors 9 10001 "" fsm;
  fsm ← schedule_divisors 3 10002 "" fsm;
  fsm ← execute_until 20000 fsm;
  Ok [output1; output2; outputs 0 fsm].

Definition test_state_machine_and_execution_expected : list (list (Z * string)) :=
  let expected1 := [(120, "12%12==0"); (180, "12%6==0"); (220, "12%4==0"); (225, "HI after 225ms")] in
  let expected2 :=
    expected1 ++ [(250, "12%3==0"); (270, "12%2==0"); (275, "BYE after 75ms"); (280, "12%1==0"); (280, "12!")] in
  let expected3 :=
    [(10032, "3%3==0"); (10042, "3%1==0"); (10042, "3!"); (10080, "8%8==0"); (10091, "9%9==0"); (10120, "8%4==0");
     (10121, "9%3==0"); (10131, "9%1==0"); (10131, "9!"); (10140, "8%2==0"); (10150, "8%1==0"); (10150, "8!")] in
  [expected1; expected2; expected3].

Example test_state_machine_and_execution :
  test_state_machine_and_execution_run = Ok test_state_machine_and_execution_expected.
Proof. vm_compute. reflexivity. Qed.

Definition test_fibonacci_task_run : result (list (list (Z * string))) :=
  fsm ← schedule 0%nat [State FibonacciTaskBegin] (Fibonacci (mkFibonacci 5 0 0 0 0)) 0
          "The fifth Fibonacci number" runtime_default;
  fsm ← execute_until 4 fsm;
  let output_at_4 := outputs 0 fsm in
  fsm ← execute_until 10 fsm;
  let output_at_10 := outputs 0 fsm in
  fsm ← execute_until 100 fsm;
  Ok [output_at_4; output_at_10; outputs 0 fsm].

Definition test_fibonacci_task_expected : list (list (Z * string)) :=
  [[(0, "fib1[5]=1")];
   [(0, "fib1[5]=1"); (5, "fib2[5]=1")];
   [(0, "fib1[5]=1"); (5, "fib2[5]=1"); (15, "fib3[5]=2"); (30, "fib4[5]=3"); (50, "fib5=5")]].

Example test_fibonacci_task : test_fibonacci_task_run = Ok test_fibonacci_task_expected.
Proof. vm_compute. reflexivity. Qed.

Definition test_factorial_task_run : result (list (list (Z * string))) :=
  fsm ← schedule 0%nat [Val (FactorialInput 5); State FactorialEntry] Empty 0 "Factorial of 5" runtime_default;
  fsm ← execute_until 100 fsm;
  let output_at_100 := outputs 0 fsm in
  fsm ← execute_until 1000 fsm;
  Ok [output_at_100; outputs 0 fsm].

Definition test_factorial_task_expected : list (list (Z * string)) :=
  [[(0, "f(5)")];
   [(0, "f(5)"); (250, "f(4)"); (450, "f(3)"); (600, "f(2)"); (700, "f(1)"); (750, "5!=120")]].

Example test_factorial_task : test_factorial_task_run = Ok test_factorial_task_expected.
Proof. vm_compute. reflexivity. Qed.

(** Writer 0 is the sender's, writer 1 the receiver's. *)
Definition test_cross_fiber_run : result (list (list (Z * string))) :=
  let message := "some message" in
  fsm ← park_awaiter 1%nat [] Empty "Receive sending message." runtime_default;
  fsm ← schedule 0%nat [Val (SenderInputMessage message); State SenderSendMessage] Empty 0
          ("Sent: `" +:+ message +:+ "`.") fsm;
  fsm ← execute_until 0 fsm;
  Ok [outputs 0 fsm; outputs 1 fsm].

Example test_cross_fiber :
  test_cross_fiber_run
  = Ok [[(0, "message has been sent")]; [(0, "got: [some message] went through state")]].
Proof. vm_compute. reflexivity. Qed.
