(* ===== verification/IrTests.v ===== *)
(** * Tests of the intermediate representation

    dsl/src/ir_test.rs, runtime/src/ir_test.rs and the test of dsl/src/codegen.rs. *)
From S2P Require Import Prelude Ir SampleIr Codegen CodegenStep.
Local Open Scope string_scope.

#[local] Existing Instance list_order.

(** ** Validation *)
Definition is_valid_no_root_fiber_ir : IR := mkIR [] ∅.

Example is_valid_no_root_fiber : is_valid is_valid_no_root_fiber_ir = (false, "no 'root' fiber" +:+ newline).
Proof. vm_compute. reflexivity. Qed.

Definition is_valid_variables_ir : IR :=
  mkIR []
    {["root" :=
        mkFiber ∅ []
          {["f1" :=
              mkFunc [("a", Type_UInt64)] Type_UInt64 [("a", Type_UInt64)]
                [("entry", Step_SetValues [SetPrimitive_QueueMessage "queueName" "a"] "next")]]}]}.

Definition is_valid_variables_explanation : string :=
  "duplicate var name a for types: UInt64 and UInt64" +:+ newline +:+
  "StepId(" +:+ quote +:+ "entry" +:+ quote +:+ ") references queueName that is not defined" +:+ newline +:+
  "root doesnt have 'main' function" +:+ newline.

Example is_valid_variables : is_valid is_valid_variables_ir = (false, is_valid_variables_explanation).
Proof. vm_compute. reflexivity. Qed.

Example simple_ir : (is_valid sample_ir).1 = true.
Proof. vm_compute. reflexivity. Qed.

(** ** Code generation *)
Definition generates_types_ir : IR :=
  mkIR [Type_Struct "User" [("id", Type_String); ("age", Type_UInt64)] ""]
    {["userManager" :=
        mkFiber {["users" := Type_Map Type_String (Type_Custom "User")]} []
          {["get" :=
              mkFunc [("key", Type_String)] (Type_Option (Type_Custom "User")) [] [("entry", Step_ReturnVoid)]]};
      "global" := mkFiber ∅ [] ∅]}.

(** What the generated text is checked for. *)
Definition generates_types_bits : list string :=
  ["pub struct User"; "pub struct Heap"; "pub enum State"; "UserManagerGetEntry"; "pub enum Value";
   "String(String)"; "OptionUser(Option<User>)"].

Example generates_types :
  (code ← generate_rust_types generates_types_ir 10; Ok (map (fun bit => contains bit code) generates_types_bits))
  = Ok (map (fun _ => true) generates_types_bits).
Proof. vm_compute. reflexivity. Qed.
