(* ===== verification/SystemTests.v ===== *)
(** * Tests of the cluster

    tests/integration (three nodes without etcd and a gateway) as schedules of the system of
    [System], and epoch_coordinator/tests/etcd_epoch_coordinator.rs over [Coordinator]. *)
From S2P Require Import Prelude Types Values Protocol Epoch Decision App AppOffsets.
From S2P Require Import Network Coordinator Cluster ClusterInv Gateway Waits Fiber Runtime System SystemSpec.
Local Open Scope Z_scope.

#[local] Existing Instance dev_profile.
#[local] Existing Instance nat_peers.
#[local] Existing Instance list_order.
#[local] Existing Instance test_hash.
#[local] Existing Instance list_heap.
#[local] Existing Instance gmap_slab.
#[local] Existing Instance Coordinator.test_epoch_json.
#[local] Existing Instance ClusterInv.Demo.etcd.
#[local] Instance gossip_json : Json GossipMessage := plain_json _.
#[local] Instance n2gw_json : Json N2GWGossipMessage := plain_json _.

(** ** Three nodes and a gateway *)
Module Integration.

Definition params : Params := set_advertise_period params_default 500.

Definition node (p : PeerId) : PeerId * Node := (p, fresh_node params p).
Definition runtime (p : PeerId) : PeerId * RtNode := (p, SystemSpec.Demo.fresh_runtime).

(** The stacks and the gateway as the tests create them. *)
Definition started : System nat :=
  mkSystem (mkWorld (list_to_map (map node [0%nat; 1%nat; 2%nat])) [] db_empty)
    (list_to_map (map runtime [0%nat; 1%nat; 2%nat]))
    {[0 := gw_started (value_of (mkGateway 0 0) (gateway_new 0))]}.

(** [test_add_blueprint] *)
Definition test_add_blueprint (a b : Z) : TxBlueprint :=
  mkTxBlueprint "testInfiniteCalculatorQueue"
    (Value_TestInfiniteSummatorQueueMessagePub (mkTestInfiniteSummatorQueueMessagePub a b)).

(** [get_state_and_compare] on every node. *)
Definition states (s : System nat) : list (option (list Effect)) :=
  map (fun p => (fun n => handle_request (n_app n) Request_GetState) <$> w_nodes (s_world s) !! p) [0%nat; 1%nat; 2%nat].

Definition desired_state : list Effect :=
  [Reply (Response_State (mkCurrentOffsets {[0 := 1]} {[0 := 1]}))].

Definition send (a b : Z) : list (Move (WebSocket := nat)) :=
  [Move_Request 0 (test_add_blueprint a b) None; Move_Handle 0; Move_Forward 0].

(** Every node advertises, the [i]-th message on, and hears the two others. *)
Definition advertise (i : nat) : list (Move (WebSocket := nat)) :=
  [Move_Tick 0%nat; Move_Tick 1%nat; Move_Tick 2%nat;
   Move_Relay 0%nat (i + 1); Move_Relay 0%nat (i + 2); Move_Relay 1%nat i; Move_Relay 1%nat (i + 2);
   Move_Relay 2%nat i; Move_Relay 2%nat (i + 1)].

(** The gateway knows all nodes. *)
Definition basic : list (Move (WebSocket := nat)) :=
  [Move_Connect 0 0%nat; Move_Connect 0 1%nat; Move_Connect 0 2%nat] ++ send 2 4 ++ send 2 4 ++
  [Move_Submit 2%nat 0 0; Move_Submit 1%nat 0 1; Move_Submit 0%nat 0 2;
   Move_Submit 2%nat 0 3; Move_Submit 1%nat 0 4; Move_Submit 0%nat 0 5] ++
  advertise 0 ++ [Move_Tick 0%nat; Move_Tick 1%nat; Move_Tick 2%nat].

(** The gateway knows node 0 only; the others ask it for what they miss. *)
Definition request_missed_txs : list (Move (WebSocket := nat)) :=
  [Move_Connect 0 0%nat] ++ send 10 15 ++ send 1 1 ++ [Move_Submit 0%nat 0 0; Move_Submit 0%nat 0 1] ++
  advertise 0 ++
  [Move_Tick 1%nat; Move_Tick 2%nat; Move_Relay 0%nat 4; Move_Relay 0%nat 6; Move_Relay 1%nat 7; Move_Relay 2%nat 8] ++
  advertise 9 ++ [Move_Tick 0%nat; Move_Tick 1%nat; Move_Tick 2%nat].

Example integration_tests :
  states <$> run_moves 100 started basic = Some [Some desired_state; Some desired_state; Some desired_state] /\
  states <$> run_moves 100 started request_missed_txs = Some [Some desired_state; Some desired_state; Some desired_state].
Proof. split; vm_compute; reflexivity. Qed.
End Integration.

(** ** etcd *)
Module EtcdTest.

Definition first_epoch : result Epoch := Epoch.next 1%nat [RangeKey.MkInterval 0 13] None 100.
Definition second_epoch : result Epoch :=
  epoch ← first_epoch; Epoch.next 1%nat [RangeKey.MkInterval 14 16] (Some epoch) 200.

(** The coordinator sends a request to etcd, and the watch answers with what is new. *)
Definition send_and_receive (st : Coordinator * Db) (epoch : Epoch) : result (Coordinator * Db * list EpochUpdates) :=
  let '(self, db) := st in
  '(self, db') ← request_changed self db (Some (mkEpochRequest epoch)) Delivered;
  let news := drop (length (db_events db MAROON_LATEST)) (db_events db' MAROON_LATEST) in
  let '(self, updates) := watch_received self (mkWatchMessage (Some (Z.of_nat (length (db_events db' MAROON_LATEST)))) (map Some news)) in
  Ok (self, db', updates).

Definition etcd_epoch_coordinator : Prop :=
  exists epoch epoch2, first_epoch = Ok epoch /\ second_epoch = Ok epoch2 /\
  ('(self, db, updates) ← send_and_receive (coordinator_start, db_empty) epoch;
   '(self, db, updates2) ← send_and_receive (self, db) epoch2;
   Ok (updates, updates2))
  = Ok ([EpochUpdates_New epoch], [EpochUpdates_New epoch2]).

Example etcd_test : etcd_epoch_coordinator.
Proof. do 2 eexists. split; [reflexivity|]. split; [reflexivity|]. vm_compute. reflexivity. Qed.
End EtcdTest.
