(* ===== verification/CppIr.v ===== *)
(** * The schema of the C++ prototype

    cpp_ir/rust: the intermediate representation the C++ prototype writes as JSON, and the
    program that reads such a file and writes it again, by which the prototype checks that
    both sides agree on the schema. The derived codec is the class [Json]. *)
From S2P Require Import Prelude Network.
From stdpp Require Import strings gmap.
Local Open Scope string_scope.
Local Open Scope list_scope.

(** ** ir_schema.rs

    A [u32] is a [Z] below 2^32, a [BTreeMap] a [gmap]. *)
Record MaroonIRVarRegular := mkVarRegular {
  VarRegular_line : Z; VarRegular_name : string; VarRegular_type : string; VarRegular_init : string }.
Record MaroonIRVarFunctionArg := mkVarFunctionArg {
  VarFunctionArg_line : Z; VarFunctionArg_name : string; VarFunctionArg_type : string }.
Record MaroonIRVarEnumCaseCapture := mkVarEnumCaseCapture {
  VarEnumCaseCapture_name : string; VarEnumCaseCapture_key : string; VarEnumCaseCapture_src : string }.

Inductive MaroonIRVar : Type :=
| Var_Regular (v : MaroonIRVarRegular)
| Var_FunctionArg (v : MaroonIRVarFunctionArg)
| Var_EnumCaseCapture (v : MaroonIRVarEnumCaseCapture).

Record MaroonIRStmt := mkStmt { Stmt_line : Z; Stmt_stmt : string }.
Record MaroonIRBlockPlaceholder := mkBlockPlaceholder { BlockPlaceholder_line : Z; BlockPlaceholder__idx : Z }.

Inductive MaroonIRStmtOrBlock : Type :=
| SB_Stmt (s : MaroonIRStmt)
| SB_If (i : MaroonIRIf)
| SB_Block (b : MaroonIRBlock)
| SB_MatchEnumStmt (m : MaroonIRMatchEnumStmt)
| SB_BlockPlaceholder (p : MaroonIRBlockPlaceholder)
with MaroonIRIf : Type := mkIf (line : Z) (cond : string) (yes no : MaroonIRStmtOrBlock)
with MaroonIRMatchEnumStmt : Type := mkMatchEnumStmt (line : Z) (var : string) (arms : list MaroonIRMatchEnumStmtArm)
with MaroonIRMatchEnumStmtArm : Type := mkMatchEnumStmtArm (line : Z) (key capture : option string) (code : MaroonIRBlock)
with MaroonIRBlock : Type := mkBlock (line : Z) (vars : list MaroonIRVar) (code : list MaroonIRStmtOrBlock).

Record MaroonIRFunction := mkFunction {
  Function_line : Z; Function_ret : option string; Function_args : list string; Function_body : MaroonIRBlock }.
Record MaroonIRFiber := mkFiber { Fiber_line : Z; Fiber_functions : gmap string MaroonIRFunction }.

Record MaroonIRTypeDefStructField := mkTypeDefStructField { StructField_name : string; StructField_type : string }.
Record MaroonIRTypeDefStruct := mkTypeDefStruct { TypeDefStruct_fields : list MaroonIRTypeDefStructField }.
Record MaroonIRTypeDefEnumCase := mkTypeDefEnumCase { EnumCase_key : string; EnumCase_type : string }.
Record MaroonIRTypeDefEnum := mkTypeDefEnum { TypeDefEnum_cases : list MaroonIRTypeDefEnumCase }.
Record MaroonIRTypeDefOptional := mkTypeDefOptional { TypeDefOptional_type : string }.

Inductive MaroonIRTypeDef : Type :=
| TypeDef_Struct (d : MaroonIRTypeDefStruct)
| TypeDef_Enum (d : MaroonIRTypeDefEnum)
| TypeDef_Optional (d : MaroonIRTypeDefOptional).

Record MaroonIRType := mkType { Type_line : Z; Type_def : MaroonIRTypeDef }.
Record MaroonIRNamespace := mkNamespace {
  Namespace_line : Z; Namespace_fibers : gmap string MaroonIRFiber; Namespace_types : gmap string MaroonIRType }.

Record MaroonTestCaseRunFiber := mkRunFiber {
  RunFiber_line : Z; RunFiber_maroon : string; RunFiber_fiber : string; RunFiber_golden_output : list string }.
Record MaroonTestCaseFiberShouldThrow := mkFiberShouldThrow {
  ShouldThrow_line : Z; ShouldThrow_maroon : string; ShouldThrow_fiber : string; ShouldThrow_error : string }.
Inductive MaroonTestCase : Type :=
| TestCase_RunFiber (t : MaroonTestCaseRunFiber)
| TestCase_FiberShouldThrow (t : MaroonTestCaseFiberShouldThrow).

Record MaroonIRScenarios := mkScenarios {
  Scenarios_src : string; Scenarios_maroon : gmap string MaroonIRNamespace; Scenarios_tests : list MaroonTestCase }.

(** ** main.rs *)
Section main.
Context `{!Json MaroonIRScenarios}.

Record Args := mkArgs { Args_in : string; Args_out : string }.

(** The files by their paths; an [Err] of [main] leaves them as they are. Writing is assumed
    to succeed. *)
Definition main (args : Args) (files : gmap string (json_bytes (A := MaroonIRScenarios)))
  : option (gmap string (json_bytes (A := MaroonIRScenarios))) :=
  in_json ← files !! Args_in args;
  parsed ← from_slice in_json;
  out_json ← to_vec parsed;
  Some (<[Args_out args := out_json]> files).

(** What the program writes denotes what it has read, and is a fixed point. *)
Lemma main_keeps_program args files files' : main args files = Some files' ->
  exists in_json out_json program, files !! Args_in args = Some in_json /\ files' = <[Args_out args := out_json]> files /\
    from_slice in_json = Some program /\ from_slice out_json = Some program /\
    main (mkArgs (Args_out args) (Args_out args)) files' = Some files'.
Proof.
  unfold main. intros Hrun. apply bind_Some in Hrun as (in_json & Hin & Hrun). apply bind_Some in Hrun as (program & Hp & Hrun).
  apply bind_Some in Hrun as (out_json & Hout & [= <-]). pose proof (from_to_vec _ _ Hout) as Hback.
  exists in_json, out_json, program. split_and!; try done. cbn. rewrite lookup_insert_eq. cbn. rewrite Hback. cbn. rewrite Hout. cbn.
  f_equal. apply insert_insert_eq.
Qed.
End main.

(** ** The invariant of README.md

    A variable without an initial value is an argument: only the first variables of a
    function's own block are, one for each element of [args], with its type. *)
Definition arg_type (v : MaroonIRVar) : option string :=
  match v with Var_FunctionArg a => Some (VarFunctionArg_type a) | _ => None end.

Definition no_args (vars : list MaroonIRVar) : bool := forallb (fun v => bool_decide (arg_type v = None)) vars.

Fixpoint code_ok (c : MaroonIRStmtOrBlock) : bool :=
  match c with
  | SB_Stmt _ | SB_BlockPlaceholder _ => true
  | SB_If (mkIf _ _ yes no) => code_ok yes && code_ok no
  | SB_Block (mkBlock _ vars code) => no_args vars && forallb code_ok code
  | SB_MatchEnumStmt (mkMatchEnumStmt _ _ arms) =>
      forallb (fun arm => let '(mkMatchEnumStmtArm _ _ _ (mkBlock _ vars code)) := arm in no_args vars && forallb code_ok code) arms
  end.

Definition function_ok (f : MaroonIRFunction) : bool :=
  let '(mkBlock _ vars code) := Function_body f in
  let n := length (Function_args f) in
  bool_decide (map arg_type (take n vars) = map Some (Function_args f)) && no_args (drop n vars) && forallb code_ok code.

Lemma no_args_none vars : no_args vars = true <-> omap arg_type vars = [].
Proof.
  unfold no_args. induction vars as [|v vars IH]; [done|]. cbn. rewrite andb_true_iff, bool_decide_eq_true, IH.
  destruct (arg_type v); naive_solver.
Qed.

Lemma omap_all {A B} (f : A -> option B) l : forall k, map f l = map Some k -> omap f l = k.
Proof.
  induction l as [|x l IH]; intros [|y k] Hk; try done. cbn in *. injection Hk as Hx Hl. rewrite Hx. f_equal. by apply IH.
Qed.

(** The arguments of such a function are its first variables, and all of its arguments. *)
Lemma function_ok_args f : function_ok f = true ->
  let '(mkBlock _ vars _) := Function_body f in
  omap arg_type vars = Function_args f /\ omap arg_type (take (length (Function_args f)) vars) = Function_args f.
Proof.
  unfold function_ok. destruct (Function_body f) as [line vars code]. cbn zeta.
  rewrite !andb_true_iff, bool_decide_eq_true, no_args_none. intros [[Ht Hd] _].
  assert (E : omap arg_type (take (length (Function_args f)) vars) = Function_args f).
  { by apply omap_all. }
  split; [|exact E]. rewrite <-(take_drop (length (Function_args f)) vars) at 1. rewrite omap_app, E, Hd. apply app_nil_r.
Qed.

(** 07_factorial.mrn.json *)
Definition quoted (s : string) : string :=
  let q := String (Ascii.ascii_of_nat 34) EmptyString in String.append q (String.append s q).

Definition factorial : MaroonIRFunction :=
  mkFunction 11 (Some "U64") ["U64"]
    (mkBlock 11 [Var_FunctionArg (mkVarFunctionArg 12 "n" "U64")]
       [SB_If (mkIf 35 "n <= U64(1)" (SB_Stmt (mkStmt 16 "RETURN(U64(1))"))
          (SB_Block (mkBlock 18 [Var_Regular (mkVarRegular 20 "r" "U64" "0")]
             [SB_Stmt (mkStmt 26 (String.append "{ DEBUG(" (String.append (quoted "before")
                "); DEBUG_DUMP_STACK(); CALL(r, factorial, (n - U64(1))); }")));
              SB_Stmt (mkStmt 33 (String.append "{ DEBUG(" (String.append (quoted "after")
                "); DEBUG_DUMP_STACK(); RETURN(r * n); }")))])))]).

Example factorial_ok : function_ok factorial = true.
Proof. reflexivity. Qed.
